(** * politeia: the git back end of politeiad (gitbe.go)

    A shallow embedding of the record store and of the anchoring pipeline
    of [politeiad/backend/gitbe/gitbe.go], with the properties of the
    specification stated and proved over it.

    Go values are modelled as follows: [[]byte] is [list byte], [string] is
    [string], [uint]/[uint64] are [N] with the wrap-around written out, an
    [error] result is the sum type [result], a [panic] is the error
    [Panic].  Stateful code runs in the monad [M] over the [world]: the two
    repositories, the anchor bookkeeping, the clock and a schedule of
    faults that decides which external call (git, file system, lock,
    timestamp service) fails. *)

From Stdlib Require Import Strings.Byte Strings.Ascii Strings.String.
From stdpp Require Import base numbers option list strings pretty sorting gmap fin_maps.

Local Open Scope N_scope.

(** ** Bytes and text *)

#[global] Instance byte_eq_dec : EqDecision byte := Byte.byte_eq_dec.

Definition zero_bytes (n : nat) : list byte := replicate n x00.

(** Go's builtin [copy(dst, src)]: the first [min (len dst) (len src)]
    elements of [dst] are overwritten. *)
Definition copy {A} (dst src : list A) : list A :=
  take (length dst) src ++ drop (length src) dst.

Definition bytes_of_string (s : string) : list byte :=
  byte_of_ascii <$> list_ascii_of_string s.

Definition string_of_bytes (b : list byte) : string :=
  string_of_list_ascii (ascii_of_byte <$> b).

(** encoding/hex *)
Definition hexdigit (n : N) : ascii :=
  match n with
  | 0 => "0" | 1 => "1" | 2 => "2" | 3 => "3" | 4 => "4" | 5 => "5"
  | 6 => "6" | 7 => "7" | 8 => "8" | 9 => "9" | 10 => "a" | 11 => "b"
  | 12 => "c" | 13 => "d" | 14 => "e" | _ => "f"
  end%char.

Definition fromHexChar (c : ascii) : option N :=
  let n := N_of_ascii c in
  if (48 <=? n) && (n <=? 57) then Some (n - 48)
  else if (97 <=? n) && (n <=? 102) then Some (n - 87)
  else if (65 <=? n) && (n <=? 70) then Some (n - 55)
  else None.

Fixpoint EncodeToString (b : list byte) : string :=
  match b with
  | [] => EmptyString
  | x :: b' =>
      String (hexdigit (Byte.to_N x / 16))
        (String (hexdigit (Byte.to_N x mod 16)) (EncodeToString b'))
  end.

Fixpoint DecodeString (s : string) : option (list byte) :=
  match s with
  | EmptyString => Some []
  | String _ EmptyString => None
  | String c1 (String c2 s') =>
      match fromHexChar c1, fromHexChar c2 with
      | Some hi, Some lo =>
          match Byte.of_N (16 * hi + lo), DecodeString s' with
          | Some x, Some r => Some (x :: r)
          | _, _ => None
          end
      | _, _ => None
      end
  end.

(** ** Errors and results *)

Inductive MDStatusT :=
| MDStatusInvalid
| MDStatusUnvetted
| MDStatusVetted
| MDStatusCensored
| MDStatusIterationUnvetted
| MDStatusLocked.

#[global] Instance MDStatusT_eq_dec : EqDecision MDStatusT.
Proof. solve_decision. Defined.

Inductive ErrorStatusT :=
| ErrorStatusInvalidMDID
| ErrorStatusDuplicateMDID
| ErrorStatusInvalidFilename
| ErrorStatusEmpty
| ErrorStatusDuplicateFilename
| ErrorStatusInvalidFileDigest
| ErrorStatusInvalidBase64
| ErrorStatusInvalidMIMEType
| ErrorStatusUnsupportedMIMEType
| ErrorStatusFileNotFound.

#[global] Instance ErrorStatusT_eq_dec : EqDecision ErrorStatusT.
Proof. solve_decision. Defined.

Inductive error :=
| ErrRecordNotFound
| ErrRecordLocked
| ErrNoChanges
| ErrShutdown
| errNothingToDo
| ErrNotExist                    (* an error for which os.IsNotExist holds *)
| StateTransitionError (From To : MDStatusT)
| ContentVerificationError (ErrorCode : ErrorStatusT) (ErrorContext : list string)
| Errorf (msg : string)          (* fmt.Errorf and errors of external calls *)
| Panic (msg : string).

#[global] Instance error_eq_dec : EqDecision error.
Proof. solve_decision. Defined.

Inductive result (A : Type) :=
| Ok (a : A)
| Err (e : error).
Arguments Ok {A} a.
Arguments Err {A} e.

Definition is_ok {A} (r : result A) : bool :=
  match r with Ok _ => true | Err _ => false end.

(** ** Extended digests *)

Definition sha1_Size : nat := 20.
Definition sha256_Size : nat := 32.

(** extendSHA1 appends 0 to make a SHA1 the size of a SHA256 digest. *)
Definition extendSHA1 (d : list byte) : result (list byte) :=
  if decide (length d ≠ sha1_Size) then Err (Panic "invalid sha1 length")
  else Ok (copy (zero_bytes sha256_Size) d).

(** unextendSHA256 removes 0 to make a SHA256 the size of a SHA1 digest. *)
Definition unextendSHA256 (d : list byte) : result (list byte) :=
  if decide (length d ≠ sha256_Size) then Err (Panic "invalid sha256 length")
  else if forallb (λ x, bool_decide (x = x00)) (drop sha1_Size d)
       then Ok (copy (zero_bytes sha1_Size) d)
       else Err (Panic "invalid extended sha256").

(** ** Data model (backend package and gitbe.go) *)

Definition uint64_wrap (n : N) : N := n mod 2 ^ 64.

Record RecordMetadata := mkRecordMetadata {
  Version : N;              (* uint *)
  Status : MDStatusT;
  Merkle : list byte;       (* [sha256.Size]byte *)
  Timestamp : Z;            (* int64, seconds *)
  Token : list byte }.

Record MetadataStream := mkMetadataStream {
  ms_ID : N;                (* uint64 *)
  ms_Payload : string }.

(** backend.File: what a client submits. *)
Record File := mkFile {
  f_Name : string;
  f_MIME : string;
  f_Digest : string;        (* hex *)
  f_Payload : string }.     (* base64 *)

(** file is an internal representation of a file that resides in memory. *)
Record file := mkfile {
  name : string;
  digest : list byte;
  payload : list byte }.

Record Record_ := mkRecord {
  rec_RecordMetadata : RecordMetadata;
  rec_Metadata : list MetadataStream;
  rec_Files : list File }.

Record ChainInformation := mkChainInformation {
  ChainTimestamp : Z;
  Transaction : string }.

Inductive ResultT := ResultOK | ResultOther (code : N).

Record VerifyDigest := mkVerifyDigest {
  vd_Digest : string;
  vd_Result : ResultT;
  vd_ChainInformation : ChainInformation }.

#[global] Instance RecordMetadata_eq_dec : EqDecision RecordMetadata.
Proof. solve_decision. Defined.
#[global] Instance MetadataStream_eq_dec : EqDecision MetadataStream.
Proof. solve_decision. Defined.
#[global] Instance file_eq_dec : EqDecision file.
Proof. solve_decision. Defined.

(** ** External libraries

    Functions of packages outside the repository (crypto/sha256, the
    dcrtime merkle package, encoding/json, encoding/base64, net/http,
    norma and the MIME table) are taken as an interface, together with
    the configured bound on metadata stream ids (pd.MetadataStreamsMax, a
    constant of the API package). *)
Class Library := {
  MetadataStreamsMax : N;
  sha256 : list byte → list byte;
  sha256_length : ∀ b, length (sha256 b) = 32%nat;
  (** the Merkle tree of dcrtime over hashes that are already sorted *)
  merkle_tree : list (list byte) → list byte;
  json_RecordMetadata : RecordMetadata → list byte;
  unjson_RecordMetadata : list byte → option RecordMetadata;
  json_ChainInformation : ChainInformation → list byte;
  Sanitize : string → string;
  DetectContentType : list byte → string;
  MimeValid : string → bool;
  base64_DecodeString : string → option (list byte) }.

(** ** The world: two repositories and the process state *)

Abbreviation tree := (gmap string (list byte)).

Record commit := mkCommit {
  c_digest : list byte;     (* 20 bytes *)
  c_message : string;
  c_tree : tree }.

#[global] Instance commit_eq_dec : EqDecision commit.
Proof. solve_decision. Defined.

(** A repository: the checked out branch, the history of every branch
    (head first) and the files of the working directory, keyed by their
    path below the repository root.  Directories exist through the files
    below them. The staging area is not kept apart from the working
    directory: what is written is what the next commit records. *)
Record repo := mkRepo {
  r_cur : string;
  r_branches : gmap string (list commit);
  r_work : tree }.

#[global] Instance repo_eq_dec : EqDecision repo.
Proof. solve_decision. Defined.

(** g.unvetted and g.vetted, the two directories a [path] argument names. *)
Inductive repo_path := unvetted | vetted.

#[global] Instance repo_path_eq_dec : EqDecision repo_path.
Proof. solve_decision. Defined.

Record world := mkWorld {
  w_unvetted : repo;
  w_vetted : repo;
  w_locked : bool;                       (* g.lock is held *)
  shutdown : bool;                       (* g.shutdown *)
  test : bool;                           (* g.test *)
  testAnchors : gmap string bool;        (* g.testAnchors *)
  w_last : list byte;                    (* anchor data base, key `last` *)
  w_unconfirmed : list (list byte);      (* anchor data base, key `unconfirmed` *)
  w_dcrtime : list (list (list byte));   (* batches received by the timestamp service *)
  w_authority : gmap string VerifyDigest;(* what the service answers to verify *)
  w_clock : Z;                           (* time.Now().Unix() *)
  w_random : list (list byte);           (* values util.Random will return *)
  w_commits : N;                         (* commits created so far *)
  w_faults : list bool }.                (* outcome of the coming external calls *)

Definition repo_of (p : repo_path) (w : world) : repo :=
  match p with unvetted => w_unvetted w | vetted => w_vetted w end.

Definition set_repo (p : repo_path) (r : repo) (w : world) : world :=
  match p with
  | unvetted =>
      mkWorld r (w_vetted w) (w_locked w) (shutdown w) (test w) (testAnchors w)
        (w_last w) (w_unconfirmed w) (w_dcrtime w) (w_authority w) (w_clock w)
        (w_random w) (w_commits w) (w_faults w)
  | vetted =>
      mkWorld (w_unvetted w) r (w_locked w) (shutdown w) (test w) (testAnchors w)
        (w_last w) (w_unconfirmed w) (w_dcrtime w) (w_authority w) (w_clock w)
        (w_random w) (w_commits w) (w_faults w)
  end.

Definition set_locked (b : bool) (w : world) : world :=
  mkWorld (w_unvetted w) (w_vetted w) b (shutdown w) (test w) (testAnchors w)
    (w_last w) (w_unconfirmed w) (w_dcrtime w) (w_authority w) (w_clock w)
    (w_random w) (w_commits w) (w_faults w).

Definition set_testAnchors (t : gmap string bool) (w : world) : world :=
  mkWorld (w_unvetted w) (w_vetted w) (w_locked w) (shutdown w) (test w) t
    (w_last w) (w_unconfirmed w) (w_dcrtime w) (w_authority w) (w_clock w)
    (w_random w) (w_commits w) (w_faults w).

Definition set_dcrtime (d : list (list (list byte))) (w : world) : world :=
  mkWorld (w_unvetted w) (w_vetted w) (w_locked w) (shutdown w) (test w)
    (testAnchors w) (w_last w) (w_unconfirmed w) d (w_authority w) (w_clock w)
    (w_random w) (w_commits w) (w_faults w).

Definition set_random (r : list (list byte)) (w : world) : world :=
  mkWorld (w_unvetted w) (w_vetted w) (w_locked w) (shutdown w) (test w)
    (testAnchors w) (w_last w) (w_unconfirmed w) (w_dcrtime w) (w_authority w)
    (w_clock w) r (w_commits w) (w_faults w).

Definition set_commits (n : N) (w : world) : world :=
  mkWorld (w_unvetted w) (w_vetted w) (w_locked w) (shutdown w) (test w)
    (testAnchors w) (w_last w) (w_unconfirmed w) (w_dcrtime w) (w_authority w)
    (w_clock w) (w_random w) n (w_faults w).

Definition set_faults (f : list bool) (w : world) : world :=
  mkWorld (w_unvetted w) (w_vetted w) (w_locked w) (shutdown w) (test w)
    (testAnchors w) (w_last w) (w_unconfirmed w) (w_dcrtime w) (w_authority w)
    (w_clock w) (w_random w) (w_commits w) f.

Definition set_cur (b : string) (r : repo) : repo :=
  mkRepo b (r_branches r) (r_work r).
Definition set_branches (bs : gmap string (list commit)) (r : repo) : repo :=
  mkRepo (r_cur r) bs (r_work r).
Definition set_work (t : tree) (r : repo) : repo :=
  mkRepo (r_cur r) (r_branches r) t.

(** ** The monad of the back end: state and errors *)

Definition M (A : Type) : Type := world → result A * world.

Definition ret {A} (a : A) : M A := λ w, (Ok a, w).
Definition fail {A} (e : error) : M A := λ w, (Err e, w).
Definition bind {A B} (m : M A) (k : A → M B) : M B :=
  λ w, match m w with
       | (Ok a, w') => k a w'
       | (Err e, w') => (Err e, w')
       end.

(** [x, err := f()]: the error is handed to the caller as a value. *)
Definition try {A} (m : M A) : M (result A) :=
  λ w, let '(r, w') := m w in (Ok r, w').

Definition gets {A} (f : world → A) : M A := λ w, (Ok (f w), w).
Definition modify (f : world → world) : M () := λ w, (Ok (), f w).
Definition lift {A} (r : result A) : M A := λ w, (r, w).

Declare Scope go_scope.
Delimit Scope go_scope with go.
Notation "x <- m ;; k" := (bind m (λ x, k))
  (at level 100, m at next level, right associativity) : go_scope.
Notation "m ;;; k" := (bind m (λ _, k))
  (at level 100, right associativity) : go_scope.
Local Open Scope go_scope.

(** An external call: the next entry of the fault schedule decides whether
    it fails (without effect) or runs.  An exhausted schedule lets every
    call run. *)
Definition external {A} (what : string) (m : M A) : M A :=
  λ w, match w_faults w with
       | true :: fs => (Err (Errorf what), set_faults fs w)
       | false :: fs => m (set_faults fs w)
       | [] => m w
       end.

Fixpoint for_each {A} (l : list A) (body : A → M ()) : M () :=
  match l with
  | [] => ret ()
  | x :: l' => body x ;;; for_each l' body
  end.

Fixpoint map_M {A B} (l : list A) (body : A → M B) : M (list B) :=
  match l with
  | [] => ret []
  | x :: l' => y <- body x ;; ys <- map_M l' body ;; ret (y :: ys)
  end.

(** g.lock.Lock(LockDuration) and the deferred g.lock.Unlock(). *)
Definition lock_Lock : M () :=
  external "lock timeout"
    (λ w, if w_locked w then (Err (Errorf "lock timeout"), w)
          else (Ok (), set_locked true w)).

Definition lock_Unlock : M () := modify (set_locked false).

(** The body runs between Lock and the deferred Unlock. *)
Definition with_lock {A} (body : M A) : M A :=
  lock_Lock ;;;
  (λ w, let '(r, w') := body w in (r, set_locked false w')).

Definition time_Now_Unix : M Z := gets w_clock.

(** util.Random: the next value of the random source. *)
Definition util_Random (n : nat) : M (list byte) :=
  λ w, match w_random w with
       | x :: rest =>
           if decide (length x = n) then (Ok x, set_random rest w)
           else (Err (Errorf "random"), set_random rest w)
       | [] => (Err (Errorf "random"), w)
       end.
(** ** Paths and directories *)

Definition Join (a b : string) : string := a +:+ "/" +:+ b.

Fixpoint strip_prefix (p s : string) : option string :=
  match p, s with
  | EmptyString, _ => Some s
  | String a p', String b s' => if decide (a = b) then strip_prefix p' s' else None
  | String _ _, EmptyString => None
  end.

(** The first element of a relative path, and whether more follow. *)
Fixpoint first_element (s : string) : string * bool :=
  match s with
  | EmptyString => (EmptyString, false)
  | String c s' =>
      if decide (c = "/"%char) then (EmptyString, true)
      else let '(e, more) := first_element s' in (String c e, more)
  end.

(** os.FileInfo, as far as the back end looks at it. *)
Record FileInfo := mkFileInfo { fi_Name : string; fi_IsDir : bool }.

#[global] Instance FileInfo_eq_dec : EqDecision FileInfo.
Proof. solve_decision. Defined.

Definition dir_entry (dir : string) (path : string) : option FileInfo :=
  match strip_prefix (dir +:+ "/") path with
  | Some rest => let '(e, more) := first_element rest in Some (mkFileInfo e more)
  | None => None
  end.

Definition FileInfo_le (a b : FileInfo) : Prop := String.le (fi_Name a) (fi_Name b).

#[global] Instance FileInfo_le_dec : RelDecision FileInfo_le.
Proof. intros a b. unfold FileInfo_le. apply _. Defined.

(** The entries of a directory, sorted by name as ioutil.ReadDir returns
    them. *)
Definition dir_entries (t : tree) (dir : string) : list FileInfo :=
  merge_sort FileInfo_le (remove_dups (omap (dir_entry dir) (map_to_list t).*1)).

(** ** File system calls on the working directory of a repository *)

Section FileSystem.
Local Open Scope go_scope.

Definition ioutil_WriteFile (p : repo_path) (path : string) (data : list byte) : M () :=
  external "write file"
    (modify (λ w, set_repo p (set_work (<[path := data]> (r_work (repo_of p w))) (repo_of p w)) w)).

(** os.OpenFile(O_RDWR|O_CREATE|O_APPEND) followed by a write and Close. *)
Definition os_AppendFile (p : repo_path) (path : string) (data : list byte) : M () :=
  external "open file"
    (modify (λ w,
       let r := repo_of p w in
       set_repo p (set_work (<[path := default [] (r_work r !! path) ++ data]> (r_work r)) r) w)).

Definition os_MkdirAll (p : repo_path) (path : string) : M () :=
  external "mkdir" (ret ()).

Definition ioutil_ReadFile (p : repo_path) (path : string) : M (list byte) :=
  external "read file"
    (λ w, match r_work (repo_of p w) !! path with
          | Some b => (Ok b, w)
          | None => (Err ErrNotExist, w)
          end).

Definition os_Stat (p : repo_path) (path : string) : M FileInfo :=
  external "stat"
    (λ w, let t := r_work (repo_of p w) in
          match t !! path with
          | Some _ => (Ok (mkFileInfo path false), w)
          | None => if decide (dir_entries t path = []) then (Err ErrNotExist, w)
                    else (Ok (mkFileInfo path true), w)
          end).

Definition ioutil_ReadDir (p : repo_path) (dir : string) : M (list FileInfo) :=
  external "read dir"
    (λ w, let es := dir_entries (r_work (repo_of p w)) dir in
          if decide (es = []) then (Err ErrNotExist, w) else (Ok es, w)).
End FileSystem.

(** ** The versioned store

    The functions of git.go are not part of the sources at hand; they are
    modelled from section 4.1 of the specification (init, checkout,
    new_branch, delete_branch, add, remove, commit, stash, rebase, push,
    pull, diff, log, fsck, last_commit_digest, current_branch,
    list_branches) over linear histories. *)

Definition byte_of_N (n : N) : byte := default x00 (Byte.of_N n).

(** [k] bytes of [n], least significant first. *)
Fixpoint N_bytes (k : nat) (n : N) : list byte :=
  match k with
  | O => []
  | S k' => byte_of_N (n mod 256) :: N_bytes k' (n / 256)
  end.

(** Modelled from the spec: commit digests are 20 bytes; the store hands
    out a digest it has not used before. *)
Definition fresh_digest (n : N) : list byte := N_bytes sha1_Size n.

Definition branch_tree (log : list commit) : tree :=
  match log with c :: _ => c_tree c | [] => ∅ end.

Definition head_log (r : repo) : list commit :=
  default [] (r_branches r !! r_cur r).

Definition head_tree (r : repo) : tree := branch_tree (head_log r).

Definition is_clean (r : repo) : bool := bool_decide (r_work r = head_tree r).

(** The paths on which two trees differ. *)
Definition diff_paths (a b : tree) : list string :=
  (map_to_list (merge (λ x y, if decide (x = y) then None else Some ()) a b)).*1.

(** What a commit did to its parent's tree, done to another tree. *)
Definition apply_delta (old new base : tree) : tree :=
  merge (λ d b, match d with
                | Some (o, n) => if decide (o = n) then b else n
                | None => b
                end)
    (merge (λ o n, Some (o, n)) old new) base.

Fixpoint with_parents (log : list commit) : list (commit * tree) :=
  match log with
  | [] => []
  | c :: rest => (c, branch_tree rest) :: with_parents rest
  end.

(** Modelled from the spec: rebase(onto) replays the commits that [onto]
    lacks on top of it; a replayed commit gets a new digest unless nothing
    had to move. *)
Definition rebase_log (n : N) (mine onto : list commit) : list commit * N :=
  let local := filter (λ cp, c_digest cp.1 ∉ c_digest <$> onto) (with_parents mine) in
  if decide (mine = local.*1 ++ onto) then (mine, n)
  else foldr (λ cp acc,
                (mkCommit (fresh_digest acc.2) (c_message cp.1)
                   (apply_delta cp.2 (c_tree cp.1) (branch_tree acc.1)) :: acc.1,
                 acc.2 + 1))
         (onto, n) local.

(** The subject of a commit message: its first line. *)
Fixpoint subject (msg : string) : string :=
  match msg with
  | EmptyString => EmptyString
  | String c s => if decide (c = "010"%char) then EmptyString else String c (subject s)
  end.

(** A line of [git log --pretty=oneline]. *)
Definition oneline (c : commit) : string :=
  EncodeToString (c_digest c) +:+ " " +:+ subject (c_message c).

(** The history as seen from the commit [latest]. *)
Fixpoint commits_upto (latest : list byte) (log : list commit) : list commit :=
  match log with
  | [] => []
  | c :: rest => if decide (c_digest c = latest) then log else commits_upto latest rest
  end.

Fixpoint commits_since (since : list byte) (log : list commit) : list commit :=
  match log with
  | [] => []
  | c :: rest => if decide (c_digest c = since) then [] else c :: commits_since since rest
  end.

Section Git.
Local Open Scope go_scope.

(** Modelled from the spec: checkout(branch). The branch must exist and
    the working directory must hold no uncommitted change. *)
Definition gitCheckout (p : repo_path) (branch : string) : M () :=
  external "git checkout"
    (λ w, let r := repo_of p w in
          match r_branches r !! branch with
          | Some log =>
              if is_clean r
              then (Ok (), set_repo p (mkRepo branch (r_branches r) (branch_tree log)) w)
              else (Err (Errorf "git checkout: local changes"), w)
          | None => (Err (Errorf "git checkout: no such branch"), w)
          end).

(** Modelled from the spec: new_branch(name), that is git checkout -b. *)
Definition gitNewBranch (p : repo_path) (branch : string) : M () :=
  external "git checkout -b"
    (λ w, let r := repo_of p w in
          match r_branches r !! branch with
          | Some _ => (Err (Errorf "git checkout -b: branch exists"), w)
          | None =>
              (Ok (), set_repo p (mkRepo branch (<[branch := head_log r]> (r_branches r)) (r_work r)) w)
          end).

(** Modelled from the spec: delete_branch, that is git branch -D. *)
Definition gitBranchDelete (p : repo_path) (branch : string) : M () :=
  external "git branch -D"
    (λ w, let r := repo_of p w in
          match r_branches r !! branch with
          | Some _ =>
              if decide (r_cur r = branch)
              then (Err (Errorf "git branch -D: branch is checked out"), w)
              else (Ok (), set_repo p (set_branches (delete branch (r_branches r)) r) w)
          | None => (Err (Errorf "git branch -D: no such branch"), w)
          end).

(** Modelled from the spec: list_branches. *)
Definition gitBranches (p : repo_path) : M (list string) :=
  external "git branch" (λ w, (Ok (map_to_list (r_branches (repo_of p w))).*1, w)).

(** Modelled from the spec: current_branch. *)
Definition gitBranchNow (p : repo_path) : M string :=
  external "git branch" (λ w, (Ok (r_cur (repo_of p w)), w)).

(** Modelled from the spec: add(path). *)
Definition gitAdd (p : repo_path) (path : string) : M () :=
  external "git add"
    (λ w, let r := repo_of p w in
          match r_work r !! path, head_tree r !! path with
          | None, None => (Err (Errorf "git add: pathspec did not match"), w)
          | _, _ => (Ok (), w)
          end).

(** Modelled from the spec: remove(path). *)
Definition gitRm (p : repo_path) (path : string) : M () :=
  external "git rm"
    (λ w, let r := repo_of p w in
          match r_work r !! path with
          | Some _ => (Ok (), set_repo p (set_work (delete path (r_work r)) r) w)
          | None => (Err (Errorf "git rm: pathspec did not match"), w)
          end).

(** Modelled from the spec: commit(msg). There must be something to
    commit. *)
Definition gitCommit (p : repo_path) (msg : string) : M () :=
  external "git commit"
    (λ w, let r := repo_of p w in
          if is_clean r then (Err (Errorf "git commit: nothing to commit"), w)
          else
            let c := mkCommit (fresh_digest (w_commits w)) msg (r_work r) in
            (Ok (), set_commits (w_commits w + 1)
                      (set_repo p (set_branches (<[r_cur r := c :: head_log r]> (r_branches r)) r) w))).

(** Modelled from the spec: stash (and drop): uncommitted changes are
    discarded. *)
Definition gitStash (p : repo_path) : M () :=
  external "git stash"
    (modify (λ w, set_repo p (set_work (head_tree (repo_of p w)) (repo_of p w)) w)).

(** Modelled from the spec: diff(); no output means no difference between
    the working directory and the last commit. *)
Definition gitDiff (p : repo_path) : M (list string) :=
  external "git diff"
    (λ w, let r := repo_of p w in (Ok (diff_paths (head_tree r) (r_work r)), w)).

Definition gitHasChanges (p : repo_path) : M bool :=
  gets (λ w, negb (is_clean (repo_of p w))).

(** Modelled from the spec: fsck(). *)
Definition gitFsck (p : repo_path) : M () := external "git fsck" (ret ()).

(** Modelled from the spec: last_commit_digest(). *)
Definition gitLastDigest (p : repo_path) : M (list byte) :=
  external "git log"
    (λ w, match head_log (repo_of p w) with
          | c :: _ => (Ok (c_digest c), w)
          | [] => (Err (Errorf "git log: no commits"), w)
          end).

(** Modelled from the spec: log(range), most recent commit first, one
    line per commit.  The range [since..latest] holds the commits up to
    [latest] that came after [since]. *)
Definition gitLog (p : repo_path) (range : option (list byte * list byte)) : M (list string) :=
  external "git log"
    (λ w, let log := head_log (repo_of p w) in
          match range with
          | None => (Ok (oneline <$> log), w)
          | Some (since, latest) =>
              if decide (since ∈ c_digest <$> log ∧ latest ∈ c_digest <$> log)
              then (Ok (oneline <$> commits_since since (commits_upto latest log)), w)
              else (Err (Errorf "git log: bad revision"), w)
          end).

(** Modelled from the spec: pull(ff_only, rebase). The staging tier pulls
    the branch it has checked out from the publication tier, its origin. *)
Definition gitPull (p : repo_path) (ff_only : bool) : M () :=
  external "git pull"
    (λ w, match p with
          | vetted => (Err (Errorf "git pull: no remote"), w)
          | unvetted =>
              let r := w_unvetted w in
              match r_branches (w_vetted w) !! r_cur r with
              | None => (Err (Errorf "git pull: no such remote branch"), w)
              | Some theirs =>
                  if is_clean r then
                    let '(log, n) := rebase_log (w_commits w) (head_log r) theirs in
                    (Ok (), set_commits n
                              (set_repo unvetted
                                 (mkRepo (r_cur r) (<[r_cur r := log]> (r_branches r))
                                    (branch_tree log)) w))
                  else (Err (Errorf "git pull: local changes"), w)
              end
          end).

(** Modelled from the spec: rebase(onto). *)
Definition gitRebase (p : repo_path) (onto : string) : M () :=
  external "git rebase"
    (λ w, let r := repo_of p w in
          match r_branches r !! onto with
          | None => (Err (Errorf "git rebase: no such branch"), w)
          | Some base =>
              if is_clean r then
                let '(log, n) := rebase_log (w_commits w) (head_log r) base in
                (Ok (), set_commits n
                          (set_repo p
                             (mkRepo (r_cur r) (<[r_cur r := log]> (r_branches r))
                                (branch_tree log)) w))
              else (Err (Errorf "git rebase: local changes"), w)
          end).

(** Modelled from the spec: push(remote, branch, set_upstream), from the
    staging tier into the publication tier. Only a branch that is not
    checked out there can be pushed, and only forward. *)
Definition gitPush (p : repo_path) (remote branch : string) (upstream : bool) : M () :=
  external "git push"
    (λ w, match p with
          | vetted => (Err (Errorf "git push: no remote"), w)
          | unvetted =>
              match r_branches (w_unvetted w) !! branch with
              | None => (Err (Errorf "git push: no such branch"), w)
              | Some log =>
                  let v := w_vetted w in
                  if decide (r_cur v = branch)
                  then (Err (Errorf "git push: branch is checked out"), w)
                  else if decide (default [] (r_branches v !! branch) `suffix_of` log)
                  then (Ok (), set_repo vetted (set_branches (<[branch := log]> (r_branches v)) v) w)
                  else (Err (Errorf "git push: not a fast forward"), w)
              end
          end).
End Git.
(** ** strings, strconv, fmt, path/filepath, util *)

Definition LF : string := String "010"%char EmptyString.
Definition TAB : string := String "009"%char EmptyString.

Definition HasSuffix (s suffix : string) : bool :=
  bool_decide (is_Some (strip_prefix (String.rev suffix) (String.rev s))).

Definition TrimSuffix (s suffix : string) : string :=
  match strip_prefix (String.rev suffix) (String.rev s) with
  | Some r => String.rev r
  | None => s
  end.

(** strings.SplitN(s, " ", 2) *)
Fixpoint SplitN2 (s : string) : list string :=
  match s with
  | EmptyString => [EmptyString]
  | String c s' =>
      if decide (c = " "%char) then [EmptyString; s']
      else match SplitN2 s' with
           | a :: rest => String c a :: rest
           | [] => [String c EmptyString]
           end
  end.

Definition in_cutset (cutset : string) (c : ascii) : bool :=
  bool_decide (c ∈ list_ascii_of_string cutset).

Fixpoint trim_left (cutset : string) (s : list ascii) : list ascii :=
  match s with
  | c :: s' => if in_cutset cutset c then trim_left cutset s' else s
  | [] => []
  end.

(** strings.Trim *)
Definition Trim (s cutset : string) : string :=
  string_of_list_ascii
    (rev (trim_left cutset (rev (trim_left cutset (list_ascii_of_string s))))).

(** strconv.FormatUint(n, 10) and the verb %v on an integer *)
Definition FormatUint (n : N) : string := pretty n.
Definition FormatInt (z : Z) : string := pretty z.

(** fmt.Sprintf("%02v", n) on an unsigned integer *)
Definition Sprintf_02v (n : N) : string :=
  if n <? 10 then "0" +:+ pretty n else pretty n.

Definition digit_of (c : ascii) : option N :=
  let n := N_of_ascii c in
  if (48 <=? n) && (n <=? 57) then Some (n - 48) else None.

Fixpoint parse_digits (acc : N) (s : string) : option N :=
  match s with
  | EmptyString => Some acc
  | String c s' =>
      match digit_of c with
      | Some d => parse_digits (10 * acc + d) s'
      | None => None
      end
  end.

(** strconv.ParseUint(s, 10, 64) *)
Definition ParseUint (s : string) : option N :=
  match s with
  | EmptyString => None
  | _ => match parse_digits 0 s with
         | Some n => if n <? 2 ^ 64 then Some n else None
         | None => None
         end
  end.

Fixpoint trim_right_slash (s : list ascii) : list ascii :=
  match s with
  | c :: s' => if decide (c = "/"%char) then trim_right_slash s' else s
  | [] => []
  end.

Fixpoint after_last_slash (acc : list ascii) (s : list ascii) : list ascii :=
  match s with
  | c :: s' => if decide (c = "/"%char) then after_last_slash [] s'
               else after_last_slash (acc ++ [c]) s'
  | [] => acc
  end.

(** filepath.Base *)
Definition Base (path : string) : string :=
  match path with
  | EmptyString => "."
  | _ =>
      let p := rev (trim_right_slash (rev (list_ascii_of_string path))) in
      match after_last_slash [] p with
      | [] => "/"
      | b => string_of_list_ascii b
      end
  end.

Definition is_lower_hex (c : ascii) : bool :=
  let n := N_of_ascii c in
  ((48 <=? n) && (n <=? 57)) || ((97 <=? n) && (n <=? 102)).

(** Modelled from the spec: util.IsDigest is not part of the sources at
    hand; it recognises the token-hex pattern, 64 hexadecimal digits. *)
Definition IsDigest (s : string) : bool :=
  bool_decide (String.length s = 64%nat) &&
  forallb is_lower_hex (list_ascii_of_string s).

(** Modelled from the spec: util.ConvertDigest is not part of the sources
    at hand; it turns the hexadecimal text of a SHA-256 digest into its
    32 bytes. *)
Definition ConvertDigest (d : string) : option (list byte) :=
  match DecodeString d with
  | Some dd => if decide (length dd = sha256_Size) then Some dd else None
  | None => None
  end.

Definition prefixed (p s : string) : option string := strip_prefix p s.

(** Modelled from the spec: the two marker patterns of anchor.go are not
    part of the sources at hand. The subject begins with the marker, a
    blank and 64 hexadecimal digits, which are captured. *)
Definition match_marker (marker subj : string) : option string :=
  match strip_prefix (marker +:+ " ") subj with
  | Some rest =>
      let hex := take 64 (list_ascii_of_string rest) in
      if bool_decide (length hex = 64%nat) &&
         forallb (λ c, bool_decide (is_Some (fromHexChar c))) hex
      then Some (string_of_list_ascii hex) else None
  | None => None
  end.

Definition markerAnchor : string := "Anchor".
Definition markerAnchorConfirmation : string := "Anchor confirmation".
Definition regexAnchor_MatchString (s : string) : bool :=
  bool_decide (is_Some (match_marker markerAnchor s)).
Definition regexAnchorConfirmation_MatchString (s : string) : bool :=
  bool_decide (is_Some (match_marker markerAnchorConfirmation s)).

Definition defaultRecordMetadataFilename : string := "recordmetadata.json".
Definition defaultMDFilenameSuffix : string := ".metadata.txt".
Definition defaultAuditTrailFile : string := "anchor_audit_trail.txt".
Definition defaultAnchorsDirectory : string := "anchors".
Definition defaultPayloadDir : string := "payload".
Definition expectedTestTX : string := "TESTTX".

(** Modelled from the spec: pd.TokenSize, a token is 32 random bytes. *)
Definition TokenSize : nat := 32.

(** bytes.Compare(a, b) <= 0, the order merkle.Root sorts by. *)
Fixpoint bytes_leb (a b : list byte) : bool :=
  match a, b with
  | [], _ => true
  | _ :: _, [] => false
  | x :: a', y :: b' =>
      if Byte.to_N x <? Byte.to_N y then true
      else if Byte.to_N x =? Byte.to_N y then bytes_leb a' b'
      else false
  end.

Definition bytes_le (a b : list byte) : Prop := bytes_leb a b = true.

#[global] Instance bytes_le_dec : RelDecision bytes_le.
Proof. intros a b. unfold bytes_le. apply _. Defined.

Definition sort_digests (hashes : list (list byte)) : list (list byte) :=
  merge_sort bytes_le hashes.

Definition error_text (e : error) : string :=
  match e with
  | ErrRecordNotFound => "record not found"
  | ErrRecordLocked => "record is locked"
  | ErrNoChanges => "no changes to record"
  | ErrShutdown => "backend is shutdown"
  | errNothingToDo => "nothing to do"
  | ErrNotExist => "no such file or directory"
  | StateTransitionError _ _ => "invalid record status transition"
  | ContentVerificationError _ _ => "content verification error"
  | Errorf msg => msg
  | Panic msg => msg
  end.

(** [fmt.Errorf("...: %v", err)] around a failing call. *)
Definition wrap_error {A} (prefix : string) (m : M A) : M A :=
  λ w, match m w with
       | (Ok a, w') => (Ok a, w')
       | (Err e, w') => (Err (Errorf (prefix +:+ error_text e)), w')
       end.
(** ** gitbe.go: content verification and the record store *)

Section RecordStore.
Context `{Library}.
Local Open Scope go_scope.

(** util.Digest *)
Definition util_Digest (b : list byte) : list byte := sha256 b.

(** merkle.Root sorts the hashes it is given and returns the root of
    their tree. *)
Definition merkle_Root (hashes : list (list byte)) : list byte :=
  merkle_tree (sort_digests hashes).

(** The first element that occurs at a second position as well. *)
Fixpoint first_duplicate {A} `{EqDecision A} (before after : list A) : option A :=
  match after with
  | [] => None
  | x :: rest =>
      if bool_decide (x ∈ before ++ rest) then Some x
      else first_duplicate (before ++ [x]) rest
  end.

Definition cook_file (f : File) : result file :=
  if negb (bool_decide (Sanitize (f_Name f) = f_Name f))
  then Err (ContentVerificationError ErrorStatusInvalidFilename [f_Name f])
  else match ConvertDigest (f_Digest f) with
  | None => Err (ContentVerificationError ErrorStatusInvalidFileDigest [f_Name f])
  | Some d =>
    match base64_DecodeString (f_Payload f) with
    | None => Err (ContentVerificationError ErrorStatusInvalidBase64 [f_Name f])
    | Some pl =>
      let dp := util_Digest pl in
      if negb (bool_decide (d = dp))
      then Err (ContentVerificationError ErrorStatusInvalidFileDigest [f_Name f])
      else
        let detectedMIMEType := DetectContentType pl in
        if negb (bool_decide (detectedMIMEType = f_MIME f))
        then Err (ContentVerificationError ErrorStatusInvalidMIMEType
                    [f_Name f; detectedMIMEType])
        else if negb (MimeValid (f_MIME f))
        then Err (ContentVerificationError ErrorStatusUnsupportedMIMEType
                    [f_Name f; f_MIME f])
        else Ok (mkfile (f_Name f) dp pl)
    end
  end.

Fixpoint cook_files (files : list File) : result (list file) :=
  match files with
  | [] => Ok []
  | f :: rest =>
      match cook_file f with
      | Err e => Err e
      | Ok c => match cook_files rest with
                | Err e => Err e
                | Ok cs => Ok (c :: cs)
                end
      end
  end.

(** The first file whose name is taken by another file or by a file to
    delete. *)
Fixpoint first_name_clash (before after filesDel : list string) : option string :=
  match after with
  | [] => None
  | x :: rest =>
      if bool_decide (x ∈ before ++ rest) || bool_decide (x ∈ filesDel) then Some x
      else first_name_clash (before ++ [x]) rest filesDel
  end.

(** verifyContent verifies that all provided backend.MetadataStream and
    backend.File are sane and returns a cooked array of the files. *)
Definition verifyContent (metadata : list MetadataStream) (files : list File)
    (filesDel : list string) : result (list file) :=
  match find (λ v, uint64_wrap (MetadataStreamsMax + 2 ^ 64 - 1) <? ms_ID v) metadata with
  | Some v => Err (ContentVerificationError ErrorStatusInvalidMDID [FormatUint (ms_ID v)])
  | None =>
  match first_duplicate [] (ms_ID <$> metadata) with
  | Some i => Err (ContentVerificationError ErrorStatusDuplicateMDID [FormatUint i])
  | None =>
  match find (λ f, negb (bool_decide (Base (f_Name f) = f_Name f))) files with
  | Some f => Err (ContentVerificationError ErrorStatusInvalidFilename [f_Name f])
  | None =>
  match find (λ v, negb (bool_decide (Base v = v))) filesDel with
  | Some v => Err (ContentVerificationError ErrorStatusInvalidFilename [v])
  | None =>
  if bool_decide (length files = 0%nat)
  then Err (ContentVerificationError ErrorStatusEmpty [])
  else
  match first_name_clash [] (f_Name <$> files) filesDel with
  | Some n => Err (ContentVerificationError ErrorStatusDuplicateFilename [n])
  | None => cook_files files
  end end end end end.

(** loadMD loads a RecordMetadata from the provided path/id. *)
Definition loadMD (path : repo_path) (id : string) : M RecordMetadata :=
  r <- try (ioutil_ReadFile path (Join id defaultRecordMetadataFilename)) ;;
  match r with
  | Err ErrNotExist => fail ErrRecordNotFound
  | Err e => fail e
  | Ok b => match unjson_RecordMetadata b with
            | Some brm => ret brm
            | None => fail (Errorf "json: cannot decode")
            end
  end.

(** updateMD updates the RecordMetadata status to the provided path/id. *)
Definition updateMD (path : repo_path) (id : string) (brm : RecordMetadata) : M () :=
  ioutil_WriteFile path (Join id defaultRecordMetadataFilename) (json_RecordMetadata brm).

(** createMD stores a RecordMetadata to the provided path/id. *)
Definition createMD (path : repo_path) (id : string) (status : MDStatusT)
    (version : N) (hashes : list (list byte)) (token : list byte) : M RecordMetadata :=
  now <- time_Now_Unix ;;
  let brm := mkRecordMetadata version status (merkle_Root hashes) now token in
  updateMD path id brm ;;;
  ret brm.

(** commitMD commits the MD into a git repo. *)
Definition commitMD (path : repo_path) (id msg : string) : M () :=
  gitAdd path (Join id defaultRecordMetadataFilename) ;;;
  gitCommit path ("Update record status " +:+ id +:+ " " +:+ msg).

(** loadMDStreams loads all streams of disk. *)
Definition loadMDStreams (path : repo_path) (id : string) : M (list MetadataStream) :=
  files <- ioutil_ReadDir path id ;;
  mss <- map_M files (λ v,
    if negb (HasSuffix (fi_Name v) defaultMDFilenameSuffix) then ret None
    else
      match ParseUint (TrimSuffix (fi_Name v) defaultMDFilenameSuffix) with
      | None => fail (Errorf "strconv.ParseUint: invalid syntax")
      | Some mdid =>
          md <- ioutil_ReadFile path (Join id (fi_Name v)) ;;
          ret (Some (mkMetadataStream mdid (string_of_bytes md)))
      end) ;;
  ret (omap (λ ms, ms) mss).

(** _getRecord loads a record from the current branch on the provided
    repo. Files are left out unless asked for; the call of the status
    change never asks for them. *)
Definition _getRecord (id : string) (repo : repo_path) : M Record_ :=
  brm <- loadMD repo id ;;
  mds <- loadMDStreams repo id ;;
  ret (mkRecord brm mds []).

(** newRecord adds a new record to the unvetted repo. *)
Definition newRecord (token : list byte) (metadata : list MetadataStream)
    (fa : list file) : M RecordMetadata :=
  let id := EncodeToString token in
  gitNewBranch unvetted id ;;;
  let path := Join id defaultPayloadDir in
  os_MkdirAll unvetted path ;;;
  hashes <- map_M fa (λ f,
    let filename := Join path (name f) in
    ioutil_WriteFile unvetted filename (payload f) ;;;
    let d := copy (zero_bytes sha256_Size) (digest f) in
    gitAdd unvetted filename ;;;
    ret d) ;;
  for_each metadata (λ m,
    let filename := Join id (Sprintf_02v (ms_ID m) +:+ defaultMDFilenameSuffix) in
    ioutil_WriteFile unvetted filename (bytes_of_string (ms_Payload m)) ;;;
    gitAdd unvetted filename) ;;;
  brm <- createMD unvetted id MDStatusUnvetted 1 hashes token ;;
  gitAdd unvetted (Join id defaultRecordMetadataFilename) ;;;
  (* g.gitCommit(path, ...): git runs below the payload directory, inside
     the unvetted repository *)
  gitCommit unvetted ("Add record " +:+ id) ;;;
  ret brm.

(** New takes a record verifies it and drops it on disk in the unvetted
    directory. *)
Definition New (metadata : list MetadataStream) (files : list File) : M RecordMetadata :=
  fa <- lift (verifyContent metadata files []) ;;
  token <- util_Random TokenSize ;;
  with_lock (
    down <- gets shutdown ;;
    if down then fail ErrShutdown else
    gitCheckout unvetted "master" ;;;
    gitPull unvetted true ;;;
    r <- try (newRecord token metadata fa) ;;
    match r with
    | Err err =>
        gitStash unvetted ;;;
        gitCheckout unvetted "master" ;;;
        fail err
    | Ok brm =>
        gitCheckout unvetted "master" ;;;
        ret brm
    end).

(** updateMetadata appends or overwrites in the unvetted repository. *)
Definition updateMetadata (id : string) (mdAppend mdOverwrite : list MetadataStream) : M () :=
  for_each mdOverwrite (λ m,
    let filename := Join id (Sprintf_02v (ms_ID m) +:+ defaultMDFilenameSuffix) in
    ioutil_WriteFile unvetted filename (bytes_of_string (ms_Payload m)) ;;;
    gitAdd unvetted filename) ;;;
  for_each mdAppend (λ m,
    let filename := Join id (Sprintf_02v (ms_ID m) +:+ defaultMDFilenameSuffix) in
    os_AppendFile unvetted filename (bytes_of_string (ms_Payload m)) ;;;
    gitAdd unvetted filename).

Definition checkoutRecordBranch (id : string) : M bool :=
  branches <- gitBranches unvetted ;;
  let found := existsb (λ v, IsDigest v && bool_decide (v = id)) branches in
  if found then
    r <- try (gitCheckout unvetted id) ;;
    match r with
    | Err _ => fail ErrRecordNotFound
    | Ok _ => ret found
    end
  else
    r <- try (os_Stat unvetted id) ;;
    match r with
    | Err ErrNotExist => fail ErrRecordNotFound
    | Err _ => fail (Panic "nil pointer dereference")
    | Ok fi =>
        if negb (fi_IsDir fi)
        then fail (Errorf ("unvetted repo corrupt: " +:+ fi_Name fi +:+ " is not a dir"))
        else gitNewBranch unvetted id ;;; ret found
    end.

(** The status check of updateRecord. *)
Definition updatable (s : MDStatusT) : bool :=
  bool_decide (s = MDStatusVetted) || bool_decide (s = MDStatusUnvetted) ||
  bool_decide (s = MDStatusIterationUnvetted) || bool_decide (s = MDStatusLocked).

(** util.DigestFileBytes *)
Definition DigestFileBytes (path : repo_path) (filename : string) : M (list byte) :=
  b <- ioutil_ReadFile path filename ;;
  ret (util_Digest b).

(** updateRecord takes various parameters to update a record. *)
Definition updateRecord (token : list byte) (mdAppend mdOverwrite : list MetadataStream)
    (fa : list file) (filesDel : list string) : M RecordMetadata :=
  let id := EncodeToString token in
  checkoutRecordBranch id ;;;
  brm <- loadMD unvetted id ;;
  if negb (updatable (Status brm))
  then fail (Errorf "can not update record that has status")
  else
  for_each filesDel (λ v,
    r <- try (os_Stat unvetted (Join (Join id defaultPayloadDir) v)) ;;
    match r with
    | Err ErrNotExist => fail (ContentVerificationError ErrorStatusFileNotFound [v])
    | Err _ => fail (Panic "nil pointer dereference")
    | Ok fi => if fi_IsDir fi then fail (Errorf ("not a file: " +:+ fi_Name fi)) else ret ()
    end) ;;;
  let path := Join id defaultPayloadDir in
  for_each fa (λ f,
    let filename := Join path (name f) in
    ioutil_WriteFile unvetted filename (payload f) ;;;
    gitAdd unvetted filename) ;;;
  for_each filesDel (λ v, gitRm unvetted (Join (Join id defaultPayloadDir) v)) ;;;
  updateMetadata id mdAppend mdOverwrite ;;;
  let ppath := Join id defaultPayloadDir in
  r <- try (ioutil_ReadDir unvetted ppath) ;;
  match r with
  | Err ErrNotExist => fail (ContentVerificationError ErrorStatusEmpty [])
  | Err e => fail e
  | Ok newRecordFiles =>
      hashes <- map_M newRecordFiles (λ v,
        d <- DigestFileBytes unvetted (Join ppath (fi_Name v)) ;;
        ret (copy (zero_bytes sha256_Size) d)) ;;
      o <- gitDiff unvetted ;;
      if bool_decide (length o = 0%nat) then fail ErrNoChanges else
      brmNew <- createMD unvetted id MDStatusIterationUnvetted
                  (uint64_wrap (Version brm + 1)) hashes token ;;
      gitAdd unvetted (Join id defaultRecordMetadataFilename) ;;;
      gitCommit unvetted ("Update record " +:+ id) ;;;
      ret brmNew
  end.

(** The cooked files of an update: an empty set of files is allowed. *)
Definition verifyContent_allow_empty (metadata : list MetadataStream)
    (files : list File) (filesDel : list string) : result (list file) :=
  match verifyContent metadata files filesDel with
  | Ok fa => Ok fa
  | Err (ContentVerificationError ErrorStatusEmpty _) => Ok []
  | Err e => Err e
  end.

Definition UpdateUnvettedRecord (token : list byte)
    (mdAppend mdOverwrite : list MetadataStream) (filesAdd : list File)
    (filesDel : list string) : M RecordMetadata :=
  let allMD := mdAppend ++ mdOverwrite in
  fa <- lift (verifyContent_allow_empty allMD filesAdd filesDel) ;;
  with_lock (
    down <- gets shutdown ;;
    if down then fail ErrShutdown else
    gitCheckout unvetted "master" ;;;
    gitPull unvetted true ;;;
    r <- try (updateRecord token mdAppend mdOverwrite fa filesDel) ;;
    match r with
    | Err ErrNoChanges =>
        gitCheckout unvetted "master" ;;;
        fail ErrNoChanges
    | Err err =>
        gitStash unvetted ;;;
        gitCheckout unvetted "master" ;;;
        fail err
    | Ok brm =>
        gitCheckout unvetted "master" ;;;
        ret brm
    end).

(** rebasePR pushes branch id into upstream (vetted repo) and rebases it
    onto master followed by replaying the rebase into origin (unvetted
    repo). *)
Definition rebasePR (id : string) : M () :=
  gitCheckout unvetted "master" ;;;
  gitPull unvetted true ;;;
  (r <- try (gitCheckout unvetted id) ;;
   match r with Err _ => fail ErrRecordNotFound | Ok _ => ret () end) ;;;
  gitRebase unvetted "master" ;;;
  gitPush unvetted "origin" id true ;;;
  gitRebase vetted id ;;;
  gitBranchDelete vetted id ;;;
  gitCheckout unvetted "master" ;;;
  gitPull unvetted true ;;;
  gitBranchDelete unvetted id.

(** updateVettedMetadata updates metadata in the unvetted repo and pushes
    it upstream followed by a rebase. *)
Definition updateVettedMetadata (id idTmp : string)
    (mdAppend mdOverwrite : list MetadataStream) : M () :=
  gitNewBranch unvetted idTmp ;;;
  updateMetadata id mdAppend mdOverwrite ;;;
  changes <- gitHasChanges unvetted ;;
  if negb changes then fail ErrNoChanges else
  gitCommit unvetted ("Update record metadata " +:+ id) ;;;
  rebasePR idTmp.

(** The failure path of UpdateVettedMetadata: git stash and drop
    potential tmp branch, once master is checked out again. *)
Definition drop_tmp_branch (idTmp : string) : M () :=
  gitStash unvetted ;;;
  gitCheckout unvetted "master" ;;;
  gitBranchDelete unvetted idTmp.

(** UpdateVettedMetadata updates metadata in vetted record. *)
Definition UpdateVettedMetadata (token : list byte)
    (mdAppend mdOverwrite : list MetadataStream) : M () :=
  let allMD := mdAppend ++ mdOverwrite in
  lift (verifyContent_allow_empty allMD [] []) ;;;
  with_lock (
    down <- gets shutdown ;;
    if down then fail ErrShutdown else
    gitCheckout unvetted "master" ;;;
    gitPull unvetted true ;;;
    let id := EncodeToString token in
    let idTmp := id +:+ "_tmp" in
    r <- try (os_Stat unvetted id) ;;
    match r with
    | Err ErrNotExist => fail ErrRecordNotFound
    | _ =>
      md <- loadMD unvetted id ;;
      if bool_decide (Status md = MDStatusLocked) then fail ErrRecordLocked else
      r <- try (updateVettedMetadata id idTmp mdAppend mdOverwrite) ;;
      match r with
      | Err err => drop_tmp_branch idTmp ;;; fail err
      | Ok _ => gitCheckout unvetted "master"
      end
    end).

(** The transitions setUnvettedStatus carries out. *)
Definition set_metadata_status (brm : RecordMetadata) (status : MDStatusT) (now : Z)
    : RecordMetadata :=
  mkRecordMetadata (uint64_wrap (Version brm + 1)) status (Merkle brm) now (Token brm).

(** setUnvettedStatus takes various parameters to update a record
    metadata and status. *)
Definition setUnvettedStatus (token : list byte) (status : MDStatusT)
    (mdAppend mdOverwrite : list MetadataStream) : M Record_ :=
  let id := EncodeToString token in
  (r <- try (gitCheckout unvetted id) ;;
   match r with Err _ => fail ErrRecordNotFound | Ok _ => ret () end) ;;;
  record <- _getRecord id unvetted ;;
  let old := Status (rec_RecordMetadata record) in
  if (bool_decide (old = MDStatusUnvetted) || bool_decide (old = MDStatusIterationUnvetted))
     && bool_decide (status = MDStatusVetted)
  then
    now <- time_Now_Unix ;;
    let brm := set_metadata_status (rec_RecordMetadata record) MDStatusVetted now in
    updateMD unvetted id brm ;;;
    updateMetadata id mdAppend mdOverwrite ;;;
    commitMD unvetted id "published" ;;;
    rebasePR id ;;;
    ret (mkRecord brm (rec_Metadata record) (rec_Files record))
  else if bool_decide (old = MDStatusUnvetted) && bool_decide (status = MDStatusCensored)
  then
    now <- time_Now_Unix ;;
    let brm := set_metadata_status (rec_RecordMetadata record) MDStatusCensored now in
    updateMD unvetted id brm ;;;
    updateMetadata id mdAppend mdOverwrite ;;;
    commitMD unvetted id "censored" ;;;
    ret (mkRecord brm (rec_Metadata record) (rec_Files record))
  else fail (StateTransitionError old status).

(** SetUnvettedStatus tries to update the status for an unvetted record. *)
Definition SetUnvettedStatus (token : list byte) (status : MDStatusT)
    (mdAppend mdOverwrite : list MetadataStream) : M Record_ :=
  with_lock (
    down <- gets shutdown ;;
    if down then fail ErrShutdown else
    r <- try (setUnvettedStatus token status mdAppend mdOverwrite) ;;
    match r with
    | Err err =>
        gitStash unvetted ;;;
        gitCheckout unvetted "master" ;;;
        fail err
    | Ok record =>
        gitCheckout unvetted "master" ;;;
        ret record
    end).
End RecordStore.
(** ** gitbe.go: the anchor engine *)

Inductive AnchorType := AnchorInvalid | AnchorUnverified | AnchorVerified.

Record Anchor := mkAnchor {
  a_Type : AnchorType;
  a_Digests : list (list byte);
  a_Messages : list string;
  a_Time : Z }.

Section AnchorEngine.
Context `{Library}.
Local Open Scope go_scope.

(** One line of the log, as the loop of deltaCommits treats it: [None]
    for a commit that is skipped, else the extended digest and the
    one line commit message. *)
Definition delta_line (line : string) : result (option (list byte * string)) :=
  let ds := SplitN2 line in
  if bool_decide (length ds = 0%nat) then Err (Errorf "invalid log") else
  match ds !! 1%nat with
  | None => Err (Panic "index out of range")
  | Some msg =>
      if regexAnchorConfirmation_MatchString msg then Ok None else
      match DecodeString (default EmptyString (ds !! 0%nat)) with
      | None => Err (Errorf "encoding/hex: invalid byte")
      | Some sha1Digest =>
          if negb (bool_decide (length sha1Digest = sha1_Size))
          then Err (Errorf "invalid sha1 size")
          else match extendSHA1 sha1Digest with
               | Err e => Err e
               | Ok sha256DigestB =>
                   Ok (Some (copy (zero_bytes sha256_Size) sha256DigestB, msg))
               end
      end
  end.

Fixpoint delta_lines (out : list string) : result (list (list byte) * list string) :=
  match out with
  | [] => Ok ([], [])
  | line :: rest =>
      match delta_line line with
      | Err e => Err e
      | Ok x =>
          match delta_lines rest with
          | Err e => Err e
          | Ok (digests, commitMessages) =>
              match x with
              | None => Ok (digests, commitMessages)
              | Some (d, m) => Ok (d :: digests, m :: commitMessages)
              end
          end
      end
  end.

(** deltaCommits returns sha1 extended digests and one line commit
    messages to the caller. *)
Definition deltaCommits (path : repo_path) (lastAnchor : list byte)
    : M (list (list byte) * list string * list string) :=
  if negb (bool_decide (length lastAnchor = 0%nat) || bool_decide (length lastAnchor = sha256_Size))
  then fail (Errorf "invalid digest size")
  else
  latestCommit <- gitLastDigest path ;;
  range <- (if negb (bool_decide (length lastAnchor = 0%nat)) then
              sha1LastAnchor <- lift (unextendSHA256 lastAnchor) ;;
              if bool_decide (sha1LastAnchor = latestCommit) then fail errNothingToDo
              else ret (Some (sha1LastAnchor, latestCommit))
            else ret None) ;;
  out <- gitLog path range ;;
  if bool_decide (length out = 0%nat) then fail (Errorf "invalid git output") else
  r <- lift (delta_lines out) ;;
  let '(digests, commitMessages) := r in
  if bool_decide (length digests = 0%nat) then fail errNothingToDo
  else ret (digests, commitMessages, out).

(** util.Timestamp: the digests reach the timestamp service. *)
Definition util_Timestamp (digests : list (list byte)) : M () :=
  external "dcrtime timestamp"
    (modify (λ w, set_dcrtime (w_dcrtime w ++ [digests]) w)).

(** anchor takes a slice of commit digests and anchors them in dcrtime. *)
Definition anchor (digests : list (list byte)) : M () :=
  t <- gets test ;;
  if t then
    match last digests with
    | None => fail (Panic "index out of range")
    | Some k =>
        modify (λ w, set_testAnchors (<[EncodeToString k := false]> (testAnchors w)) w)
    end
  else util_Timestamp digests.

Definition audit_header (ts : Z) (merkle : list byte) : string :=
  FormatInt ts +:+ ": --- Audit Trail Record " +:+ EncodeToString merkle +:+ " ---" +:+ LF.

Definition audit_line (ts : Z) (line : string) : string :=
  FormatInt ts +:+ ": " +:+ Trim line (" " +:+ TAB +:+ LF) +:+ LF.

(** appendAuditTrail adds a record to the audit trail. *)
Definition appendAuditTrail (path : repo_path) (ts : Z) (merkle : list byte)
    (lines : list string) : M () :=
  os_AppendFile path defaultAuditTrailFile
    (bytes_of_string (audit_header ts merkle +:+
                      foldr (λ l acc, audit_line ts l +:+ acc) EmptyString lines)).

(** Modelled from the spec: readLastAnchorRecord belongs to anchor.go,
    which is not part of the sources at hand; the key `last` of the
    anchor state holds the digest the next range starts after. *)
Definition readLastAnchorRecord : M (list byte) :=
  external "leveldb get" (gets w_last).

(** Modelled from the spec: readUnconfirmedAnchorRecord belongs to
    anchor.go; the key `unconfirmed` lists the merkle roots that await
    confirmation. *)
Definition readUnconfirmedAnchorRecord : M (list (list byte)) :=
  external "leveldb get" (gets w_unconfirmed).

(** Modelled from the spec: newAnchorRecord belongs to anchor.go; it
    makes an anchor record over the digests and messages and returns
    the Merkle root of the digests as its key.  merkle.Root sorts the
    slice it is given, so the caller's digests come back sorted. *)
Definition newAnchorRecord (t : AnchorType) (digests : list (list byte))
    (messages : list string) : M (Anchor * list byte * list (list byte)) :=
  if negb (bool_decide (length digests = length messages))
  then fail (Errorf "invalid digest and messages length")
  else
    now <- time_Now_Unix ;;
    ret (mkAnchor t digests messages now, merkle_tree (sort_digests digests),
         sort_digests digests).

Definition anchor_line (digest : list byte) (message : string) : string :=
  EncodeToString digest +:+ " " +:+ message +:+ LF.

(** anchorRepo drops an anchor for an individual repo. *)
Definition anchorRepo (path : repo_path) : M (list byte) :=
  wrap_error "anchor checkout master: " (gitCheckout path "master") ;;;
  wrap_error "anchor fsck master: " (gitFsck path) ;;;
  last <- wrap_error "could not find last digest: " readLastAnchorRecord ;;
  r <- try (deltaCommits path last) ;;
  match r with
  | Err errNothingToDo => fail errNothingToDo
  | Err e => fail (Errorf ("could not determine delta: " +:+ error_text e))
  | Ok (digests, messages, _) =>
      if negb (bool_decide (length digests = length messages))
      then fail (Errorf "invalid digests/messages count")
      else
      let auditLines := zip_with anchor_line digests messages in
      let commitMessage := foldr String.app EmptyString auditLines in
      x <- wrap_error "newAnchorRecord: " (newAnchorRecord AnchorUnverified digests messages) ;;
      let '(anchorRecord, anchorKey, digests) := x in
      let digests := digests ++ [anchorKey] in
      wrap_error "anchor: " (anchor digests) ;;;
      let commitMessage :=
        markerAnchor +:+ " " +:+ EncodeToString anchorKey +:+ LF +:+ LF +:+ commitMessage in
      wrap_error "could not append to audit trail: "
        (appendAuditTrail path (a_Time anchorRecord) anchorKey auditLines) ;;;
      wrap_error "gitAdd: " (gitAdd path defaultAuditTrailFile) ;;;
      wrap_error "gitCommit: " (gitCommit path commitMessage) ;;;
      ret anchorKey
  end.

(** anchorAllRepos verifies if there are new commits in all repos and if
    that is the case it drops and anchor in dcrtime for each of them. *)
Definition anchorAllRepos : M () :=
  wrap_error "anchorAllRepos lock error: " lock_Lock ;;;
  (λ w, let '(r, w') :=
          (down <- gets shutdown ;;
           if down then fail (Errorf "anchorAllRepos: backend is shutdown") else
           r <- try (anchorRepo vetted) ;;
           match r with
           | Err errNothingToDo => ret ()
           | Err e => fail (Errorf ("anchor repo: " +:+ error_text e))
           | Ok mr => gitPull unvetted true
           end) w in
        (r, set_locked false w')).

(** One round of the loop of afterAnchorVerify. *)
Definition confirm_anchor (vr : VerifyDigest) : M () :=
  if bool_decide (ChainTimestamp (vd_ChainInformation vr) = 0%Z)
  then fail (Errorf ("not enough confirmations: " +:+ vd_Digest vr))
  else
  match ConvertDigest (vd_Digest vr) with
  | None => fail (Errorf ("invalid digest: " +:+ vd_Digest vr))
  | Some mr =>
      let txLine := vd_Digest vr +:+ " anchored in TX " +:+
                    Transaction (vd_ChainInformation vr) +:+ LF in
      appendAuditTrail vetted (ChainTimestamp (vd_ChainInformation vr)) mr [txLine] ;;;
      gitAdd vetted defaultAuditTrailFile ;;;
      os_MkdirAll vetted defaultAnchorsDirectory ;;;
      let ar := json_ChainInformation (vd_ChainInformation vr) in
      ioutil_WriteFile vetted (Join defaultAnchorsDirectory (vd_Digest vr)) ar ;;;
      gitAdd vetted (Join defaultAnchorsDirectory (vd_Digest vr)) ;;;
      let commitMsg := markerAnchorConfirmation +:+ " " +:+ vd_Digest vr +:+ LF +:+ LF +:+ txLine in
      gitCommit vetted commitMsg ;;;
      t <- gets test ;;
      if t then modify (λ w, set_testAnchors (<[vd_Digest vr := true]> (testAnchors w)) w)
      else ret ()
  end.

(** afterAnchorVerify completes the anchor verification process. *)
Definition afterAnchorVerify (vrs : list VerifyDigest) : M () :=
  with_lock (
    (if negb (bool_decide (length vrs = 0%nat)) then gitCheckout vetted "master" else ret ()) ;;;
    for_each vrs confirm_anchor ;;;
    if negb (bool_decide (length vrs = 0%nat)) then
      gitCheckout unvetted "master" ;;;
      gitPull unvetted true
    else ret ()).

(** util.Verify for one digest: the answer of the timestamp service. *)
Definition util_Verify (digest : string) : M (list VerifyDigest) :=
  external "dcrtime verify"
    (λ w, match w_authority w !! digest with
          | Some vd => (Ok [vd], w)
          | None => (Ok [], w)
          end).

(** verifyAnchor asks dcrtime if an anchor has been verified and returns
    a TX if it has. *)
Definition verifyAnchor (digest : string) : M VerifyDigest :=
  t <- gets test ;;
  digests <- (if t then
                anchors <- gets testAnchors ;;
                match anchors !! digest with
                | None => fail (Errorf "test not found")
                | Some true => fail (Errorf "already anchored")
                | Some false =>
                    now <- time_Now_Unix ;;
                    ret [mkVerifyDigest digest ResultOK (mkChainInformation now expectedTestTX)]
                end
              else util_Verify digest) ;;
  match digests with
  | [vd] =>
      match vd_Result vd with
      | ResultOK => ret vd
      | _ => fail (Errorf "unexpected result")
      end
  | _ => fail (Errorf "unexpected number of digests")
  end.

(** The verify loop of anchorChecker: a failed verification is logged
    and skipped. *)
Fixpoint verify_all (merkles : list (list byte)) : M (list VerifyDigest) :=
  match merkles with
  | [] => ret []
  | u :: rest =>
      r <- try (verifyAnchor (EncodeToString u)) ;;
      vrs <- verify_all rest ;;
      match r with
      | Err _ => ret vrs
      | Ok vr => ret (vr :: vrs)
      end
  end.

(** anchorChecker does the work for periodicAnchorChecker. *)
Definition anchorChecker : M () :=
  merkles <- wrap_error "anchorChecker read: " readUnconfirmedAnchorRecord ;;
  if bool_decide (length merkles = 0%nat) then ret () else
  vrs <- verify_all merkles ;;
  wrap_error "afterAnchorVerify: " (afterAnchorVerify vrs).
End AnchorEngine.
(** ** A small instance of the interface and sample worlds

    The examples below run the back end on concrete inputs.  The instance
    stands in for the external libraries with functions that are simple
    enough to evaluate. *)

Definition status_code (s : MDStatusT) : byte :=
  match s with
  | MDStatusInvalid => x00
  | MDStatusUnvetted => x01
  | MDStatusVetted => x02
  | MDStatusCensored => x03
  | MDStatusIterationUnvetted => x04
  | MDStatusLocked => x06
  end.

Definition status_of_code (b : byte) : MDStatusT :=
  match b with
  | x01 => MDStatusUnvetted
  | x02 => MDStatusVetted
  | x03 => MDStatusCensored
  | x04 => MDStatusIterationUnvetted
  | x06 => MDStatusLocked
  | _ => MDStatusInvalid
  end.

Lemma sample_sha256_length (b : list byte) :
  length (take 32 (b ++ zero_bytes 32)) = 32%nat.
Proof.
  rewrite length_take, length_app. unfold zero_bytes.
  rewrite length_replicate. lia.
Qed.

Definition sample_library : Library := {|
  MetadataStreamsMax := 16;
  sha256 := λ b, take 32 (b ++ zero_bytes 32);
  sha256_length := sample_sha256_length;
  merkle_tree := λ hs, take 32 (concat hs ++ zero_bytes 32);
  json_RecordMetadata := λ m,
    status_code (Status m) :: byte_of_N (Version m mod 256) ::
    take 32 (Merkle m ++ zero_bytes 32) ++ Token m;
  unjson_RecordMetadata := λ b,
    match b with
    | s :: v :: rest =>
        Some (mkRecordMetadata (Byte.to_N v) (status_of_code s) (take 32 rest) 0%Z (drop 32 rest))
    | _ => None
    end;
  json_ChainInformation := λ c, bytes_of_string (Transaction c);
  Sanitize := λ s, s;
  DetectContentType := λ _, "text/plain; charset=utf-8";
  MimeValid := λ _, true;
  base64_DecodeString := λ s, Some (bytes_of_string s) |}.

Definition sample_token : list byte := replicate 32 xab.
Definition sample_id : string := Eval vm_compute in EncodeToString sample_token.

Definition initial_commit : commit :=
  mkCommit (fresh_digest 0) "Initial commit" {[ ".gitignore" := [] ]}.

Definition initial_repo : repo :=
  mkRepo "master" {[ "master" := [initial_commit] ]} {[ ".gitignore" := [] ]}.

(** Both tiers right after initialisation, with a schedule of faults and
    the values the random source will deliver. *)
Definition initial_world (faults : list bool) (random : list (list byte)) : world :=
  mkWorld initial_repo initial_repo false false false ∅ nil nil nil ∅ 1700000000%Z random 1 faults.

Definition sample_file_digest : string :=
  Eval vm_compute in EncodeToString (take 32 (bytes_of_string "x" ++ zero_bytes 32)).

Definition sample_file : File :=
  mkFile "a.txt" "text/plain; charset=utf-8" sample_file_digest "x".

Definition sample_metadata : MetadataStream := mkMetadataStream 1 "hello".

(** A publication tier with a record, an anchor and its confirmation. *)
Definition sample_root_hex : string :=
  "00112233445566778899aabbccddeeff00112233445566778899aabbccddeeff".

Definition anchored_log : list commit :=
  [ mkCommit (fresh_digest 3)
      ("Anchor confirmation " +:+ sample_root_hex +:+ LF +:+ LF +:+ "tx")
      {[ ".gitignore" := [] ]};
    mkCommit (fresh_digest 2) ("Anchor " +:+ sample_root_hex +:+ LF +:+ LF +:+ "lines")
      {[ ".gitignore" := [] ]};
    mkCommit (fresh_digest 1) ("Add record " +:+ sample_id) {[ ".gitignore" := [] ]};
    initial_commit ].

Definition anchored_repo : repo :=
  mkRepo "master" {[ "master" := anchored_log ]} {[ ".gitignore" := [] ]}.

Definition anchored_world : world :=
  mkWorld anchored_repo anchored_repo false false false ∅ (fresh_digest 0 ++ zero_bytes 12)
    nil nil ∅ 1700000000%Z nil 4 nil.

(** The commits of [anchored_log] that an anchor after the initial commit
    covers: the confirmation is left out. *)
Definition anchored_delta : list commit := take 2 (drop 1 anchored_log).

(** Two answers of the timestamp service: one that still waits for
    confirmations and one that is anchored in a transaction. *)
Definition pending_reply : VerifyDigest :=
  mkVerifyDigest sample_root_hex ResultOK (mkChainInformation 0 EmptyString).

Definition confirmed_reply : VerifyDigest :=
  mkVerifyDigest "ffeeddccbbaa99887766554433221100ffeeddccbbaa99887766554433221100"
    ResultOK (mkChainInformation 1700003600 "tx1").

(** The world after a record was created from [sample_metadata] and
    [sample_file] with the token [sample_token]. *)
Definition recorded_world : world :=
  Eval vm_compute in
    (@New sample_library [sample_metadata] [sample_file]
       (initial_world nil [sample_token])).2.

Definition recorded_log : list commit :=
  Eval vm_compute in default [] (r_branches (w_unvetted recorded_world) !! sample_id).

Definition recorded_metadata : RecordMetadata :=
  mkRecordMetadata 1 MDStatusUnvetted (take 32 (bytes_of_string "x" ++ zero_bytes 32))
    0%Z sample_token.

(** A published record whose status is Locked, in both tiers. *)
Definition locked_metadata : RecordMetadata :=
  mkRecordMetadata 2 MDStatusLocked (take 32 (bytes_of_string "x" ++ zero_bytes 32))
    1700000000%Z sample_token.

Definition locked_tree : tree :=
  {[ ".gitignore" := [];
     Join sample_id defaultRecordMetadataFilename :=
       @json_RecordMetadata sample_library locked_metadata;
     Join (Join sample_id defaultPayloadDir) "a.txt" := bytes_of_string "x" ]}.

Definition locked_log : list commit :=
  [ mkCommit (fresh_digest 1) ("Add record " +:+ sample_id) locked_tree; initial_commit ].

Definition locked_repo : repo :=
  mkRepo "master" {[ "master" := locked_log ]} locked_tree.

Definition locked_world : world :=
  mkWorld locked_repo locked_repo false false false ∅ nil nil nil ∅ 1700000000%Z nil 2 nil.

Definition sample_file_b : File :=
  mkFile "b.txt" "text/plain; charset=utf-8" sample_file_digest "x".

(** The world after the record of [recorded_world] was published. *)
Definition published_world : world :=
  Eval vm_compute in
    (@SetUnvettedStatus sample_library sample_token MDStatusVetted nil nil recorded_world).2.

Definition published_log : list commit :=
  Eval vm_compute in default [] (r_branches (w_unvetted published_world) !! "master").

(** ** gitbe.go: helpers, the read side and shutdown *)

(** extendSHA1FromString takes a string and ensures it is a digest and
    then extends it using extendSHA1.  It returns a string representation
    of the digest. *)
Definition extendSHA1FromString (s : string) : result string :=
  match DecodeString s with
  | None => Err (Errorf ("not hex: " +:+ s))
  | Some ds =>
      match extendSHA1 ds with
      | Err e => Err e
      | Ok d => Ok (EncodeToString d)
      end
  end.

(** mdFilename generates the proper filename for a specified repo +
    proposal and metadata stream.  The result is relative to the root of
    the repository [path]; the [int] is converted to uint64. *)
Definition mdFilename (path : repo_path) (id : string) (mdID : Z) : string :=
  Join id (FormatUint (Z.to_N (mdID mod 2 ^ 64)) +:+ defaultMDFilenameSuffix).

Definition set_shutdown (b : bool) (w : world) : world :=
  mkWorld (w_unvetted w) (w_vetted w) (w_locked w) b (test w) (testAnchors w)
    (w_last w) (w_unconfirmed w) (w_dcrtime w) (w_authority w) (w_clock w)
    (w_random w) (w_commits w) (w_faults w).

(** The entries of the root directory of a repository, sorted by name.
    The directory of git itself is not part of the model. *)
Definition root_entries (t : tree) : list FileInfo :=
  merge_sort FileInfo_le
    (remove_dups ((λ path, let '(e, more) := first_element path in mkFileInfo e more)
                    <$> (map_to_list t).*1)).

(** ioutil.ReadDir on the root directory of a repository. *)
Definition ioutil_ReadDir_root (p : repo_path) : M (list FileInfo) :=
  external "read dir" (λ w, (Ok (root_entries (r_work (repo_of p w))), w)).

(** util.LoadFile belongs to the util package, which is not part of the
    sources at hand: it reads the named file and returns its MIME type,
    its digest and its payload.  What it makes of the bytes is left
    open. *)
Class FileLoader := {
  LoadFile_of : string → list byte → result (string * string * string) }.

Section ReadSide.
Context `{Library} `{FileLoader}.
Local Open Scope go_scope.

Definition util_LoadFile (p : repo_path) (filename : string)
    : M (string * string * string) :=
  b <- ioutil_ReadFile p filename ;;
  lift (LoadFile_of filename b).

(** loadRecord loads an entire record of disk.  It returns an array of
    backend.File that is completely filled out. *)
Definition loadRecord (path : repo_path) (id : string) : M (list File) :=
  let recordDir := Join id defaultPayloadDir in
  files <- ioutil_ReadDir path recordDir ;;
  map_M files (λ file,
    let fn := Join recordDir (fi_Name file) in
    if fi_IsDir file then fail (Errorf "record corrupt")
    else
      x <- util_LoadFile path fn ;;
      ret (mkFile (fi_Name file) x.1.1 x.1.2 x.2)).

(** _getRecord with its argument includeFiles: loads a record from the
    current branch on the provided repo. *)
Definition _getRecordFiles (id : string) (repo : repo_path) (includeFiles : bool)
    : M Record_ :=
  brm <- loadMD repo id ;;
  mds <- loadMDStreams repo id ;;
  files <- (if includeFiles then loadRecord repo id else ret []) ;;
  ret (mkRecord brm mds files).

(** getRecord is the generic implementation of GetUnvetted/GetVetted.
    It returns a record record from the provided repo.  The checkout of
    master is deferred once the branch is checked out; its error is
    logged and lost. *)
Definition getRecord (token : list byte) (repo : repo_path) (includeFiles : bool)
    : M Record_ :=
  let id := EncodeToString token in
  (if bool_decide (repo = unvetted) then
     (r <- try (gitCheckout repo id) ;;
      match r with Err _ => fail ErrRecordNotFound | Ok _ => ret () end) ;;;
     r <- try (gitBranchNow repo) ;;
     match r with
     | Ok branchNow =>
         if bool_decide (branchNow = id) then ret () else fail ErrRecordNotFound
     | Err _ => fail ErrRecordNotFound
     end
   else ret ()) ;;;
  r <- try (_getRecordFiles id repo includeFiles) ;;
  try (gitCheckout repo "master") ;;;
  lift r.

(** getRecordLock is the generic implementation of
    GetUnvetted/GetVetted.  It returns a record record from the provided
    repo. *)
Definition getRecordLock (token : list byte) (repo : repo_path) (includeFiles : bool)
    : M Record_ :=
  with_lock (
    down <- gets shutdown ;;
    if down then fail ErrShutdown else
    getRecord token repo includeFiles).

(** GetUnvetted checks out branch token and returns the content of
    unvetted/token directory. *)
Definition GetUnvetted (token : list byte) : M Record_ :=
  getRecordLock token unvetted true.

(** GetVetted returns the content of vetted/token directory. *)
Definition GetVetted (token : list byte) : M Record_ :=
  getRecordLock token vetted true.

(** One of the two walks of Inventory: names that are no digests are
    skipped, the first record that cannot be read ends the walk. *)
Fixpoint inventory_walk (repo : repo_path) (names : list string) (includeFiles : bool)
    : M (list Record_) :=
  match names with
  | [] => ret []
  | id :: rest =>
      if negb (IsDigest id) then inventory_walk repo rest includeFiles
      else
        match DecodeString id with
        | None => fail (Errorf "encoding/hex: invalid byte")
        | Some ids =>
            prv <- getRecord ids repo includeFiles ;;
            prs <- inventory_walk repo rest includeFiles ;;
            ret (prv :: prs)
        end
  end.

(** Inventory returns an inventory of vetted and unvetted records.  If
    includeFiles is set the content is also returned. *)
Definition Inventory (vettedCount branchCount : N) (includeFiles : bool)
    : M (list Record_ * list Record_) :=
  with_lock (
    down <- gets shutdown ;;
    if down then fail ErrShutdown else
    files <- ioutil_ReadDir_root vetted ;;
    pr <- inventory_walk vetted (fi_Name <$> files) includeFiles ;;
    branches <- gitBranches unvetted ;;
    br <- inventory_walk unvetted branches includeFiles ;;
    ret (pr, br)).

(** Close shuts down the backend.  It obtains the lock and sets the
    shutdown boolean to true.  A lock error is logged, nothing is
    returned.  The channel g.exit is closed by Close and by nothing
    else, and g.shutdown is set by Close and by nothing else: the
    channel is closed exactly when shutdown is set, and closing it
    again panics, with the lock released by the deferred Unlock. *)
Definition Close : M () :=
  r <- try lock_Lock ;;
  match r with
  | Err _ => ret ()
  | Ok _ =>
      (λ w, let '(r, w') :=
              (closed <- gets shutdown ;;
               modify (set_shutdown true) ;;;
               if closed then fail (Panic "close of closed channel") else ret ()) w in
            (r, set_locked false w'))
  end.

(** anchorAllReposCronJob is the cron job that anchors all repos at a
    preset time.  The error is logged. *)
Definition anchorAllReposCronJob : M () :=
  try anchorAllRepos ;;; ret ().
End ReadSide.

(** A loader for the examples: plain text, the digest of [sample_library]
    in hexadecimal, and the bytes as they are for the payload. *)
Definition sample_loader : FileLoader := {|
  LoadFile_of := λ _ b,
    Ok ("text/plain; charset=utf-8", EncodeToString (take 32 (b ++ zero_bytes 32)),
        string_of_bytes b) |}.

(** A backend whose lock is held, and one that is shut down. *)
Definition held_world : world := set_locked true recorded_world.
Definition closed_world : world := set_shutdown true recorded_world.

(** A fresh backend in test mode, and one whose last anchor is the head
    of master. *)
Definition test_world : world :=
  mkWorld initial_repo initial_repo false false true ∅ nil nil nil ∅ 1700000000%Z nil 1 nil.

Definition idle_world : world :=
  mkWorld initial_repo initial_repo false false false ∅
    (c_digest initial_commit ++ zero_bytes 12) nil nil ∅ 1700000000%Z nil 1 nil.
(** * Properties *)

Lemma forallb_zero_spec (l : list byte) :
  forallb (λ x, bool_decide (x = x00)) l = true ↔ l = zero_bytes (length l).
Proof.
  induction l as [|x l IH]; simpl; [done|].
  rewrite andb_true_iff, bool_decide_eq_true, IH. unfold zero_bytes. simpl.
  split; [intros [-> <-]; done|]. intros [= -> Hl]. done.
Qed.

Lemma copy_zero_take (n : nat) (x : list byte) :
  (n ≤ length x)%nat → copy (zero_bytes n) x = take n x.
Proof.
  intros Hn. unfold copy, zero_bytes. rewrite length_replicate.
  rewrite drop_ge by (rewrite length_replicate; lia). apply app_nil_r.
Qed.

Lemma copy_zero_pad (n : nat) (x : list byte) :
  (length x ≤ n)%nat → copy (zero_bytes n) x = x ++ zero_bytes (n - length x).
Proof.
  intros Hn. unfold copy, zero_bytes. rewrite length_replicate.
  rewrite take_ge by lia. by rewrite drop_replicate.
Qed.

Lemma extendSHA1_ok (d : list byte) :
  length d = sha1_Size → extendSHA1 d = Ok (d ++ zero_bytes 12).
Proof.
  intros Hd. unfold extendSHA1. rewrite decide_False by (by intros ?).
  rewrite copy_zero_pad by (rewrite Hd; unfold sha1_Size, sha256_Size; lia).
  by rewrite Hd.
Qed.

Lemma unextendSHA256_ok (x : list byte) :
  length x = sha256_Size → drop sha1_Size x = zero_bytes 12 →
  unextendSHA256 x = Ok (take sha1_Size x).
Proof.
  intros Hx Hz. unfold unextendSHA256. rewrite decide_False by (by intros ?).
  assert (forallb (λ b, bool_decide (b = x00)) (drop sha1_Size x) = true) as ->.
  { apply forallb_zero_spec. rewrite Hz at 1. f_equal. rewrite Hz. done. }
  rewrite copy_zero_take; [done|]. rewrite Hx. unfold sha1_Size, sha256_Size. lia.
Qed.

(** C10: a 20-byte digest survives the round trip through its 32-byte
    extension; the extension is 32 bytes long and ends in twelve zero
    bytes; unextendSHA256 succeeds exactly on 32-byte inputs whose last
    twelve bytes are zero and panics on every other input. *)
Theorem extend_unextend_roundtrip (d x : list byte) :
  length d = sha1_Size →
  (∃ e, extendSHA1 d = Ok e ∧ length e = sha256_Size ∧
        take sha1_Size e = d ∧ drop sha1_Size e = zero_bytes 12 ∧
        unextendSHA256 e = Ok d) ∧
  match unextendSHA256 x with
  | Ok y => length x = sha256_Size ∧ drop sha1_Size x = zero_bytes 12 ∧
            y = take sha1_Size x
  | Err e => (∃ msg, e = Panic msg) ∧
             ¬ (length x = sha256_Size ∧ drop sha1_Size x = zero_bytes 12)
  end.
Proof.
  intros Hd. split.
  - exists (d ++ zero_bytes 12).
    assert (length (d ++ zero_bytes 12) = sha256_Size) as Hlen.
    { rewrite length_app, Hd. done. }
    assert (take sha1_Size (d ++ zero_bytes 12) = d) as Htake.
    { rewrite take_app_length'; done. }
    assert (drop sha1_Size (d ++ zero_bytes 12) = zero_bytes 12) as Hdrop.
    { rewrite drop_app_length'; done. }
    split_and!; try done.
    + by apply extendSHA1_ok.
    + rewrite unextendSHA256_ok by done. by rewrite Htake.
  - unfold unextendSHA256. destruct (decide (length x ≠ sha256_Size)) as [Hne|He].
    { split; [eauto|]. intros [? _]. done. }
    apply dec_stable in He.
    destruct (forallb _ (drop sha1_Size x)) eqn:Hz.
    + apply forallb_zero_spec in Hz. rewrite length_drop, He in Hz.
      split_and!; try done.
      apply copy_zero_take. rewrite He. unfold sha1_Size, sha256_Size. lia.
    + split; [eauto|]. intros [_ Hd'].
      assert (forallb (λ b, bool_decide (b = x00)) (drop sha1_Size x) = true);
        [|congruence].
      apply forallb_zero_spec. rewrite Hd' at 1. f_equal. by rewrite Hd'.
Qed.

Lemma extend_unextend_roundtrip_witness :
  (∃ e, extendSHA1 (replicate 20 x2a) = Ok e ∧ length e = sha256_Size ∧
        take sha1_Size e = replicate 20 x2a ∧
        drop sha1_Size e = zero_bytes 12 ∧
        unextendSHA256 e = Ok (replicate 20 x2a)) ∧
  match unextendSHA256 (replicate 32 x01) with
  | Ok y => length (replicate 32 x01) = sha256_Size ∧
            drop sha1_Size (replicate 32 x01) = zero_bytes 12 ∧
            y = take sha1_Size (replicate 32 x01)
  | Err e => (∃ msg, e = Panic msg) ∧
             ¬ (length (replicate 32 x01) = sha256_Size ∧
                drop sha1_Size (replicate 32 x01) = zero_bytes 12)
  end.
Proof. apply (extend_unextend_roundtrip (replicate 20 x2a) (replicate 32 x01)). reflexivity. Defined.

(** ** Running the monad *)

Lemma bind_ok_inv {A B} (m : M A) (k : A → M B) (w w' : world) (b : B) :
  bind m k w = (Ok b, w') → ∃ a w1, m w = (Ok a, w1) ∧ k a w1 = (Ok b, w').
Proof.
  unfold bind. destruct (m w) as [[a|e] w1]; [eauto|]. intros [=].
Qed.

Lemma bind_run {A B} (m : M A) (k : A → M B) (w w1 : world) (a : A) :
  m w = (Ok a, w1) → bind m k w = k a w1.
Proof. unfold bind. by intros ->. Qed.

Lemma bind_err {A B} (m : M A) (k : A → M B) (w w1 : world) (e : error) :
  m w = (Err e, w1) → bind m k w = (Err e, w1).
Proof. unfold bind. by intros ->. Qed.

Lemma try_ok_inv {A} (m : M A) (w w' : world) (r : result A) :
  try m w = (Ok r, w') ↔ m w = (r, w').
Proof.
  unfold try. destruct (m w) as [r1 w1]. split; intros [= -> ->]; done.
Qed.

Lemma try_run {A} (m : M A) (w : world) : try m w = (Ok (m w).1, (m w).2).
Proof. unfold try. by destruct (m w). Qed.

Lemma set_faults_id (w : world) : set_faults (w_faults w) w = w.
Proof. by destruct w. Qed.

Lemma external_nofault {A} (what : string) (m : M A) (w : world) :
  w_faults w = [] → external what m w = m w.
Proof. unfold external. by intros ->. Qed.

Lemma external_ok_inv {A} (what : string) (m : M A) (w w' : world) (a : A) :
  external what m w = (Ok a, w') → ∃ fs, m (set_faults fs w) = (Ok a, w').
Proof.
  unfold external. destruct (w_faults w) as [|[] fs] eqn:Hf.
  - intros Hm. exists []. by rewrite <-Hf, set_faults_id.
  - intros [=].
  - eauto.
Qed.

Lemma repo_of_set_faults (p : repo_path) (fs : list bool) (w : world) :
  repo_of p (set_faults fs w) = repo_of p w.
Proof. by destruct p. Qed.

Lemma repo_of_set_repo (p : repo_path) (r : repo) (w : world) :
  repo_of p (set_repo p r w) = r.
Proof. by destruct p. Qed.

Lemma set_repo_id (p : repo_path) (w : world) : set_repo p (repo_of p w) w = w.
Proof. by destruct p, w. Qed.

Lemma for_each_app {A} (l1 l2 : list A) (body : A → M ()) (w : world) :
  for_each (l1 ++ l2) body w = bind (for_each l1 body) (λ _, for_each l2 body) w.
Proof.
  revert w. induction l1 as [|x l1 IH]; intros w; simpl.
  { unfold bind, ret. done. }
  unfold bind in *. destruct (body x w) as [[[]|e] w1]; [|done].
  apply IH.
Qed.

Lemma run_ok_unit_eq (p : result () * world) : p.1 = Ok () → p = (Ok (), p.2).
Proof. destruct p as [r w]. cbn. by intros ->. Qed.

Lemma run_err_eq {A} (p : result A * world) (e : error) :
  p.1 = Err e → p = (Err e, p.2).
Proof. destruct p as [r w]. cbn. by intros ->. Qed.

(** ** Properties that every step of a computation keeps *)

Definition preserves {A} (I : world → Prop) (m : M A) : Prop :=
  ∀ w, I w → I (m w).2.

Section Preserves.
Context (I : world → Prop).

Lemma preserves_ret {A} (a : A) : preserves I (ret a).
Proof. by intros w. Qed.
Lemma preserves_fail {A} (e : error) : preserves I (@fail A e).
Proof. by intros w. Qed.
Lemma preserves_gets {A} (f : world → A) : preserves I (gets f).
Proof. by intros w. Qed.
Lemma preserves_lift {A} (r : result A) : preserves I (lift r).
Proof. by intros w. Qed.
Lemma preserves_modify (f : world → world) :
  (∀ w, I w → I (f w)) → preserves I (modify f).
Proof. intros Hf w. apply Hf. Qed.

Lemma preserves_bind {A B} (m : M A) (k : A → M B) :
  preserves I m → (∀ a, preserves I (k a)) → preserves I (bind m k).
Proof.
  intros Hm Hk w Hw. unfold bind. specialize (Hm w Hw).
  destruct (m w) as [[a|e] w1]; [|done]. by apply Hk.
Qed.

Lemma preserves_try {A} (m : M A) : preserves I m → preserves I (try m).
Proof. intros Hm w Hw. unfold try. specialize (Hm w Hw). by destruct (m w). Qed.

Lemma preserves_wrap_error {A} (prefix : string) (m : M A) :
  preserves I m → preserves I (wrap_error prefix m).
Proof.
  intros Hm w Hw. unfold wrap_error. specialize (Hm w Hw).
  by destruct (m w) as [[a|e] w1].
Qed.

Lemma preserves_for_each {A} (l : list A) (body : A → M ()) :
  (∀ x, preserves I (body x)) → preserves I (for_each l body).
Proof.
  intros Hb. induction l as [|x l IH]; simpl.
  - apply preserves_ret.
  - apply preserves_bind; [apply Hb|]. intros _. apply IH.
Qed.

Lemma preserves_map_M {A B} (l : list A) (body : A → M B) :
  (∀ x, preserves I (body x)) → preserves I (map_M l body).
Proof.
  intros Hb. induction l as [|x l IH]; simpl.
  - apply preserves_ret.
  - apply preserves_bind; [apply Hb|]. intros y.
    apply preserves_bind; [apply IH|]. intros ys. apply preserves_ret.
Qed.

(** What follows needs [I] not to look at the fault schedule or at the
    lock. *)
Hypothesis I_faults : ∀ fs w, I w → I (set_faults fs w).
Hypothesis I_locked : ∀ b w, I w → I (set_locked b w).

Lemma preserves_external {A} (what : string) (m : M A) :
  preserves I m → preserves I (external what m).
Proof.
  intros Hm w Hw. unfold external.
  destruct (w_faults w) as [|[] fs]; simpl; auto.
Qed.

Lemma preserves_with_lock {A} (body : M A) :
  preserves I body → preserves I (with_lock body).
Proof.
  intros Hb. unfold with_lock. apply preserves_bind.
  - unfold lock_Lock. apply preserves_external. intros w Hw.
    destruct (w_locked w); simpl; auto.
  - intros _ w Hw. specialize (Hb w Hw). destruct (body w) as [r w1]. simpl in *.
    auto.
Qed.
End Preserves.

(** Breaks a computation into its calls; [leaf] has to show that a single
    state change keeps the property. *)
Ltac preserves_with I_faults I_locked leaf :=
  repeat first
    [ match goal with
      | |- preserves ?I (external _ _) => apply (preserves_external I I_faults)
      | |- preserves ?I (with_lock _) => apply (preserves_with_lock I I_faults I_locked)
      | |- preserves _ (match ?x with _ => _ end) => destruct x
      end
    | apply preserves_ret | apply preserves_fail | apply preserves_gets
    | apply preserves_lift
    | apply preserves_try | apply preserves_wrap_error
    | apply preserves_for_each; intros ?
    | apply preserves_map_M; intros ?
    | apply preserves_bind; [|intros ?]
    | progress cbv beta zeta
    | (intros ? ?; cbv beta; repeat case_match; cbn [fst snd]; leaf) ].

Ltac world_cases :=
  repeat match goal with p : repo_path |- _ => destruct p end;
  repeat match goal with w : world |- _ => destruct w end;
  simpl in *; try done.


(** ** Pre- and postconditions of computations *)

Definition hoare {A} (P : world → Prop) (m : M A) (Q : result A → world → Prop) : Prop :=
  ∀ w, P w → Q (m w).1 (m w).2.

Lemma hoare_conseq {A} (P P' : world → Prop) (m : M A) (Q Q' : result A → world → Prop) :
  hoare P' m Q' → (∀ w, P w → P' w) → (∀ r w, Q' r w → Q r w) → hoare P m Q.
Proof. intros Hm HP HQ w Hw. apply HQ, Hm, HP, Hw. Qed.

Lemma hoare_ret {A} (P : world → Prop) (a : A) (Q : result A → world → Prop) :
  (∀ w, P w → Q (Ok a) w) → hoare P (ret a) Q.
Proof. intros HQ w Hw. by apply HQ. Qed.

Lemma hoare_fail {A} (P : world → Prop) (e : error) (Q : result A → world → Prop) :
  (∀ w, P w → Q (Err e) w) → hoare P (fail e) Q.
Proof. intros HQ w Hw. by apply HQ. Qed.

Lemma hoare_gets {A} (P : world → Prop) (f : world → A) (Q : result A → world → Prop) :
  (∀ w, P w → Q (Ok (f w)) w) → hoare P (gets f) Q.
Proof. intros HQ w Hw. by apply HQ. Qed.

Lemma hoare_lift {A} (P : world → Prop) (r : result A) (Q : result A → world → Prop) :
  (∀ w, P w → Q r w) → hoare P (lift r) Q.
Proof. intros HQ w Hw. by apply HQ. Qed.

Lemma hoare_modify (P : world → Prop) (f : world → world) (Q : result () → world → Prop) :
  (∀ w, P w → Q (Ok ()) (f w)) → hoare P (modify f) Q.
Proof. intros HQ w Hw. by apply HQ. Qed.

Lemma hoare_bind {A B} (P : world → Prop) (m : M A) (k : A → M B)
    (R : A → world → Prop) (Q : result B → world → Prop) :
  hoare P m (λ r w, match r with Ok a => R a w | Err e => Q (Err e) w end) →
  (∀ a, hoare (R a) (k a) Q) →
  hoare P (bind m k) Q.
Proof.
  intros Hm Hk w Hw. specialize (Hm w Hw). unfold bind.
  destruct (m w) as [[a|e] w1]; simpl in *; [|done]. by apply Hk.
Qed.

Lemma hoare_try {A} (P : world → Prop) (m : M A) (Q : result (result A) → world → Prop) :
  hoare P m (λ r w, Q (Ok r) w) → hoare P (try m) Q.
Proof. intros Hm w Hw. specialize (Hm w Hw). unfold try. by destruct (m w). Qed.

Lemma hoare_wrap_error {A} (P : world → Prop) (prefix : string) (m : M A)
    (Q : result A → world → Prop) :
  hoare P m (λ r w, match r with
                    | Ok a => Q (Ok a) w
                    | Err e => Q (Err (Errorf (prefix +:+ error_text e))) w
                    end) →
  hoare P (wrap_error prefix m) Q.
Proof.
  intros Hm w Hw. specialize (Hm w Hw). unfold wrap_error.
  by destruct (m w) as [[a|e] w1].
Qed.

(** An external call fails with its own error and without effect, or runs. *)
Lemma hoare_external {A} (P : world → Prop) (what : string) (m : M A)
    (Q : result A → world → Prop) :
  (∀ fs w, P w → P (set_faults fs w)) →
  (∀ w, P w → Q (Err (Errorf what)) w) →
  hoare P m Q → hoare P (external what m) Q.
Proof.
  intros HP He Hm w Hw. unfold external.
  destruct (w_faults w) as [|[] fs]; simpl; auto.
Qed.

Lemma hoare_with_lock {A} (P : world → Prop) (body : M A) (Q : result A → world → Prop) :
  (∀ fs w, P w → P (set_faults fs w)) →
  (∀ b w, P w → P (set_locked b w)) →
  (∀ w, P w → Q (Err (Errorf "lock timeout")) w) →
  hoare P body (λ r w, Q r (set_locked false w)) →
  hoare P (with_lock body) Q.
Proof.
  intros HPf HPl He Hb. unfold with_lock.
  apply hoare_bind with (R := λ _, P).
  - unfold lock_Lock. apply hoare_external; [done|done|].
    intros w Hw. destruct (w_locked w); simpl; auto.
  - intros _ w Hw. specialize (Hb w Hw). by destruct (body w).
Qed.

Lemma hoare_for_each {A} (I : world → Prop) (l : list A) (body : A → M ())
    (Q : result () → world → Prop) :
  (∀ x, x ∈ l → hoare I (body x) (λ r w, match r with Ok _ => I w | Err e => Q (Err e) w end)) →
  (∀ w, I w → Q (Ok ()) w) →
  hoare I (for_each l body) Q.
Proof.
  intros Hb Hq. induction l as [|x l IH]; simpl.
  - by apply hoare_ret.
  - eapply hoare_bind with (R := λ _, I).
    + apply Hb. left.
    + intros _. apply IH. intros y Hy. apply Hb. by right.
Qed.

Lemma preserves_hoare {A} (I : world → Prop) (m : M A) :
  preserves I m → hoare I m (λ _ w, I w).
Proof. intros Hm w Hw. by apply Hm. Qed.

(** ** Facts about single calls *)

Lemma try_inv {A} (m : M A) (w w' : world) (r : result A) :
  try m w = (Ok r, w') → m w = (r, w').
Proof. apply try_ok_inv. Qed.

Lemma gitCheckout_ok_inv (p : repo_path) (b : string) (w w' : world) :
  gitCheckout p b w = (Ok (), w') →
  ∃ fs log, r_branches (repo_of p w) !! b = Some log ∧
            is_clean (repo_of p w) = true ∧
            w' = set_repo p (mkRepo b (r_branches (repo_of p w)) (branch_tree log))
                   (set_faults fs w).
Proof.
  intros [fs Hm]%external_ok_inv. cbv beta zeta in Hm.
  rewrite !repo_of_set_faults in Hm.
  destruct (r_branches (repo_of p w) !! b) as [log|]; [|done].
  destruct (is_clean (repo_of p w)); [|done].
  injection Hm as <-. eauto.
Qed.

Lemma gitCheckout_nofault (p : repo_path) (b : string) (w : world) (log : list commit) :
  w_faults w = [] → r_branches (repo_of p w) !! b = Some log →
  is_clean (repo_of p w) = true →
  gitCheckout p b w =
    (Ok (), set_repo p (mkRepo b (r_branches (repo_of p w)) (branch_tree log)) w).
Proof.
  intros Hf Hb Hc. unfold gitCheckout. rewrite external_nofault by done.
  by rewrite Hb, Hc.
Qed.

Lemma ioutil_ReadFile_ok_inv (p : repo_path) (path : string) (w w' : world) (b : list byte) :
  ioutil_ReadFile p path w = (Ok b, w') →
  r_work (repo_of p w) !! path = Some b ∧ ∃ fs, w' = set_faults fs w.
Proof.
  intros [fs Hm]%external_ok_inv. cbv beta zeta in Hm.
  rewrite !repo_of_set_faults in Hm.
  destruct (r_work (repo_of p w) !! path) as [b'|]; [|done].
  injection Hm as <- <-. eauto.
Qed.

Lemma ioutil_ReadFile_nofault (p : repo_path) (path : string) (w : world) (b : list byte) :
  w_faults w = [] → r_work (repo_of p w) !! path = Some b →
  ioutil_ReadFile p path w = (Ok b, w).
Proof.
  intros Hf Hb. unfold ioutil_ReadFile. rewrite external_nofault by done. by rewrite Hb.
Qed.

Lemma with_lock_ok_inv {A} (body : M A) (w w' : world) (a : A) :
  with_lock body w = (Ok a, w') →
  ∃ fs w1, body (set_locked true (set_faults fs w)) = (Ok a, w1) ∧ w' = set_locked false w1.
Proof.
  unfold with_lock. intros ([] & w0 & Hl & Hb)%bind_ok_inv.
  unfold lock_Lock in Hl. apply external_ok_inv in Hl as [fs Hl].
  cbv beta in Hl. destruct (w_locked (set_faults fs w)); [done|]. injection Hl as <-.
  destruct (body _) as [r w1] eqn:Hr. injection Hb as -> <-. eauto.
Qed.

Lemma with_lock_nofault {A} (body : M A) (w : world) :
  w_faults w = [] → w_locked w = false →
  with_lock body w =
    ((body (set_locked true w)).1, set_locked false (body (set_locked true w)).2).
Proof.
  intros Hf Hl. unfold with_lock, lock_Lock, bind.
  rewrite external_nofault by done. rewrite Hl. by destruct (body _).
Qed.

Lemma map_M_nofault {A B} (l : list A) (body : A → M B) (f : A → B) (w : world) :
  Forall (λ x, body x w = (Ok (f x), w)) l →
  map_M l body w = (Ok (f <$> l), w).
Proof.
  induction 1 as [|x l Hx Hl IH]; [done|].
  cbn [map_M]. rewrite (bind_run _ _ _ _ _ Hx). rewrite (bind_run _ _ _ _ _ IH). done.
Qed.

Lemma for_each_nofault {A} (l : list A) (body : A → M ()) (w : world) :
  Forall (λ x, body x w = (Ok (), w)) l →
  for_each l body w = (Ok (), w).
Proof.
  induction 1 as [|x l Hx Hl IH]; [done|].
  cbn [for_each]. by rewrite (bind_run _ _ _ _ _ Hx).
Qed.

(** ** Status changes *)

(** The transitions that the lifecycle of the specification permits for
    SetUnvettedStatus. *)
Definition transition_permitted (from to : MDStatusT) : Prop :=
  ((from = MDStatusUnvetted ∨ from = MDStatusIterationUnvetted) ∧ to = MDStatusVetted) ∨
  (from = MDStatusUnvetted ∧ to = MDStatusCensored).

(** A directory entry that loadMDStreams can take in: a metadata stream
    file carries a number and can be read. *)
Definition stream_entry_ok (t : tree) (id : string) (v : FileInfo) : Prop :=
  HasSuffix (fi_Name v) defaultMDFilenameSuffix = true →
  is_Some (ParseUint (TrimSuffix (fi_Name v) defaultMDFilenameSuffix)) ∧
  is_Some (t !! Join id (fi_Name v)).

Section StatusChange.
Context `{Library}.

Lemma loadMD_ok_inv (p : repo_path) (id : string) (w w' : world) (brm : RecordMetadata) :
  loadMD p id w = (Ok brm, w') →
  ∃ b, r_work (repo_of p w) !! Join id defaultRecordMetadataFilename = Some b ∧
       unjson_RecordMetadata b = Some brm ∧ ∃ fs, w' = set_faults fs w.
Proof.
  unfold loadMD. intros (r & w1 & Hr & Hk)%bind_ok_inv.
  apply try_inv in Hr. destruct r as [b|e].
  - apply ioutil_ReadFile_ok_inv in Hr as (Hb & fs & ->).
    exists b. destruct (unjson_RecordMetadata b) as [m|]; [|done].
    injection Hk as <- <-. eauto.
  - by destruct e.
Qed.

Lemma loadMD_nofault (p : repo_path) (id : string) (w : world) (b : list byte)
    (brm : RecordMetadata) :
  w_faults w = [] →
  r_work (repo_of p w) !! Join id defaultRecordMetadataFilename = Some b →
  unjson_RecordMetadata b = Some brm →
  loadMD p id w = (Ok brm, w).
Proof.
  intros Hf Hb Hj. unfold loadMD.
  rewrite (bind_run _ _ w w (Ok b)).
  - by rewrite Hj.
  - by rewrite try_run, (ioutil_ReadFile_nofault _ _ _ b).
Qed.

Lemma loadMDStreams_nofault (p : repo_path) (id : string) (w : world) :
  w_faults w = [] →
  dir_entries (r_work (repo_of p w)) id ≠ [] →
  Forall (stream_entry_ok (r_work (repo_of p w)) id) (dir_entries (r_work (repo_of p w)) id) →
  ∃ mds, loadMDStreams p id w = (Ok mds, w).
Proof.
  intros Hf Hne Hok. unfold loadMDStreams.
  rewrite (bind_run _ _ w w (dir_entries (r_work (repo_of p w)) id)).
  2: { unfold ioutil_ReadDir. rewrite external_nofault by done. by rewrite decide_False. }
  set (es := dir_entries _ _) in *. clearbody es.
  assert (∃ mss, map_M es (λ v,
    if negb (HasSuffix (fi_Name v) defaultMDFilenameSuffix) then ret None
    else match ParseUint (TrimSuffix (fi_Name v) defaultMDFilenameSuffix) with
         | None => fail (Errorf "strconv.ParseUint: invalid syntax")
         | Some mdid =>
             bind (ioutil_ReadFile p (Join id (fi_Name v)))
               (λ md, ret (Some (mkMetadataStream mdid (string_of_bytes md))))
         end) w = (Ok mss, w)) as [mss Hmss].
  { clear Hne. induction Hok as [|v es Hv Hes IH].
    - by eexists.
    - destruct IH as [mss IH]. cbn [map_M].
      destruct (HasSuffix (fi_Name v) defaultMDFilenameSuffix) eqn:Hs.
      + destruct (Hv Hs) as [[n Hn] [b Hb]]. cbn [negb]. rewrite Hn.
        eexists. erewrite bind_run.
        2: { erewrite bind_run; [reflexivity|]. by apply ioutil_ReadFile_nofault. }
        by rewrite (bind_run _ _ _ _ _ IH).
      + cbn [negb]. eexists. rewrite (bind_run _ _ w w None) by done.
        by rewrite (bind_run _ _ _ _ _ IH). }
  rewrite (bind_run _ _ _ _ _ Hmss). by eexists.
Qed.
End StatusChange.

(** ** Directories *)

Lemma append_cons (x : ascii) (a b : string) : String x a +:+ b = String x (a +:+ b).
Proof. reflexivity. Qed.

Lemma append_nil (b : string) : EmptyString +:+ b = b.
Proof. reflexivity. Qed.

Lemma strip_prefix_app (p s : string) : strip_prefix p (p +:+ s) = Some s.
Proof.
  induction p as [|a p IH]; [by destruct s|].
  rewrite append_cons. simpl. by rewrite decide_True.
Qed.

Lemma strip_prefix_Some (p s r : string) : strip_prefix p s = Some r → s = p +:+ r.
Proof.
  revert s. induction p as [|a p IH]; intros s; simpl.
  - by intros [= ->].
  - destruct s as [|b s]; [done|]. case_decide; [|done]. subst. intros Hs.
    by rewrite append_cons, (IH _ Hs).
Qed.

Lemma append_assoc (a b c : string) : (a +:+ b) +:+ c = a +:+ (b +:+ c).
Proof. induction a as [|x a IH]; [done|]. by rewrite !append_cons, IH. Qed.

Lemma strip_prefix_Join (dir n : string) : strip_prefix (dir +:+ "/") (Join dir n) = Some n.
Proof. unfold Join. rewrite <-append_assoc. apply strip_prefix_app. Qed.

(** A name without a path separator. *)
Definition plain_name (s : string) : Prop := "/"%char ∉ list_ascii_of_string s.

Lemma first_element_plain (n : string) : plain_name n → first_element n = (n, false).
Proof.
  unfold plain_name. induction n as [|c n IH]; simpl; [done|].
  intros Hn. rewrite not_elem_of_cons in Hn. destruct Hn as [Hc Hn].
  rewrite decide_False by done. by rewrite IH.
Qed.

Lemma first_element_file (s e : string) :
  first_element s = (e, false) → s = e ∧ plain_name e.
Proof.
  revert e. induction s as [|c s IH]; intros e; simpl.
  - intros [= <-]. split; [done|]. unfold plain_name. simpl. apply not_elem_of_nil.
  - case_decide; [done|]. destruct (first_element s) as [e' more] eqn:He.
    intros [= <- ->]. destruct (IH _ eq_refl) as [-> Hp]. split; [done|].
    unfold plain_name in *. simpl. rewrite not_elem_of_cons. auto.
Qed.

Lemma dir_entry_Join (dir n : string) :
  plain_name n → dir_entry dir (Join dir n) = Some (mkFileInfo n false).
Proof.
  intros Hn. unfold dir_entry. rewrite strip_prefix_Join. by rewrite first_element_plain.
Qed.

Lemma dir_entry_file (dir path e : string) :
  dir_entry dir path = Some (mkFileInfo e false) → path = Join dir e ∧ plain_name e.
Proof.
  unfold dir_entry. destruct (strip_prefix _ path) as [rest|] eqn:Hs; [|done].
  destruct (first_element rest) as [e' more] eqn:He. intros [= -> ->].
  apply first_element_file in He as [-> Hp]. split; [|done].
  apply strip_prefix_Some in Hs as ->. unfold Join. apply append_assoc.
Qed.

Lemma elem_of_dir_entries (t : tree) (dir : string) (fi : FileInfo) :
  fi ∈ dir_entries t dir ↔ ∃ path, is_Some (t !! path) ∧ dir_entry dir path = Some fi.
Proof.
  unfold dir_entries. rewrite merge_sort_Permutation, elem_of_remove_dups.
  rewrite list_elem_of_omap. split.
  - intros (path & Hp & Hd). exists path. split; [|done].
    apply list_elem_of_fmap in Hp as ([k x] & -> & Hkx).
    apply elem_of_map_to_list in Hkx. simpl. eauto.
  - intros (path & [x Hx] & Hd). exists path. split; [|done].
    apply list_elem_of_fmap. exists (path, x). split; [done|].
    by apply elem_of_map_to_list.
Qed.

Lemma NoDup_dir_entries (t : tree) (dir : string) : NoDup (dir_entries t dir).
Proof. unfold dir_entries. rewrite merge_sort_Permutation. apply NoDup_remove_dups. Qed.

Lemma dir_entries_nonempty (t : tree) (dir path : string) :
  is_Some (t !! path) → is_Some (dir_entry dir path) → dir_entries t dir ≠ [].
Proof.
  intros Ht [fi Hfi] Hnil.
  assert (fi ∈ dir_entries t dir) as Hin by (apply elem_of_dir_entries; eauto).
  rewrite Hnil in Hin. by apply elem_of_nil in Hin.
Qed.

Lemma dir_entry_is_Some (dir n : string) : is_Some (dir_entry dir (Join dir n)).
Proof.
  unfold dir_entry. rewrite strip_prefix_Join. destruct (first_element n). eauto.
Qed.

(** Two trees that hold the same files below [dir] list alike. *)
Lemma dir_entries_Permutation (t1 t2 : tree) (dir : string) :
  (∀ path, is_Some (dir_entry dir path) → (is_Some (t1 !! path) ↔ is_Some (t2 !! path))) →
  dir_entries t1 dir ≡ₚ dir_entries t2 dir.
Proof.
  intros Hsame. apply NoDup_Permutation; try apply NoDup_dir_entries.
  intros fi. rewrite !elem_of_dir_entries.
  split; intros (path & Hp & Hd); exists path; (split; [|done]);
    apply (Hsame path); eauto.
Qed.

(** ** Hexadecimal text *)

Lemma hexdigit_not_space (n : N) : hexdigit n ≠ " "%char.
Proof. unfold hexdigit. repeat case_match; discriminate. Qed.

Lemma hexdigit_lower_hex (n : N) : is_lower_hex (hexdigit n) = true.
Proof. unfold hexdigit. repeat case_match; reflexivity. Qed.

Lemma decode_hex_byte (x : byte) :
  match fromHexChar (hexdigit (Byte.to_N x / 16)),
        fromHexChar (hexdigit (Byte.to_N x mod 16)) with
  | Some hi, Some lo => Byte.of_N (16 * hi + lo)
  | _, _ => None
  end = Some x.
Proof. destruct x; vm_compute; reflexivity. Qed.

Lemma DecodeString_EncodeToString (b : list byte) :
  DecodeString (EncodeToString b) = Some b.
Proof.
  induction b as [|x b IH]; [done|].
  cbn [EncodeToString DecodeString]. rewrite IH.
  pose proof (decode_hex_byte x) as Hx.
  destruct (fromHexChar (hexdigit (Byte.to_N x / 16))) as [hi|]; [|done].
  destruct (fromHexChar (hexdigit (Byte.to_N x mod 16))) as [lo|]; [|done].
  by rewrite Hx.
Qed.

Lemma length_EncodeToString (b : list byte) :
  String.length (EncodeToString b) = (2 * length b)%nat.
Proof. induction b as [|x b IH]; simpl; [done|]. rewrite IH. lia. Qed.

Lemma EncodeToString_lower_hex (b : list byte) :
  forallb is_lower_hex (list_ascii_of_string (EncodeToString b)) = true.
Proof.
  induction b as [|x b IH]; [done|]. cbn [EncodeToString list_ascii_of_string forallb].
  by rewrite !hexdigit_lower_hex, IH.
Qed.

Lemma IsDigest_EncodeToString (token : list byte) :
  length token = 32%nat → IsDigest (EncodeToString token) = true.
Proof.
  intros Hlen. unfold IsDigest.
  rewrite length_EncodeToString, Hlen, EncodeToString_lower_hex. done.
Qed.

Lemma SplitN2_hex (d : list byte) (s : string) :
  SplitN2 (EncodeToString d +:+ " " +:+ s) = [EncodeToString d; s].
Proof.
  induction d as [|x d IH]; [done|].
  simpl. rewrite !decide_False by apply hexdigit_not_space.
  by rewrite IH.
Qed.

(** ** Delta commits *)

(** The commits that the range of deltaCommits covers: the whole history
    when there is no last anchor, else the commits after it. *)
Definition delta_range (lastAnchor : list byte) (log : list commit) : list commit :=
  if decide (lastAnchor = []) then log
  else commits_since (take sha1_Size lastAnchor) log.

(** A commit counts unless its subject carries the anchor confirmation
    marker. *)
Definition is_delta (c : commit) : Prop :=
  regexAnchorConfirmation_MatchString (subject (c_message c)) = false.

#[global] Instance is_delta_dec (c : commit) : Decision (is_delta c).
Proof. unfold is_delta. apply _. Defined.

Definition extended_digest (c : commit) : list byte := c_digest c ++ zero_bytes 12.

Section DeltaCommits.

Lemma delta_line_oneline (c : commit) :
  length (c_digest c) = sha1_Size →
  delta_line (oneline c) =
    Ok (if decide (is_delta c) then Some (extended_digest c, subject (c_message c))
        else None).
Proof.
  intros Hlen. unfold delta_line, oneline. rewrite SplitN2_hex. simpl.
  destruct (decide (is_delta c)) as [Hd|Hd]; unfold is_delta in Hd.
  2: { apply not_false_is_true in Hd. by rewrite Hd. }
  rewrite Hd.
  rewrite DecodeString_EncodeToString. rewrite bool_decide_true by done. simpl.
  rewrite extendSHA1_ok by done.
  rewrite copy_zero_pad.
  - rewrite length_app, Hlen. simpl. by rewrite app_nil_r.
  - rewrite length_app, Hlen. simpl. unfold sha256_Size. lia.
Qed.

Lemma delta_lines_oneline (cs : list commit) :
  Forall (λ c, length (c_digest c) = sha1_Size) cs →
  delta_lines (oneline <$> cs) =
    Ok (extended_digest <$> filter is_delta cs,
        (λ c, subject (c_message c)) <$> filter is_delta cs).
Proof.
  induction 1 as [|c cs Hc Hcs IH]; [done|].
  cbn [fmap list_fmap delta_lines]. rewrite delta_line_oneline by done.
  change (list_fmap _ _ oneline cs) with (oneline <$> cs). rewrite IH.
  rewrite filter_cons. destruct (decide (is_delta c)); done.
Qed.

Lemma delta_lines_length (out : list string) ds ms :
  delta_lines out = Ok (ds, ms) → length ds = length ms.
Proof.
  revert ds ms. induction out as [|l out IH]; intros ds ms; simpl.
  { by intros [= <- <-]. }
  destruct (delta_line l) as [x|]; [|done].
  destruct (delta_lines out) as [[ds' ms']|]; [|done].
  specialize (IH _ _ eq_refl).
  destruct x as [[d m]|]; intros [= <- <-]; simpl; auto.
Qed.

Lemma commits_upto_head (c : commit) (log : list commit) :
  commits_upto (c_digest c) (c :: log) = c :: log.
Proof. simpl. by rewrite decide_True. Qed.

Lemma extended_digest_wf (c : commit) :
  length (c_digest c) = sha1_Size →
  length (extended_digest c) = sha256_Size ∧
  take sha1_Size (extended_digest c) = c_digest c ∧
  drop sha1_Size (extended_digest c) = zero_bytes 12.
Proof.
  intros Hlen. unfold extended_digest. split_and!.
  - by rewrite length_app, Hlen.
  - by rewrite take_app_length'.
  - by rewrite drop_app_length'.
Qed.
End DeltaCommits.

Section DeltaCommitsSpec.

Lemma length_fmap_length_zero {A B} (f : A → B) (l : list A) :
  bool_decide (length (f <$> l) = 0%nat) = bool_decide (l = []).
Proof. destruct l; done. Qed.

(** C8: on a repository whose history is well formed, deltaCommits
    skips the commits that carry the anchor confirmation marker, extends
    the 20-byte digest of every other commit of the range with twelve
    zero bytes, returns as many digests as subjects, and answers
    errNothingToDo when no commit is left (in particular when the last
    anchor is the head). *)
Theorem deltaCommits_spec (path : repo_path) (lastAnchor : list byte)
    (w : world) (log : list commit) :
  w_faults w = [] →
  head_log (repo_of path w) = log → log ≠ [] →
  Forall (λ c, length (c_digest c) = sha1_Size) log →
  (lastAnchor = [] ∨ ∃ c, c ∈ log ∧ lastAnchor = extended_digest c) →
  let range := delta_range lastAnchor log in
  let delta := filter is_delta range in
  match deltaCommits path lastAnchor w with
  | (Ok (digests, subjects, lines), w') =>
      w' = w ∧ delta ≠ [] ∧
      digests = extended_digest <$> delta ∧
      subjects = (λ c, subject (c_message c)) <$> delta ∧
      lines = oneline <$> range ∧
      length digests = length subjects ∧
      Forall (λ d, length d = sha256_Size ∧ drop sha1_Size d = zero_bytes 12) digests
  | (Err e, w') => w' = w ∧ e = errNothingToDo ∧ delta = []
  end.
Proof.
  intros Hf Hlog Hne Hwf Hlast range delta.
  assert (Forall (λ c, length (c_digest c) = sha1_Size) range) as Hrange.
  { unfold range, delta_range. case_decide; [done|].
    clear -Hwf. induction Hwf as [|c l Hc Hl IH]; simpl; [done|].
    case_decide; [done|]. by constructor. }
  assert (∀ lines w0,
    lines = oneline <$> range → range ≠ [] →
    match (if bool_decide (length lines = 0%nat) then fail (Errorf "invalid git output")
           else bind (lift (delta_lines lines)) (λ r,
             let '(digests, commitMessages) := r in
             if bool_decide (length digests = 0%nat) then fail errNothingToDo
             else ret (digests, commitMessages, lines))) w0 with
    | (Ok (digests, subjects, lines), w') =>
        w' = w0 ∧ delta ≠ [] ∧
        digests = extended_digest <$> delta ∧
        subjects = (λ c, subject (c_message c)) <$> delta ∧
        lines = oneline <$> range ∧
        length digests = length subjects ∧
        Forall (λ d, length d = sha256_Size ∧ drop sha1_Size d = zero_bytes 12) digests
    | (Err e, w') => w' = w0 ∧ e = errNothingToDo ∧ delta = []
    end) as Hloop.
  { intros lines w0 -> Hr.
    rewrite length_fmap_length_zero, bool_decide_false by done.
    unfold bind, lift. rewrite delta_lines_oneline by done. fold delta.
    rewrite length_fmap_length_zero. case_bool_decide as Hd; unfold fail, ret.
    { done. }
    split_and!; try done.
    - by rewrite !length_fmap.
    - apply Forall_fmap, Forall_forall. intros c Hc. simpl.
      assert (c ∈ range) as Hcr by (by apply list_elem_of_filter in Hc as [_ ?]).
      rewrite Forall_forall in Hrange.
      destruct (extended_digest_wf c (Hrange c Hcr)) as (? & ? & ?). done. }
  destruct log as [|c0 log']; [done|].
  unfold deltaCommits.
  destruct Hlast as [->|(c & Hc & ->)].
  - simpl. unfold bind at 1. unfold gitLastDigest.
    rewrite external_nofault by done. rewrite Hlog.
    unfold bind at 1. unfold ret at 1. unfold bind at 1.
    unfold gitLog. rewrite external_nofault by done. rewrite Hlog.
    apply Hloop; [done|]. unfold range, delta_range. by rewrite decide_True.
  - rewrite Forall_forall in Hwf. pose proof (Hwf c Hc) as Hlen.
    destruct (extended_digest_wf c Hlen) as (Hl32 & Htake & Hdrop).
    rewrite (bool_decide_false (length (extended_digest c) = 0%nat))
      by (rewrite Hl32; done).
    rewrite (bool_decide_true (length (extended_digest c) = sha256_Size)) by done.
    simpl. unfold bind at 1. unfold gitLastDigest.
    rewrite external_nofault by done. rewrite Hlog.
    unfold bind at 1. unfold bind at 1. unfold lift at 1.
    rewrite unextendSHA256_ok by done. rewrite Htake.
    assert (range = commits_since (c_digest c) (c0 :: log')) as Hr.
    { unfold range, delta_range. rewrite decide_False.
      - by rewrite Htake.
      - intros He. by rewrite He in Hl32. }
    case_bool_decide as Heq.
    + unfold fail. split_and!; try done.
      unfold delta. rewrite Hr. simpl. by rewrite decide_True.
    + unfold ret at 1. unfold bind at 1. unfold gitLog.
      rewrite external_nofault by done. rewrite Hlog.
      rewrite decide_True.
      2: { split.
           - apply list_elem_of_fmap. eauto.
           - apply list_elem_of_fmap. exists c0. split; [done|]. left. }
      rewrite commits_upto_head. rewrite <-Hr.
      apply Hloop; [done|]. rewrite Hr. simpl. rewrite decide_False by done. done.
Qed.
End DeltaCommitsSpec.

Lemma deltaCommits_spec_witness :
  let range := delta_range (extended_digest initial_commit) anchored_log in
  let delta := filter is_delta range in
  match deltaCommits vetted (extended_digest initial_commit) anchored_world with
  | (Ok (digests, subjects, lines), w') =>
      w' = anchored_world ∧ delta ≠ [] ∧
      digests = extended_digest <$> delta ∧
      subjects = (λ c, subject (c_message c)) <$> delta ∧
      lines = oneline <$> range ∧
      length digests = length subjects ∧
      Forall (λ d, length d = sha256_Size ∧ drop sha1_Size d = zero_bytes 12) digests
  | (Err e, w') => w' = anchored_world ∧ e = errNothingToDo ∧ delta = []
  end.
Proof.
  apply (deltaCommits_spec vetted
           (extended_digest initial_commit) anchored_world anchored_log).
  - reflexivity.
  - reflexivity.
  - discriminate.
  - repeat constructor.
  - right. exists initial_commit. split; [|reflexivity].
    do 3 right. left.
Defined.

(** ** Anchoring a repository *)

Section AnchorRepoFacts.

Lemma deltaCommits_ok_inv (path : repo_path) (lastAnchor : list byte) (w w' : world)
    (digests : list (list byte)) (messages out : list string) :
  deltaCommits path lastAnchor w = (Ok (digests, messages, out), w') →
  length digests = length messages ∧ digests ≠ [].
Proof.
  unfold deltaCommits. case_match; [done|].
  intros (latest & w1 & _ & Hk)%bind_ok_inv.
  apply bind_ok_inv in Hk as (range & w2 & _ & Hk).
  apply bind_ok_inv in Hk as (lines & w3 & _ & Hk).
  case_bool_decide; [done|].
  apply bind_ok_inv in Hk as (r & w4 & Hd & Hk). destruct r as [ds ms].
  unfold lift in Hd. injection Hd as Hd _.
  case_bool_decide as Hz; [done|]. unfold ret in Hk. simplify_eq.
  split; [by eapply delta_lines_length|]. by destruct digests.
Qed.

Context `{Library}.

Lemma bytes_of_string_nil (s : string) : bytes_of_string s = [] → s = EmptyString.
Proof. by destruct s. Qed.

Lemma append_nil_r (a b : string) : a +:+ b = EmptyString → b = EmptyString.
Proof. destruct a; [done|]. simpl. discriminate. Qed.

Lemma append_nil_l (a b : string) : a +:+ b = EmptyString → a = EmptyString.
Proof. destruct a; [done|]. simpl. discriminate. Qed.

Lemma audit_record_nonempty ts merkle lines :
  bytes_of_string (audit_header ts merkle +:+
    foldr (λ l acc, audit_line ts l +:+ acc) EmptyString lines) ≠ [].
Proof.
  intros Hn%bytes_of_string_nil. unfold audit_header in Hn.
  apply append_nil_l, append_nil_r in Hn. simpl in Hn. discriminate.
Qed.

Lemma append_changes_tree (t : tree) (path : string) (data : list byte) :
  data ≠ [] → <[path := default [] (t !! path) ++ data]> t ≠ t.
Proof.
  intros Hd He. assert ((<[path := default [] (t !! path) ++ data]> t) !! path = t !! path) as Hl
    by (by rewrite He).
  rewrite lookup_insert_eq in Hl. destruct (t !! path) as [old|]; [|done].
  simpl in Hl. injection Hl as Hl.
  apply (f_equal length) in Hl. rewrite length_app in Hl.
  destruct data; [done|]. simpl in Hl. lia.
Qed.

Lemma wrap_error_ok {A} (prefix : string) (m : M A) (w w' : world) (a : A) :
  m w = (Ok a, w') → wrap_error prefix m w = (Ok a, w').
Proof. unfold wrap_error. by intros ->. Qed.

Lemma repo_of_set_commits (p : repo_path) (n : N) (w : world) :
  repo_of p (set_commits n w) = repo_of p w.
Proof. by destruct p. Qed.

(** C4: when the delta is not empty and no external call fails,
    anchorRepo hands to the timestamp client the extended commit digests
    (sorted by merkle.Root) followed by the merkle root as last element,
    and then adds one commit to master whose message is the marker line
    "Anchor <merkle root in hex>", a blank line, and the audit block
    that was built from the digests in log order, before they were
    sorted. In test mode the merkle root is noted in testAnchors
    instead of being sent. *)
Theorem anchorRepo_spec (path : repo_path) (w : world) (log : list commit)
    (digests : list (list byte)) (messages out : list string) :
  w_faults w = [] →
  r_cur (repo_of path w) = "master" →
  r_branches (repo_of path w) !! "master" = Some log →
  r_work (repo_of path w) = branch_tree log →
  deltaCommits path (w_last w) w = (Ok (digests, messages, out), w) →
  let key := merkle_tree (sort_digests digests) in
  let block := foldr String.app EmptyString (zip_with anchor_line digests messages) in
  ∃ w' c,
    anchorRepo path w = (Ok key, w') ∧
    digests ≠ [] ∧ sort_digests digests ≡ₚ digests ∧
    (if test w then testAnchors w' = <[EncodeToString key := false]> (testAnchors w)
     else w_dcrtime w' = w_dcrtime w ++ [sort_digests digests ++ [key]]) ∧
    r_branches (repo_of path w') !! "master" = Some (c :: log) ∧
    c_message c = "Anchor " +:+ EncodeToString key +:+ LF +:+ LF +:+ block.
Proof.
  intros Hf Hcur Hmaster Hwork Hdelta key block.
  destruct (deltaCommits_ok_inv _ _ _ _ _ _ _ Hdelta) as [Hlen Hne].
  assert (is_clean (repo_of path w) = true) as Hclean.
  { unfold is_clean, head_tree, head_log. rewrite Hcur, Hmaster. simpl.
    by apply bool_decide_eq_true. }
  assert (gitCheckout path "master" w = (Ok (), w)) as Hco.
  { unfold gitCheckout. rewrite external_nofault by done.
    rewrite Hmaster, Hclean. f_equal. rewrite <-Hcur, <-Hwork.
    destruct path, w as [[] []]; reflexivity. }
  unfold anchorRepo.
  rewrite (bind_run _ _ _ _ _ (wrap_error_ok _ _ _ _ _ Hco)).
  rewrite (bind_run _ _ w w ()).
  2: { apply wrap_error_ok. unfold gitFsck. by rewrite external_nofault. }
  rewrite (bind_run _ _ w w (w_last w)).
  2: { apply wrap_error_ok. unfold readLastAnchorRecord. by rewrite external_nofault. }
  rewrite (bind_run _ _ w w (Ok (digests, messages, out))).
  2: { by rewrite try_run, Hdelta. }
  rewrite bool_decide_true by done. cbn [negb].
  rewrite (bind_run _ _ w w
    (mkAnchor AnchorUnverified digests messages (w_clock w), key, sort_digests digests)).
  2: { apply wrap_error_ok. unfold newAnchorRecord. rewrite bool_decide_true by done. done. }
  cbv beta iota.
  set (batch := sort_digests digests ++ [key]).
  assert (∃ w1, wrap_error "anchor: " (anchor batch) w = (Ok (), w1) ∧
            w_faults w1 = [] ∧ repo_of path w1 = repo_of path w ∧
            w_commits w1 = w_commits w ∧
            (if test w then testAnchors w1 = <[EncodeToString key := false]> (testAnchors w)
             else w_dcrtime w1 = w_dcrtime w ++ [batch]) ∧
            (if test w then w_dcrtime w1 = w_dcrtime w
             else testAnchors w1 = testAnchors w))
    as (w1 & Ha & Hf1 & Hr1 & Hc1 & Hsub & Hsub').
  { unfold wrap_error, anchor, bind, gets. destruct (test w) eqn:Ht.
    - unfold batch. rewrite last_snoc. unfold modify.
      eexists. split; [reflexivity|]. destruct path, w; simpl in *; done.
    - unfold util_Timestamp. rewrite external_nofault by done. unfold modify.
      eexists. split; [reflexivity|]. destruct path, w; simpl in *; done. }
  rewrite (bind_run _ _ _ _ _ Ha).
  pose (rec := bytes_of_string (audit_header (w_clock w) key +:+
                 foldr (λ l acc, audit_line (w_clock w) l +:+ acc) EmptyString
                   (zip_with anchor_line digests messages))).
  pose (r2 := set_work (<[defaultAuditTrailFile :=
               default [] (r_work (repo_of path w1) !! defaultAuditTrailFile) ++ rec]>
               (r_work (repo_of path w1))) (repo_of path w1)).
  pose (w2 := set_repo path r2 w1).
  assert (w_faults w2 = []) as Hf2 by (destruct path, w1; done).
  assert (repo_of path w2 = r2) as Hr2 by apply repo_of_set_repo.
  rewrite (bind_run _ _ w1 w2 ()).
  2: { apply wrap_error_ok. unfold appendAuditTrail, os_AppendFile.
       by rewrite external_nofault. }
  rewrite (bind_run _ _ w2 w2 ()).
  2: { apply wrap_error_ok. unfold gitAdd. rewrite external_nofault by done.
       rewrite Hr2. unfold r2. simpl. by rewrite lookup_insert_eq. }
  assert (is_clean r2 = false) as Hdirty.
  { unfold is_clean, head_tree, head_log, r2. cbn [set_work r_cur r_branches r_work].
    rewrite Hr1, Hcur, Hmaster. cbn [default]. rewrite Hwork.
    apply bool_decide_eq_false.
    apply append_changes_tree, audit_record_nonempty. }
  erewrite bind_run.
  2: { apply wrap_error_ok. unfold gitCommit. rewrite external_nofault by done.
       rewrite Hr2, Hdirty. reflexivity. }
  unfold ret.
  eexists _, _. split; [reflexivity|].
  split_and!.
  - done.
  - apply merge_sort_Permutation.
  - destruct (test w); destruct path, w1; simpl in *; done.
  - rewrite repo_of_set_commits. rewrite repo_of_set_repo.
    unfold head_log, r2. cbn [set_work set_branches r_cur r_branches r_work].
    rewrite Hr1, Hcur, Hmaster. by rewrite lookup_insert_eq.
  - reflexivity.
Qed.
End AnchorRepoFacts.

Lemma anchorRepo_spec_witness :
  let digests := extended_digest <$> anchored_delta in
  let messages := (λ c, subject (c_message c)) <$> anchored_delta in
  let key := @merkle_tree sample_library (sort_digests digests) in
  let block := foldr String.app EmptyString (zip_with anchor_line digests messages) in
  ∃ w' c,
    @anchorRepo sample_library vetted anchored_world = (Ok key, w') ∧
    digests ≠ [] ∧ sort_digests digests ≡ₚ digests ∧
    (if test anchored_world
     then testAnchors w' = <[EncodeToString key := false]> (testAnchors anchored_world)
     else w_dcrtime w' = w_dcrtime anchored_world ++ [sort_digests digests ++ [key]]) ∧
    r_branches (repo_of vetted w') !! "master" = Some (c :: anchored_log) ∧
    c_message c = "Anchor " +:+ EncodeToString key +:+ LF +:+ LF +:+ block.
Proof.
  apply (anchorRepo_spec (H := sample_library) vetted anchored_world anchored_log
           (extended_digest <$> anchored_delta)
           ((λ c, subject (c_message c)) <$> anchored_delta)
           (oneline <$> take 3 anchored_log)).
  - reflexivity.
  - reflexivity.
  - reflexivity.
  - reflexivity.
  - vm_compute. reflexivity.
Defined.

(** ** Confirmation of anchors *)

Section AfterAnchorVerify.
Context `{Library}.

Lemma keeps_unconfirmed_faults x fs w :
  w_unconfirmed w = x → w_unconfirmed (set_faults fs w) = x.
Proof. by destruct w. Qed.
Lemma keeps_unconfirmed_locked x b w :
  w_unconfirmed w = x → w_unconfirmed (set_locked b w) = x.
Proof. by destruct w. Qed.

Lemma afterAnchorVerify_keeps_unconfirmed (vrs : list VerifyDigest) x :
  preserves (λ w, w_unconfirmed w = x) (afterAnchorVerify vrs).
Proof.
  unfold afterAnchorVerify, confirm_anchor, appendAuditTrail, gitCheckout, gitPull,
    gitAdd, gitCommit, os_AppendFile, os_MkdirAll, ioutil_WriteFile, modify.
  preserves_with (keeps_unconfirmed_faults x) (keeps_unconfirmed_locked x) world_cases.
Qed.

Lemma confirm_anchor_pending (vr : VerifyDigest) (w : world) :
  ChainTimestamp (vd_ChainInformation vr) = 0%Z →
  confirm_anchor vr w = (Err (Errorf ("not enough confirmations: " +:+ vd_Digest vr)), w).
Proof. intros Hts. unfold confirm_anchor. by rewrite bool_decide_true. Qed.

(** C5 (amended): a reply whose chain timestamp is 0 stops the pass.
    With such a reply in the batch, afterAnchorVerify is the pass that
    takes the lock, checks out master of the publication tier,
    processes the replies in front of the pending one and then fails
    with "not enough confirmations: <digest>": the replies that follow
    are not processed, and neither is the closing checkout and pull of
    the staging tier.  So when the lock, the checkout and the replies
    in front go through, the error is that text and the state is the
    one the replies in front have left, with the lock released.  The
    pass returns an error in every case, and the set of unconfirmed
    merkle roots is left as it was.  When the pending reply comes
    first and no external call fails, nothing at all has changed. *)
Theorem afterAnchorVerify_pending (pre post : list VerifyDigest) (vr : VerifyDigest)
    (w : world) :
  ChainTimestamp (vd_ChainInformation vr) = 0%Z →
  afterAnchorVerify (pre ++ vr :: post) w =
    with_lock (gitCheckout vetted "master" ;;;
               for_each pre confirm_anchor ;;;
               fail (Errorf ("not enough confirmations: " +:+ vd_Digest vr))) w ∧
  (∀ w0 w1 w2,
     lock_Lock w = (Ok (), w0) →
     gitCheckout vetted "master" w0 = (Ok (), w1) →
     for_each pre confirm_anchor w1 = (Ok (), w2) →
     afterAnchorVerify (pre ++ vr :: post) w =
       (Err (Errorf ("not enough confirmations: " +:+ vd_Digest vr)),
        set_locked false w2)) ∧
  (∃ e, (afterAnchorVerify (pre ++ vr :: post) w).1 = Err e) ∧
  w_unconfirmed (afterAnchorVerify (pre ++ vr :: post) w).2 = w_unconfirmed w ∧
  (∀ log, pre = [] → w_faults w = [] → w_locked w = false →
     r_cur (w_vetted w) = "master" →
     r_branches (w_vetted w) !! "master" = Some log →
     r_work (w_vetted w) = branch_tree log →
     afterAnchorVerify (vr :: post) w =
       (Err (Errorf ("not enough confirmations: " +:+ vd_Digest vr)), w)).
Proof.
  intros Hts.
  assert (afterAnchorVerify (pre ++ vr :: post) w =
            with_lock (gitCheckout vetted "master" ;;;
                       for_each pre confirm_anchor ;;;
                       fail (Errorf ("not enough confirmations: " +:+ vd_Digest vr))) w)
    as Hpass.
  { unfold afterAnchorVerify, with_lock.
    rewrite (bool_decide_false (length (pre ++ vr :: post) = 0%nat))
      by (by destruct pre).
    cbn [negb]. unfold bind. destruct (lock_Lock w) as [[[]|e0] w0]; [|done].
    destruct (gitCheckout vetted "master" w0) as [[[]|e1] w1]; [|done].
    rewrite for_each_app. unfold bind.
    destruct (for_each pre confirm_anchor w1) as [[[]|e2] w2]; [|done].
    cbn [for_each]. unfold bind. by rewrite confirm_anchor_pending. }
  split_and!.
  - exact Hpass.
  - intros w0 w1 w2 Hlock Hco Hpre. rewrite Hpass.
    unfold with_lock, bind. by rewrite Hlock, Hco, Hpre.
  - rewrite Hpass. unfold with_lock, bind.
    destruct (lock_Lock w) as [[[]|e0] w0]; [|eauto].
    destruct (gitCheckout vetted "master" w0) as [[[]|e1] w1]; [|eauto].
    destruct (for_each pre confirm_anchor w1) as [[[]|e2] w2]; eauto.
  - by apply afterAnchorVerify_keeps_unconfirmed.
  - intros log -> Hf Hl Hcur Hm Hw.
    unfold afterAnchorVerify, with_lock, lock_Lock. cbn [app length].
    rewrite bool_decide_false by done. cbn [negb].
    unfold bind at 1. rewrite external_nofault by done. rewrite Hl.
    unfold bind at 1. unfold gitCheckout. rewrite external_nofault by (by destruct w).
    destruct w as [u [vc vb vw] lk sd ts ta la uc dc au ck rn cm fs].
    simpl in *. subst. rewrite Hm.
    unfold is_clean, head_tree, head_log. simpl. rewrite Hm. simpl.
    rewrite bool_decide_true by done.
    unfold bind. rewrite confirm_anchor_pending by done. done.
Qed.
End AfterAnchorVerify.

(** The confirmed reply in front of the pending one is committed, the
    one behind it is not looked at. *)
Lemma afterAnchorVerify_pending_witness :
  @afterAnchorVerify sample_library ([confirmed_reply] ++ pending_reply :: [confirmed_reply])
    anchored_world =
    (Err (Errorf ("not enough confirmations: " +:+ vd_Digest pending_reply)),
     set_locked false
       (@for_each VerifyDigest [confirmed_reply] (@confirm_anchor sample_library)
          (set_locked true anchored_world)).2) ∧
  (c_message <$> head (head_log (w_vetted
      (@for_each VerifyDigest [confirmed_reply] (@confirm_anchor sample_library)
         (set_locked true anchored_world)).2))) =
    Some ("Anchor confirmation " +:+ vd_Digest confirmed_reply +:+ LF +:+ LF +:+
          vd_Digest confirmed_reply +:+ " anchored in TX tx1" +:+ LF).
Proof.
  split.
  - apply (proj1 (proj2 (afterAnchorVerify_pending (H := sample_library)
                           [confirmed_reply] [confirmed_reply] pending_reply anchored_world
                           eq_refl))
             (set_locked true anchored_world) (set_locked true anchored_world)).
    + reflexivity.
    + vm_compute. reflexivity.
    + apply run_ok_unit_eq. vm_compute. reflexivity.
  - vm_compute. reflexivity.
Defined.

(** C5 as stated fails: with a pending reply in front, the pass returns an
    error and the confirmed reply behind it is not processed, although on
    its own it would have been committed. *)
Lemma afterAnchorVerify_pending_counterexample :
  @afterAnchorVerify sample_library [pending_reply; confirmed_reply] anchored_world =
    (Err (Errorf ("not enough confirmations: " +:+ sample_root_hex)), anchored_world) ∧
  (@afterAnchorVerify sample_library [confirmed_reply] anchored_world).1 = Ok () ∧
  (c_message <$> head (head_log (w_vetted
      (@afterAnchorVerify sample_library [confirmed_reply] anchored_world).2))) =
    Some ("Anchor confirmation " +:+ vd_Digest confirmed_reply +:+ LF +:+ LF +:+
          vd_Digest confirmed_reply +:+ " anchored in TX tx1" +:+ LF).
Proof. vm_compute. done. Qed.

Section StatusChange2.
Context `{Library}.

Lemma transition_permitted_guard (old status : MDStatusT) :
  transition_permitted old status ↔
  ((bool_decide (old = MDStatusUnvetted) || bool_decide (old = MDStatusIterationUnvetted))
     && bool_decide (status = MDStatusVetted) = true) ∨
  (bool_decide (old = MDStatusUnvetted) && bool_decide (status = MDStatusCensored) = true).
Proof.
  unfold transition_permitted.
  destruct old, status; simpl; split; intros Hp; intuition congruence.
Qed.

(** C1: SetUnvettedStatus carries out only the transitions
    Unvetted or UnvettedIteration to Vetted and Unvetted to Censored.
    Whenever it succeeds the pair (current status, requested status) is
    one of these and the returned record carries the requested status;
    for every other pair it returns StateTransitionError with that pair
    and leaves everything as it was. *)
Theorem SetUnvettedStatus_transitions (token : list byte) (status : MDStatusT)
    (mdAppend mdOverwrite : list MetadataStream) (w : world)
    (log : list commit) (b : list byte) (m : RecordMetadata) :
  let id := EncodeToString token in
  r_branches (w_unvetted w) !! id = Some log →
  branch_tree log !! Join id defaultRecordMetadataFilename = Some b →
  unjson_RecordMetadata b = Some m →
  (∀ record w',
     SetUnvettedStatus token status mdAppend mdOverwrite w = (Ok record, w') →
     transition_permitted (Status m) status ∧
     Status (rec_RecordMetadata record) = status ∧
     Version (rec_RecordMetadata record) = uint64_wrap (Version m + 1)) ∧
  (¬ transition_permitted (Status m) status →
   w_faults w = [] → w_locked w = false → shutdown w = false →
   r_cur (w_unvetted w) = "master" →
   is_clean (w_unvetted w) = true →
   is_Some (r_branches (w_unvetted w) !! "master") →
   dir_entries (branch_tree log) id ≠ [] →
   Forall (stream_entry_ok (branch_tree log) id) (dir_entries (branch_tree log) id) →
   SetUnvettedStatus token status mdAppend mdOverwrite w =
     (Err (StateTransitionError (Status m) status), w)).
Proof.
  intros id Hbranch Hmd Hjson. split.
  - intros record w' Hrun. unfold SetUnvettedStatus in Hrun.
    apply with_lock_ok_inv in Hrun as (fs & w1 & Hrun & _).
    apply bind_ok_inv in Hrun as (down & w2 & Hdown & Hrun).
    injection Hdown as <- <-. destruct (shutdown _); [done|].
    apply bind_ok_inv in Hrun as (r & w3 & Hinner & Hrun).
    apply try_inv in Hinner. destruct r as [record'|e].
    2: { apply bind_ok_inv in Hrun as (? & ? & _ & Hrun).
         apply bind_ok_inv in Hrun as (? & ? & _ & Hrun). done. }
    apply bind_ok_inv in Hrun as ([] & w4 & _ & Hrun). injection Hrun as -> _.
    unfold setUnvettedStatus in Hinner. fold id in Hinner.
    apply bind_ok_inv in Hinner as ([] & w5 & Hco & Hinner).
    apply bind_ok_inv in Hco as (rc & w6 & Hco & Hrc).
    apply try_inv in Hco. destruct rc as [[]|]; [|done]. injection Hrc as <-.
    apply gitCheckout_ok_inv in Hco as (fs' & log' & Hlog' & _ & ->).
    replace (r_branches (repo_of unvetted (set_locked true (set_faults fs w))))
      with (r_branches (w_unvetted w)) in * by (by destruct w).
    rewrite Hbranch in Hlog'. injection Hlog' as <-.
    apply bind_ok_inv in Hinner as (rec0 & w7 & Hget & Hinner).
    unfold _getRecord in Hget.
    apply bind_ok_inv in Hget as (brm & w8 & Hload & Hget).
    apply loadMD_ok_inv in Hload as (b' & Hb' & Hj' & _).
    rewrite repo_of_set_repo in Hb'. cbn [r_work] in Hb'.
    rewrite Hmd in Hb'. injection Hb' as <-. rewrite Hjson in Hj'. injection Hj' as <-.
    apply bind_ok_inv in Hget as (mds & w9 & _ & Hget). injection Hget as <- _.
    cbn [rec_RecordMetadata rec_Metadata rec_Files] in Hinner.
    destruct ((bool_decide (Status m = MDStatusUnvetted)
               || bool_decide (Status m = MDStatusIterationUnvetted))
              && bool_decide (status = MDStatusVetted)) eqn:Hv.
    { apply bind_ok_inv in Hinner as (now & wa & _ & Hinner).
      apply bind_ok_inv in Hinner as (? & wb & _ & Hinner).
      apply bind_ok_inv in Hinner as (? & wc & _ & Hinner).
      apply bind_ok_inv in Hinner as (? & wd & _ & Hinner).
      apply bind_ok_inv in Hinner as (? & we & _ & Hinner).
      injection Hinner as <- _. cbn.
      split; [apply transition_permitted_guard; by left|].
      apply andb_true_iff in Hv as [_ Hv%bool_decide_eq_true]. done. }
    destruct (bool_decide (Status m = MDStatusUnvetted)
              && bool_decide (status = MDStatusCensored)) eqn:Hc; [|done].
    apply bind_ok_inv in Hinner as (now & wa & _ & Hinner).
    apply bind_ok_inv in Hinner as (? & wb & _ & Hinner).
    apply bind_ok_inv in Hinner as (? & wc & _ & Hinner).
    apply bind_ok_inv in Hinner as (? & wd & _ & Hinner).
    injection Hinner as <- _. cbn.
    split; [apply transition_permitted_guard; by right|].
    apply andb_true_iff in Hc as [_ Hc%bool_decide_eq_true]. done.
  - intros Hnot Hf Hl Hsd Hcur Hclean [mlog Hmaster] Hne Hstreams.
    assert (r_work (w_unvetted w) = branch_tree mlog) as Hwork.
    { unfold is_clean, head_tree, head_log in Hclean. rewrite Hcur, Hmaster in Hclean.
      by apply bool_decide_eq_true in Hclean. }
    unfold SetUnvettedStatus. rewrite with_lock_nofault by done.
    set (w0 := set_locked true w).
    assert (w_faults w0 = []) as Hf0 by (by destruct w).
    assert (w_unvetted w0 = w_unvetted w) as Hu0 by (by destruct w).
    set (w1 := set_repo unvetted (mkRepo id (r_branches (w_unvetted w)) (branch_tree log)) w0).
    assert (w_faults w1 = []) as Hf1 by (by destruct w).
    assert (gitCheckout unvetted id w0 = (Ok (), w1)) as Hco.
    { rewrite (gitCheckout_nofault _ _ _ log); cbn [repo_of]; rewrite ?Hu0; done. }
    assert (setUnvettedStatus token status mdAppend mdOverwrite w0 =
              (Err (StateTransitionError (Status m) status), w1)) as Hinner.
    { unfold setUnvettedStatus. fold id.
      rewrite (bind_run _ _ w0 w1 ()).
      2: { rewrite (bind_run _ _ w0 w1 (Ok ())); [done|]. by rewrite try_run, Hco. }
      destruct (loadMDStreams_nofault unvetted id w1) as [mds Hmds]; [done|done|done|].
      rewrite (bind_run _ _ w1 w1 (mkRecord m mds [])).
      2: { unfold _getRecord. rewrite (bind_run _ _ w1 w1 m).
           - by rewrite (bind_run _ _ _ _ _ Hmds).
           - by apply (loadMD_nofault _ _ _ b). }
      cbn [rec_RecordMetadata].
      destruct ((bool_decide (Status m = MDStatusUnvetted)
                 || bool_decide (Status m = MDStatusIterationUnvetted))
                && bool_decide (status = MDStatusVetted)) eqn:Hv.
      { exfalso. apply Hnot, transition_permitted_guard. by left. }
      destruct (bool_decide (Status m = MDStatusUnvetted)
                && bool_decide (status = MDStatusCensored)) eqn:Hc.
      { exfalso. apply Hnot, transition_permitted_guard. by right. }
      done. }
    match goal with
    | |- ((?body _).1, _) = _ =>
        assert (body w0 = (Err (StateTransitionError (Status m) status), w0)) as Hbody
    end.
    { unfold bind at 1. unfold gets at 1.
      replace (shutdown w0) with false by (by destruct w).
      unfold bind at 1. rewrite try_run, Hinner. cbn [fst snd].
      assert (gitStash unvetted w1 = (Ok (), w1)) as Hstash.
      { unfold gitStash. rewrite external_nofault by done. unfold modify. f_equal.
        unfold w1, head_tree, head_log. cbn. rewrite Hbranch. cbn.
        by destruct w. }
      rewrite (bind_run _ _ _ _ _ Hstash).
      rewrite (bind_run _ _ w1 w0 ()); [done|].
      rewrite (gitCheckout_nofault _ _ _ mlog); try done.
      - unfold w1, w0. destruct w as [[]]. cbn in *. by subst.
      - unfold is_clean, head_tree, head_log, w1. cbn. rewrite Hbranch. cbn.
        by apply bool_decide_eq_true. }
    fold w0. rewrite Hbody. cbn [fst snd]. unfold w0. destruct w; cbn in *. by subst.
Qed.
End StatusChange2.

Lemma SetUnvettedStatus_transitions_witness :
  (∀ record w',
     @SetUnvettedStatus sample_library sample_token MDStatusLocked [] [] recorded_world
       = (Ok record, w') →
     transition_permitted (Status recorded_metadata) MDStatusLocked ∧
     Status (rec_RecordMetadata record) = MDStatusLocked ∧
     Version (rec_RecordMetadata record) = uint64_wrap (Version recorded_metadata + 1)) ∧
  @SetUnvettedStatus sample_library sample_token MDStatusLocked [] [] recorded_world =
    (Err (StateTransitionError (Status recorded_metadata) MDStatusLocked), recorded_world).
Proof.
  destruct (SetUnvettedStatus_transitions (H := sample_library) sample_token MDStatusLocked
           [] [] recorded_world recorded_log
           (@json_RecordMetadata sample_library
              (mkRecordMetadata 1 MDStatusUnvetted
                 (take 32 (bytes_of_string "x" ++ zero_bytes 32)) 1700000000%Z sample_token))
           recorded_metadata) as [Hok Hrefused].
  - vm_compute. reflexivity.
  - vm_compute. reflexivity.
  - vm_compute. reflexivity.
  - split; [exact Hok|]. apply Hrefused.
    + unfold transition_permitted. cbn. intuition congruence.
    + reflexivity.
    + reflexivity.
    + reflexivity.
    + reflexivity.
    + vm_compute. reflexivity.
    + eexists. vm_compute. reflexivity.
    + vm_compute. discriminate.
    + replace (dir_entries (branch_tree recorded_log) (EncodeToString sample_token))
        with [mkFileInfo "01.metadata.txt" false; mkFileInfo "payload" true;
              mkFileInfo "recordmetadata.json" false] by (vm_compute; reflexivity).
      constructor; [|constructor; [|constructor; [|constructor]]].
      * intros Hs. split; eexists; vm_compute; reflexivity.
      * intros Hs. vm_compute in Hs. discriminate.
      * intros Hs. vm_compute in Hs. discriminate.
Defined.

(** ** A tier that is in step with its origin *)

(** Both repositories are as given. *)
Definition same_repos (u v : repo) (w : world) : Prop :=
  w_unvetted w = u ∧ w_vetted w = v.

Lemma same_repos_faults (u v : repo) (fs : list bool) (w : world) :
  same_repos u v w → same_repos u v (set_faults fs w).
Proof. by destruct w. Qed.

Lemma same_repos_locked (u v : repo) (b : bool) (w : world) :
  same_repos u v w → same_repos u v (set_locked b w).
Proof. by destruct w. Qed.

Lemma rebase_log_same (n : N) (log : list commit) : rebase_log n log log = (log, n).
Proof.
  unfold rebase_log.
  assert (∀ l, Forall (λ cp : commit * tree, cp.1 ∈ log) l →
            filter (λ cp : commit * tree, c_digest cp.1 ∉ c_digest <$> log) l = []) as Hnil.
  { induction 1 as [|cp l Hcp Hl IH]; [done|].
    rewrite filter_cons, decide_False; [done|].
    intros Hn. apply Hn, list_elem_of_fmap. eauto. }
  rewrite Hnil.
  - by rewrite decide_True.
  - clear. apply Forall_forall. intros cp Hcp.
    induction log as [|c log IH]; simpl in *; [by apply elem_of_nil in Hcp|].
    apply elem_of_cons in Hcp as [->|Hcp]; [left|right; auto].
Qed.

(** The staging tier sits on master without uncommitted changes and its
    master is the master of the publication tier. *)
Definition in_step (u v : repo) (log : list commit) : Prop :=
  r_cur u = "master" ∧ r_branches u !! "master" = Some log ∧
  r_work u = branch_tree log ∧ r_branches v !! "master" = Some log.

Lemma in_step_clean (u v : repo) (log : list commit) :
  in_step u v log → is_clean u = true.
Proof.
  intros (Hc & Hb & Hw & _). unfold is_clean, head_tree, head_log.
  rewrite Hc, Hb. by apply bool_decide_eq_true.
Qed.

Lemma gitCheckout_master_noop (u v : repo) (log : list commit) :
  in_step u v log →
  hoare (same_repos u v) (gitCheckout unvetted "master") (λ _ w, same_repos u v w).
Proof.
  intros Hs. pose proof (in_step_clean _ _ _ Hs) as Hclean.
  destruct Hs as (Hc & Hb & Hw & Hv).
  unfold gitCheckout. apply hoare_external; [apply same_repos_faults|done|].
  intros w [Hu Hv']. cbn. rewrite Hu, Hb, Hclean. cbn.
  split; [|by destruct w]. destruct w, u. cbn in *. by subst.
Qed.

Lemma gitPull_noop (u v : repo) (log : list commit) :
  in_step u v log →
  hoare (same_repos u v) (gitPull unvetted true) (λ _ w, same_repos u v w).
Proof.
  intros Hs. pose proof (in_step_clean _ _ _ Hs) as Hclean.
  destruct Hs as (Hc & Hb & Hw & Hv).
  unfold gitPull. apply hoare_external; [apply same_repos_faults|done|].
  intros w [Hu Hv']. cbn. rewrite Hu, Hv', Hc, Hv, Hclean.
  unfold head_log. rewrite Hc, Hb. cbn. rewrite rebase_log_same. cbn.
  split; [|by destruct w]. rewrite insert_id by done.
  destruct w, u. cbn in *. by subst.
Qed.

Lemma gitCheckout_noop_nofault (p : repo_path) (b : string) (w : world) (log : list commit) :
  w_faults w = [] → r_cur (repo_of p w) = b →
  r_branches (repo_of p w) !! b = Some log →
  r_work (repo_of p w) = branch_tree log →
  gitCheckout p b w = (Ok (), w).
Proof.
  intros Hf Hc Hb Hw. rewrite (gitCheckout_nofault _ _ _ log); [|done|done|].
  - f_equal. rewrite <-Hc, <-Hw. destruct p, w as [[] []]; reflexivity.
  - unfold is_clean, head_tree, head_log. rewrite Hc, Hb. by apply bool_decide_eq_true.
Qed.

Lemma gitPull_noop_nofault (w : world) (log : list commit) :
  w_faults w = [] → in_step (w_unvetted w) (w_vetted w) log →
  gitPull unvetted true w = (Ok (), w).
Proof.
  intros Hf Hs. pose proof (in_step_clean _ _ _ Hs) as Hclean.
  destruct Hs as (Hc & Hb & Hw & Hv).
  unfold gitPull. rewrite external_nofault by done.
  rewrite Hc, Hv, Hclean. unfold head_log. rewrite Hc, Hb. cbn.
  rewrite rebase_log_same. rewrite insert_id by done.
  destruct w as [[] []]. cbn in *. by subst.
Qed.

Lemma os_Stat_dir_nofault (p : repo_path) (path : string) (w : world) :
  w_faults w = [] → dir_entries (r_work (repo_of p w)) path ≠ [] →
  ∃ fi, os_Stat p path w = (Ok fi, w) ∧
        (r_work (repo_of p w) !! path = None → fi = mkFileInfo path true).
Proof.
  intros Hf Hd. unfold os_Stat. rewrite external_nofault by done. cbv beta zeta.
  destruct (r_work (repo_of p w) !! path); [eexists; split; [reflexivity|done]|].
  rewrite decide_False by done. eauto.
Qed.

Lemma os_Stat_preserves (I : world → Prop) (p : repo_path) (path : string) :
  (∀ fs w, I w → I (set_faults fs w)) → preserves I (os_Stat p path).
Proof.
  intros HI. unfold os_Stat. apply preserves_external; [done|].
  intros w Hw. cbn. by repeat case_match.
Qed.

Lemma ioutil_ReadFile_preserves (I : world → Prop) (p : repo_path) (path : string) :
  (∀ fs w, I w → I (set_faults fs w)) → preserves I (ioutil_ReadFile p path).
Proof.
  intros HI. unfold ioutil_ReadFile. apply preserves_external; [done|].
  intros w Hw. cbn. by repeat case_match.
Qed.

Section Locked.
Context `{Library}.

Lemma loadMD_preserves (I : world → Prop) (p : repo_path) (id : string) :
  (∀ fs w, I w → I (set_faults fs w)) → preserves I (loadMD p id).
Proof.
  intros HI. unfold loadMD. apply preserves_bind.
  - by apply preserves_try, ioutil_ReadFile_preserves.
  - intros r. repeat case_match; first [apply preserves_ret | apply preserves_fail].
Qed.

Lemma loadMD_hoare (u v : repo) (id : string) (b : list byte) (m : RecordMetadata) :
  r_work u !! Join id defaultRecordMetadataFilename = Some b →
  unjson_RecordMetadata b = Some m →
  hoare (same_repos u v) (loadMD unvetted id)
    (λ r w, same_repos u v w ∧ ∀ brm, r = Ok brm → brm = m).
Proof.
  intros Hb Hj w Hw. split.
  - by apply (loadMD_preserves _ _ _ (same_repos_faults u v)).
  - intros brm Hr. destruct (loadMD unvetted id w) as [r w1] eqn:Hl. simpl in Hr. subst r.
    apply loadMD_ok_inv in Hl as (b' & Hb' & Hj' & _).
    destruct Hw as [Hu _]. cbn in Hb'. rewrite Hu, Hb in Hb'. injection Hb' as <-.
    rewrite Hj in Hj'. by injection Hj'.
Qed.

(** X25: UpdateVettedMetadata refuses a Locked record.  On a record
    whose status is Locked, UpdateVettedMetadata fails, whatever the
    schedule of faults, and leaves both repositories, hence the files,
    the metadata streams and the RecordMetadata of the record, as they
    were; the error is ErrRecordLocked and nothing at all has changed
    when the metadata passes verification and no external call
    fails. *)
Theorem UpdateVettedMetadata_locked (token : list byte)
    (mdAppend mdOverwrite : list MetadataStream) (w : world)
    (log : list commit) (b : list byte) (m : RecordMetadata) :
  let id := EncodeToString token in
  in_step (w_unvetted w) (w_vetted w) log →
  branch_tree log !! Join id defaultRecordMetadataFilename = Some b →
  unjson_RecordMetadata b = Some m →
  Status m = MDStatusLocked →
  ∃ e w', UpdateVettedMetadata token mdAppend mdOverwrite w = (Err e, w') ∧
          w_unvetted w' = w_unvetted w ∧ w_vetted w' = w_vetted w ∧
          (w_faults w = [] → w_locked w = false → shutdown w = false →
           is_ok (verifyContent_allow_empty (mdAppend ++ mdOverwrite) [] []) = true →
           e = ErrRecordLocked ∧ w' = w).
Proof.
  intros id Hstep Hmd Hjson Hlocked.
  set (u := w_unvetted w). set (v := w_vetted w).
  assert (r_work u !! Join id defaultRecordMetadataFilename = Some b) as Hwork.
  { unfold u. destruct Hstep as (_ & _ & -> & _). done. }
  assert (hoare (same_repos u v) (UpdateVettedMetadata token mdAppend mdOverwrite)
            (λ r w', same_repos u v w' ∧ ∃ e, r = Err e)) as Hh.
  { unfold UpdateVettedMetadata. fold id.
    apply hoare_bind with (R := λ _, same_repos u v).
    { apply hoare_lift. intros w0 Hw0. destruct (verifyContent_allow_empty _ _ _); eauto. }
    intros _. apply hoare_with_lock;
      [apply same_repos_faults|apply same_repos_locked|by eauto|].
    apply hoare_bind with (R := λ _, same_repos u v).
    { by apply hoare_gets. }
    intros down. destruct down.
    { apply hoare_fail. intros w0 Hw0. split; [by apply same_repos_locked|eauto]. }
    apply hoare_bind with (R := λ _, same_repos u v).
    { eapply hoare_conseq; [by apply (gitCheckout_master_noop u v log)|done|].
      intros [[]|e] w0 Hw0; [done|]. split; [by apply same_repos_locked|eauto]. }
    intros _.
    apply hoare_bind with (R := λ _, same_repos u v).
    { eapply hoare_conseq; [by apply (gitPull_noop u v log)|done|].
      intros [[]|e] w0 Hw0; [done|]. split; [by apply same_repos_locked|eauto]. }
    intros _.
    apply hoare_bind with (R := λ _, same_repos u v).
    { apply hoare_try. apply preserves_hoare, os_Stat_preserves, same_repos_faults. }
    intros r.
    assert (hoare (same_repos u v)
              (bind (loadMD unvetted id) (λ md,
                 if bool_decide (Status md = MDStatusLocked) then fail ErrRecordLocked
                 else bind (try (updateVettedMetadata id (id +:+ "_tmp") mdAppend mdOverwrite))
                        (λ r, match r with
                              | Ok _ => gitCheckout unvetted "master"
                              | Err err => bind (drop_tmp_branch (id +:+ "_tmp")) (λ _, fail err)
                              end)))
              (λ (r : result ()) w0, same_repos u v (set_locked false w0) ∧ ∃ e, r = Err e))
      as Hload.
    { apply hoare_bind with (R := λ md w0, same_repos u v w0 ∧ md = m).
      - eapply hoare_conseq; [by apply (loadMD_hoare u v id b m)|done|].
        intros [brm|e] w0 [Hw0 Hbrm]; [by auto|].
        split; [by apply same_repos_locked|eauto].
      - intros md w0 [Hw0 ->]. rewrite bool_decide_true by done.
        split; [by apply same_repos_locked|eauto]. }
    destruct r as [fi|[]]; try exact Hload.
    apply hoare_fail. intros w0 Hw0. split; [by apply same_repos_locked|eauto]. }
  destruct (Hh w (conj eq_refl eq_refl)) as [[Hu Hv] [e He]].
  destruct (UpdateVettedMetadata token mdAppend mdOverwrite w) as [r w'] eqn:Hrun.
  simpl in *. subst r. exists e, w'. split_and!; try done.
  intros Hf Hl Hsd Hvc. clear Hh Hu Hv.
  unfold UpdateVettedMetadata in Hrun. fold id in Hrun.
  destruct (verifyContent_allow_empty _ _ _) as [fa|] eqn:Hfa; [|done].
  rewrite (bind_run _ _ w w fa) in Hrun by done.
  rewrite with_lock_nofault in Hrun by done.
  set (w0 := set_locked true w) in *.
  assert (w_faults w0 = []) as Hf0 by (by destruct w).
  assert (same_repos u v w0) as Hw0 by (by destruct w).
  match type of Hrun with
  | ((?body _).1, _) = _ => assert (body w0 = (Err ErrRecordLocked, w0)) as Hbody
  end.
  { unfold bind at 1. unfold gets at 1.
    replace (shutdown w0) with false by (by destruct w).
    assert (in_step (w_unvetted w0) (w_vetted w0) log) as Hstep0 by (by destruct w).
    assert (gitCheckout unvetted "master" w0 = (Ok (), w0)) as Hco.
    { destruct Hstep0 as (Hc & Hb & Hw & Hv).
      by apply (gitCheckout_noop_nofault _ _ _ log). }
    rewrite (bind_run _ _ _ _ _ Hco).
    rewrite (bind_run _ _ _ _ _ (gitPull_noop_nofault _ _ Hf0 Hstep0)).
    assert (loadMD unvetted id w0 = (Ok m, w0)) as Hload.
    { apply (loadMD_nofault _ _ _ b); [done| |done].
      destruct Hw0 as [Hu0 _]. cbn [repo_of]. by rewrite Hu0. }
    destruct (os_Stat_dir_nofault unvetted id w0 Hf0) as (fi & Hstat & _).
    { destruct Hw0 as [Hu0 _]. cbn [repo_of]. rewrite Hu0.
      apply (dir_entries_nonempty _ _ (Join id defaultRecordMetadataFilename));
        [by eauto|apply dir_entry_is_Some]. }
    unfold bind at 1. rewrite try_run, Hstat. cbn [fst snd].
    rewrite (bind_run _ _ _ _ _ Hload).
    by rewrite bool_decide_true. }
  fold w0 in Hrun. rewrite Hbody in Hrun. cbn [fst snd] in Hrun.
  injection Hrun as <- <-. split; [done|]. unfold w0. destruct w; cbn in *. by subst.
Qed.
End Locked.

Lemma UpdateVettedMetadata_locked_witness :
  ∃ e w', @UpdateVettedMetadata sample_library sample_token [mkMetadataStream 2 "more"] []
            locked_world = (Err e, w') ∧
          w_unvetted w' = w_unvetted locked_world ∧ w_vetted w' = w_vetted locked_world ∧
          (w_faults locked_world = [] → w_locked locked_world = false →
           shutdown locked_world = false →
           is_ok (@verifyContent_allow_empty sample_library
                    ([mkMetadataStream 2 "more"] ++ []) [] []) = true →
           e = ErrRecordLocked ∧ w' = locked_world).
Proof.
  apply (UpdateVettedMetadata_locked (H := sample_library) sample_token
           [mkMetadataStream 2 "more"] [] locked_world locked_log
           (@json_RecordMetadata sample_library locked_metadata)
           (mkRecordMetadata 2 MDStatusLocked (Merkle locked_metadata) 0%Z sample_token)).
  - repeat split.
  - vm_compute. reflexivity.
  - vm_compute. reflexivity.
  - reflexivity.
Defined.

(** C2: the claim is what UpdateVettedMetadata does, and
    UpdateUnvettedRecord does not.  On a record whose status is Locked
    UpdateVettedMetadata answers ErrRecordLocked and changes nothing,
    while UpdateUnvettedRecord, whose status guard lets Locked pass,
    goes through: it adds the file, commits, and rewrites the
    RecordMetadata with the next version and the status
    UnvettedIteration. *)
Theorem UpdateUnvettedRecord_mutates_locked :
  @UpdateVettedMetadata sample_library sample_token [mkMetadataStream 2 "more"] []
    locked_world = (Err ErrRecordLocked, locked_world) ∧
  (Status <$> (r_work (w_unvetted locked_world) !! Join sample_id defaultRecordMetadataFilename
               ≫= @unjson_RecordMetadata sample_library)) = Some MDStatusLocked ∧
  (@UpdateUnvettedRecord sample_library sample_token [] [] [sample_file_b] [] locked_world).1 =
    Ok (mkRecordMetadata 3 MDStatusIterationUnvetted
          (take 32 (bytes_of_string "x" ++ zero_bytes 32)) 1700000000%Z sample_token) ∧
  (c_message <$> head (default [] (r_branches (w_unvetted
      (@UpdateUnvettedRecord sample_library sample_token [] [] [sample_file_b] []
         locked_world).2) !! sample_id))) = Some ("Update record " +:+ sample_id) ∧
  (head (default [] (r_branches (w_unvetted
      (@UpdateUnvettedRecord sample_library sample_token [] [] [sample_file_b] []
         locked_world).2) !! sample_id)) ≫=
     λ c, c_tree c !! Join (Join sample_id defaultPayloadDir) "b.txt") =
    Some (bytes_of_string "x") ∧
  (Status <$> (head (default [] (r_branches (w_unvetted
      (@UpdateUnvettedRecord sample_library sample_token [] [] [sample_file_b] []
         locked_world).2) !! sample_id)) ≫=
     λ c, c_tree c !! Join sample_id defaultRecordMetadataFilename
          ≫= @unjson_RecordMetadata sample_library)) = Some MDStatusIterationUnvetted.
Proof.
  split_and!.
  - vm_compute. reflexivity.
  - vm_compute. reflexivity.
  - vm_compute. reflexivity.
  - vm_compute. reflexivity.
  - vm_compute. reflexivity.
  - vm_compute. reflexivity.
Qed.

(** ** Checking out the branch of a record *)

Lemma gitStash_noop_nofault (p : repo_path) (w : world) :
  w_faults w = [] → is_clean (repo_of p w) = true → gitStash p w = (Ok (), w).
Proof.
  intros Hf Hc. unfold gitStash. rewrite external_nofault by done. unfold modify.
  apply bool_decide_eq_true in Hc. rewrite <-Hc.
  f_equal. destruct p, w as [[] []]; reflexivity.
Qed.

Lemma elem_of_map_keys {A} (m : gmap string A) (k : string) :
  k ∈ (map_to_list m).*1 ↔ is_Some (m !! k).
Proof.
  rewrite list_elem_of_fmap. split.
  - intros ([k' x] & -> & Hx%elem_of_map_to_list). eauto.
  - intros [x Hx]. exists (k, x). split; [done|]. by apply elem_of_map_to_list.
Qed.

Lemma branch_found (branches : list string) (id : string) :
  IsDigest id = true →
  existsb (λ v, IsDigest v && bool_decide (v = id)) branches = bool_decide (id ∈ branches).
Proof.
  intros Hd. induction branches as [|v l IH]; cbn [existsb].
  { by rewrite bool_decide_false by apply not_elem_of_nil. }
  rewrite IH. destruct (decide (v = id)) as [->|Hne].
  - rewrite Hd, (bool_decide_true (id = id)) by done. cbn [andb orb].
    by rewrite bool_decide_true by left.
  - rewrite (bool_decide_false (v = id)) by done. rewrite andb_false_r. cbn [orb].
    apply bool_decide_ext. rewrite elem_of_cons. naive_solver.
Qed.

Section CheckoutRecordBranch.
Context `{Library}.

Lemma gitBranches_nofault (p : repo_path) (w : world) :
  w_faults w = [] →
  gitBranches p w = (Ok (map_to_list (r_branches (repo_of p w))).*1, w).
Proof. intros Hf. unfold gitBranches. by rewrite external_nofault. Qed.

Lemma checkoutRecordBranch_found (id : string) (w : world) (log : list commit) :
  w_faults w = [] → IsDigest id = true →
  r_branches (w_unvetted w) !! id = Some log →
  is_clean (w_unvetted w) = true →
  checkoutRecordBranch id w =
    (Ok true, set_repo unvetted (mkRepo id (r_branches (w_unvetted w)) (branch_tree log)) w).
Proof.
  intros Hf Hd Hb Hc. unfold checkoutRecordBranch.
  rewrite (bind_run _ _ _ _ _ (gitBranches_nofault unvetted w Hf)).
  rewrite branch_found by done.
  rewrite bool_decide_true by (apply elem_of_map_keys; cbn; eauto).
  erewrite bind_run; [|by rewrite try_run, (gitCheckout_nofault _ _ _ log)].
  reflexivity.
Qed.

Lemma checkoutRecordBranch_missing (id : string) (w : world) :
  w_faults w = [] → IsDigest id = true →
  r_branches (w_unvetted w) !! id = None →
  r_work (w_unvetted w) !! id = None →
  dir_entries (r_work (w_unvetted w)) id = [] →
  checkoutRecordBranch id w = (Err ErrRecordNotFound, w).
Proof.
  intros Hf Hd Hb Hw He. unfold checkoutRecordBranch.
  rewrite (bind_run _ _ _ _ _ (gitBranches_nofault unvetted w Hf)).
  rewrite branch_found by done.
  rewrite bool_decide_false.
  2: { rewrite elem_of_map_keys. cbn. rewrite Hb. by intros [? ?]. }
  erewrite bind_run.
  2: { rewrite try_run. unfold os_Stat. rewrite external_nofault by done.
       cbn. rewrite Hw, He. reflexivity. }
  reflexivity.
Qed.

Lemma checkoutRecordBranch_new (id : string) (w : world) :
  w_faults w = [] → IsDigest id = true →
  r_branches (w_unvetted w) !! id = None →
  r_work (w_unvetted w) !! id = None →
  dir_entries (r_work (w_unvetted w)) id ≠ [] →
  checkoutRecordBranch id w =
    (Ok false,
     set_repo unvetted
       (mkRepo id (<[id := head_log (w_unvetted w)]> (r_branches (w_unvetted w)))
          (r_work (w_unvetted w))) w).
Proof.
  intros Hf Hd Hb Hw He. unfold checkoutRecordBranch.
  rewrite (bind_run _ _ _ _ _ (gitBranches_nofault unvetted w Hf)).
  rewrite branch_found by done.
  rewrite bool_decide_false.
  2: { rewrite elem_of_map_keys. cbn. rewrite Hb. by intros [? ?]. }
  destruct (os_Stat_dir_nofault unvetted id w Hf He) as (fi & Hstat & Hfi).
  rewrite (Hfi Hw) in Hstat.
  erewrite bind_run; [|by rewrite try_run, Hstat]. cbn [fst snd fi_IsDir negb].
  erewrite bind_run.
  2: { unfold gitNewBranch. rewrite external_nofault by done. cbn. by rewrite Hb. }
  reflexivity.
Qed.

(** C7 (amended): for a 32-byte token, with no external call failing:
    if the staging tier has a branch named after the token's hex
    encoding, checkoutRecordBranch checks it out and the update goes on
    there; if it has neither such a branch nor a directory of that
    name, UpdateUnvettedRecord refuses with ErrRecordNotFound and
    changes nothing; if there is no such branch but the directory
    exists (the record sits on master), a new branch of that name is
    created and the update goes on there. *)
Theorem checkoutRecordBranch_spec (token : list byte) (w : world) :
  let id := EncodeToString token in
  let u := w_unvetted w in
  length token = 32%nat → w_faults w = [] →
  (∀ log, r_branches u !! id = Some log → is_clean u = true →
     checkoutRecordBranch id w =
       (Ok true, set_repo unvetted (mkRepo id (r_branches u) (branch_tree log)) w)) ∧
  (r_branches u !! id = None → r_work u !! id = None →
   dir_entries (r_work u) id = [] →
     checkoutRecordBranch id w = (Err ErrRecordNotFound, w) ∧
     ∀ mdAppend mdOverwrite filesAdd filesDel log,
       is_ok (verifyContent_allow_empty (mdAppend ++ mdOverwrite) filesAdd filesDel) = true →
       w_locked w = false → shutdown w = false → in_step u (w_vetted w) log →
       UpdateUnvettedRecord token mdAppend mdOverwrite filesAdd filesDel w =
         (Err ErrRecordNotFound, w)) ∧
  (r_branches u !! id = None → r_work u !! id = None →
   dir_entries (r_work u) id ≠ [] →
     checkoutRecordBranch id w =
       (Ok false,
        set_repo unvetted (mkRepo id (<[id := head_log u]> (r_branches u)) (r_work u)) w)).
Proof.
  intros id u Hlen Hf.
  pose proof (IsDigest_EncodeToString token Hlen) as Hd. fold id in Hd.
  split_and!.
  - intros log Hb Hc. by apply checkoutRecordBranch_found.
  - intros Hb Hw He. split; [by apply checkoutRecordBranch_missing|].
    intros mdAppend mdOverwrite filesAdd filesDel log Hvc Hl Hsd Hstep.
    unfold UpdateUnvettedRecord.
    destruct (verifyContent_allow_empty _ _ _) as [fa|] eqn:Hfa; [|done].
    rewrite (bind_run _ _ w w fa) by done.
    rewrite with_lock_nofault by done.
    set (w0 := set_locked true w).
    assert (w_faults w0 = []) as Hf0 by (by destruct w).
    assert (w_unvetted w0 = u) as Hu0 by (by destruct w).
    assert (in_step (w_unvetted w0) (w_vetted w0) log) as Hstep0 by (by destruct w).
    match goal with
    | |- ((?body _).1, _) = _ => assert (body w0 = (Err ErrRecordNotFound, w0)) as Hbody
    end.
    { unfold bind at 1. unfold gets at 1.
      replace (shutdown w0) with false by (by destruct w).
      assert (gitCheckout unvetted "master" w0 = (Ok (), w0)) as Hco.
      { destruct Hstep0 as (Hc' & Hb' & Hw' & Hv').
        by apply (gitCheckout_noop_nofault _ _ _ log). }
      rewrite (bind_run _ _ _ _ _ Hco).
      rewrite (bind_run _ _ _ _ _ (gitPull_noop_nofault _ _ Hf0 Hstep0)).
      assert (updateRecord token mdAppend mdOverwrite fa filesDel w0
              = (Err ErrRecordNotFound, w0)) as Hupd.
      { unfold updateRecord. fold id. apply bind_err.
        apply checkoutRecordBranch_missing; rewrite ?Hu0; done. }
      unfold bind at 1. rewrite try_run, Hupd. cbn [fst snd].
      rewrite (bind_run _ _ w0 w0 ()).
      2: { apply gitStash_noop_nofault; [done|].
           by apply (in_step_clean _ (w_vetted w0) log). }
      by rewrite (bind_run _ _ _ _ _ Hco). }
    rewrite Hbody. cbn [fst snd]. unfold w0. destruct w; cbn in *. by subst.
  - intros Hb Hw He. by apply checkoutRecordBranch_new.
Qed.
End CheckoutRecordBranch.

Lemma checkoutRecordBranch_spec_witness :
  checkoutRecordBranch (EncodeToString sample_token) published_world =
    (Ok false,
     set_repo unvetted
       (mkRepo (EncodeToString sample_token)
          (<[EncodeToString sample_token := head_log (w_unvetted published_world)]>
             (r_branches (w_unvetted published_world)))
          (r_work (w_unvetted published_world))) published_world).
Proof.
  destruct (checkoutRecordBranch_spec (H := sample_library) sample_token published_world)
    as (_ & _ & Hnew).
  - reflexivity.
  - reflexivity.
  - apply Hnew.
    + vm_compute. reflexivity.
    + vm_compute. reflexivity.
    + vm_compute. discriminate.
Defined.

(** C7 as stated fails: the staging tier has no branch for the token, yet
    UpdateUnvettedRecord does not refuse. The record is on master, so a
    branch is created and the update is committed on it. *)
Lemma UpdateUnvettedRecord_no_branch_counterexample :
  r_branches (w_unvetted published_world) !! sample_id = None ∧
  (@UpdateUnvettedRecord sample_library sample_token [] [] [sample_file_b] []
     published_world).1 =
    Ok (mkRecordMetadata 3 MDStatusIterationUnvetted
          (take 32 (bytes_of_string "x" ++ zero_bytes 32)) 1700000000%Z sample_token) ∧
  (c_message <$> head (default [] (r_branches (w_unvetted
      (@UpdateUnvettedRecord sample_library sample_token [] [] [sample_file_b] []
         published_world).2) !! sample_id))) = Some ("Update record " +:+ sample_id).
Proof.
  split_and!.
  - vm_compute. reflexivity.
  - vm_compute. reflexivity.
  - vm_compute. reflexivity.
Qed.

(** ** Temporary branches on the failure paths *)

Lemma length_append (a b : string) :
  String.length (a +:+ b) = (String.length a + String.length b)%nat.
Proof.
  induction a as [|x a IH]; [done|]. rewrite append_cons. cbn. by rewrite IH.
Qed.

Lemma tmp_branch_not_master (id : string) : id +:+ "_tmp" ≠ "master".
Proof.
  intros Heq. pose proof (f_equal String.length Heq) as Hlen.
  rewrite length_append in Hlen. cbn in Hlen.
  destruct id as [|a [|b [|c id]]]; cbn in Hlen; try lia. discriminate.
Qed.

(** The staging tier has its master branch. *)
Definition has_master (w : world) : Prop :=
  is_Some (r_branches (w_unvetted w) !! "master").

Lemma has_master_faults (fs : list bool) (w : world) :
  has_master w → has_master (set_faults fs w).
Proof. by destruct w. Qed.

Lemma has_master_locked (b : bool) (w : world) :
  has_master w → has_master (set_locked b w).
Proof. by destruct w. Qed.

Ltac has_master_leaf :=
  unfold has_master in *;
  repeat match goal with p : repo_path |- _ => destruct p end;
  repeat match goal with w : world |- _ => destruct w end;
  cbn in *;
  rewrite ?lookup_insert_is_Some', ?lookup_delete_is_Some;
  try done; auto using tmp_branch_not_master.

Section TmpBranch.
Context `{Library}.

Lemma updateMetadata_has_master (id : string) (mdAppend mdOverwrite : list MetadataStream) :
  preserves has_master (updateMetadata id mdAppend mdOverwrite).
Proof.
  unfold updateMetadata, ioutil_WriteFile, os_AppendFile, gitAdd, modify.
  preserves_with has_master_faults has_master_locked has_master_leaf.
Qed.

Lemma rebasePR_has_master (id : string) :
  preserves has_master (rebasePR (id +:+ "_tmp")).
Proof.
  unfold rebasePR, gitCheckout, gitPull, gitRebase, gitPush, gitBranchDelete.
  preserves_with has_master_faults has_master_locked has_master_leaf.
Qed.

Lemma updateVettedMetadata_has_master (id : string)
    (mdAppend mdOverwrite : list MetadataStream) :
  preserves has_master (updateVettedMetadata id (id +:+ "_tmp") mdAppend mdOverwrite).
Proof.
  unfold updateVettedMetadata.
  apply preserves_bind.
  { unfold gitNewBranch.
    preserves_with has_master_faults has_master_locked has_master_leaf. }
  intros _. apply preserves_bind; [apply updateMetadata_has_master|].
  intros _. apply preserves_bind.
  { unfold gitHasChanges. apply preserves_gets. }
  intros changes. destruct changes; cbn [negb]; [|apply preserves_fail].
  apply preserves_bind; [|intros _; apply rebasePR_has_master].
  unfold gitCommit.
  preserves_with has_master_faults has_master_locked has_master_leaf.
Qed.

Lemma drop_tmp_branch_nofault (idTmp : string) (w : world) :
  w_faults w = [] → has_master w → idTmp ≠ "master" →
  ∃ r w', drop_tmp_branch idTmp w = (r, w') ∧
          r_branches (w_unvetted w') !! idTmp = None ∧
          r_cur (w_unvetted w') = "master" ∧
          is_clean (w_unvetted w') = true ∧
          w_vetted w' = w_vetted w ∧
          (is_Some (r_branches (w_unvetted w) !! idTmp) → r = Ok ()).
Proof.
  intros Hf [mlog Hm] Hne. unfold drop_tmp_branch.
  set (u := w_unvetted w).
  set (w1 := set_repo unvetted (set_work (head_tree u) u) w).
  assert (gitStash unvetted w = (Ok (), w1)) as Hstash.
  { unfold gitStash. by rewrite external_nofault. }
  rewrite (bind_run _ _ _ _ _ Hstash).
  set (u2 := mkRepo "master" (r_branches u) (branch_tree mlog)).
  set (w2 := set_repo unvetted u2 w1).
  assert (gitCheckout unvetted "master" w1 = (Ok (), w2)) as Hco.
  { rewrite (gitCheckout_nofault _ _ _ mlog).
    - done.
    - unfold w1. by destruct w.
    - unfold w1. by destruct w.
    - unfold w1, is_clean, head_tree, head_log. destruct w. cbn.
      by apply bool_decide_eq_true. }
  rewrite (bind_run _ _ _ _ _ Hco).
  assert (w_faults w2 = []) as Hf2 by (unfold w2, w1; by destruct w).
  assert (w_unvetted w2 = u2) as Hu2 by (unfold w2, w1; by destruct w).
  assert (w_vetted w2 = w_vetted w) as Hv2 by (unfold w2, w1; by destruct w).
  assert (is_clean u2 = true) as Hclean2.
  { unfold is_clean, head_tree, head_log, u2. cbn. fold u in Hm. rewrite Hm. cbn.
    by apply bool_decide_eq_true. }
  unfold gitBranchDelete. rewrite external_nofault by done. cbv beta zeta.
  change (repo_of unvetted w2) with (w_unvetted w2). rewrite Hu2.
  change (r_branches u2) with (r_branches u). change (r_cur u2) with "master".
  destruct (r_branches u !! idTmp) as [tlog|] eqn:Ht.
  - rewrite decide_False by done. eexists _, _. split; [reflexivity|].
    cbn [repo_of set_repo w_unvetted w_vetted set_branches r_branches r_cur r_work].
    split_and!; try done.
    + apply lookup_delete_eq.
    + unfold is_clean, head_tree, head_log, u2. cbn.
      rewrite lookup_delete_ne by done. fold u in Hm. rewrite Hm. cbn.
      by apply bool_decide_eq_true.
  - eexists _, _. split; [reflexivity|]. rewrite Hu2. split_and!; try done.
Qed.

End TmpBranch.
(** No external call fails any more, and the staging tier has its master. *)
Definition quiet (w : world) : Prop := w_faults w = [] ∧ has_master w.

Lemma preserves_external_quiet {A} (I : world → Prop) (what : string) (m : M A) :
  (∀ w, I w → w_faults w = []) → preserves I m → preserves I (external what m).
Proof. intros HI Hm w Hw. rewrite external_nofault by auto. by apply Hm. Qed.

Lemma quiet_faults (w : world) : quiet w → w_faults w = [].
Proof. by intros [? ?]. Qed.

Ltac quiet_leaf :=
  unfold quiet, has_master in *;
  repeat match goal with p : repo_path |- _ => destruct p end;
  repeat match goal with w : world |- _ => destruct w end;
  cbn in *;
  rewrite ?lookup_insert_is_Some', ?lookup_delete_is_Some;
  try done; intuition (auto using tmp_branch_not_master);
  try (exfalso; eapply tmp_branch_not_master; eassumption).

Ltac preserves_quiet :=
  repeat first
    [ match goal with
      | |- preserves ?I (external _ _) => apply (preserves_external_quiet I _ _ quiet_faults)
      | |- preserves _ (match ?x with _ => _ end) => destruct x
      end
    | apply preserves_ret | apply preserves_fail | apply preserves_gets
    | apply preserves_lift
    | apply preserves_try | apply preserves_wrap_error
    | apply preserves_for_each; intros ?
    | apply preserves_map_M; intros ?
    | apply preserves_bind; [|intros ?]
    | progress cbv beta zeta
    | (intros ? ?; cbv beta; repeat case_match; cbn [fst snd]; quiet_leaf) ].

Section TmpBranch2.
Context `{Library}.

Lemma updateVettedMetadata_quiet (id : string)
    (mdAppend mdOverwrite : list MetadataStream) :
  preserves quiet (updateVettedMetadata id (id +:+ "_tmp") mdAppend mdOverwrite).
Proof.
  unfold updateVettedMetadata, updateMetadata, rebasePR, gitNewBranch, gitHasChanges,
    gitCommit, ioutil_WriteFile, os_AppendFile, gitAdd, modify,
    gitCheckout, gitPull, gitRebase, gitPush, gitBranchDelete.
  preserves_quiet.
Qed.

Lemma gitBranchDelete_ok_inv (p : repo_path) (b : string) (w w' : world) :
  gitBranchDelete p b w = (Ok (), w') →
  r_branches (repo_of p w') !! b = None ∧ r_cur (repo_of p w') = r_cur (repo_of p w).
Proof.
  intros [fs Hm]%external_ok_inv. cbv beta zeta in Hm.
  rewrite !repo_of_set_faults in Hm.
  destruct (r_branches (repo_of p w) !! b); [|done].
  case_decide; [done|]. injection Hm as <-.
  rewrite repo_of_set_repo. cbn. split; [apply lookup_delete_eq|done].
Qed.

Lemma updateVettedMetadata_ok_inv (id idTmp : string)
    (mdAppend mdOverwrite : list MetadataStream) (w w' : world) :
  updateVettedMetadata id idTmp mdAppend mdOverwrite w = (Ok (), w') →
  r_branches (w_unvetted w') !! idTmp = None.
Proof.
  unfold updateVettedMetadata.
  intros ([] & w1 & _ & Hk)%bind_ok_inv.
  apply bind_ok_inv in Hk as ([] & w2 & _ & Hk).
  apply bind_ok_inv in Hk as (changes & w3 & _ & Hk).
  destruct (negb changes); [done|].
  apply bind_ok_inv in Hk as ([] & w4 & _ & Hk).
  unfold rebasePR in Hk.
  repeat (apply bind_ok_inv in Hk as ([] & ? & _ & Hk)).
  by apply gitBranchDelete_ok_inv in Hk as [? _].
Qed.
End TmpBranch2.
Lemma os_Stat_nofault_world (p : repo_path) (path : string) (w : world) :
  w_faults w = [] → (os_Stat p path w).2 = w.
Proof.
  intros Hf. unfold os_Stat. rewrite external_nofault by done. cbv beta zeta.
  by repeat case_match.
Qed.

Lemma gitCheckout_branches (p : repo_path) (b : string) (w : world) :
  r_branches (w_unvetted (gitCheckout p b w).2) = r_branches (w_unvetted w).
Proof.
  unfold gitCheckout, external.
  destruct (w_faults w) as [|[] fs]; cbv beta zeta; repeat case_match;
    destruct p, w; reflexivity.
Qed.

Section TmpBranch3.
Context `{Library}.

Lemma loadMD_nofault_world (p : repo_path) (id : string) (w : world) :
  w_faults w = [] → (loadMD p id w).2 = w.
Proof.
  intros Hf. unfold loadMD, bind. rewrite try_run.
  unfold ioutil_ReadFile. rewrite external_nofault by done. cbv beta zeta.
  by repeat case_match.
Qed.

(** UpdateVettedMetadata leaves no branch <id>_tmp behind in the
    staging tier when it fails: what the failure path does after a
    failed updateVettedMetadata, and what is left when no external
    call fails. *)
Lemma UpdateVettedMetadata_failure_staging (token : list byte)
    (mdAppend mdOverwrite : list MetadataStream) :
  let id := EncodeToString token in
  let idTmp := id +:+ "_tmp" in
  (∀ w w1 e,
     has_master w →
     updateVettedMetadata id idTmp mdAppend mdOverwrite w = (Err e, w1) →
     w_faults w1 = [] →
     ∃ r w2, drop_tmp_branch idTmp w1 = (r, w2) ∧
             r_branches (w_unvetted w2) !! idTmp = None ∧
             r_cur (w_unvetted w2) = "master" ∧
             is_clean (w_unvetted w2) = true ∧
             (is_Some (r_branches (w_unvetted w1) !! idTmp) → r = Ok ())) ∧
  (∀ w log e w',
     w_faults w = [] → w_locked w = false →
     in_step (w_unvetted w) (w_vetted w) log →
     r_branches (w_unvetted w) !! idTmp = None →
     UpdateVettedMetadata token mdAppend mdOverwrite w = (Err e, w') →
     r_branches (w_unvetted w') !! idTmp = None).
Proof.
  intros id idTmp. split.
  - intros w w1 e Hm Hrun Hf.
    pose proof (updateVettedMetadata_has_master id mdAppend mdOverwrite w Hm) as Hm1.
    fold idTmp in Hm1. rewrite Hrun in Hm1. cbn in Hm1.
    destruct (drop_tmp_branch_nofault idTmp w1 Hf Hm1 (tmp_branch_not_master id))
      as (r & w2 & Hd & Hb & Hc & Hcl & _ & Hr).
    eauto 10.
  - intros w log e w' Hf Hl Hstep Hb Hrun.
    unfold UpdateVettedMetadata in Hrun. fold id idTmp in Hrun.
    destruct (verifyContent_allow_empty _ _ _) as [fa|ev] eqn:Hfa.
    2: { rewrite (bind_err _ _ w w ev) in Hrun by done. by injection Hrun as _ <-. }
    rewrite (bind_run _ _ w w fa) in Hrun by done.
    rewrite with_lock_nofault in Hrun by done.
    set (w0 := set_locked true w) in *.
    assert (w_faults w0 = []) as Hf0 by (by destruct w).
    assert (in_step (w_unvetted w0) (w_vetted w0) log) as Hstep0 by (by destruct w).
    assert (r_branches (w_unvetted w0) !! idTmp = None) as Hb0 by (by destruct w).
    assert (quiet w0) as Hq0.
    { split; [done|]. destruct Hstep0 as (_ & Hmaster & _). unfold has_master. eauto. }
    match type of Hrun with
    | ((?body _).1, set_locked false _) = _ =>
        assert (r_branches (w_unvetted (body w0).2) !! idTmp = None) as Hbody
    end.
    2: { injection Hrun as _ <-. exact Hbody. }
    clear Hrun.
    unfold bind at 1. unfold gets at 1. destruct (shutdown w0); [done|].
    assert (gitCheckout unvetted "master" w0 = (Ok (), w0)) as Hco.
    { destruct Hstep0 as (Hc' & Hb' & Hw' & Hv').
      by apply (gitCheckout_noop_nofault _ _ _ log). }
    rewrite (bind_run _ _ _ _ _ Hco).
    rewrite (bind_run _ _ _ _ _ (gitPull_noop_nofault _ _ Hf0 Hstep0)).
    match goal with
    | |- context [bind (try (os_Stat unvetted id)) ?k] =>
        assert (∀ r, r ≠ Err ErrNotExist →
                  r_branches (w_unvetted (k r w0).2) !! idTmp = None) as Hk
    end.
    { intros r Hr.
      assert (r_branches (w_unvetted
                (bind (loadMD unvetted id) (λ md,
                   if bool_decide (Status md = MDStatusLocked) then fail ErrRecordLocked
                   else bind (try (updateVettedMetadata id idTmp mdAppend mdOverwrite))
                          (λ r, match r with
                                | Ok _ => gitCheckout unvetted "master"
                                | Err err => bind (drop_tmp_branch idTmp) (λ _, fail err)
                                end)) w0).2) !! idTmp = None) as Hload.
      { unfold bind at 1. pose proof (loadMD_nofault_world unvetted id w0 Hf0) as Hw.
        destruct (loadMD unvetted id w0) as [[md|el] wl]; cbn in Hw; subst wl; [|done].
        case_bool_decide; [done|].
        unfold bind at 1. rewrite try_run.
        pose proof (updateVettedMetadata_quiet id mdAppend mdOverwrite w0 Hq0) as Hq1.
        fold idTmp in Hq1.
        destruct (updateVettedMetadata id idTmp mdAppend mdOverwrite w0)
          as [[[]|e1] w1] eqn:Hinner; cbn [fst snd] in *.
        - rewrite gitCheckout_branches. by eapply updateVettedMetadata_ok_inv.
        - destruct Hq1 as [Hf1 Hm1].
          destruct (drop_tmp_branch_nofault idTmp w1 Hf1 Hm1 (tmp_branch_not_master id))
            as (rd & w2 & Hd & Hb2 & _).
          unfold bind. rewrite Hd. by destruct rd. }
      destruct r as [fi|[]]; try exact Hload. done. }
    unfold bind at 1. rewrite try_run.
    pose proof (os_Stat_nofault_world unvetted id w0 Hf0) as Hw.
    destruct (os_Stat unvetted id w0) as [rs ws]. cbn in Hw. subst ws. cbn [fst snd].
    specialize (Hk rs).
    destruct rs as [fi|[]]; cbv beta iota in Hk |- *;
      first [exact Hb0 | by apply Hk].
Qed.
End TmpBranch3.

(** C9 as stated fails for New and for SetUnvettedStatus. New fails at
    its git commit, after newRecord has created the branch of the record:
    the branch is still there afterwards. SetUnvettedStatus refuses a
    transition on the branch of the record: the branch is still there
    afterwards. Both leave master checked out and no uncommitted
    change. *)
Lemma New_keeps_branch_counterexample :
  r_branches (w_unvetted (initial_world (replicate 11 false ++ [true]) [sample_token]))
    !! sample_id = None ∧
  (@New sample_library [sample_metadata] [sample_file]
     (initial_world (replicate 11 false ++ [true]) [sample_token])).1 =
    Err (Errorf "git commit") ∧
  bool_decide (is_Some (r_branches (w_unvetted
    (@New sample_library [sample_metadata] [sample_file]
       (initial_world (replicate 11 false ++ [true]) [sample_token])).2) !! sample_id)) = true ∧
  r_cur (w_unvetted
    (@New sample_library [sample_metadata] [sample_file]
       (initial_world (replicate 11 false ++ [true]) [sample_token])).2) = "master" ∧
  (@SetUnvettedStatus sample_library sample_token MDStatusLocked [] [] recorded_world).1 =
    Err (StateTransitionError MDStatusUnvetted MDStatusLocked) ∧
  bool_decide (r_branches (w_unvetted
    (@SetUnvettedStatus sample_library sample_token MDStatusLocked [] [] recorded_world).2)
    !! sample_id = Some recorded_log) = true.
Proof.
  split_and!.
  - vm_compute. reflexivity.
  - vm_compute. reflexivity.
  - vm_compute. reflexivity.
  - vm_compute. reflexivity.
  - vm_compute. reflexivity.
  - vm_compute. reflexivity.
Qed.

(** ** Updates that change nothing *)

(** The world with another content of the working directory of the
    staging tier. *)
Definition with_work (t : tree) (w : world) : world :=
  set_repo unvetted (set_work t (w_unvetted w)) w.

(** The file of a metadata stream. *)
Definition md_filename (id : string) (m : MetadataStream) : string :=
  Join id (Sprintf_02v (ms_ID m) +:+ defaultMDFilenameSuffix).

(** The changes an update applies to the working tree, in the words of
    the specification: the file writes, the deletions, and the metadata
    changes (streams overwritten, then streams appended to). A deletion
    of a file that is not there does not go through. *)
Definition write_files (dir : string) (fa : list file) (t : tree) : tree :=
  foldl (λ t f, <[Join dir (name f) := payload f]> t) t fa.

Fixpoint remove_files (dir : string) (filesDel : list string) (t : tree) : option tree :=
  match filesDel with
  | [] => Some t
  | v :: rest =>
      match t !! Join dir v with
      | Some _ => remove_files dir rest (delete (Join dir v) t)
      | None => None
      end
  end.

Definition overwrite_streams (id : string) (mds : list MetadataStream) (t : tree) : tree :=
  foldl (λ t m, <[md_filename id m := bytes_of_string (ms_Payload m)]> t) t mds.

Definition append_streams (id : string) (mds : list MetadataStream) (t : tree) : tree :=
  foldl (λ t m, <[md_filename id m :=
                    default [] (t !! md_filename id m) ++ bytes_of_string (ms_Payload m)]> t)
    t mds.

Definition updated_tree (id : string) (fa : list file) (filesDel : list string)
    (mdAppend mdOverwrite : list MetadataStream) (t : tree) : option tree :=
  t' ← remove_files (Join id defaultPayloadDir) filesDel
         (write_files (Join id defaultPayloadDir) fa t);
  Some (append_streams id mdAppend (overwrite_streams id mdOverwrite t')).

Lemma with_work_faults (t : tree) (w : world) : w_faults (with_work t w) = w_faults w.
Proof. by destruct w. Qed.

Lemma with_work_work (t : tree) (w : world) : r_work (w_unvetted (with_work t w)) = t.
Proof. by destruct w. Qed.

Lemma with_work_twice (t t' : tree) (w : world) :
  with_work t' (with_work t w) = with_work t' w.
Proof. by destruct w. Qed.

Lemma with_work_id (w : world) : with_work (r_work (w_unvetted w)) w = w.
Proof. by destruct w as [[] ?]. Qed.

Lemma with_work_head (t : tree) (w : world) :
  head_tree (w_unvetted (with_work t w)) = head_tree (w_unvetted w).
Proof. by destruct w. Qed.

Lemma diff_paths_same (t : tree) : diff_paths t t = [].
Proof.
  unfold diff_paths.
  replace (merge _ t t) with (∅ : gmap string ()); [by rewrite map_to_list_empty|].
  apply map_eq. intros i. rewrite lookup_empty, lookup_merge.
  destruct (t !! i) as [x|]; cbn; [|done]. by rewrite decide_True.
Qed.

Lemma ioutil_WriteFile_nofault (path : string) (data : list byte) (w : world) :
  w_faults w = [] →
  ioutil_WriteFile unvetted path data w =
    (Ok (), with_work (<[path := data]> (r_work (w_unvetted w))) w).
Proof. intros Hf. unfold ioutil_WriteFile. by rewrite external_nofault. Qed.

Lemma os_AppendFile_nofault (path : string) (data : list byte) (w : world) :
  w_faults w = [] →
  os_AppendFile unvetted path data w =
    (Ok (), with_work (<[path := default [] (r_work (w_unvetted w) !! path) ++ data]>
                         (r_work (w_unvetted w))) w).
Proof. intros Hf. unfold os_AppendFile. by rewrite external_nofault. Qed.

Lemma gitAdd_nofault (path : string) (w : world) :
  w_faults w = [] → is_Some (r_work (w_unvetted w) !! path) →
  gitAdd unvetted path w = (Ok (), w).
Proof.
  intros Hf [b Hb]. unfold gitAdd. rewrite external_nofault by done.
  cbn [repo_of]. by rewrite Hb.
Qed.

Lemma gitRm_nofault (path : string) (w : world) :
  w_faults w = [] → is_Some (r_work (w_unvetted w) !! path) →
  gitRm unvetted path w = (Ok (), with_work (delete path (r_work (w_unvetted w))) w).
Proof.
  intros Hf [b Hb]. unfold gitRm. rewrite external_nofault by done.
  cbn [repo_of]. by rewrite Hb.
Qed.

Lemma os_Stat_file_nofault (path : string) (w : world) :
  w_faults w = [] → is_Some (r_work (w_unvetted w) !! path) →
  os_Stat unvetted path w = (Ok (mkFileInfo path false), w).
Proof.
  intros Hf [b Hb]. unfold os_Stat. rewrite external_nofault by done.
  cbn [repo_of]. cbv zeta. by rewrite Hb.
Qed.

Lemma write_files_nofault (dir : string) (fa : list file) (w : world) :
  w_faults w = [] →
  for_each fa (λ f,
    bind (ioutil_WriteFile unvetted (Join dir (name f)) (payload f))
      (λ _, gitAdd unvetted (Join dir (name f)))) w =
    (Ok (), with_work (write_files dir fa (r_work (w_unvetted w))) w).
Proof.
  revert w. induction fa as [|f fa IH]; intros w Hf.
  { cbn [for_each foldl write_files overwrite_streams append_streams]. by rewrite with_work_id. }
  cbn [for_each write_files foldl].
  erewrite bind_run.
  2: { erewrite bind_run; [|by apply ioutil_WriteFile_nofault].
       apply gitAdd_nofault; [by rewrite with_work_faults|].
       rewrite with_work_work, lookup_insert_eq. eauto. }
  rewrite IH by (by rewrite with_work_faults).
  by rewrite with_work_twice, with_work_work.
Qed.

Lemma stat_files_nofault (dir : string) (filesDel : list string) (w : world) :
  w_faults w = [] →
  Forall (λ v, is_Some (r_work (w_unvetted w) !! Join dir v)) filesDel →
  for_each filesDel (λ v,
    bind (try (os_Stat unvetted (Join dir v)))
      (λ r, match r with
            | Err ErrNotExist => fail (ContentVerificationError ErrorStatusFileNotFound [v])
            | Err _ => fail (Panic "nil pointer dereference")
            | Ok fi => if fi_IsDir fi then fail (Errorf ("not a file: " +:+ fi_Name fi))
                       else ret ()
            end)) w = (Ok (), w).
Proof.
  intros Hf Hall. apply for_each_nofault.
  eapply Forall_impl; [exact Hall|]. intros v Hv. cbv beta in *.
  unfold bind. rewrite try_run. by rewrite os_Stat_file_nofault.
Qed.

Lemma remove_files_nofault (dir : string) (filesDel : list string) (w : world) (t' : tree) :
  w_faults w = [] →
  remove_files dir filesDel (r_work (w_unvetted w)) = Some t' →
  for_each filesDel (λ v, gitRm unvetted (Join dir v)) w = (Ok (), with_work t' w).
Proof.
  revert w. induction filesDel as [|v l IH]; intros w Hf Hrm.
  { cbn [for_each remove_files] in *. injection Hrm as <-. by rewrite with_work_id. }
  cbn [for_each remove_files] in *.
  destruct (r_work (w_unvetted w) !! Join dir v) as [b|] eqn:Hb; [|done].
  erewrite bind_run; [|apply gitRm_nofault; [done|eauto]].
  rewrite IH; [by rewrite with_work_twice|by rewrite with_work_faults|].
  by rewrite with_work_work.
Qed.

Lemma overwrite_streams_nofault (id : string) (mds : list MetadataStream) (w : world) :
  w_faults w = [] →
  for_each mds (λ m,
    bind (ioutil_WriteFile unvetted
            (Join id (Sprintf_02v (ms_ID m) +:+ defaultMDFilenameSuffix))
            (bytes_of_string (ms_Payload m)))
      (λ _, gitAdd unvetted (Join id (Sprintf_02v (ms_ID m) +:+ defaultMDFilenameSuffix)))) w =
    (Ok (), with_work (overwrite_streams id mds (r_work (w_unvetted w))) w).
Proof.
  revert w. induction mds as [|m mds IH]; intros w Hf.
  { cbn [for_each foldl write_files overwrite_streams append_streams]. by rewrite with_work_id. }
  cbn [for_each overwrite_streams foldl].
  erewrite bind_run.
  2: { erewrite bind_run; [|by apply ioutil_WriteFile_nofault].
       apply gitAdd_nofault; [by rewrite with_work_faults|].
       rewrite with_work_work, lookup_insert_eq. eauto. }
  rewrite IH by (by rewrite with_work_faults).
  by rewrite with_work_twice, with_work_work.
Qed.

Lemma append_streams_nofault (id : string) (mds : list MetadataStream) (w : world) :
  w_faults w = [] →
  for_each mds (λ m,
    bind (os_AppendFile unvetted
            (Join id (Sprintf_02v (ms_ID m) +:+ defaultMDFilenameSuffix))
            (bytes_of_string (ms_Payload m)))
      (λ _, gitAdd unvetted (Join id (Sprintf_02v (ms_ID m) +:+ defaultMDFilenameSuffix)))) w =
    (Ok (), with_work (append_streams id mds (r_work (w_unvetted w))) w).
Proof.
  revert w. induction mds as [|m mds IH]; intros w Hf.
  { cbn [for_each foldl write_files overwrite_streams append_streams]. by rewrite with_work_id. }
  cbn [for_each append_streams foldl].
  erewrite bind_run.
  2: { erewrite bind_run; [|by apply os_AppendFile_nofault].
       apply gitAdd_nofault; [by rewrite with_work_faults|].
       rewrite with_work_work, lookup_insert_eq. eauto. }
  rewrite IH by (by rewrite with_work_faults).
  by rewrite with_work_twice, with_work_work.
Qed.

Lemma updateMetadata_nofault (id : string) (mdAppend mdOverwrite : list MetadataStream)
    (w : world) :
  w_faults w = [] →
  updateMetadata id mdAppend mdOverwrite w =
    (Ok (), with_work (append_streams id mdAppend
                         (overwrite_streams id mdOverwrite (r_work (w_unvetted w)))) w).
Proof.
  intros Hf. unfold updateMetadata.
  erewrite bind_run; [|by apply overwrite_streams_nofault].
  rewrite append_streams_nofault by (by rewrite with_work_faults).
  by rewrite with_work_twice, with_work_work.
Qed.

Section NoChanges.
Context `{Library}.

Lemma digests_nofault (dir : string) (es : list FileInfo) (w : world) :
  w_faults w = [] →
  Forall (λ v, is_Some (r_work (w_unvetted w) !! Join dir (fi_Name v))) es →
  ∃ hashes,
    map_M es (λ v,
      bind (DigestFileBytes unvetted (Join dir (fi_Name v)))
        (λ d, ret (copy (zero_bytes sha256_Size) d))) w = (Ok hashes, w).
Proof.
  intros Hf Hall.
  exists ((λ v, copy (zero_bytes sha256_Size)
                  (util_Digest (default [] (r_work (w_unvetted w) !! Join dir (fi_Name v)))))
            <$> es).
  apply map_M_nofault. eapply Forall_impl; [exact Hall|]. intros v [b Hb]. cbv beta.
  unfold DigestFileBytes.
  erewrite bind_run.
  2: { erewrite bind_run; [|by apply ioutil_ReadFile_nofault]. reflexivity. }
  by rewrite Hb.
Qed.

(** Once the branch of the record is checked out, an update whose
    changes leave the working tree as it is stops at the empty diff. *)
Lemma updateRecord_no_changes (token : list byte)
    (mdAppend mdOverwrite : list MetadataStream) (fa : list file)
    (filesDel : list string) (w wc : world) (found : bool) (log : list commit)
    (b : list byte) (brm : RecordMetadata) :
  let id := EncodeToString token in
  let ppath := Join id defaultPayloadDir in
  let t := branch_tree log in
  checkoutRecordBranch id w = (Ok found, wc) →
  w_faults wc = [] →
  r_cur (w_unvetted wc) = id → r_branches (w_unvetted wc) !! id = Some log →
  r_work (w_unvetted wc) = t →
  t !! Join id defaultRecordMetadataFilename = Some b →
  unjson_RecordMetadata b = Some brm → updatable (Status brm) = true →
  Forall (λ v, is_Some (t !! Join ppath v)) filesDel →
  dir_entries t ppath ≠ [] →
  Forall (λ v, is_Some (t !! Join ppath (fi_Name v))) (dir_entries t ppath) →
  updated_tree id fa filesDel mdAppend mdOverwrite t = Some t →
  updateRecord token mdAppend mdOverwrite fa filesDel w = (Err ErrNoChanges, wc).
Proof.
  intros id ppath t Hco Hf Hcur Hbr Hwork Hb Hj Hup Hdel Hne Hflat Hsame.
  unfold updateRecord. fold id.
  rewrite (bind_run _ _ _ _ _ Hco).
  assert (loadMD unvetted id wc = (Ok brm, wc)) as Hload.
  { apply (loadMD_nofault _ _ _ b); [done| |done]. cbn [repo_of]. by rewrite Hwork. }
  rewrite (bind_run _ _ _ _ _ Hload).
  rewrite Hup. cbn [negb].
  rewrite (bind_run _ _ wc wc ()).
  2: { apply stat_files_nofault; [done|]. by rewrite Hwork. }
  unfold updated_tree in Hsame. fold ppath in Hsame.
  destruct (remove_files ppath filesDel (write_files ppath fa t)) as [t1|] eqn:Hrm; [|done].
  cbn in Hsame. injection Hsame as Hsame.
  fold ppath.
  rewrite (bind_run _ _ _ _ _ (write_files_nofault ppath fa wc Hf)).
  rewrite Hwork.
  erewrite bind_run.
  2: { apply remove_files_nofault; [by rewrite with_work_faults|].
       rewrite with_work_work. exact Hrm. }
  rewrite with_work_twice.
  erewrite bind_run.
  2: { apply updateMetadata_nofault. by rewrite with_work_faults. }
  rewrite with_work_twice, with_work_work, Hsame.
  replace (with_work t wc) with wc by (by rewrite <-Hwork, with_work_id).
  rewrite (bind_run _ _ wc wc (Ok (dir_entries t ppath))).
  2: { rewrite try_run. unfold ioutil_ReadDir. rewrite external_nofault by done.
       cbn [repo_of]. cbv zeta. rewrite Hwork. by rewrite decide_False. }
  destruct (digests_nofault ppath (dir_entries t ppath) wc Hf) as [hashes Hh].
  { by rewrite Hwork. }
  rewrite (bind_run _ _ _ _ _ Hh).
  rewrite (bind_run _ _ wc wc []).
  2: { unfold gitDiff. rewrite external_nofault by done. cbn [repo_of]. cbv zeta.
       unfold head_tree, head_log. rewrite Hcur, Hbr, Hwork. cbn [default].
       by rewrite diff_paths_same. }
  reflexivity.
Qed.

(** C6: an update of an unvetted record whose file writes, deletions
    and metadata changes leave the working tree of the record as it
    is, byte for byte, returns ErrNoChanges. No commit is created and
    the RecordMetadata is not written: every branch keeps its history,
    so version, status and merkle of the record are the ones of
    before. When the record has its branch, the whole state is left
    as it was; when the record is on master only, the branch that
    checkoutRecordBranch created for it stays, at the commit of
    master. (No external call fails, the staging tier is clean on
    master and in step with the publication tier; the record can be
    read and updated, and its payload directory holds files only.) *)
Theorem UpdateUnvettedRecord_no_changes (token : list byte)
    (mdAppend mdOverwrite : list MetadataStream) (filesAdd : list File)
    (filesDel : list string) (fa : list file) (w : world) (mlog log : list commit)
    (b : list byte) (brm : RecordMetadata) :
  let id := EncodeToString token in
  let ppath := Join id defaultPayloadDir in
  let u := w_unvetted w in
  let t := branch_tree log in
  length token = 32%nat →
  w_faults w = [] → w_locked w = false → shutdown w = false →
  in_step u (w_vetted w) mlog →
  verifyContent_allow_empty (mdAppend ++ mdOverwrite) filesAdd filesDel = Ok fa →
  (r_branches u !! id = Some log ∨
   (r_branches u !! id = None ∧ log = mlog ∧ t !! id = None)) →
  t !! Join id defaultRecordMetadataFilename = Some b →
  unjson_RecordMetadata b = Some brm → updatable (Status brm) = true →
  Forall (λ v, is_Some (t !! Join ppath v)) filesDel →
  dir_entries t ppath ≠ [] →
  Forall (λ v, is_Some (t !! Join ppath (fi_Name v))) (dir_entries t ppath) →
  updated_tree id fa filesDel mdAppend mdOverwrite t = Some t →
  UpdateUnvettedRecord token mdAppend mdOverwrite filesAdd filesDel w =
    (Err ErrNoChanges,
     set_repo unvetted (set_branches (<[id := log]> (r_branches u)) u) w) ∧
  (r_branches u !! id = Some log →
   UpdateUnvettedRecord token mdAppend mdOverwrite filesAdd filesDel w =
     (Err ErrNoChanges, w)).
Proof.
  intros id ppath u t Hlen Hf Hl Hsd Hstep Hfa Hcase Hb Hj Hup Hdel Hne Hflat Hsame.
  pose proof (IsDigest_EncodeToString token Hlen) as Hd. fold id in Hd.
  assert (UpdateUnvettedRecord token mdAppend mdOverwrite filesAdd filesDel w =
            (Err ErrNoChanges,
             set_repo unvetted (set_branches (<[id := log]> (r_branches u)) u) w)) as Hrun.
  2: { split; [exact Hrun|]. intros Hbr. rewrite Hrun. f_equal.
       rewrite insert_id by done. subst u. by destruct w as [[] ?]. }
  unfold UpdateUnvettedRecord. fold id.
  rewrite (bind_run _ _ w w fa) by (by rewrite Hfa).
  rewrite with_lock_nofault by done.
  set (w0 := set_locked true w).
  assert (w_faults w0 = []) as Hf0 by (by destruct w).
  assert (w_unvetted w0 = u) as Hu0 by (by destruct w).
  assert (in_step (w_unvetted w0) (w_vetted w0) mlog) as Hstep0 by (by destruct w).
  pose proof (in_step_clean _ _ _ Hstep0) as Hclean0.
  destruct Hstep as (Hcur & Hmaster & Hwork & Hvet).
  set (wc := set_repo unvetted (mkRepo id (<[id := log]> (r_branches u)) t) w0).
  assert (∃ found, checkoutRecordBranch id w0 = (Ok found, wc)) as [found Hco].
  { destruct Hcase as [Hbr|(Hbr & -> & Hnone)].
    - exists true. rewrite (checkoutRecordBranch_found id w0 log); rewrite ?Hu0; try done.
      unfold wc. by rewrite insert_id.
    - exists false. rewrite checkoutRecordBranch_new; rewrite ?Hu0; try done.
      + unfold wc, head_log, t. by rewrite Hcur, Hmaster, Hwork.
      + by rewrite Hwork.
      + rewrite Hwork.
        apply (dir_entries_nonempty _ _ (Join id defaultRecordMetadataFilename)).
        * unfold t in Hb. eauto.
        * apply dir_entry_is_Some. }
  assert (updateRecord token mdAppend mdOverwrite fa filesDel w0 = (Err ErrNoChanges, wc))
    as Hupd.
  { apply (updateRecord_no_changes _ _ _ _ _ _ _ found log b brm); try done.
    change (<[id := log]> (r_branches u) !! id = Some log). apply lookup_insert_eq. }
  match goal with
  | |- ((?body _).1, _) = _ =>
      assert (body w0 = (Err ErrNoChanges,
                set_repo unvetted (mkRepo "master" (<[id := log]> (r_branches u))
                                     (branch_tree mlog)) w0)) as Hbody
  end.
  { unfold bind at 1. unfold gets at 1.
    replace (shutdown w0) with false by (by destruct w).
    assert (gitCheckout unvetted "master" w0 = (Ok (), w0)) as Hco0.
    { destruct Hstep0 as (Hc' & Hb' & Hw' & Hv').
      by apply (gitCheckout_noop_nofault _ _ _ mlog). }
    rewrite (bind_run _ _ _ _ _ Hco0).
    rewrite (bind_run _ _ _ _ _ (gitPull_noop_nofault _ _ Hf0 Hstep0)).
    unfold bind at 1. rewrite try_run, Hupd. cbn [fst snd].
    erewrite bind_run.
    2: { apply (gitCheckout_nofault _ _ _ mlog).
         - exact Hf0.
         - change (<[id := log]> (r_branches u) !! "master" = Some mlog).
           destruct (decide (id = "master")) as [Heq|Hneq].
           + exfalso. rewrite Heq in Hd. vm_compute in Hd. discriminate.
           + rewrite lookup_insert_ne by done. exact Hmaster.
         - unfold is_clean, head_tree, head_log.
           change (bool_decide (t = branch_tree
                     (default [] (<[id := log]> (r_branches u) !! id))) = true).
           rewrite lookup_insert_eq. by apply bool_decide_eq_true. }
    reflexivity. }
  rewrite Hbody. cbn [fst snd]. f_equal.
  unfold w0, u in *. destruct w as [[] ?]; cbn in *. by subst.
Qed.
End NoChanges.

Lemma UpdateUnvettedRecord_no_changes_witness :
  @UpdateUnvettedRecord sample_library sample_token [] [sample_metadata] [sample_file] []
    recorded_world = (Err ErrNoChanges, recorded_world).
Proof.
  destruct (@UpdateUnvettedRecord_no_changes sample_library sample_token
           [] [sample_metadata] [sample_file] []
           [mkfile "a.txt" (take 32 (bytes_of_string "x" ++ zero_bytes 32))
              (bytes_of_string "x")]
           recorded_world [initial_commit] recorded_log
           (@json_RecordMetadata sample_library recorded_metadata)
           recorded_metadata) as [_ Hsame].
  - reflexivity.
  - reflexivity.
  - reflexivity.
  - reflexivity.
  - split_and!.
    + reflexivity.
    + apply (bool_decide_eq_true_1 _). vm_compute. reflexivity.
    + apply (bool_decide_eq_true_1 _). vm_compute. reflexivity.
    + apply (bool_decide_eq_true_1 _). vm_compute. reflexivity.
  - vm_compute. reflexivity.
  - left. apply (bool_decide_eq_true_1 _). vm_compute. reflexivity.
  - vm_compute. reflexivity.
  - vm_compute. reflexivity.
  - reflexivity.
  - constructor.
  - vm_compute. discriminate.
  - apply (bool_decide_eq_true_1 _). vm_compute. reflexivity.
  - apply (bool_decide_eq_true_1 _). vm_compute. reflexivity.
  - apply Hsame. apply (bool_decide_eq_true_1 _). vm_compute. reflexivity.
Defined.

(** * Further properties of the code *)

(** ** extendSHA1FromString *)

Lemma EncodeToString_app (a b : list byte) :
  EncodeToString (a ++ b) = EncodeToString a +:+ EncodeToString b.
Proof.
  induction a as [|x a IH]; [done|].
  cbn [EncodeToString app]. by rewrite IH, !append_cons.
Qed.

(** X1: extendSHA1FromString accepts exactly the hexadecimal text of 20 bytes.
    It answers with the text of the 32-byte extension, from which
    decoding and unextendSHA256 give the 20 bytes back; on the text that
    EncodeToString produces, the answer is that text followed by 24
    zeros.  A text that is not hexadecimal gives the error "not hex", a
    text of another length makes extendSHA1 panic. *)
Theorem extendSHA1FromString_spec (s : string) :
  match extendSHA1FromString s with
  | Ok e =>
      ∃ d, DecodeString s = Some d ∧ length d = sha1_Size ∧
           e = EncodeToString d +:+ "000000000000000000000000" ∧
           DecodeString e = Some (d ++ zero_bytes 12) ∧
           unextendSHA256 (d ++ zero_bytes 12) = Ok d
  | Err e =>
      (DecodeString s = None ∧ e = Errorf ("not hex: " +:+ s)) ∨
      (∃ d, DecodeString s = Some d ∧ length d ≠ sha1_Size ∧
            e = Panic "invalid sha1 length")
  end.
Proof.
  unfold extendSHA1FromString.
  destruct (DecodeString s) as [d|] eqn:Hd; [|by left].
  unfold extendSHA1. destruct (decide (length d ≠ sha1_Size)) as [Hne|Heq].
  { right. by exists d. }
  apply dec_stable in Heq.
  exists d. rewrite copy_zero_pad by (rewrite Heq; unfold sha1_Size, sha256_Size; lia).
  rewrite Heq. change (sha256_Size - sha1_Size)%nat with 12%nat.
  split_and!; try done.
  - by rewrite EncodeToString_app.
  - apply DecodeString_EncodeToString.
  - rewrite unextendSHA256_ok.
    + by rewrite take_app_length' by done.
    + rewrite length_app, Heq. done.
    + by rewrite drop_app_length' by done.
Qed.

(** ** verifyContent *)

Lemma find_none_Forall {A} (p : A → bool) (l : list A) :
  find p l = None → Forall (λ x, p x = false) l.
Proof.
  induction l as [|x l IH]; cbn; [done|].
  destruct (p x) eqn:Hp; [done|]. intros Hf. constructor; auto.
Qed.

Section VerifyContent.
Context `{Library}.

Lemma first_duplicate_none {A} `{EqDecision A} (before after : list A) :
  first_duplicate before after = None →
  NoDup after ∧ ∀ x, x ∈ after → x ∉ before.
Proof.
  revert before. induction after as [|x rest IH]; intros before; cbn.
  { intros _. split; [constructor|]. intros x Hx. by apply elem_of_nil in Hx. }
  case_bool_decide as Hin; [done|]. intros Hnone.
  apply IH in Hnone as [Hnd Hnot].
  rewrite elem_of_app in Hin. split.
  - constructor; [tauto|done].
  - intros y [->|Hy]%elem_of_cons; [tauto|].
    intros Hb. apply (Hnot y Hy). apply elem_of_app. by left.
Qed.

Lemma first_name_clash_none (before after filesDel : list string) :
  first_name_clash before after filesDel = None →
  NoDup after ∧ (∀ x, x ∈ after → x ∉ before) ∧ (∀ x, x ∈ after → x ∉ filesDel).
Proof.
  revert before. induction after as [|x rest IH]; intros before; cbn.
  { intros _. split; [constructor|].
    split; intros x Hx; by apply elem_of_nil in Hx. }
  case_bool_decide as Hin; [done|]. case_bool_decide as Hdel; [done|]. cbn.
  intros Hnone. apply IH in Hnone as (Hnd & Hnot & Hnd').
  rewrite elem_of_app in Hin. split_and!.
  - constructor; [tauto|done].
  - intros y [->|Hy]%elem_of_cons; [tauto|].
    intros Hb. apply (Hnot y Hy). apply elem_of_app. by left.
  - intros y [->|Hy]%elem_of_cons; [done|]. by apply Hnd'.
Qed.

(** What a cooked file has to do with the file it was made from. *)
Definition cooked (f : File) (c : file) : Prop :=
  name c = f_Name f ∧ Sanitize (f_Name f) = f_Name f ∧
  base64_DecodeString (f_Payload f) = Some (payload c) ∧
  digest c = sha256 (payload c) ∧
  ConvertDigest (f_Digest f) = Some (digest c) ∧
  DetectContentType (payload c) = f_MIME f ∧ MimeValid (f_MIME f) = true.

Lemma cook_file_ok (f : File) (c : file) : cook_file f = Ok c → cooked f c.
Proof.
  unfold cook_file, cooked.
  case_bool_decide as Hs; [|done]. cbn [negb].
  destruct (ConvertDigest (f_Digest f)) as [d|]; [|done].
  destruct (base64_DecodeString (f_Payload f)) as [pl|]; [|done].
  case_bool_decide as Hd; [|done]. cbn [negb].
  case_bool_decide as Hm; [|done]. cbn [negb].
  destruct (MimeValid (f_MIME f)) eqn:Hv; [|done]. cbn [negb].
  intros [= <-]. cbn. by subst.
Qed.

Lemma cook_files_ok (files : list File) (fa : list file) :
  cook_files files = Ok fa → Forall2 cooked files fa.
Proof.
  revert fa. induction files as [|f files IH]; intros fa; cbn.
  { intros [= <-]. constructor. }
  destruct (cook_file f) as [c|] eqn:Hc; [|done].
  destruct (cook_files files) as [cs|]; [|done].
  intros [= <-]. constructor; [by apply cook_file_ok|by apply IH].
Qed.

(** X2: Whatever verifyContent accepts is sane: there is at least one file;
    the names of the files are base names that the sanitizer leaves
    alone, differ from one another and are not among the files to
    delete, which are base names too; every cooked file carries the
    name, the decoded payload and the SHA-256 digest of the payload of
    its file, in the order of the input, and the digest and the MIME
    type that the client claimed are the ones of the payload; the ids
    of the metadata streams differ from one another and none exceeds
    MetadataStreamsMax - 1. *)
Theorem verifyContent_ok (metadata : list MetadataStream) (files : list File)
    (filesDel : list string) (fa : list file) :
  verifyContent metadata files filesDel = Ok fa →
  files ≠ [] ∧
  Forall2 cooked files fa ∧
  NoDup (name <$> fa) ∧
  (∀ c, c ∈ fa → name c ∉ filesDel) ∧
  Forall (λ c, Base (name c) = name c) fa ∧
  Forall (λ v, Base v = v) filesDel ∧
  NoDup (ms_ID <$> metadata) ∧
  Forall (λ v, ms_ID v ≤ uint64_wrap (MetadataStreamsMax + 2 ^ 64 - 1)) metadata.
Proof.
  unfold verifyContent.
  destruct (find _ metadata) eqn:Hmax; [done|].
  destruct (first_duplicate [] (ms_ID <$> metadata)) eqn:Hdup; [done|].
  destruct (find _ files) eqn:Hbase; [done|].
  destruct (find _ filesDel) eqn:Hbase'; [done|].
  case_bool_decide as Hlen; [done|].
  destruct (first_name_clash [] (f_Name <$> files) filesDel) eqn:Hclash; [done|].
  intros Hcook%cook_files_ok.
  apply find_none_Forall in Hmax, Hbase, Hbase'.
  apply first_duplicate_none in Hdup as [Hdup _].
  apply first_name_clash_none in Hclash as (Hnd & _ & Hdel).
  assert (name <$> fa = f_Name <$> files) as Hnames.
  { clear -Hcook. induction Hcook as [|f c files fa Hc _ IH]; [done|].
    cbn. destruct Hc as [-> _]. by rewrite IH. }
  split_and!.
  - intros ->. by apply Hlen.
  - done.
  - by rewrite Hnames.
  - intros c Hc. apply Hdel. rewrite <-Hnames. by apply list_elem_of_fmap_2.
  - apply Forall_fmap with (f := name) (P := λ n, Base n = n).
    rewrite Hnames. apply Forall_fmap.
    eapply Forall_impl; [exact Hbase|]. cbn. intros f Hf.
    apply negb_false_iff, bool_decide_eq_true in Hf. done.
  - eapply Forall_impl; [exact Hbase'|]. cbn. intros v Hv.
    apply negb_false_iff, bool_decide_eq_true in Hv. done.
  - done.
  - eapply Forall_impl; [exact Hmax|]. cbn. intros v Hv.
    apply N.ltb_ge in Hv. done.
Qed.
End VerifyContent.

Lemma verifyContent_ok_witness :
  Forall2 (@cooked sample_library) [sample_file]
    [mkfile "a.txt" (take 32 (bytes_of_string "x" ++ zero_bytes 32)) (bytes_of_string "x")].
Proof.
  apply (@verifyContent_ok sample_library [sample_metadata] [sample_file] []).
  vm_compute. reflexivity.
Defined.

Section VerifyContentErrors.
Context `{Library}.

Lemma first_duplicate_some {A} `{EqDecision A} (before after : list A) (x : A) :
  first_duplicate before after = Some x → x ∈ after ∧ ¬ NoDup (before ++ after).
Proof.
  revert before. induction after as [|y rest IH]; intros before; cbn; [done|].
  case_bool_decide as Hin.
  - intros [= <-]. split; [left|]. intros Hnd.
    apply NoDup_app in Hnd as (_ & Hdisj & Hnd). apply NoDup_cons in Hnd as [Hy _].
    apply elem_of_app in Hin as [Hin|Hin]; [|done].
    apply (Hdisj _ Hin). left.
  - intros Hs. apply IH in Hs as [Hx Hnd]. split; [by right|].
    by rewrite <-(assoc_L (++)) in Hnd.
Qed.

Lemma find_some_elem {A} (p : A → bool) (l : list A) (x : A) :
  find p l = Some x → x ∈ l ∧ p x = true.
Proof.
  induction l as [|y l IH]; cbn; [done|].
  destruct (p y) eqn:Hp.
  - intros [= <-]. split; [left|done].
  - intros Hf. apply IH in Hf as [? ?]. split; [by right|done].
Qed.

(** X3: New refuses a record without files before it draws a token or
    takes the lock: the state is left as it is, whatever the schedule
    of faults.  The error is ErrorStatusEmpty when the metadata streams
    are in order; a stream id above the bound or a repeated stream id is
    reported first. *)
Theorem New_without_files (metadata : list MetadataStream) (w : world) :
  ∃ code ctx,
    New metadata [] w = (Err (ContentVerificationError code ctx), w) ∧
    ((code = ErrorStatusInvalidMDID ∧
      ∃ v, v ∈ metadata ∧ uint64_wrap (MetadataStreamsMax + 2 ^ 64 - 1) < ms_ID v ∧
           ctx = [FormatUint (ms_ID v)]) ∨
     (code = ErrorStatusDuplicateMDID ∧ ¬ NoDup (ms_ID <$> metadata) ∧
      ∃ i, i ∈ ms_ID <$> metadata ∧ ctx = [FormatUint i]) ∨
     (code = ErrorStatusEmpty ∧ ctx = [] ∧ NoDup (ms_ID <$> metadata) ∧
      Forall (λ v, ms_ID v ≤ uint64_wrap (MetadataStreamsMax + 2 ^ 64 - 1)) metadata)).
Proof.
  unfold New, verifyContent.
  destruct (find _ metadata) as [v|] eqn:Hmax.
  { apply find_some_elem in Hmax as [Hv Hlt]. apply N.ltb_lt in Hlt.
    eexists _, _. split; [reflexivity|]. left. eauto. }
  destruct (first_duplicate [] (ms_ID <$> metadata)) as [i|] eqn:Hdup.
  { apply first_duplicate_some in Hdup as [Hi Hnd].
    eexists _, _. split; [reflexivity|]. right. left. eauto. }
  cbn [find length]. rewrite bool_decide_true by done.
  eexists _, _. split; [reflexivity|]. right. right.
  apply first_duplicate_none in Hdup as [Hnd _].
  apply find_none_Forall in Hmax. split_and!; try done.
  eapply Forall_impl; [exact Hmax|]. cbn. intros v Hv. by apply N.ltb_ge in Hv.
Qed.
End VerifyContentErrors.

(** ** The files of the metadata streams *)

Lemma rev_app_spec (s1 s2 : string) :
  String.rev_app s1 s2 = String.rev s1 +:+ s2.
Proof.
  unfold String.rev. revert s2. induction s1 as [|a s1 IH]; intros s2; cbn.
  - by rewrite append_nil.
  - rewrite IH, (IH (String a "")), append_assoc, append_cons, append_nil. done.
Qed.

Lemma append_empty_r (s : string) : s +:+ "" = s.
Proof. induction s as [|a s IH]; [done|]. by rewrite append_cons, IH. Qed.

Lemma string_rev_cons (x : ascii) (s : string) :
  String.rev (String x s) = String.rev s +:+ String x "".
Proof. unfold String.rev at 1. cbn. apply rev_app_spec. Qed.

Lemma string_rev_app (a b : string) : String.rev (a +:+ b) = String.rev b +:+ String.rev a.
Proof.
  induction a as [|x a IH].
  - by rewrite append_nil, append_empty_r.
  - by rewrite append_cons, !string_rev_cons, IH, append_assoc.
Qed.

Lemma string_rev_involutive (s : string) : String.rev (String.rev s) = s.
Proof.
  induction s as [|x s IH]; [done|].
  by rewrite string_rev_cons, string_rev_app, IH.
Qed.

Lemma HasSuffix_app (s suffix : string) : HasSuffix (s +:+ suffix) suffix = true.
Proof.
  unfold HasSuffix. rewrite string_rev_app, strip_prefix_app.
  by apply bool_decide_eq_true.
Qed.

Lemma TrimSuffix_app (s suffix : string) : TrimSuffix (s +:+ suffix) suffix = s.
Proof.
  unfold TrimSuffix. rewrite string_rev_app, strip_prefix_app.
  apply string_rev_involutive.
Qed.

Lemma digit_of_pretty_N_char (d : N) : d < 10 → digit_of (pretty_N_char d) = Some d.
Proof.
  intros Hd. rewrite <-(N2Nat.id d). assert (N.to_nat d < 10)%nat as Hn by lia.
  generalize dependent (N.to_nat d). intros n Hn.
  do 10 (destruct n as [|n]; [reflexivity|]). lia.
Qed.

Lemma parse_digits_pretty_N_go (x : N) :
  ∃ k : N, ∀ acc s, parse_digits acc (pretty_N_go x s) = parse_digits (acc * 10 ^ k + x) s.
Proof.
  induction (N.lt_wf_0 x) as [x _ IH].
  destruct (decide (x = 0)) as [->|Hx].
  { exists 0. intros acc s. rewrite pretty_N_go_0. f_equal. lia. }
  destruct (IH (x `div` 10)) as [k Hk]. { apply N.div_lt; lia. }
  exists (k + 1). intros acc s.
  rewrite pretty_N_go_step by lia. rewrite Hk. cbn [parse_digits].
  rewrite digit_of_pretty_N_char by (apply N.mod_lt; lia).
  f_equal. rewrite N.pow_add_r.
  pose proof (N.div_mod x 10 ltac:(lia)) as Hdm. lia.
Qed.

Lemma parse_digits_pretty (n : N) : parse_digits 0 (pretty n) = Some n.
Proof.
  unfold pretty, pretty_N. destruct (decide (n = 0)) as [->|Hn]; [done|].
  destruct (parse_digits_pretty_N_go n) as [k Hk]. rewrite Hk. cbn [parse_digits]. f_equal.
Qed.

Lemma pretty_N_nonempty (n : N) : pretty n ≠ "".
Proof.
  intros He. pose proof (parse_digits_pretty n) as Hp. rewrite He in Hp. cbn in Hp.
  injection Hp as <-. done.
Qed.

Lemma ParseUint_pretty (n : N) : n < 2 ^ 64 → ParseUint (pretty n) = Some n.
Proof.
  intros Hn. unfold ParseUint. pose proof (pretty_N_nonempty n) as Hne.
  destruct (pretty n) as [|c s] eqn:Hs; [done|]. rewrite <-Hs, parse_digits_pretty.
  by rewrite (proj2 (N.ltb_lt _ _) Hn).
Qed.

Lemma ParseUint_Sprintf_02v (n : N) : n < 2 ^ 64 → ParseUint (Sprintf_02v n) = Some n.
Proof.
  intros Hn. unfold Sprintf_02v. destruct (n <? 10) eqn:Hlt; [|by apply ParseUint_pretty].
  rewrite append_cons, append_nil. unfold ParseUint.
  change (parse_digits 0 (String "0" (pretty n))) with (parse_digits 0 (pretty n)).
  rewrite parse_digits_pretty. by rewrite (proj2 (N.ltb_lt _ _) Hn).
Qed.

Lemma string_of_bytes_of_string (s : string) : string_of_bytes (bytes_of_string s) = s.
Proof.
  unfold string_of_bytes, bytes_of_string. rewrite <-list_fmap_compose.
  rewrite (list_fmap_ext _ id (list_ascii_of_string s)).
  - rewrite list_fmap_id. apply string_of_list_ascii_of_string.
  - intros i c _. cbn. apply ascii_of_byte_of_ascii.
Qed.

(** X4: The name that newRecord and updateMetadata give to the file of a
    metadata stream is read back by loadMDStreams: it carries the suffix
    that loadMDStreams looks for, what is left without the suffix parses
    to the id of the stream, and the bytes of the file give the payload
    back.  mdFilename, which does not pad, names the same file only for
    ids from 10 on. *)
Theorem metadata_stream_file_round_trip (path : repo_path) (id : string) (m : MetadataStream) :
  ms_ID m < 2 ^ 64 →
  let fname := Sprintf_02v (ms_ID m) +:+ defaultMDFilenameSuffix in
  HasSuffix fname defaultMDFilenameSuffix = true ∧
  ParseUint (TrimSuffix fname defaultMDFilenameSuffix) = Some (ms_ID m) ∧
  mkMetadataStream (ms_ID m) (string_of_bytes (bytes_of_string (ms_Payload m))) = m ∧
  (mdFilename path id (Z.of_N (ms_ID m)) = Join id fname ↔ 10 ≤ ms_ID m).
Proof.
  intros Hn fname. unfold fname. split_and!.
  - apply HasSuffix_app.
  - rewrite TrimSuffix_app. by apply ParseUint_Sprintf_02v.
  - rewrite string_of_bytes_of_string. by destruct m.
  - unfold mdFilename, Join, FormatUint, Sprintf_02v.
    rewrite Z.mod_small by lia. rewrite N2Z.id.
    destruct (ms_ID m <? 10) eqn:Hlt.
    + apply N.ltb_lt in Hlt. split; [|lia]. intros Heq.
      apply (f_equal String.length) in Heq.
      rewrite !length_append in Heq. cbn [String.length] in Heq.
      revert Heq. generalize (String.length (pretty (ms_ID m))). intros k Hk. lia.
    + apply N.ltb_ge in Hlt. split; [done|]. done.
Qed.

Lemma metadata_stream_file_round_trip_witness :
  ParseUint (TrimSuffix (Sprintf_02v 7 +:+ defaultMDFilenameSuffix) defaultMDFilenameSuffix)
    = Some 7.
Proof.
  apply (metadata_stream_file_round_trip unvetted "" (mkMetadataStream 7 "")).
  reflexivity.
Defined.

(** ** The lock and the shutdown flag *)

(** Nothing but the schedule of faults and the random source has moved. *)
Definition untouched (w w' : world) : Prop :=
  ∃ fs rs, w' = set_faults fs (set_random rs w).

(** A call that was turned away. *)
Definition refused {A} (w : world) (x : result A * world) : Prop :=
  (∃ e, x.1 = Err e) ∧ untouched w x.2.

Lemma untouched_refl (w : world) : untouched w w.
Proof. exists (w_faults w), (w_random w). by destruct w. Qed.

Lemma untouched_faults (w : world) (fs : list bool) : untouched w (set_faults fs w).
Proof. exists fs, (w_random w). by destruct w. Qed.

Lemma untouched_trans (w1 w2 w3 : world) :
  untouched w1 w2 → untouched w2 w3 → untouched w1 w3.
Proof. intros (fs & rs & ->) (fs' & rs' & ->). exists fs', rs'. by destruct w1. Qed.

Lemma untouched_fields (w w' : world) :
  untouched w w' →
  w_unvetted w' = w_unvetted w ∧ w_vetted w' = w_vetted w ∧
  w_locked w' = w_locked w ∧ shutdown w' = shutdown w ∧
  w_commits w' = w_commits w ∧ w_last w' = w_last w ∧
  w_unconfirmed w' = w_unconfirmed w ∧ w_dcrtime w' = w_dcrtime w ∧
  testAnchors w' = testAnchors w.
Proof. intros (fs & rs & ->). by destruct w. Qed.

Lemma util_Random_untouched (n : nat) (w : world) : untouched w (util_Random n w).2.
Proof.
  unfold util_Random. destruct (w_random w) as [|x rest] eqn:Hr; cbn.
  - apply untouched_refl.
  - case_decide; cbn; exists (w_faults w), rest; by destruct w.
Qed.

Lemma w_locked_set_faults (fs : list bool) (w : world) :
  w_locked (set_faults fs w) = w_locked w.
Proof. by destruct w. Qed.

Lemma shutdown_set_locked (b : bool) (w : world) : shutdown (set_locked b w) = shutdown w.
Proof. by destruct w. Qed.

Lemma shutdown_set_faults (fs : list bool) (w : world) :
  shutdown (set_faults fs w) = shutdown w.
Proof. by destruct w. Qed.

Lemma with_lock_held {A} (body : M A) (w : world) :
  w_locked w = true →
  ∃ fs, with_lock body w = (Err (Errorf "lock timeout"), set_faults fs w).
Proof.
  intros Hl. unfold with_lock, lock_Lock, bind, external.
  destruct (w_faults w) as [|[] fs] eqn:Hf; cbn.
  - rewrite Hl. exists (w_faults w). by rewrite set_faults_id.
  - by exists fs.
  - rewrite ?w_locked_set_faults, Hl. by exists fs.
Qed.

Lemma with_lock_shutdown {A} (body : M A) (w : world) :
  shutdown w = true →
  ∃ e fs,
    with_lock (bind (gets shutdown) (λ down, if down then fail ErrShutdown else body)) w =
      (Err e, set_faults fs w) ∧
    (w_faults w = [] → w_locked w = false → e = ErrShutdown ∧ fs = []).
Proof.
  intros Hs. unfold with_lock, lock_Lock, bind, external, gets, fail.
  destruct (w_faults w) as [|[] fs] eqn:Hf; cbn.
  - destruct (w_locked w) eqn:Hl.
    + eexists _, []. split; [|done]. rewrite <-Hf. by rewrite set_faults_id.
    + rewrite ?shutdown_set_locked, Hs.
      eexists _, []. split; [|done]. f_equal. destruct w; cbn in *. by subst.
  - eexists _, fs. split; [done|]. done.
  - rewrite ?w_locked_set_faults.
    destruct (w_locked w) eqn:Hl.
    + eexists _, fs. split; [done|]. done.
    + rewrite ?shutdown_set_locked, ?shutdown_set_faults, Hs.
      eexists _, fs. split; [|done]. f_equal. destruct w; cbn in *. by subst.
Qed.

Lemma refused_after {A} (w w1 : world) (x : result A * world) :
  untouched w w1 → refused w1 x → refused w x.
Proof. intros Hu [He Hx]. split; [done|]. by eapply untouched_trans. Qed.

Lemma refused_held {A} (body : M A) (w : world) :
  w_locked w = true → refused w (with_lock body w).
Proof.
  intros Hl. destruct (with_lock_held body w Hl) as [fs ->].
  split; [eauto|]. apply untouched_faults.
Qed.

Lemma refused_shutdown {A} (body : M A) (w : world) :
  shutdown w = true →
  refused w (with_lock (bind (gets shutdown)
                          (λ down, if down then fail ErrShutdown else body)) w).
Proof.
  intros Hs. destruct (with_lock_shutdown body w Hs) as (e & fs & -> & _).
  split; [eauto|]. apply untouched_faults.
Qed.

Section LockAndShutdown.
Context `{Library} `{FileLoader}.

(** The calls of the clients, for a given world: each is turned
    away. *)
Definition all_refused (w : world) : Prop :=
  (∀ metadata files, refused w (New metadata files w)) ∧
  (∀ token mdAppend mdOverwrite filesAdd filesDel,
     refused w (UpdateUnvettedRecord token mdAppend mdOverwrite filesAdd filesDel w)) ∧
  (∀ token mdAppend mdOverwrite,
     refused w (UpdateVettedMetadata token mdAppend mdOverwrite w)) ∧
  (∀ token status mdAppend mdOverwrite,
     refused w (SetUnvettedStatus token status mdAppend mdOverwrite w)) ∧
  (∀ token, refused w (GetUnvetted token w)) ∧
  (∀ token, refused w (GetVetted token w)) ∧
  (∀ vettedCount branchCount includeFiles,
     refused w (Inventory vettedCount branchCount includeFiles w)) ∧
  refused w (anchorAllRepos w).

Lemma anchorAllRepos_refused (w : world) :
  w_locked w = true ∨ shutdown w = true → refused w (anchorAllRepos w).
Proof.
  intros Hcase. unfold anchorAllRepos, wrap_error, lock_Lock, bind, external, gets, fail.
  destruct (w_faults w) as [|[] fs] eqn:Hf; cbn.
  - destruct (w_locked w) eqn:Hl; cbn.
    + split; [eauto|]. apply untouched_refl.
    + destruct Hcase as [?|Hs]; [done|].
      rewrite ?shutdown_set_locked, Hs.
      split; [eauto|]. cbn. exists [], (w_random w). destruct w; cbn in *. by subst.
  - split; [eauto|]. apply untouched_faults.
  - rewrite ?w_locked_set_faults.
    destruct (w_locked w) eqn:Hl; cbn.
    + split; [eauto|]. apply untouched_faults.
    + destruct Hcase as [?|Hs]; [done|].
      rewrite ?shutdown_set_locked, ?shutdown_set_faults, Hs.
      split; [eauto|]. cbn. exists fs, (w_random w). destruct w; cbn in *. by subst.
Qed.

Lemma all_refused_intro (w : world) :
  (∀ A (body : M A) w1, untouched w w1 →
     refused w1 (with_lock (bind (gets shutdown)
                              (λ down, if down then fail ErrShutdown else body)) w1)) →
  refused w (anchorAllRepos w) →
  all_refused w.
Proof.
  intros Hlock Hanchor. unfold all_refused. split_and!; try done.
  - intros metadata files. unfold New, bind at 1, lift.
    destruct (verifyContent metadata files []) as [fa|e].
    2: { split; [eauto|apply untouched_refl]. }
    unfold bind at 1. pose proof (util_Random_untouched TokenSize w) as Hr.
    destruct (util_Random TokenSize w) as [[token|e] w1]; cbn in Hr.
    2: { split; [eauto|done]. }
    eapply refused_after; [exact Hr|]. by apply Hlock.
  - intros token mdAppend mdOverwrite filesAdd filesDel.
    unfold UpdateUnvettedRecord, bind at 1, lift.
    destruct (verifyContent_allow_empty _ _ _) as [fa|e].
    2: { split; [eauto|apply untouched_refl]. }
    apply Hlock, untouched_refl.
  - intros token mdAppend mdOverwrite.
    unfold UpdateVettedMetadata, bind at 1, lift.
    destruct (verifyContent_allow_empty _ _ _) as [fa|e].
    2: { split; [eauto|apply untouched_refl]. }
    apply Hlock, untouched_refl.
  - intros token status mdAppend mdOverwrite. apply Hlock, untouched_refl.
  - intros token. apply Hlock, untouched_refl.
  - intros token. apply Hlock, untouched_refl.
  - intros vettedCount branchCount includeFiles. apply Hlock, untouched_refl.
Qed.

(** X5: While the lock is held, every call of a client and the anchor drop
    fail, and nothing moves: both repositories, the anchor state and
    the flags are as before, whatever the schedule of faults.
    afterAnchorVerify is turned away with the lock timeout as well, and
    Close gives up without setting the shutdown flag. *)
Theorem lock_held_excludes (w : world) :
  w_locked w = true →
  all_refused w ∧
  (∀ vrs, refused w (afterAnchorVerify vrs w)) ∧
  (Close w).1 = Ok () ∧ untouched w (Close w).2.
Proof.
  intros Hl. split_and!.
  - apply all_refused_intro.
    + intros A body w1 Hu. apply refused_held.
      apply untouched_fields in Hu. destruct Hu as (_ & _ & -> & _). done.
    + apply anchorAllRepos_refused. by left.
  - intros vrs. by apply refused_held.
  - unfold Close, bind, try, lock_Lock, external.
    destruct (w_faults w) as [|[] fs]; cbn; rewrite ?w_locked_set_faults, ?Hl; done.
  - unfold Close, bind, try, lock_Lock, external.
    destruct (w_faults w) as [|[] fs] eqn:Hf; cbn; rewrite ?Hl; cbn.
    + apply untouched_refl.
    + apply untouched_faults.
    + rewrite ?w_locked_set_faults, ?Hl. cbn. apply untouched_faults.
Qed.

Lemma all_refused_shutdown (w : world) : shutdown w = true → all_refused w.
Proof.
  intros Hs. apply all_refused_intro.
  - intros A body w1 Hu. apply refused_shutdown.
    apply untouched_fields in Hu. destruct Hu as (_ & _ & _ & -> & _). done.
  - apply anchorAllRepos_refused. by right.
Qed.

(** X6: Once the backend is shut down, every call of a client and the
    anchor drop fail and nothing moves, whatever the schedule of
    faults.  With the lock free and no failing call, the reads answer
    ErrShutdown, while anchorAllRepos answers with a formatted error
    that is not ErrShutdown itself. *)
Theorem shutdown_refuses (w : world) :
  shutdown w = true →
  all_refused w ∧
  (w_faults w = [] → w_locked w = false →
     (∀ token, GetUnvetted token w = (Err ErrShutdown, w)) ∧
     (∀ token, GetVetted token w = (Err ErrShutdown, w)) ∧
     (∀ token status mdAppend mdOverwrite,
        SetUnvettedStatus token status mdAppend mdOverwrite w = (Err ErrShutdown, w)) ∧
     (∀ vettedCount branchCount includeFiles,
        Inventory vettedCount branchCount includeFiles w = (Err ErrShutdown, w)) ∧
     anchorAllRepos w = (Err (Errorf "anchorAllRepos: backend is shutdown"), w)).
Proof.
  intros Hs. split.
  - by apply all_refused_shutdown.
  - intros Hf Hl.
    assert (∀ A (body : M A),
              with_lock (bind (gets shutdown)
                           (λ down, if down then fail ErrShutdown else body)) w =
                (Err ErrShutdown, w)) as Hlock.
    { intros A body. destruct (with_lock_shutdown body w Hs) as (e & fs & -> & Hprec).
      destruct (Hprec Hf Hl) as [-> ->]. rewrite <-Hf. by rewrite set_faults_id. }
    split_and!; try (intros; apply Hlock).
    unfold anchorAllRepos, wrap_error, lock_Lock, bind, external, gets, fail.
    rewrite Hf, Hl. cbn.
    rewrite ?shutdown_set_locked, Hs.
    f_equal. destruct w; cbn in *. by subst.
Qed.
End LockAndShutdown.

Lemma lock_held_excludes_witness :
  refused held_world (@GetUnvetted sample_library sample_loader sample_token held_world).
Proof.
  destruct (@lock_held_excludes sample_library sample_loader held_world) as [Hall _].
  - reflexivity.
  - apply Hall.
Defined.

Lemma shutdown_refuses_witness :
  @GetUnvetted sample_library sample_loader sample_token closed_world =
    (Err ErrShutdown, closed_world).
Proof.
  destruct (@shutdown_refuses sample_library sample_loader closed_world) as [_ Hprec].
  - reflexivity.
  - apply Hprec; reflexivity.
Defined.

Section CloseBackend.
Context `{Library} `{FileLoader}.

(** X7: Close on a backend whose lock is free sets the shutdown flag and
    nothing else, and from then on every call of a client is turned
    away.  A second Close panics when it closes the exit channel again;
    the lock is released all the same. *)
Theorem Close_shuts_down (w : world) :
  w_faults w = [] → w_locked w = false → shutdown w = false →
  Close w = (Ok (), set_shutdown true w) ∧
  all_refused (set_shutdown true w) ∧
  Close (set_shutdown true w) =
    (Err (Panic "close of closed channel"), set_shutdown true w).
Proof.
  intros Hf Hl Hs. split_and!.
  - unfold Close, bind, try, lock_Lock, external, gets, modify, fail, ret.
    rewrite Hf, Hl. cbn. rewrite ?shutdown_set_locked, Hs. cbn.
    f_equal. destruct w; cbn in *. by subst.
  - apply all_refused_shutdown. by destruct w.
  - unfold Close, bind, try, lock_Lock, external, gets, modify, fail, ret.
    replace (w_faults (set_shutdown true w)) with (@nil bool) by (by destruct w).
    replace (w_locked (set_shutdown true w)) with false by (by destruct w).
    cbn. f_equal. destruct w; cbn in *. by subst.
Qed.
End CloseBackend.

Lemma Close_shuts_down_witness :
  @Close recorded_world = (Ok (), closed_world).
Proof.
  apply (@Close_shuts_down sample_library sample_loader recorded_world); reflexivity.
Defined.

(** ** The read side *)

(** Between two worlds no history has moved: the branches of both
    repositories with their commits, the commit counter, the anchor
    state, the shutdown flag and the random source are the same. *)
Definition histories_kept (w w' : world) : Prop :=
  r_branches (w_unvetted w') = r_branches (w_unvetted w) ∧
  r_branches (w_vetted w') = r_branches (w_vetted w) ∧
  w_commits w' = w_commits w ∧ w_last w' = w_last w ∧
  w_unconfirmed w' = w_unconfirmed w ∧ w_dcrtime w' = w_dcrtime w ∧
  testAnchors w' = testAnchors w ∧ shutdown w' = shutdown w ∧
  w_random w' = w_random w.

Lemma histories_kept_refl (w : world) : histories_kept w w.
Proof. by repeat split. Qed.

Lemma histories_kept_faults (w : world) (fs : list bool) (w' : world) :
  histories_kept w w' → histories_kept w (set_faults fs w').
Proof. by destruct w'. Qed.

Lemma histories_kept_locked (w : world) (b : bool) (w' : world) :
  histories_kept w w' → histories_kept w (set_locked b w').
Proof. by destruct w'. Qed.

Ltac histories_leaf :=
  unfold histories_kept in *;
  repeat match goal with p : repo_path |- _ => destruct p end;
  repeat match goal with w : world |- _ => destruct w end;
  cbn in *; try done; try tauto.

Section ReadOnly.
Context `{Library} `{FileLoader}.

Lemma getRecord_histories (w : world) (token : list byte) (repo : repo_path)
    (includeFiles : bool) :
  preserves (histories_kept w) (getRecord token repo includeFiles).
Proof.
  unfold getRecord, _getRecordFiles, loadMD, loadMDStreams, loadRecord, util_LoadFile,
    ioutil_ReadFile, ioutil_ReadDir, gitCheckout, gitBranchNow.
  preserves_with (histories_kept_faults w) (histories_kept_locked w) histories_leaf.
Qed.

Lemma inventory_walk_histories (w : world) (repo : repo_path) (names : list string)
    (includeFiles : bool) :
  preserves (histories_kept w) (inventory_walk repo names includeFiles).
Proof.
  induction names as [|id rest IH]; cbn [inventory_walk].
  { apply preserves_ret. }
  destruct (IsDigest id); cbn [negb]; [|done].
  destruct (DecodeString id) as [ids|]; [|apply preserves_fail].
  apply preserves_bind; [apply getRecord_histories|]. intros prv.
  apply preserves_bind; [apply IH|]. intros prs. apply preserves_ret.
Qed.

(** X8: Reading never rewrites history.  Whatever the schedule of faults
    and whatever the state, GetUnvetted, GetVetted and Inventory leave
    every branch of both repositories with the commits it had, create
    no commit and leave the anchor state and the shutdown flag alone;
    only the checked out branch and the working directory can differ
    afterwards. *)
Theorem reads_keep_histories (w : world) :
  (∀ token, histories_kept w (GetUnvetted token w).2) ∧
  (∀ token, histories_kept w (GetVetted token w).2) ∧
  (∀ vettedCount branchCount includeFiles,
     histories_kept w (Inventory vettedCount branchCount includeFiles w).2).
Proof.
  assert (∀ token repo inc, preserves (histories_kept w) (getRecordLock token repo inc))
    as Hget.
  { intros token repo inc. unfold getRecordLock.
    apply (preserves_with_lock _ (histories_kept_faults w) (histories_kept_locked w)).
    apply preserves_bind; [apply preserves_gets|]. intros [|]; [apply preserves_fail|].
    apply getRecord_histories. }
  split_and!.
  - intros token. apply Hget, histories_kept_refl.
  - intros token. apply Hget, histories_kept_refl.
  - intros vettedCount branchCount includeFiles.
    assert (preserves (histories_kept w) (Inventory vettedCount branchCount includeFiles))
      as Hinv; [|apply Hinv, histories_kept_refl].
    unfold Inventory.
    apply (preserves_with_lock _ (histories_kept_faults w) (histories_kept_locked w)).
    apply preserves_bind; [apply preserves_gets|]. intros [|]; [apply preserves_fail|].
    apply preserves_bind.
    { unfold ioutil_ReadDir_root.
      preserves_with (histories_kept_faults w) (histories_kept_locked w) histories_leaf. }
    intros files. apply preserves_bind; [apply inventory_walk_histories|]. intros pr.
    apply preserves_bind.
    { unfold gitBranches.
      preserves_with (histories_kept_faults w) (histories_kept_locked w) histories_leaf. }
    intros branches. apply preserves_bind; [apply inventory_walk_histories|]. intros br.
    apply preserves_ret.
Qed.
End ReadOnly.

(** The metadata stream that loadMDStreams makes of a directory entry:
    none for a file without the suffix of the stream files. *)
Definition stream_of (t : tree) (id : string) (v : FileInfo) : option MetadataStream :=
  if HasSuffix (fi_Name v) defaultMDFilenameSuffix then
    mdid ← ParseUint (TrimSuffix (fi_Name v) defaultMDFilenameSuffix);
    md ← t !! Join id (fi_Name v);
    Some (mkMetadataStream mdid (string_of_bytes md))
  else None.

Lemma omap_id_fmap {A B} (f : A → option B) (l : list A) :
  omap (λ x, x) (f <$> l) = omap f l.
Proof. induction l as [|x l IH]; [done|]. cbn. by rewrite IH. Qed.

Section ReadRecord.
Context `{Library} `{FileLoader}.

(** The file that loadRecord makes of an entry of the payload
    directory. *)
Definition file_of (t : tree) (id : string) (v : FileInfo) : option File :=
  let fn := Join (Join id defaultPayloadDir) (fi_Name v) in
  if fi_IsDir v then None
  else
    b ← t !! fn;
    match LoadFile_of fn b with
    | Ok x => Some (mkFile (fi_Name v) x.1.1 x.1.2 x.2)
    | Err _ => None
    end.

Lemma loadMDStreams_run (p : repo_path) (id : string) (w : world) :
  let t := r_work (repo_of p w) in
  w_faults w = [] →
  dir_entries t id ≠ [] →
  Forall (stream_entry_ok t id) (dir_entries t id) →
  loadMDStreams p id w = (Ok (omap (stream_of t id) (dir_entries t id)), w).
Proof.
  intros t Hf Hne Hok. unfold loadMDStreams.
  rewrite (bind_run _ _ w w (dir_entries t id)).
  2: { unfold ioutil_ReadDir. rewrite external_nofault by done. cbv zeta. fold t.
       by rewrite decide_False. }
  erewrite bind_run.
  2: { apply (map_M_nofault _ _ (stream_of t id)).
       eapply Forall_impl; [exact Hok|]. intros v Hv. cbv beta. unfold stream_of.
       destruct (HasSuffix (fi_Name v) defaultMDFilenameSuffix) eqn:Hs; [|done].
       destruct (Hv Hs) as [[n Hn] [b Hb]]. cbn [negb]. rewrite Hn.
       erewrite bind_run; [|by apply ioutil_ReadFile_nofault].
       cbn. fold t. by rewrite Hb. }
  by rewrite omap_id_fmap.
Qed.

Lemma loadRecord_run (p : repo_path) (id : string) (w : world) :
  let t := r_work (repo_of p w) in
  let es := dir_entries t (Join id defaultPayloadDir) in
  w_faults w = [] → es ≠ [] →
  Forall (λ v, is_Some (file_of t id v)) es →
  ∃ files, loadRecord p id w = (Ok files, w) ∧
           Forall2 (λ v f, file_of t id v = Some f) es files.
Proof.
  intros t es Hf Hne Hok. unfold loadRecord.
  rewrite (bind_run _ _ w w es).
  2: { unfold ioutil_ReadDir. rewrite external_nofault by done. cbv zeta. fold t. fold es.
       by rewrite decide_False. }
  clear Hne. induction Hok as [|v l [f Hv] Hl IH].
  { exists []. split; [done|constructor]. }
  destruct IH as (files & Hrun & Hfiles).
  exists (f :: files). split; [|by constructor].
  cbn [map_M]. unfold file_of in Hv. cbv zeta in Hv.
  destruct (fi_IsDir v); [done|].
  destruct (t !! Join (Join id defaultPayloadDir) (fi_Name v)) as [b|] eqn:Hb; [|done].
  cbn in Hv. destruct (LoadFile_of _ b) as [x|] eqn:Hx; [|done]. injection Hv as <-.
  erewrite bind_run.
  2: { erewrite bind_run.
       2: { unfold util_LoadFile. erewrite bind_run; [|by apply ioutil_ReadFile_nofault].
            unfold lift. by rewrite Hx. }
       reflexivity. }
  by rewrite (bind_run _ _ _ _ _ Hrun).
Qed.

Lemma _getRecordFiles_run (p : repo_path) (id : string) (w : world) (b : list byte)
    (brm : RecordMetadata) :
  let t := r_work (repo_of p w) in
  w_faults w = [] →
  t !! Join id defaultRecordMetadataFilename = Some b →
  unjson_RecordMetadata b = Some brm →
  Forall (stream_entry_ok t id) (dir_entries t id) →
  dir_entries t (Join id defaultPayloadDir) ≠ [] →
  Forall (λ v, is_Some (file_of t id v)) (dir_entries t (Join id defaultPayloadDir)) →
  ∃ files,
    _getRecordFiles id p true w =
      (Ok (mkRecord brm (omap (stream_of t id) (dir_entries t id)) files), w) ∧
    Forall2 (λ v f, file_of t id v = Some f)
      (dir_entries t (Join id defaultPayloadDir)) files.
Proof.
  intros t Hf Hb Hj Hstreams Hne Hfiles.
  destruct (loadRecord_run p id w Hf Hne Hfiles) as (files & Hrun & Hall).
  exists files. split; [|done]. unfold _getRecordFiles.
  rewrite (bind_run _ _ _ _ _ (loadMD_nofault p id w b brm Hf Hb Hj)).
  rewrite (bind_run _ _ _ _ _ (loadMDStreams_run p id w Hf
             (dir_entries_nonempty _ _ _ (mk_is_Some _ _ Hb) (dir_entry_is_Some _ _))
             Hstreams)).
  by rewrite (bind_run _ _ _ _ _ Hrun).
Qed.

(** X9: GetUnvetted returns what is committed on the branch of the record
    and leaves the world as it found it: the RecordMetadata is the one
    that the file on the head of the branch decodes to, the metadata
    streams are those of the stream files in the order of the
    directory listing, and there is one file for every entry of the
    payload directory, in that order.  (No external call fails, the
    staging tier is clean on master, the stream files carry a number
    and the payload directory holds files that can be loaded.) *)
Theorem GetUnvetted_returns_committed (token : list byte) (w : world)
    (mlog log : list commit) (b : list byte) (brm : RecordMetadata) :
  let id := EncodeToString token in
  let u := w_unvetted w in
  let t := branch_tree log in
  w_faults w = [] → w_locked w = false → shutdown w = false →
  r_cur u = "master" → r_branches u !! "master" = Some mlog →
  r_work u = branch_tree mlog →
  r_branches u !! id = Some log →
  t !! Join id defaultRecordMetadataFilename = Some b →
  unjson_RecordMetadata b = Some brm →
  Forall (stream_entry_ok t id) (dir_entries t id) →
  dir_entries t (Join id defaultPayloadDir) ≠ [] →
  Forall (λ v, is_Some (file_of t id v)) (dir_entries t (Join id defaultPayloadDir)) →
  ∃ files,
    GetUnvetted token w =
      (Ok (mkRecord brm (omap (stream_of t id) (dir_entries t id)) files), w) ∧
    Forall2 (λ v f, file_of t id v = Some f)
      (dir_entries t (Join id defaultPayloadDir)) files.
Proof.
  intros id u t Hf Hl Hs Hcur Hmaster Hwork Hbr Hb Hj Hstreams Hne Hfiles.
  unfold GetUnvetted, getRecordLock.
  rewrite with_lock_nofault by done.
  set (w0 := set_locked true w).
  assert (w_faults w0 = []) as Hf0 by (by destruct w).
  set (w1 := set_repo unvetted (mkRepo id (r_branches u) t) w0).
  assert (w_faults w1 = []) as Hf1 by (by destruct w).
  assert (r_work (repo_of unvetted w1) = t) as Hw1 by reflexivity.
  destruct (_getRecordFiles_run unvetted id w1 b brm Hf1) as (files & Hrun & Hall);
    rewrite ?Hw1; try done.
  exists files. split; [|done].
  match goal with
  | |- ((?body _).1, _) = _ =>
      assert (body w0 = (Ok (mkRecord brm (omap (stream_of t id) (dir_entries t id)) files),
                         set_repo unvetted (mkRepo "master" (r_branches u)
                                              (branch_tree mlog)) w1)) as Hbody
  end.
  { unfold bind at 1. unfold gets at 1.
    replace (shutdown w0) with false by (by destruct w).
    unfold getRecord. fold id. rewrite bool_decide_true by done.
    rewrite (bind_run _ _ w0 w1 ()).
    2: { erewrite bind_run.
         2: { erewrite bind_run.
              2: { rewrite try_run, (gitCheckout_nofault _ _ _ log); [reflexivity|done|..].
                   - done.
                   - unfold is_clean, head_tree, head_log. cbn [repo_of].
                     change (w_unvetted w0) with u. rewrite Hcur, Hmaster. cbn.
                     by apply bool_decide_eq_true. }
              reflexivity. }
         erewrite bind_run.
         2: { rewrite try_run. unfold gitBranchNow. rewrite external_nofault by done.
              reflexivity. }
         cbn. by rewrite bool_decide_true. }
    erewrite bind_run; [|by rewrite try_run, Hrun].
    erewrite bind_run.
    2: { rewrite try_run, (gitCheckout_nofault _ _ _ mlog); [reflexivity|done|..].
         - done.
         - unfold is_clean, head_tree, head_log. cbn. rewrite Hbr. cbn.
           by apply bool_decide_eq_true. }
    reflexivity. }
  rewrite Hbody. cbn [fst snd]. f_equal.
  unfold w1, w0, u in *. destruct w as [[] ?]; cbn in *. by subst.
Qed.
End ReadRecord.

Lemma GetUnvetted_returns_committed_witness :
  ∃ files,
    @GetUnvetted sample_library sample_loader sample_token recorded_world =
      (Ok (mkRecord recorded_metadata
             (omap (stream_of (branch_tree recorded_log) (EncodeToString sample_token))
                (dir_entries (branch_tree recorded_log) (EncodeToString sample_token)))
             files), recorded_world) ∧
    Forall2 (λ v f, @file_of sample_loader (branch_tree recorded_log)
                      (EncodeToString sample_token) v = Some f)
      (dir_entries (branch_tree recorded_log)
         (Join (EncodeToString sample_token) defaultPayloadDir)) files.
Proof.
  apply (@GetUnvetted_returns_committed sample_library sample_loader sample_token
           recorded_world [initial_commit] recorded_log
           (@json_RecordMetadata sample_library recorded_metadata) recorded_metadata).
  - reflexivity.
  - reflexivity.
  - reflexivity.
  - reflexivity.
  - apply (bool_decide_eq_true_1 _). vm_compute. reflexivity.
  - apply (bool_decide_eq_true_1 _). vm_compute. reflexivity.
  - apply (bool_decide_eq_true_1 _). vm_compute. reflexivity.
  - vm_compute. reflexivity.
  - vm_compute. reflexivity.
  - apply (bool_decide_eq_true_1 _). vm_compute. reflexivity.
  - vm_compute. discriminate.
  - apply (bool_decide_eq_true_1 _). vm_compute. reflexivity.
Defined.

Lemma unlock_lock (w : world) :
  w_locked w = false → set_locked false (set_locked true w) = w.
Proof. destruct w. unfold set_locked. simpl. by intros ->. Qed.

Section ReadMissing.
Context `{Library} `{FileLoader}.

Lemma gitCheckout_fails (p : repo_path) (branch : string) (w : world) :
  r_branches (repo_of p w) !! branch = None ∨ is_clean (repo_of p w) = false →
  ∃ e fs, gitCheckout p branch w = (Err e, set_faults fs w).
Proof.
  intros Hcase. unfold gitCheckout, external.
  assert (∀ fs, ∃ e,
    (let r := repo_of p (set_faults fs w) in
     match r_branches r !! branch with
     | Some log =>
         if is_clean r
         then (Ok (), set_repo p (mkRepo branch (r_branches r) (branch_tree log))
                        (set_faults fs w))
         else (Err (Errorf "git checkout: local changes"), set_faults fs w)
     | None => (Err (Errorf "git checkout: no such branch"), set_faults fs w)
     end) = (Err e, set_faults fs w)) as Hrun.
  { intros fs. cbv zeta. rewrite repo_of_set_faults.
    destruct Hcase as [->|Hd]; [eauto|].
    destruct (r_branches (repo_of p w) !! branch); [|eauto]. rewrite Hd. eauto. }
  destruct (w_faults w) as [|[] fs] eqn:Hf.
  - destruct (Hrun (w_faults w)) as [e He]. rewrite set_faults_id in He. cbv zeta in He.
    exists e, (w_faults w). by rewrite set_faults_id.
  - eauto.
  - destruct (Hrun fs) as [e He]. eauto.
Qed.

Lemma gitCheckout_fails_nofault (p : repo_path) (branch : string) (w : world) :
  w_faults w = [] →
  r_branches (repo_of p w) !! branch = None ∨ is_clean (repo_of p w) = false →
  ∃ e, gitCheckout p branch w = (Err e, w).
Proof.
  intros Hf Hcase. unfold gitCheckout. rewrite external_nofault by done. cbv zeta.
  destruct Hcase as [->|Hd]; [eauto|].
  destruct (r_branches (repo_of p w) !! branch); [|eauto]. rewrite Hd. eauto.
Qed.

(** X10: GetUnvetted answers ErrRecordNotFound for a token that has no
    branch in the staging tier, and also when the branch cannot be
    checked out because the working directory holds uncommitted
    changes: every failure of the checkout is reported as a missing
    record.  In both cases nothing has moved, whatever the schedule of
    faults.  GetVetted answers ErrRecordNotFound when master of the
    publication tier has no RecordMetadata file for the token. *)
Theorem Get_record_not_found (token : list byte) (w : world) :
  let id := EncodeToString token in
  ((r_branches (w_unvetted w) !! id = None ∨ is_clean (w_unvetted w) = false) →
   refused w (GetUnvetted token w) ∧
   (w_faults w = [] → w_locked w = false → shutdown w = false →
    GetUnvetted token w = (Err ErrRecordNotFound, w))) ∧
  (∀ log, w_faults w = [] → w_locked w = false → shutdown w = false →
     r_cur (w_vetted w) = "master" → r_branches (w_vetted w) !! "master" = Some log →
     r_work (w_vetted w) = branch_tree log →
     branch_tree log !! Join id defaultRecordMetadataFilename = None →
     GetVetted token w = (Err ErrRecordNotFound, w)).
Proof.
  intros id. split.
  - intros Hcase.
    assert (∀ w0, w_unvetted w0 = w_unvetted w →
              ∃ fs, getRecord token unvetted true w0 =
                      (Err ErrRecordNotFound, set_faults fs w0)) as Hget.
    { intros w0 Hu. destruct (gitCheckout_fails unvetted id w0) as (e & fs & Hco).
      { cbn [repo_of]. by rewrite Hu. }
      exists fs. unfold getRecord. fold id. rewrite bool_decide_true by done.
      cbn [negb]. apply bind_err. apply bind_err.
      unfold bind. by rewrite try_run, Hco. }
    split.
    + unfold GetUnvetted, getRecordLock, with_lock, lock_Lock, bind at 1, external.
      destruct (w_faults w) as [|[] fs] eqn:Hf; cbn [fst snd].
      * destruct (w_locked w) eqn:Hl.
        { split; [eauto|apply untouched_refl]. }
        unfold bind at 1, gets at 1. rewrite shutdown_set_locked.
        destruct (shutdown w) eqn:Hs.
        { split; [eauto|]. cbn. exists [], (w_random w). destruct w; cbn in *. by subst. }
        destruct (Hget (set_locked true w)) as [fs' ->]; [by destruct w|].
        split; [eauto|]. cbn. exists fs', (w_random w). destruct w; cbn in *. by subst.
      * split; [eauto|apply untouched_faults].
      * rewrite w_locked_set_faults. destruct (w_locked w) eqn:Hl.
        { split; [eauto|apply untouched_faults]. }
        unfold bind at 1, gets at 1. rewrite shutdown_set_locked, shutdown_set_faults.
        destruct (shutdown w) eqn:Hs.
        { split; [eauto|]. cbn. exists fs, (w_random w). destruct w; cbn in *. by subst. }
        destruct (Hget (set_locked true (set_faults fs w))) as [fs' ->]; [by destruct w|].
        split; [eauto|]. cbn. exists fs', (w_random w). destruct w; cbn in *. by subst.
    + intros Hf Hl Hs. unfold GetUnvetted, getRecordLock.
      rewrite with_lock_nofault by done.
      match goal with
      | |- ((?body _).1, _) = _ =>
          assert (body (set_locked true w) = (Err ErrRecordNotFound, set_locked true w))
            as Hbody
      end.
      { unfold bind at 1, gets at 1. rewrite shutdown_set_locked, Hs.
        destruct (gitCheckout_fails_nofault unvetted id (set_locked true w)) as [e Hco].
        - by destruct w.
        - cbn [repo_of]. by destruct w.
        - unfold getRecord. fold id. rewrite bool_decide_true by done.
          apply bind_err. apply bind_err. unfold bind. by rewrite try_run, Hco. }
      rewrite Hbody. cbn [fst snd]. by rewrite unlock_lock.
  - intros log Hf Hl Hs Hcur Hmaster Hwork Hnone.
    unfold GetVetted, getRecordLock.
    rewrite with_lock_nofault by done.
    set (w0 := set_locked true w).
    assert (w_faults w0 = []) as Hf0 by (by destruct w).
    assert (getRecord token vetted true w0 = (Err ErrRecordNotFound, w0)) as Hrun.
    { unfold getRecord. fold id. rewrite bool_decide_false by done.
      rewrite (bind_run _ _ w0 w0 ()) by done.
      rewrite (bind_run _ _ w0 w0 (Err ErrRecordNotFound)).
      2: { rewrite try_run. unfold _getRecordFiles.
           rewrite (bind_err _ _ w0 w0 ErrRecordNotFound); [done|].
           unfold loadMD. rewrite (bind_run _ _ w0 w0 (Err ErrNotExist)); [done|].
           rewrite try_run. unfold ioutil_ReadFile. rewrite external_nofault by done.
           change (r_work (repo_of vetted w0)) with (r_work (w_vetted w)).
           by rewrite Hwork, Hnone. }
      rewrite (bind_run _ _ w0 w0 (Ok ())); [done|].
      rewrite try_run, (gitCheckout_noop_nofault _ _ _ log); try done. }
    match goal with
    | |- ((?body _).1, _) = _ =>
        assert (body w0 = (Err ErrRecordNotFound, w0)) as Hbody
    end.
    { unfold bind at 1, gets at 1. unfold w0 at 1. by rewrite shutdown_set_locked, Hs. }
    rewrite Hbody. cbn [fst snd]. unfold w0. by rewrite unlock_lock.
Qed.
End ReadMissing.

Lemma Get_record_not_found_witness :
  @GetUnvetted sample_library sample_loader sample_token (initial_world [] []) =
    (Err ErrRecordNotFound, initial_world [] []).
Proof.
  destruct (@Get_record_not_found sample_library sample_loader sample_token
              (initial_world [] [])) as [Hu _].
  destruct Hu as [_ Hrun].
  - left. reflexivity.
  - apply Hrun; reflexivity.
Defined.

Section ReadVetted.
Context `{Library} `{FileLoader}.

(** X11: GetVetted returns what master of the publication tier holds for
    the token, without checking out anything but master, and leaves the
    world as it found it.  (No external call fails, the publication
    tier is clean on master, the stream files carry a number and the
    payload directory holds files that can be loaded.) *)
Theorem GetVetted_returns_published (token : list byte) (w : world)
    (log : list commit) (b : list byte) (brm : RecordMetadata) :
  let id := EncodeToString token in
  let v := w_vetted w in
  let t := branch_tree log in
  w_faults w = [] → w_locked w = false → shutdown w = false →
  r_cur v = "master" → r_branches v !! "master" = Some log →
  r_work v = branch_tree log →
  t !! Join id defaultRecordMetadataFilename = Some b →
  unjson_RecordMetadata b = Some brm →
  Forall (stream_entry_ok t id) (dir_entries t id) →
  dir_entries t (Join id defaultPayloadDir) ≠ [] →
  Forall (λ v, is_Some (file_of t id v)) (dir_entries t (Join id defaultPayloadDir)) →
  ∃ files,
    GetVetted token w =
      (Ok (mkRecord brm (omap (stream_of t id) (dir_entries t id)) files), w) ∧
    Forall2 (λ v f, file_of t id v = Some f)
      (dir_entries t (Join id defaultPayloadDir)) files.
Proof.
  intros id v t Hf Hl Hs Hcur Hmaster Hwork Hb Hj Hstreams Hne Hfiles.
  unfold GetVetted, getRecordLock.
  rewrite with_lock_nofault by done.
  set (w0 := set_locked true w).
  assert (w_faults w0 = []) as Hf0 by (by destruct w).
  assert (r_work (repo_of vetted w0) = t) as Hw0 by (by destruct w).
  pose proof (_getRecordFiles_run vetted id w0 b brm Hf0) as Hget.
  cbv zeta in Hget. rewrite Hw0 in Hget.
  destruct (Hget Hb Hj Hstreams Hne Hfiles) as (files & Hrun & Hall).
  exists files. split; [|done].
  match goal with
  | |- ((?body _).1, _) = _ =>
      assert (body w0 = (Ok (mkRecord brm (omap (stream_of t id) (dir_entries t id)) files),
                         w0)) as Hbody
  end.
  { unfold bind at 1, gets at 1. unfold w0 at 1. rewrite shutdown_set_locked, Hs.
    unfold getRecord. fold id. rewrite bool_decide_false by done.
    rewrite (bind_run _ _ w0 w0 ()) by done.
    erewrite bind_run; [|by rewrite try_run, Hrun].
    rewrite (bind_run _ _ w0 w0 (Ok ())); [done|].
    rewrite try_run, (gitCheckout_noop_nofault _ _ _ log); try done. }
  rewrite Hbody. cbn [fst snd]. unfold w0. by rewrite unlock_lock.
Qed.
End ReadVetted.

Lemma GetVetted_returns_published_witness :
  ∃ files,
    @GetVetted sample_library sample_loader sample_token published_world =
      (Ok (mkRecord (mkRecordMetadata 2 MDStatusVetted (Merkle recorded_metadata) 0%Z
                       sample_token)
             (omap (stream_of (branch_tree published_log) (EncodeToString sample_token))
                (dir_entries (branch_tree published_log) (EncodeToString sample_token)))
             files), published_world) ∧
    Forall2 (λ v f, @file_of sample_loader (branch_tree published_log)
                      (EncodeToString sample_token) v = Some f)
      (dir_entries (branch_tree published_log)
         (Join (EncodeToString sample_token) defaultPayloadDir)) files.
Proof.
  apply (@GetVetted_returns_published sample_library sample_loader sample_token
           published_world published_log
           (@json_RecordMetadata sample_library
              (mkRecordMetadata 2 MDStatusVetted (Merkle recorded_metadata) 0%Z
                 sample_token))).
  - reflexivity.
  - reflexivity.
  - reflexivity.
  - reflexivity.
  - apply (bool_decide_eq_true_1 _). vm_compute. reflexivity.
  - apply (bool_decide_eq_true_1 _). vm_compute. reflexivity.
  - apply (bool_decide_eq_true_1 _). vm_compute. reflexivity.
  - vm_compute. reflexivity.
  - apply (bool_decide_eq_true_1 _). vm_compute. reflexivity.
  - vm_compute. discriminate.
  - apply (bool_decide_eq_true_1 _). vm_compute. reflexivity.
Defined.

(** ** The anchor engine *)

(** The anchor state is as it was. *)
Definition anchor_state_kept (w w' : world) : Prop :=
  w_last w' = w_last w ∧ w_unconfirmed w' = w_unconfirmed w.

Lemma anchor_state_kept_faults (w : world) (fs : list bool) (w' : world) :
  anchor_state_kept w w' → anchor_state_kept w (set_faults fs w').
Proof. by destruct w'. Qed.

Lemma anchor_state_kept_locked (w : world) (b : bool) (w' : world) :
  anchor_state_kept w w' → anchor_state_kept w (set_locked b w').
Proof. by destruct w'. Qed.

Ltac anchor_state_leaf :=
  unfold anchor_state_kept in *;
  repeat match goal with p : repo_path |- _ => destruct p end;
  repeat match goal with w : world |- _ => destruct w end;
  cbn in *; try done; try tauto.

Section AnchorState.
Context `{Library}.

Lemma anchorRepo_anchor_state (w : world) (path : repo_path) :
  preserves (anchor_state_kept w) (anchorRepo path).
Proof.
  unfold anchorRepo, deltaCommits, newAnchorRecord, anchor, util_Timestamp,
    appendAuditTrail, readLastAnchorRecord, gitCheckout, gitFsck, gitLastDigest, gitLog,
    gitAdd, gitCommit, os_AppendFile, time_Now_Unix, modify.
  preserves_with (anchor_state_kept_faults w) (anchor_state_kept_locked w)
    anchor_state_leaf.
Qed.

Lemma anchorAllRepos_anchor_state (w : world) :
  preserves (anchor_state_kept w) anchorAllRepos.
Proof.
  unfold anchorAllRepos. apply preserves_bind.
  { unfold lock_Lock.
    preserves_with (anchor_state_kept_faults w) (anchor_state_kept_locked w)
      anchor_state_leaf. }
  intros _ w0 Hw0.
  match goal with
  | |- anchor_state_kept w (let '(r, w') := ?body w0 in _).2 =>
      assert (preserves (anchor_state_kept w) body) as Hbody
  end.
  { apply preserves_bind; [apply preserves_gets|]. intros [|]; [apply preserves_fail|].
    apply preserves_bind; [apply preserves_try, anchorRepo_anchor_state|].
    intros [mr|e].
    - unfold gitPull.
      preserves_with (anchor_state_kept_faults w) (anchor_state_kept_locked w)
        anchor_state_leaf.
    - destruct e; first [apply preserves_ret | apply preserves_fail]. }
  specialize (Hbody w0 Hw0).
  match goal with |- context [let '(r, w') := ?x in _] => destruct x as [r w1] end.
  cbn [fst snd] in *. by apply anchor_state_kept_locked.
Qed.

Lemma afterAnchorVerify_anchor_state (w : world) (vrs : list VerifyDigest) :
  preserves (anchor_state_kept w) (afterAnchorVerify vrs).
Proof.
  unfold afterAnchorVerify, confirm_anchor, appendAuditTrail, gitCheckout, gitPull,
    gitAdd, gitCommit, os_AppendFile, os_MkdirAll, ioutil_WriteFile, modify.
  preserves_with (anchor_state_kept_faults w) (anchor_state_kept_locked w)
    anchor_state_leaf.
Qed.

Lemma verify_all_anchor_state (w : world) (merkles : list (list byte)) :
  preserves (anchor_state_kept w) (verify_all merkles).
Proof.
  induction merkles as [|u rest IH]; cbn [verify_all]; [apply preserves_ret|].
  apply preserves_bind.
  { unfold verifyAnchor, util_Verify, time_Now_Unix.
    preserves_with (anchor_state_kept_faults w) (anchor_state_kept_locked w)
      anchor_state_leaf. }
  intros r. apply preserves_bind; [apply IH|]. intros vrs.
  destruct r; apply preserves_ret.
Qed.

Lemma anchorChecker_anchor_state (w : world) :
  preserves (anchor_state_kept w) anchorChecker.
Proof.
  unfold anchorChecker. apply preserves_bind.
  { unfold readUnconfirmedAnchorRecord.
    preserves_with (anchor_state_kept_faults w) (anchor_state_kept_locked w)
      anchor_state_leaf. }
  intros merkles. case_bool_decide; [apply preserves_ret|].
  apply preserves_bind; [apply verify_all_anchor_state|]. intros vrs.
  apply preserves_wrap_error, afterAnchorVerify_anchor_state.
Qed.

(** X12: The anchor engine of gitbe.go reads the anchor state and never
    writes it: after a drop of an anchor and after a pass of the
    checker, successful or not, the record of the last anchor and the
    list of unconfirmed merkle roots are what they were.  A later drop
    starts from the same last anchor again, and a later pass of the
    checker goes through the same merkle roots again. *)
Theorem anchor_state_never_written (w : world) :
  anchor_state_kept w (anchorAllRepos w).2 ∧
  anchor_state_kept w (anchorAllReposCronJob w).2 ∧
  anchor_state_kept w (anchorChecker w).2 ∧
  (∀ vrs, anchor_state_kept w (afterAnchorVerify vrs w).2) ∧
  (∀ path, anchor_state_kept w (anchorRepo path w).2).
Proof.
  assert (anchor_state_kept w w) as Hw by done.
  split_and!.
  - by apply anchorAllRepos_anchor_state.
  - unfold anchorAllReposCronJob.
    assert (preserves (anchor_state_kept w) (bind (try anchorAllRepos) (λ _, ret ())))
      as Hp; [|by apply Hp].
    apply preserves_bind; [apply preserves_try, anchorAllRepos_anchor_state|].
    intros _. apply preserves_ret.
  - by apply anchorChecker_anchor_state.
  - intros vrs. by apply afterAnchorVerify_anchor_state.
  - intros path. by apply anchorRepo_anchor_state.
Qed.
End AnchorState.

Section AnchorEdges.
Context `{Library}.

Lemma deltaCommits_at_head (path : repo_path) (c : commit) (log : list commit) (w : world) :
  w_faults w = [] → head_log (repo_of path w) = c :: log →
  length (c_digest c) = sha1_Size →
  deltaCommits path (c_digest c ++ zero_bytes 12) w = (Err errNothingToDo, w).
Proof.
  intros Hf Hlog Hc.
  assert (gitLastDigest path w = (Ok (c_digest c), w)) as Hlast.
  { unfold gitLastDigest. rewrite external_nofault by done. by rewrite Hlog. }
  assert (length (c_digest c ++ zero_bytes 12) = sha256_Size) as Hlen.
  { by rewrite length_app, Hc. }
  unfold deltaCommits.
  rewrite (bool_decide_false (length _ = 0%nat)) by (rewrite Hlen; done).
  rewrite bool_decide_true by done. cbn [orb negb].
  rewrite (bind_run _ _ _ _ _ Hlast).
  apply bind_err. erewrite bind_run.
  2: { unfold lift. rewrite unextendSHA256_ok; [reflexivity|done|].
       by rewrite drop_app_length' by done. }
  rewrite take_app_length' by done. by rewrite bool_decide_true.
Qed.

(** X13: deltaCommits checks the last anchor before it reads the log.  A
    last anchor that is neither empty nor 32 bytes long is refused
    without a call of git, so that the state is untouched whatever the
    schedule of faults; one of 32 bytes whose last twelve bytes are not
    all zero makes unextendSHA256 panic once the digest of the head is
    known; and the extended digest of the head itself answers
    errNothingToDo. *)
Theorem deltaCommits_last_anchor (path : repo_path) (lastAnchor : list byte) (w : world) :
  (length lastAnchor ≠ 0%nat → length lastAnchor ≠ sha256_Size →
   deltaCommits path lastAnchor w = (Err (Errorf "invalid digest size"), w)) ∧
  (∀ c log, w_faults w = [] → head_log (repo_of path w) = c :: log →
     length lastAnchor = sha256_Size →
     (drop sha1_Size lastAnchor ≠ zero_bytes 12 →
      deltaCommits path lastAnchor w = (Err (Panic "invalid extended sha256"), w)) ∧
     (length (c_digest c) = sha1_Size → lastAnchor = c_digest c ++ zero_bytes 12 →
      deltaCommits path lastAnchor w = (Err errNothingToDo, w))).
Proof.
  split.
  - intros H0 H32. unfold deltaCommits.
    rewrite !bool_decide_false by done. done.
  - intros c log Hf Hlog Hlen.
    assert (gitLastDigest path w = (Ok (c_digest c), w)) as Hlast.
    { unfold gitLastDigest. rewrite external_nofault by done. by rewrite Hlog. }
    assert (length lastAnchor ≠ 0%nat) as Hne by (rewrite Hlen; done).
    split.
    + intros Hz. unfold deltaCommits.
      rewrite (bool_decide_false (length lastAnchor = 0%nat)) by done.
      rewrite bool_decide_true by done. cbn [orb negb].
      rewrite (bind_run _ _ _ _ _ Hlast).
      apply bind_err. apply bind_err. unfold lift, unextendSHA256.
      rewrite decide_False by (by intros ?).
      destruct (forallb _ (drop sha1_Size lastAnchor)) eqn:Hall; [|done].
      apply forallb_zero_spec in Hall. exfalso. apply Hz. rewrite Hall.
      by rewrite length_drop, Hlen.
    + intros Hc ->. by apply (deltaCommits_at_head path c log).
Qed.
End AnchorEdges.

Lemma deltaCommits_last_anchor_witness :
  deltaCommits vetted [x01] anchored_world = (Err (Errorf "invalid digest size"), anchored_world).
Proof.
  apply (deltaCommits_last_anchor vetted [x01] anchored_world); vm_compute; discriminate.
Defined.

(** In test mode, with the digest marked as confirmed or not. *)
Definition test_marked (digest : string) (b : bool) (w : world) : Prop :=
  test w = true ∧ testAnchors w !! digest = Some b.

Lemma hoare_bind_keep {A B} (P : world → Prop) (m : M A) (k : A → M B)
    (Q : result B → world → Prop) :
  preserves P m → (∀ e w, Q (Err e) w) → (∀ a, hoare P (k a) Q) →
  hoare P (bind m k) Q.
Proof.
  intros Hm HQ Hk w Hw. unfold bind. specialize (Hm w Hw).
  destruct (m w) as [[a|e] w1]; cbn in *; [by apply Hk|apply HQ].
Qed.

Ltac test_leaf :=
  unfold test_marked in *;
  repeat match goal with p : repo_path |- _ => destruct p end;
  repeat match goal with w : world |- _ => destruct w end;
  cbn in *; try done; try tauto.

Section TestAnchors.
Context `{Library}.

Lemma test_mode_faults (fs : list bool) (w : world) :
  test w = true → test (set_faults fs w) = true.
Proof. by destruct w. Qed.

Lemma test_mode_locked (b : bool) (w : world) :
  test w = true → test (set_locked b w) = true.
Proof. by destruct w. Qed.

Lemma test_marked_faults (d : string) (b : bool) (fs : list bool) (w : world) :
  test_marked d b w → test_marked d b (set_faults fs w).
Proof. by destruct w. Qed.

Lemma test_marked_locked (d : string) (b : bool) (l : bool) (w : world) :
  test_marked d b w → test_marked d b (set_locked l w).
Proof. by destruct w. Qed.

Lemma verifyAnchor_test (digest : string) (w : world) :
  test w = true →
  verifyAnchor digest w =
    (match testAnchors w !! digest with
     | None => Err (Errorf "test not found")
     | Some true => Err (Errorf "already anchored")
     | Some false =>
         Ok (mkVerifyDigest digest ResultOK (mkChainInformation (w_clock w) expectedTestTX))
     end, w).
Proof.
  intros Ht. unfold verifyAnchor, bind, gets, time_Now_Unix, ret, fail. rewrite Ht.
  destruct (testAnchors w !! digest) as [[|]|]; done.
Qed.

Lemma confirm_anchor_marks (vr : VerifyDigest) :
  hoare (λ w, test w = true) (confirm_anchor vr)
    (λ r w, match r with
            | Ok _ => test_marked (vd_Digest vr) true w
            | Err _ => True
            end).
Proof.
  unfold confirm_anchor. case_bool_decide; [by apply hoare_fail|].
  destruct (ConvertDigest (vd_Digest vr)) as [mr|]; [|by apply hoare_fail].
  do 6 (apply hoare_bind_keep;
          [ unfold appendAuditTrail, gitAdd, gitCommit, os_AppendFile, os_MkdirAll,
              ioutil_WriteFile, modify;
            preserves_with test_mode_faults test_mode_locked test_leaf
          | done
          | intros _ ]).
  eapply hoare_bind with (R := λ t w, t = true ∧ test w = true).
  - apply hoare_gets. intros w Hw. by rewrite Hw.
  - intros t. destruct t.
    + apply hoare_modify. intros w [_ Hw]. split; [by destruct w|].
      destruct w. cbn. apply lookup_insert_eq.
    + apply hoare_ret. by intros w [? _].
Qed.

Lemma afterAnchorVerify_marks (vr : VerifyDigest) :
  hoare (λ w, test w = true) (afterAnchorVerify [vr])
    (λ r w, r = Ok () → test_marked (vd_Digest vr) true w).
Proof.
  unfold afterAnchorVerify. cbn [length bool_decide negb].
  apply hoare_with_lock.
  - apply test_mode_faults.
  - apply test_mode_locked.
  - done.
  - rewrite bool_decide_false by done. cbn [negb].
    apply hoare_bind_keep.
    { unfold gitCheckout.
      preserves_with test_mode_faults test_mode_locked test_leaf. }
    { done. }
    intros _. eapply hoare_bind with (R := λ _ w, test_marked (vd_Digest vr) true w).
    { cbn [for_each]. eapply hoare_bind with (R := λ _ w, test_marked (vd_Digest vr) true w).
      - eapply hoare_conseq; [apply confirm_anchor_marks|done|].
        intros [[]|e] w; done.
      - intros _. by apply hoare_ret. }
    intros _.
    assert (preserves (test_marked (vd_Digest vr) true)
              (bind (gitCheckout unvetted "master") (λ _, gitPull unvetted true))) as Hp.
    { unfold gitCheckout, gitPull.
      preserves_with (test_marked_faults (vd_Digest vr) true)
        (test_marked_locked (vd_Digest vr) true) test_leaf. }
    intros w Hw. specialize (Hp w Hw). intros _. by apply test_marked_locked.
Qed.

(** X14: The life of an anchor in test mode.  anchor notes the text of the
    last digest it is given, which is where anchorRepo puts the merkle
    root; from then on verifyAnchor answers for it with ResultOK, the
    time of the clock and the transaction TESTTX; and once
    afterAnchorVerify has committed the confirmation, verifyAnchor
    answers "already anchored", whatever happened in between to the
    schedule of faults.  A digest that anchor has not noted is
    "test not found". *)
Theorem test_anchor_lifecycle (digests : list (list byte)) (key : list byte)
    (w : world) :
  let digest := EncodeToString key in
  let vr := mkVerifyDigest digest ResultOK (mkChainInformation (w_clock w) expectedTestTX) in
  test w = true → last digests = Some key →
  (testAnchors w !! digest = None →
   verifyAnchor digest w = (Err (Errorf "test not found"), w)) ∧
  ∃ w1, anchor digests w = (Ok (), w1) ∧
        verifyAnchor digest w1 = (Ok vr, w1) ∧
        ∀ w2, afterAnchorVerify [vr] w1 = (Ok (), w2) →
              verifyAnchor digest w2 = (Err (Errorf "already anchored"), w2).
Proof.
  intros digest vr Ht Hlast. split.
  - intros Hnone. by rewrite verifyAnchor_test, Hnone.
  - set (w1 := set_testAnchors (<[digest := false]> (testAnchors w)) w).
    assert (test w1 = true) as Ht1 by (by destruct w).
    exists w1. split_and!.
    + unfold anchor, bind, gets. by rewrite Ht, Hlast.
    + rewrite verifyAnchor_test by done.
      replace (testAnchors w1) with (<[digest := false]> (testAnchors w))
        by (by destruct w).
      rewrite lookup_insert_eq. unfold vr. by destruct w.
    + intros w2 Hrun. pose proof (afterAnchorVerify_marks vr w1 Ht1) as Hm.
      rewrite Hrun in Hm. destruct (Hm eq_refl) as [Ht2 Hmark].
      rewrite verifyAnchor_test by done. cbn in Hmark. by rewrite Hmark.
Qed.
End TestAnchors.

Section AnchorIdle.
Context `{Library}.

Lemma verify_all_none (merkles : list (list byte)) (w : world) :
  Forall (λ u, ∃ e, verifyAnchor (EncodeToString u) w = (Err e, w)) merkles →
  verify_all merkles w = (Ok [], w).
Proof.
  induction 1 as [|u rest [e He] _ IH]; [done|].
  cbn [verify_all]. erewrite bind_run; [|by rewrite try_run, He].
  by rewrite (bind_run _ _ _ _ _ IH).
Qed.

Lemma afterAnchorVerify_nil (w : world) :
  w_faults w = [] → w_locked w = false → afterAnchorVerify [] w = (Ok (), w).
Proof.
  intros Hf Hl. unfold afterAnchorVerify. rewrite with_lock_nofault by done.
  match goal with
  | |- ((?body _).1, _) = _ =>
      change (body (set_locked true w)) with (Ok (), set_locked true w)
  end.
  cbn [fst snd]. by rewrite unlock_lock.
Qed.

(** X15: A pass of the anchor checker without work.  With nothing
    unconfirmed, anchorChecker returns at once: it does not take the
    lock (a held lock does not stop it) and does not look at the
    shutdown flag.  When every verification fails, the failures are
    only logged: afterAnchorVerify is given no reply, takes the lock,
    does nothing, and anchorChecker returns without an error and with
    the state as it was. *)
Theorem anchorChecker_idle (w : world) :
  w_faults w = [] →
  (w_unconfirmed w = [] → anchorChecker w = (Ok (), w)) ∧
  (w_locked w = false →
   Forall (λ u, ∃ e, verifyAnchor (EncodeToString u) w = (Err e, w)) (w_unconfirmed w) →
   anchorChecker w = (Ok (), w)).
Proof.
  intros Hf.
  assert (wrap_error "anchorChecker read: " readUnconfirmedAnchorRecord w =
            (Ok (w_unconfirmed w), w)) as Hread.
  { apply wrap_error_ok. unfold readUnconfirmedAnchorRecord.
    by rewrite external_nofault. }
  split.
  - intros Hnil. unfold anchorChecker. rewrite (bind_run _ _ _ _ _ Hread).
    by rewrite Hnil.
  - intros Hl Hall. unfold anchorChecker. rewrite (bind_run _ _ _ _ _ Hread).
    case_bool_decide; [done|].
    rewrite (bind_run _ _ _ _ _ (verify_all_none _ _ Hall)).
    apply wrap_error_ok. by apply afterAnchorVerify_nil.
Qed.

(** X16: With the record of the last anchor at the head of master of the
    publication tier, there is nothing to anchor: anchorRepo answers
    errNothingToDo, anchorAllRepos takes that for success, does not
    pull the staging tier and leaves the state as it was. *)
Theorem anchorAllRepos_nothing_to_do (w : world) (c : commit) (log : list commit) :
  w_faults w = [] → w_locked w = false → shutdown w = false →
  r_cur (w_vetted w) = "master" →
  r_branches (w_vetted w) !! "master" = Some (c :: log) →
  r_work (w_vetted w) = branch_tree (c :: log) →
  length (c_digest c) = sha1_Size →
  w_last w = c_digest c ++ zero_bytes 12 →
  anchorRepo vetted w = (Err errNothingToDo, w) ∧
  anchorAllRepos w = (Ok (), w).
Proof.
  intros Hf Hl Hs Hcur Hmaster Hwork Hc Hlast.
  assert (∀ w0, w_faults w0 = [] → w_vetted w0 = w_vetted w → w_last w0 = w_last w →
            anchorRepo vetted w0 = (Err errNothingToDo, w0)) as Hrepo.
  { intros w0 Hf0 Hv0 Hl0. unfold anchorRepo.
    erewrite bind_run.
    2: { apply wrap_error_ok. apply (gitCheckout_noop_nofault _ _ _ (c :: log)); try done;
         cbn [repo_of]; by rewrite Hv0. }
    erewrite bind_run.
    2: { apply wrap_error_ok. unfold gitFsck. by rewrite external_nofault. }
    erewrite bind_run.
    2: { apply wrap_error_ok. unfold readLastAnchorRecord.
         by rewrite external_nofault. }
    unfold bind. rewrite try_run. rewrite Hl0, Hlast.
    rewrite (deltaCommits_at_head vetted c log); try done.
    unfold head_log. cbn [repo_of]. by rewrite Hv0, Hcur, Hmaster. }
  split; [by apply Hrepo|].
  unfold anchorAllRepos.
  erewrite bind_run.
  2: { apply wrap_error_ok. unfold lock_Lock. rewrite external_nofault by done.
       by rewrite Hl. }
  set (w0 := set_locked true w).
  unfold bind at 1, gets at 1. unfold w0 at 1. rewrite shutdown_set_locked, Hs.
  unfold bind. rewrite try_run.
  rewrite (Hrepo w0) by (by destruct w). cbn [fst snd]. unfold ret, w0.
  by rewrite unlock_lock.
Qed.
End AnchorIdle.

Lemma test_anchor_lifecycle_witness :
  verifyAnchor (EncodeToString sample_token) test_world =
    (Err (Errorf "test not found"), test_world).
Proof.
  destruct (@test_anchor_lifecycle sample_library [sample_token] sample_token test_world)
    as [Hnone _].
  - reflexivity.
  - reflexivity.
  - apply Hnone. reflexivity.
Defined.

Lemma anchorChecker_idle_witness :
  @anchorChecker sample_library (initial_world [] []) = (Ok (), initial_world [] []).
Proof.
  destruct (@anchorChecker_idle sample_library (initial_world [] [])) as [Hnil _].
  - reflexivity.
  - apply Hnil. reflexivity.
Defined.

Lemma anchorAllRepos_nothing_to_do_witness :
  @anchorRepo sample_library vetted idle_world = (Err errNothingToDo, idle_world) ∧
  @anchorAllRepos sample_library idle_world = (Ok (), idle_world).
Proof.
  apply (@anchorAllRepos_nothing_to_do sample_library idle_world initial_commit []);
    reflexivity.
Defined.
(** * The promotion protocol *)

Lemma with_parents_fst (log : list commit) : (with_parents log).*1 = log.
Proof. induction log as [|c log IH]; [done|]. cbn. by rewrite IH. Qed.

Lemma local_commits_none (onto log : list commit) :
  Forall (λ c, c_digest c ∈ c_digest <$> onto) log →
  filter (λ cp : commit * tree, c_digest cp.1 ∉ c_digest <$> onto) (with_parents log) = [].
Proof.
  induction 1 as [|c log Hc _ IH]; [done|].
  cbn [with_parents]. rewrite filter_cons, decide_False by (cbn; tauto). exact IH.
Qed.

Lemma local_commits_app (onto cs log : list commit) :
  Forall (λ c, c_digest c ∉ c_digest <$> onto) cs →
  Forall (λ c, c_digest c ∈ c_digest <$> onto) log →
  (filter (λ cp : commit * tree, c_digest cp.1 ∉ c_digest <$> onto)
     (with_parents (cs ++ log))).*1 = cs.
Proof.
  intros Hcs Hlog. induction Hcs as [|c cs Hc _ IH]; cbn [app].
  - by rewrite local_commits_none.
  - cbn [with_parents]. rewrite filter_cons, decide_True by done. cbn. by rewrite IH.
Qed.

(** A branch that carries its own commits on top of [onto] is left alone
    by a rebase. *)
Lemma rebase_log_on_top (n : N) (cs onto : list commit) :
  Forall (λ c, c_digest c ∉ c_digest <$> onto) cs →
  rebase_log n (cs ++ onto) onto = (cs ++ onto, n).
Proof.
  intros Hcs. unfold rebase_log. rewrite local_commits_app; [|done|].
  - by rewrite decide_True.
  - apply Forall_forall. intros c Hc. by apply list_elem_of_fmap_2.
Qed.

(** A branch whose commits are all below [cs] moves forward to them. *)
Lemma rebase_log_forward (n : N) (cs log : list commit) :
  rebase_log n log (cs ++ log) = (cs ++ log, n).
Proof.
  unfold rebase_log. rewrite local_commits_none.
  - cbn. case_decide as Heq; [|done]. by rewrite <-Heq.
  - apply Forall_forall. intros c Hc.
    apply list_elem_of_fmap_2, elem_of_app. by right.
Qed.

Lemma gitRebase_nofault (p : repo_path) (onto : string) (w : world) (base : list commit) :
  w_faults w = [] → r_branches (repo_of p w) !! onto = Some base →
  is_clean (repo_of p w) = true →
  gitRebase p onto w =
    (Ok (), set_commits (rebase_log (w_commits w) (head_log (repo_of p w)) base).2
              (set_repo p
                 (mkRepo (r_cur (repo_of p w))
                    (<[r_cur (repo_of p w) :=
                         (rebase_log (w_commits w) (head_log (repo_of p w)) base).1]>
                       (r_branches (repo_of p w)))
                    (branch_tree (rebase_log (w_commits w) (head_log (repo_of p w)) base).1))
                 w)).
Proof.
  intros Hf Hb Hc. unfold gitRebase. rewrite external_nofault by done. cbv zeta.
  rewrite Hb, Hc. by destruct (rebase_log _ _ _).
Qed.

Lemma gitPull_nofault (w : world) (theirs : list commit) :
  w_faults w = [] →
  r_branches (w_vetted w) !! r_cur (w_unvetted w) = Some theirs →
  is_clean (w_unvetted w) = true →
  gitPull unvetted true w =
    (Ok (), set_commits (rebase_log (w_commits w) (head_log (w_unvetted w)) theirs).2
              (set_repo unvetted
                 (mkRepo (r_cur (w_unvetted w))
                    (<[r_cur (w_unvetted w) :=
                         (rebase_log (w_commits w) (head_log (w_unvetted w)) theirs).1]>
                       (r_branches (w_unvetted w)))
                    (branch_tree (rebase_log (w_commits w) (head_log (w_unvetted w)) theirs).1))
                 w)).
Proof.
  intros Hf Hb Hc. unfold gitPull. rewrite external_nofault by done. cbv zeta.
  rewrite Hb, Hc. by destruct (rebase_log _ _ _).
Qed.

Lemma gitPush_nofault (branch : string) (w : world) (log : list commit) :
  w_faults w = [] → r_branches (w_unvetted w) !! branch = Some log →
  r_cur (w_vetted w) ≠ branch →
  default [] (r_branches (w_vetted w) !! branch) `suffix_of` log →
  gitPush unvetted "origin" branch true w =
    (Ok (), set_repo vetted
              (set_branches (<[branch := log]> (r_branches (w_vetted w))) (w_vetted w)) w).
Proof.
  intros Hf Hb Hc Hs. unfold gitPush. rewrite external_nofault by done.
  rewrite Hb. cbv zeta. rewrite decide_False by done. by rewrite decide_True.
Qed.

Lemma gitBranchDelete_nofault (p : repo_path) (branch : string) (w : world) :
  w_faults w = [] → is_Some (r_branches (repo_of p w) !! branch) →
  r_cur (repo_of p w) ≠ branch →
  gitBranchDelete p branch w =
    (Ok (), set_repo p (set_branches (delete branch (r_branches (repo_of p w)))
                          (repo_of p w)) w).
Proof.
  intros Hf [log Hb] Hc. unfold gitBranchDelete. rewrite external_nofault by done.
  cbv zeta. rewrite Hb. by rewrite decide_False.
Qed.

(** rebasePR on a staging tier that has master checked out. *)
Lemma rebasePR_on_master (id : string) (w : world) (cs mlog : list commit) :
  let u := w_unvetted w in
  let v := w_vetted w in
  w_faults w = [] → id ≠ "master" →
  in_step u v mlog →
  r_cur v = "master" → r_work v = branch_tree mlog →
  r_branches v !! id = None →
  r_branches u !! id = Some (cs ++ mlog) →
  Forall (λ c, c_digest c ∉ c_digest <$> mlog) cs →
  ∃ w', rebasePR id w = (Ok (), w') ∧
        w_unvetted w' =
          mkRepo "master" (<["master" := cs ++ mlog]> (delete id (r_branches u)))
            (branch_tree (cs ++ mlog)) ∧
        w_vetted w' =
          mkRepo "master" (<["master" := cs ++ mlog]> (r_branches v))
            (branch_tree (cs ++ mlog)) ∧
        in_step (w_unvetted w') (w_vetted w') (cs ++ mlog) ∧
        w_commits w' = w_commits w ∧ w_locked w' = w_locked w ∧ w_faults w' = [].
Proof.
  intros u v Hf Hid Hstep Hvcur Hvwork Hvid Huid Hfresh.
  pose proof (in_step_clean _ _ _ Hstep) as Hclean.
  pose proof Hstep as (Hucur & Humaster & Huwork & Hvmaster).
  fold u in Hucur, Humaster, Huwork. fold v in Hvmaster.
  unfold rebasePR.
  rewrite (bind_run _ _ w w ()) by (by apply (gitCheckout_noop_nofault _ _ _ mlog)).
  rewrite (bind_run _ _ w w ()) by (by apply (gitPull_noop_nofault _ mlog)).
  (* git checkout id *)
  set (w1 := set_repo unvetted (mkRepo id (r_branches u) (branch_tree (cs ++ mlog))) w).
  rewrite (bind_run _ _ w w1 ()).
  2: { unfold bind. by rewrite try_run, (gitCheckout_nofault _ _ _ (cs ++ mlog)). }
  assert (w_faults w1 = []) as Hf1 by (by destruct w).
  assert (w_unvetted w1 = mkRepo id (r_branches u) (branch_tree (cs ++ mlog))) as Hu1
    by (by destruct w).
  assert (w_vetted w1 = v) as Hv1 by (by destruct w).
  (* git rebase master *)
  rewrite (bind_run _ _ w1 w1 ()).
  2: { rewrite (gitRebase_nofault _ _ _ mlog); cbn [repo_of]; rewrite ?Hu1; try done.
       - unfold head_log. cbn [r_cur r_branches]. rewrite Huid. cbn [default from_option Datatypes.id].
         rewrite rebase_log_on_top by done. cbn [fst snd].
         rewrite insert_id by done. reflexivity.
       - unfold is_clean, head_tree, head_log.
         cbn. rewrite Huid. by apply bool_decide_eq_true. }
  (* git push *)
  set (w2 := set_repo vetted (set_branches (<[id := cs ++ mlog]> (r_branches v)) v) w1).
  rewrite (bind_run _ _ w1 w2 ()).
  2: { rewrite (gitPush_nofault _ _ (cs ++ mlog)); rewrite ?Hu1, ?Hv1; try done.
       - by rewrite Hvcur.
       - rewrite Hvid. apply suffix_nil. }
  assert (w_faults w2 = []) as Hf2 by (by destruct w).
  (* on the publication tier: git rebase id *)
  set (v3 := mkRepo "master"
               (<["master" := cs ++ mlog]> (<[id := cs ++ mlog]> (r_branches v)))
               (branch_tree (cs ++ mlog))).
  set (w3 := set_repo vetted v3 w2).
  rewrite (bind_run _ _ w2 w3 ()).
  2: { rewrite (gitRebase_nofault _ _ _ (cs ++ mlog)); try done.
       - replace (repo_of vetted w2)
           with (set_branches (<[id := cs ++ mlog]> (r_branches v)) v) by (by destruct w).
         unfold head_log. cbn [r_cur r_branches set_branches]. rewrite Hvcur.
         rewrite lookup_insert_ne by done. fold v in Hvmaster. rewrite Hvmaster.
         cbn [default from_option Datatypes.id]. rewrite rebase_log_forward. cbn [fst snd].
         reflexivity.
       - replace (repo_of vetted w2)
           with (set_branches (<[id := cs ++ mlog]> (r_branches v)) v) by (by destruct w).
         cbn. apply lookup_insert_eq.
       - replace (repo_of vetted w2)
           with (set_branches (<[id := cs ++ mlog]> (r_branches v)) v) by (by destruct w).
         unfold is_clean, head_tree, head_log. cbn. rewrite Hvcur.
         rewrite lookup_insert_ne by done. fold v in Hvmaster. rewrite Hvmaster. cbn.
         by apply bool_decide_eq_true. }
  assert (w_faults w3 = []) as Hf3 by (by destruct w).
  (* git branch -D id *)
  set (v4 := mkRepo "master" (<["master" := cs ++ mlog]> (r_branches v))
               (branch_tree (cs ++ mlog))).
  set (w4 := set_repo vetted v4 w3).
  rewrite (bind_run _ _ w3 w4 ()).
  2: { rewrite gitBranchDelete_nofault; try done.
       - replace (repo_of vetted w3) with v3 by (by destruct w).
         unfold w4, v4, v3, set_branches. cbn [r_cur r_branches r_work].
         rewrite delete_insert_ne by done. rewrite delete_insert_id by done.
         reflexivity.
       - replace (repo_of vetted w3) with v3 by (by destruct w).
         cbn. rewrite lookup_insert_ne by done. rewrite lookup_insert_eq. eauto. }
  assert (w_faults w4 = []) as Hf4 by (by destruct w).
  assert (w_unvetted w4 = mkRepo id (r_branches u) (branch_tree (cs ++ mlog))) as Hu4
    by (by destruct w).
  assert (w_vetted w4 = v4) as Hv4 by (by destruct w).
  (* back on the staging tier: git checkout master *)
  set (w5 := set_repo unvetted (mkRepo "master" (r_branches u) (branch_tree mlog)) w4).
  rewrite (bind_run _ _ w4 w5 ()).
  2: { rewrite (gitCheckout_nofault _ _ _ mlog); try done.
       cbn [repo_of]. rewrite Hu4. unfold is_clean, head_tree, head_log. cbn.
       rewrite Huid. by apply bool_decide_eq_true. }
  assert (w_faults w5 = []) as Hf5 by (by destruct w).
  assert (w_unvetted w5 = mkRepo "master" (r_branches u) (branch_tree mlog)) as Hu5
    by (by destruct w).
  assert (w_vetted w5 = v4) as Hv5 by (by destruct w).
  (* git pull *)
  set (u6 := mkRepo "master" (<["master" := cs ++ mlog]> (r_branches u))
               (branch_tree (cs ++ mlog))).
  set (w6 := set_repo unvetted u6 w5).
  rewrite (bind_run _ _ w5 w6 ()).
  2: { rewrite (gitPull_nofault _ (cs ++ mlog)); try done.
       - rewrite Hu5. unfold head_log. cbn [r_cur r_branches]. rewrite Humaster.
         cbn [default from_option Datatypes.id]. rewrite rebase_log_forward. cbn [fst snd].
         reflexivity.
       - rewrite Hu5, Hv5. cbn. apply lookup_insert_eq.
       - rewrite Hu5. unfold is_clean, head_tree, head_log. cbn. rewrite Humaster.
         by apply bool_decide_eq_true. }
  assert (w_faults w6 = []) as Hf6 by (by destruct w).
  assert (w_unvetted w6 = u6) as Hu6 by (by destruct w).
  (* git branch -D id *)
  rewrite gitBranchDelete_nofault; try done.
  2: { cbn [repo_of]. rewrite Hu6. cbn. rewrite lookup_insert_ne by done.
       rewrite Huid. eauto. }
  cbn [repo_of]. rewrite Hu6.
  set (u7 := set_branches _ u6).
  assert (u7 = mkRepo "master" (<["master" := cs ++ mlog]> (delete id (r_branches u)))
                 (branch_tree (cs ++ mlog))) as Hu7.
  { unfold u7, u6, set_branches. cbn [r_cur r_branches r_work].
    by rewrite delete_insert_ne. }
  assert (w_unvetted (set_repo unvetted u7 w6) = u7) as Hu' by (by destruct w).
  assert (w_vetted (set_repo unvetted u7 w6) = v4) as Hv' by (by destruct w).
  eexists. split; [reflexivity|]. rewrite Hu', Hv', Hu7.
  split_and!; try done.
  unfold in_step. split_and!; try done; cbn; apply lookup_insert_eq.
Qed.

Lemma rebasePR_run (id : string) (w : world) (cs mlog : list commit) :
  let u := w_unvetted w in
  let v := w_vetted w in
  w_faults w = [] → id ≠ "master" →
  is_clean u = true →
  r_branches u !! "master" = Some mlog → r_branches v !! "master" = Some mlog →
  r_cur v = "master" → r_work v = branch_tree mlog →
  r_branches v !! id = None →
  r_branches u !! id = Some (cs ++ mlog) →
  Forall (λ c, c_digest c ∉ c_digest <$> mlog) cs →
  ∃ w', rebasePR id w = (Ok (), w') ∧
        w_unvetted w' =
          mkRepo "master" (<["master" := cs ++ mlog]> (delete id (r_branches u)))
            (branch_tree (cs ++ mlog)) ∧
        w_vetted w' =
          mkRepo "master" (<["master" := cs ++ mlog]> (r_branches v))
            (branch_tree (cs ++ mlog)) ∧
        in_step (w_unvetted w') (w_vetted w') (cs ++ mlog) ∧
        w_commits w' = w_commits w ∧ w_locked w' = w_locked w ∧ w_faults w' = [].
Proof.
  intros u v Hf Hid Hclean Humaster Hvmaster Hvcur Hvwork Hvid Huid Hfresh.
  set (w0 := set_repo unvetted (mkRepo "master" (r_branches u) (branch_tree mlog)) w).
  assert (w_faults w0 = []) as Hf0 by (by destruct w).
  assert (rebasePR id w = rebasePR id w0) as ->.
  { unfold rebasePR.
    rewrite (bind_run _ _ w w0 ()) by (by apply gitCheckout_nofault).
    symmetry. rewrite (bind_run _ _ w0 w0 ()); [done|].
    by apply (gitCheckout_noop_nofault _ _ _ mlog). }
  destruct (rebasePR_on_master id w0 cs mlog) as (w' & Hrun & Hu & Hv & Hstep & Hc & Hl & Hf');
    try done.
  by exists w'.
Qed.

(** X17: The promotion protocol.  On a staging tier without uncommitted
    changes whose master is the master of the publication tier, rebasePR
    moves the commits that the branch carries on top of master into
    master of the publication tier, deletes the branch in both tiers and
    pulls master of the staging tier forward: afterwards both masters
    are the former branch, both tiers have master checked out, the tiers
    are in step again, and no commit was created on the way. *)
Theorem rebasePR_promotes (id : string) (w : world) (cs mlog : list commit) :
  let u := w_unvetted w in
  let v := w_vetted w in
  w_faults w = [] → id ≠ "master" →
  is_clean u = true →
  r_branches u !! "master" = Some mlog → r_branches v !! "master" = Some mlog →
  r_cur v = "master" → r_work v = branch_tree mlog →
  r_branches v !! id = None →
  r_branches u !! id = Some (cs ++ mlog) →
  Forall (λ c, c_digest c ∉ c_digest <$> mlog) cs →
  ∃ w', rebasePR id w = (Ok (), w') ∧
        w_unvetted w' =
          mkRepo "master" (<["master" := cs ++ mlog]> (delete id (r_branches u)))
            (branch_tree (cs ++ mlog)) ∧
        w_vetted w' =
          mkRepo "master" (<["master" := cs ++ mlog]> (r_branches v))
            (branch_tree (cs ++ mlog)) ∧
        in_step (w_unvetted w') (w_vetted w') (cs ++ mlog) ∧
        w_commits w' = w_commits w.
Proof.
  intros u v Hf Hid Hclean Humaster Hvmaster Hvcur Hvwork Hvid Huid Hfresh.
  destruct (rebasePR_run id w cs mlog) as (w' & Hrun & Hu & Hv & Hstep & Hc & _); try done.
  by exists w'.
Qed.

Lemma rebasePR_promotes_witness :
  ∃ w', rebasePR sample_id recorded_world = (Ok (), w') ∧
        w_unvetted w' =
          mkRepo "master"
            (<["master" := recorded_log]>
               (delete sample_id (r_branches (w_unvetted recorded_world))))
            (branch_tree recorded_log) ∧
        w_vetted w' =
          mkRepo "master"
            (<["master" := recorded_log]> (r_branches (w_vetted recorded_world)))
            (branch_tree recorded_log) ∧
        in_step (w_unvetted w') (w_vetted w') recorded_log ∧
        w_commits w' = w_commits recorded_world.
Proof.
  apply (rebasePR_promotes sample_id recorded_world
           (take 1 recorded_log) [initial_commit]).
  - reflexivity.
  - apply (bool_decide_eq_true_1 _); vm_compute; reflexivity.
  - vm_compute; reflexivity.
  - apply (bool_decide_eq_true_1 _); vm_compute; reflexivity.
  - apply (bool_decide_eq_true_1 _); vm_compute; reflexivity.
  - reflexivity.
  - apply (bool_decide_eq_true_1 _); vm_compute; reflexivity.
  - apply (bool_decide_eq_true_1 _); vm_compute; reflexivity.
  - apply (bool_decide_eq_true_1 _); vm_compute; reflexivity.
  - apply (bool_decide_eq_true_1 _); vm_compute; reflexivity.
Defined.
(** ** The publication tier *)

(** The publication tier is as it was. *)
Definition vetted_kept (w w' : world) : Prop := w_vetted w' = w_vetted w.

Lemma vetted_kept_faults (w : world) (fs : list bool) (w' : world) :
  vetted_kept w w' → vetted_kept w (set_faults fs w').
Proof. by destruct w'. Qed.

Lemma vetted_kept_locked (w : world) (b : bool) (w' : world) :
  vetted_kept w w' → vetted_kept w (set_locked b w').
Proof. by destruct w'. Qed.

Ltac vetted_leaf :=
  unfold vetted_kept in *;
  repeat match goal with w : world |- _ => destruct w end;
  cbn in *; try done.

Ltac vetted_steps w :=
  preserves_with (vetted_kept_faults w) (vetted_kept_locked w) vetted_leaf.

Section StagingOnly.
Context `{Library} `{FileLoader}.

Lemma updateMetadata_vetted (w : world) (id : string)
    (mdAppend mdOverwrite : list MetadataStream) :
  preserves (vetted_kept w) (updateMetadata id mdAppend mdOverwrite).
Proof.
  unfold updateMetadata, ioutil_WriteFile, os_AppendFile, gitAdd. vetted_steps w.
Qed.

Lemma newRecord_vetted (w : world) (token : list byte) (metadata : list MetadataStream)
    (fa : list file) :
  preserves (vetted_kept w) (newRecord token metadata fa).
Proof.
  unfold newRecord, createMD, updateMD, time_Now_Unix, gitNewBranch, os_MkdirAll,
    ioutil_WriteFile, gitAdd, gitCommit.
  vetted_steps w.
Qed.

Lemma updateRecord_vetted (w : world) (token : list byte)
    (mdAppend mdOverwrite : list MetadataStream) (fa : list file) (filesDel : list string) :
  preserves (vetted_kept w) (updateRecord token mdAppend mdOverwrite fa filesDel).
Proof.
  unfold updateRecord.
  apply preserves_bind.
  { unfold checkoutRecordBranch, gitBranches, gitCheckout, gitNewBranch, os_Stat.
    vetted_steps w. }
  intros _. apply preserves_bind.
  { unfold loadMD, ioutil_ReadFile. vetted_steps w. }
  intros brm. destruct (negb _); [apply preserves_fail|].
  apply preserves_bind; [unfold os_Stat; vetted_steps w|]. intros _.
  apply preserves_bind; [unfold ioutil_WriteFile, gitAdd; vetted_steps w|]. intros _.
  apply preserves_bind; [unfold gitRm; vetted_steps w|]. intros _.
  apply preserves_bind; [apply updateMetadata_vetted|]. intros _.
  unfold ioutil_ReadDir, DigestFileBytes, ioutil_ReadFile, gitDiff, createMD, updateMD,
    time_Now_Unix, ioutil_WriteFile, gitAdd, gitCommit.
  vetted_steps w.
Qed.

Lemma censor_vetted (w : world) (token : list byte)
    (mdAppend mdOverwrite : list MetadataStream) :
  preserves (vetted_kept w) (setUnvettedStatus token MDStatusCensored mdAppend mdOverwrite).
Proof.
  unfold setUnvettedStatus.
  apply preserves_bind; [unfold gitCheckout; vetted_steps w|]. intros _.
  apply preserves_bind.
  { unfold _getRecord, loadMD, loadMDStreams, ioutil_ReadFile, ioutil_ReadDir.
    vetted_steps w. }
  intros record.
  rewrite (bool_decide_false (MDStatusCensored = MDStatusVetted)) by done.
  rewrite andb_false_r.
  destruct (_ && _); [|apply preserves_fail].
  apply preserves_bind; [apply preserves_gets|]. intros now.
  apply preserves_bind; [unfold updateMD, ioutil_WriteFile; vetted_steps w|]. intros _.
  apply preserves_bind; [apply updateMetadata_vetted|]. intros _.
  unfold commitMD, gitAdd, gitCommit. vetted_steps w.
Qed.

(** X18: The operations of the staging tier never write the publication
    tier.  Whatever the state and the schedule of faults, and whether
    they succeed or fail, New, UpdateUnvettedRecord, GetUnvetted and a
    SetUnvettedStatus that asks for Censored leave the publication
    repository exactly as it was: its branches, the branch checked out
    and its working directory. *)
Theorem staging_keeps_publication_tier (w : world) :
  (∀ metadata files, w_vetted (New metadata files w).2 = w_vetted w) ∧
  (∀ token mdAppend mdOverwrite filesAdd filesDel,
     w_vetted (UpdateUnvettedRecord token mdAppend mdOverwrite filesAdd filesDel w).2
       = w_vetted w) ∧
  (∀ token mdAppend mdOverwrite,
     w_vetted (SetUnvettedStatus token MDStatusCensored mdAppend mdOverwrite w).2
       = w_vetted w) ∧
  (∀ token, w_vetted (GetUnvetted token w).2 = w_vetted w).
Proof.
  assert (vetted_kept w w) as Hw by done.
  assert (∀ b, preserves (vetted_kept w) (gitCheckout unvetted b)) as Hco.
  { intros b. unfold gitCheckout. vetted_steps w. }
  assert (preserves (vetted_kept w) (gitPull unvetted true)) as Hpull.
  { unfold gitPull. vetted_steps w. }
  assert (preserves (vetted_kept w) (gitStash unvetted)) as Hstash.
  { unfold gitStash. vetted_steps w. }
  split_and!.
  - intros metadata files.
    assert (preserves (vetted_kept w) (New metadata files)) as Hp; [|by apply Hp].
    unfold New. apply preserves_bind; [apply preserves_lift|]. intros fa.
    apply preserves_bind.
    { intros w0 Hw0. unfold util_Random. destruct (w_random w0) as [|x rest]; [done|].
      destruct (decide _); by destruct w0. }
    intros token.
    apply (preserves_with_lock _ (vetted_kept_faults w) (vetted_kept_locked w)).
    apply preserves_bind; [apply preserves_gets|]. intros [|]; [apply preserves_fail|].
    apply preserves_bind; [apply Hco|]. intros _.
    apply preserves_bind; [apply Hpull|]. intros _.
    apply preserves_bind; [apply preserves_try, newRecord_vetted|]. intros [brm|err].
    + apply preserves_bind; [apply Hco|]. intros _. apply preserves_ret.
    + apply preserves_bind; [apply Hstash|]. intros _.
      apply preserves_bind; [apply Hco|]. intros _. apply preserves_fail.
  - intros token mdAppend mdOverwrite filesAdd filesDel.
    assert (preserves (vetted_kept w)
              (UpdateUnvettedRecord token mdAppend mdOverwrite filesAdd filesDel)) as Hp;
      [|by apply Hp].
    unfold UpdateUnvettedRecord. apply preserves_bind; [apply preserves_lift|]. intros fa.
    apply (preserves_with_lock _ (vetted_kept_faults w) (vetted_kept_locked w)).
    apply preserves_bind; [apply preserves_gets|]. intros [|]; [apply preserves_fail|].
    apply preserves_bind; [apply Hco|]. intros _.
    apply preserves_bind; [apply Hpull|]. intros _.
    apply preserves_bind; [apply preserves_try, updateRecord_vetted|]. intros [brm|err].
    + apply preserves_bind; [apply Hco|]. intros _. apply preserves_ret.
    + destruct err;
        try (apply preserves_bind; [apply Hstash|]; intros _);
        (apply preserves_bind; [apply Hco|]); intros _; apply preserves_fail.
  - intros token mdAppend mdOverwrite.
    assert (preserves (vetted_kept w)
              (SetUnvettedStatus token MDStatusCensored mdAppend mdOverwrite)) as Hp;
      [|by apply Hp].
    unfold SetUnvettedStatus.
    apply (preserves_with_lock _ (vetted_kept_faults w) (vetted_kept_locked w)).
    apply preserves_bind; [apply preserves_gets|]. intros [|]; [apply preserves_fail|].
    apply preserves_bind; [apply preserves_try, censor_vetted|]. intros [record|err].
    + apply preserves_bind; [apply Hco|]. intros _. apply preserves_ret.
    + apply preserves_bind; [apply Hstash|]. intros _.
      apply preserves_bind; [apply Hco|]. intros _. apply preserves_fail.
  - intros token.
    assert (preserves (vetted_kept w) (GetUnvetted token)) as Hp; [|by apply Hp].
    unfold GetUnvetted, getRecordLock.
    apply (preserves_with_lock _ (vetted_kept_faults w) (vetted_kept_locked w)).
    apply preserves_bind; [apply preserves_gets|]. intros [|]; [apply preserves_fail|].
    unfold getRecord. rewrite bool_decide_true by done.
    unfold _getRecordFiles, loadMD, loadMDStreams, loadRecord, util_LoadFile,
      ioutil_ReadFile, ioutil_ReadDir, gitCheckout, gitBranchNow.
    vetted_steps w.
Qed.
End StagingOnly.
(** * Publication *)

Lemma append_inv_head (s a b : string) : s +:+ a = s +:+ b → a = b.
Proof. induction s as [|x s IH]; [done|]. rewrite !append_cons. intros [= ?]. auto. Qed.

Lemma EncodeToString_not_master (token : list byte) : EncodeToString token ≠ "master".
Proof.
  intros He. pose proof (EncodeToString_lower_hex token) as Hh.
  rewrite He in Hh. vm_compute in Hh. discriminate.
Qed.

Lemma md_filename_not_record_metadata (id : string) (m : MetadataStream) :
  md_filename id m ≠ Join id defaultRecordMetadataFilename.
Proof.
  unfold md_filename, Join. intros He. do 2 apply append_inv_head in He.
  pose proof (HasSuffix_app (Sprintf_02v (ms_ID m)) defaultMDFilenameSuffix) as Hs.
  rewrite He in Hs. vm_compute in Hs. discriminate.
Qed.

Lemma overwrite_streams_other (id : string) (mds : list MetadataStream) (t : tree) (k : string) :
  (∀ m, md_filename id m ≠ k) → overwrite_streams id mds t !! k = t !! k.
Proof.
  intros Hk. revert t. induction mds as [|m mds IH]; intros t; [done|].
  cbn [overwrite_streams foldl]. unfold overwrite_streams in IH. rewrite IH.
  by rewrite lookup_insert_ne.
Qed.

Lemma append_streams_other (id : string) (mds : list MetadataStream) (t : tree) (k : string) :
  (∀ m, md_filename id m ≠ k) → append_streams id mds t !! k = t !! k.
Proof.
  intros Hk. revert t. induction mds as [|m mds IH]; intros t; [done|].
  cbn [append_streams foldl]. unfold append_streams in IH. rewrite IH.
  by rewrite lookup_insert_ne.
Qed.

Lemma gitCommit_nofault (msg : string) (w : world) :
  let u := w_unvetted w in
  w_faults w = [] → is_clean u = false →
  gitCommit unvetted msg w =
    (Ok (), set_commits (w_commits w + 1)
              (set_repo unvetted
                 (set_branches
                    (<[r_cur u := mkCommit (fresh_digest (w_commits w)) msg (r_work u)
                                    :: head_log u]> (r_branches u)) u) w)).
Proof.
  intros u Hf Hc. unfold gitCommit. rewrite external_nofault by done.
  cbn [repo_of]. fold u. by rewrite Hc.
Qed.

Section Publication.
Context `{Library}.

(** X19: Publishing a record.  On a staging tier that sits clean on master,
    in step with a publication tier that is clean on master, a record
    whose branch carries its commits on top of master and whose status
    is Unvetted or UnvettedIteration is published by SetUnvettedStatus:
    the record metadata gets the status Vetted, the next version and
    the time of the call, the metadata streams are overwritten and
    appended to, one commit records all of this on the branch, and the
    branch is promoted: master of both tiers is the branch with the new
    commit, the branch is gone, and the record metadata in master is
    the new one.  The record that is returned carries the metadata
    streams as they were loaded before the update. *)
Theorem SetUnvettedStatus_publishes (token : list byte)
    (mdAppend mdOverwrite : list MetadataStream) (w : world)
    (cs mlog : list commit) (b : list byte) (m : RecordMetadata) :
  let id := EncodeToString token in
  let u := w_unvetted w in
  let v := w_vetted w in
  let log := cs ++ mlog in
  let t := branch_tree log in
  let mdpath := Join id defaultRecordMetadataFilename in
  let brm := set_metadata_status m MDStatusVetted (w_clock w) in
  let t' := append_streams id mdAppend
              (overwrite_streams id mdOverwrite (<[mdpath := json_RecordMetadata brm]> t)) in
  let c' := mkCommit (fresh_digest (w_commits w))
              ("Update record status " +:+ id +:+ " " +:+ "published") t' in
  w_faults w = [] → w_locked w = false → shutdown w = false →
  in_step u v mlog → r_cur v = "master" → r_work v = branch_tree mlog →
  r_branches v !! id = None →
  r_branches u !! id = Some log →
  Forall (λ c, c_digest c ∉ c_digest <$> mlog) cs →
  fresh_digest (w_commits w) ∉ c_digest <$> mlog →
  t !! mdpath = Some b → unjson_RecordMetadata b = Some m →
  Status m = MDStatusUnvetted ∨ Status m = MDStatusIterationUnvetted →
  Forall (stream_entry_ok t id) (dir_entries t id) →
  t' ≠ t →
  ∃ w',
    SetUnvettedStatus token MDStatusVetted mdAppend mdOverwrite w =
      (Ok (mkRecord brm (omap (stream_of t id) (dir_entries t id)) []), w') ∧
    w_unvetted w' =
      mkRepo "master" (<["master" := c' :: log]> (delete id (r_branches u))) t' ∧
    w_vetted w' = mkRepo "master" (<["master" := c' :: log]> (r_branches v)) t' ∧
    t' !! mdpath = Some (json_RecordMetadata brm) ∧
    w_locked w' = false ∧ w_commits w' = (w_commits w + 1)%N.
Proof.
  intros id u v log t mdpath brm t' c' Hf Hl Hsd Hstep Hvcur Hvwork Hvid Huid
    Hfresh Hnew Hmd Hjson Hstatus Hstreams Hchange.
  pose proof (in_step_clean _ _ _ Hstep) as Hclean.
  pose proof Hstep as (Hucur & Humaster & Huwork & Hvmaster).
  fold u in Hucur, Humaster, Huwork. fold v in Hvmaster.
  assert (id ≠ "master") as Hid by apply EncodeToString_not_master.
  assert (dir_entries t id ≠ []) as Hne.
  { apply (dir_entries_nonempty _ _ mdpath); [by exists b|apply dir_entry_is_Some]. }
  assert (t' !! mdpath = Some (json_RecordMetadata brm)) as Hnewmd.
  { unfold t'. rewrite append_streams_other, overwrite_streams_other
      by (intros ?; apply md_filename_not_record_metadata).
    apply lookup_insert_eq. }
  unfold SetUnvettedStatus. rewrite with_lock_nofault by done.
  set (w0 := set_locked true w).
  assert (w_faults w0 = []) as Hf0 by (by destruct w).
  assert (w_unvetted w0 = u) as Hu0 by (by destruct w).
  (* git checkout id *)
  set (w1 := set_repo unvetted (mkRepo id (r_branches u) t) w0).
  assert (w_faults w1 = []) as Hf1 by (by destruct w).
  assert (w_unvetted w1 = mkRepo id (r_branches u) t) as Hu1 by (by destruct w).
  assert (gitCheckout unvetted id w0 = (Ok (), w1)) as Hco.
  { rewrite (gitCheckout_nofault _ _ _ log); cbn [repo_of]; rewrite ?Hu0; done. }
  (* the record metadata and the streams are written and committed *)
  set (w3 := with_work t' w1).
  assert (w_faults w3 = []) as Hf3 by (by destruct w).
  assert (w_unvetted w3 = mkRepo id (r_branches u) t') as Hu3 by (by destruct w).
  set (u4 := mkRepo id (<[id := c' :: log]> (r_branches u)) t').
  set (w4 := set_commits (w_commits w + 1) (set_repo unvetted u4 w3)).
  assert (w_faults w4 = []) as Hf4 by (by destruct w).
  assert (w_unvetted w4 = u4) as Hu4 by (by destruct w).
  assert (w_vetted w4 = v) as Hv4 by (by destruct w).
  destruct (rebasePR_run id w4 (c' :: cs) mlog) as
    (w5 & Hrebase & Hu5 & Hv5 & Hstep5 & Hc5 & Hl5 & Hf5); rewrite ?Hu4, ?Hv4; try done.
  { unfold u4, is_clean, head_tree, head_log. cbn. rewrite lookup_insert_eq. cbn.
    by apply bool_decide_eq_true. }
  { unfold u4. cbn. by rewrite lookup_insert_ne. }
  { unfold u4. cbn. by rewrite lookup_insert_eq. }
  { by constructor. }
  assert (setUnvettedStatus token MDStatusVetted mdAppend mdOverwrite w0 =
            (Ok (mkRecord brm (omap (stream_of t id) (dir_entries t id)) []), w5)) as Hinner.
  { unfold setUnvettedStatus. fold id.
    rewrite (bind_run _ _ w0 w1 ()).
    2: { rewrite (bind_run _ _ w0 w1 (Ok ())); [done|]. by rewrite try_run, Hco. }
    rewrite (bind_run _ _ w1 w1 (mkRecord m (omap (stream_of t id) (dir_entries t id)) [])).
    2: { unfold _getRecord. rewrite (bind_run _ _ w1 w1 m).
         - rewrite (bind_run _ _ w1 w1 (omap (stream_of t id) (dir_entries t id))); [done|].
           apply (loadMDStreams_run unvetted id w1); cbn [repo_of]; rewrite ?Hu1; done.
         - apply (loadMD_nofault _ _ _ b); cbn [repo_of]; rewrite ?Hu1; done. }
    cbn [rec_RecordMetadata rec_Metadata rec_Files].
    replace ((bool_decide (Status m = MDStatusUnvetted)
              || bool_decide (Status m = MDStatusIterationUnvetted))
             && bool_decide (MDStatusVetted = MDStatusVetted)) with true.
    2: { symmetry. rewrite (bool_decide_true (MDStatusVetted = _)) by done.
         rewrite andb_true_r. apply orb_true_iff.
         destruct Hstatus; [left|right]; by apply bool_decide_eq_true. }
    rewrite (bind_run _ _ w1 w1 (w_clock w)) by (by destruct w).
    fold brm.
    rewrite (bind_run _ _ w1
               (with_work (<[mdpath := json_RecordMetadata brm]> t) w1) ()).
    2: { unfold updateMD. rewrite ioutil_WriteFile_nofault by done. by rewrite Hu1. }
    rewrite (bind_run _ _ _ w3 ()).
    2: { rewrite updateMetadata_nofault by (by rewrite with_work_faults).
         by rewrite with_work_work, with_work_twice. }
    rewrite (bind_run _ _ w3 w4 ()).
    2: { unfold commitMD. rewrite (bind_run _ _ w3 w3 ()).
         2: { apply gitAdd_nofault; [done|]. rewrite Hu3. cbn [r_work]. eauto. }
         rewrite gitCommit_nofault; try done.
         - rewrite Hu3. unfold head_log, set_branches. cbn. rewrite Huid. reflexivity.
         - rewrite Hu3. unfold is_clean, head_tree, head_log. cbn. rewrite Huid. cbn.
           by apply bool_decide_eq_false. }
    by rewrite (bind_run _ _ _ _ _ Hrebase). }
  exists (set_locked false w5).
  match goal with
  | |- ((?body _).1, _) = _ ∧ _ =>
      assert (body w0 = (Ok (mkRecord brm (omap (stream_of t id) (dir_entries t id)) []), w5))
        as Hbody
  end.
  { unfold bind at 1. unfold gets at 1.
    replace (shutdown w0) with false by (by destruct w).
    unfold bind at 1. rewrite try_run, Hinner. cbn [fst snd].
    rewrite (bind_run _ _ w5 w5 ()); [done|].
    destruct Hstep5 as (Hc & Hb & Hw & _).
    by apply (gitCheckout_noop_nofault _ _ _ ((c' :: cs) ++ mlog)). }
  fold w0. rewrite Hbody. cbn [fst snd].
  assert (delete id (<[id := c' :: log]> (r_branches u)) = delete id (r_branches u)) as Hdel
    by apply delete_insert_eq.
  split_and!.
  - done.
  - replace (w_unvetted (set_locked false w5)) with (w_unvetted w5) by (by destruct w5).
    rewrite Hu5, Hu4. unfold u4. cbn [r_branches]. by rewrite Hdel.
  - replace (w_vetted (set_locked false w5)) with (w_vetted w5) by (by destruct w5).
    by rewrite Hv5, Hv4.
  - done.
  - by destruct w5.
  - replace (w_commits (set_locked false w5)) with (w_commits w5) by (by destruct w5).
    rewrite Hc5. by destruct w.
Qed.

(** X20: Censoring a record.  On a staging tier that sits clean on master a
    record whose status is Unvetted is censored by SetUnvettedStatus:
    the record metadata gets the status Censored, the next version and
    the time of the call, the metadata streams are overwritten and
    appended to, and one commit records this on the branch of the
    record.  The branch stays where it is: master of the staging tier
    and the whole publication tier are as they were. *)
Theorem SetUnvettedStatus_censors (token : list byte)
    (mdAppend mdOverwrite : list MetadataStream) (w : world)
    (log mlog : list commit) (b : list byte) (m : RecordMetadata) :
  let id := EncodeToString token in
  let u := w_unvetted w in
  let t := branch_tree log in
  let mdpath := Join id defaultRecordMetadataFilename in
  let brm := set_metadata_status m MDStatusCensored (w_clock w) in
  let t' := append_streams id mdAppend
              (overwrite_streams id mdOverwrite (<[mdpath := json_RecordMetadata brm]> t)) in
  let c' := mkCommit (fresh_digest (w_commits w))
              ("Update record status " +:+ id +:+ " " +:+ "censored") t' in
  w_faults w = [] → w_locked w = false → shutdown w = false →
  r_cur u = "master" → r_branches u !! "master" = Some mlog →
  r_work u = branch_tree mlog →
  r_branches u !! id = Some log →
  t !! mdpath = Some b → unjson_RecordMetadata b = Some m →
  Status m = MDStatusUnvetted →
  Forall (stream_entry_ok t id) (dir_entries t id) →
  t' ≠ t →
  ∃ w',
    SetUnvettedStatus token MDStatusCensored mdAppend mdOverwrite w =
      (Ok (mkRecord brm (omap (stream_of t id) (dir_entries t id)) []), w') ∧
    w_unvetted w' =
      mkRepo "master" (<[id := c' :: log]> (r_branches u)) (branch_tree mlog) ∧
    w_vetted w' = w_vetted w ∧
    t' !! mdpath = Some (json_RecordMetadata brm) ∧
    w_locked w' = false ∧ w_commits w' = (w_commits w + 1)%N.
Proof.
  intros id u t mdpath brm t' c' Hf Hl Hsd Hucur Humaster Huwork Huid
    Hmd Hjson Hstatus Hstreams Hchange.
  assert (id ≠ "master") as Hid by apply EncodeToString_not_master.
  assert (is_clean u = true) as Hclean.
  { unfold is_clean, head_tree, head_log. rewrite Hucur, Humaster.
    by apply bool_decide_eq_true. }
  assert (dir_entries t id ≠ []) as Hne.
  { apply (dir_entries_nonempty _ _ mdpath); [by exists b|apply dir_entry_is_Some]. }
  assert (t' !! mdpath = Some (json_RecordMetadata brm)) as Hnewmd.
  { unfold t'. rewrite append_streams_other, overwrite_streams_other
      by (intros ?; apply md_filename_not_record_metadata).
    apply lookup_insert_eq. }
  unfold SetUnvettedStatus. rewrite with_lock_nofault by done.
  set (w0 := set_locked true w).
  assert (w_faults w0 = []) as Hf0 by (by destruct w).
  assert (w_unvetted w0 = u) as Hu0 by (by destruct w).
  set (w1 := set_repo unvetted (mkRepo id (r_branches u) t) w0).
  assert (w_faults w1 = []) as Hf1 by (by destruct w).
  assert (w_unvetted w1 = mkRepo id (r_branches u) t) as Hu1 by (by destruct w).
  assert (gitCheckout unvetted id w0 = (Ok (), w1)) as Hco.
  { rewrite (gitCheckout_nofault _ _ _ log); cbn [repo_of]; rewrite ?Hu0; done. }
  set (w3 := with_work t' w1).
  assert (w_faults w3 = []) as Hf3 by (by destruct w).
  assert (w_unvetted w3 = mkRepo id (r_branches u) t') as Hu3 by (by destruct w).
  set (u4 := mkRepo id (<[id := c' :: log]> (r_branches u)) t').
  set (w4 := set_commits (w_commits w + 1) (set_repo unvetted u4 w3)).
  assert (w_faults w4 = []) as Hf4 by (by destruct w).
  assert (w_unvetted w4 = u4) as Hu4 by (by destruct w).
  assert (setUnvettedStatus token MDStatusCensored mdAppend mdOverwrite w0 =
            (Ok (mkRecord brm (omap (stream_of t id) (dir_entries t id)) []), w4)) as Hinner.
  { unfold setUnvettedStatus. fold id.
    rewrite (bind_run _ _ w0 w1 ()).
    2: { rewrite (bind_run _ _ w0 w1 (Ok ())); [done|]. by rewrite try_run, Hco. }
    rewrite (bind_run _ _ w1 w1 (mkRecord m (omap (stream_of t id) (dir_entries t id)) [])).
    2: { unfold _getRecord. rewrite (bind_run _ _ w1 w1 m).
         - rewrite (bind_run _ _ w1 w1 (omap (stream_of t id) (dir_entries t id))); [done|].
           apply (loadMDStreams_run unvetted id w1); cbn [repo_of]; rewrite ?Hu1; done.
         - apply (loadMD_nofault _ _ _ b); cbn [repo_of]; rewrite ?Hu1; done. }
    cbn [rec_RecordMetadata rec_Metadata rec_Files].
    rewrite (bool_decide_false (MDStatusCensored = MDStatusVetted)) by done.
    rewrite andb_false_r.
    rewrite (bool_decide_true (Status m = MDStatusUnvetted)) by done.
    rewrite (bool_decide_true (MDStatusCensored = MDStatusCensored)) by done.
    cbn [andb].
    rewrite (bind_run _ _ w1 w1 (w_clock w)) by (by destruct w).
    fold brm.
    rewrite (bind_run _ _ w1
               (with_work (<[mdpath := json_RecordMetadata brm]> t) w1) ()).
    2: { unfold updateMD. rewrite ioutil_WriteFile_nofault by done. by rewrite Hu1. }
    rewrite (bind_run _ _ _ w3 ()).
    2: { rewrite updateMetadata_nofault by (by rewrite with_work_faults).
         by rewrite with_work_work, with_work_twice. }
    rewrite (bind_run _ _ w3 w4 ()); [done|].
    unfold commitMD. rewrite (bind_run _ _ w3 w3 ()).
    2: { apply gitAdd_nofault; [done|]. rewrite Hu3. cbn [r_work]. eauto. }
    rewrite gitCommit_nofault; try done.
    - rewrite Hu3. unfold head_log, set_branches. cbn. rewrite Huid. reflexivity.
    - rewrite Hu3. unfold is_clean, head_tree, head_log. cbn. rewrite Huid. cbn.
      by apply bool_decide_eq_false. }
  set (w5 := set_repo unvetted
               (mkRepo "master" (<[id := c' :: log]> (r_branches u)) (branch_tree mlog)) w4).
  exists (set_locked false w5).
  match goal with
  | |- ((?body _).1, _) = _ ∧ _ =>
      assert (body w0 = (Ok (mkRecord brm (omap (stream_of t id) (dir_entries t id)) []), w5))
        as Hbody
  end.
  { unfold bind at 1. unfold gets at 1.
    replace (shutdown w0) with false by (by destruct w).
    unfold bind at 1. rewrite try_run, Hinner. cbn [fst snd].
    rewrite (bind_run _ _ w4 w5 ()); [done|].
    rewrite (gitCheckout_nofault _ _ _ mlog); cbn [repo_of]; rewrite ?Hu4; try done.
    - unfold u4. cbn. by rewrite lookup_insert_ne.
    - unfold u4, is_clean, head_tree, head_log. cbn. rewrite lookup_insert_eq. cbn.
      by apply bool_decide_eq_true. }
  fold w0. rewrite Hbody. cbn [fst snd].
  split_and!; try done; by destruct w.
Qed.
End Publication.

Lemma SetUnvettedStatus_publishes_witness :
  ∃ w' record,
    @SetUnvettedStatus sample_library sample_token MDStatusVetted [] [] recorded_world =
      (Ok record, w') ∧
    Status (rec_RecordMetadata record) = MDStatusVetted ∧
    r_cur (w_unvetted w') = "master" ∧
    r_branches (w_vetted w') !! "master" = r_branches (w_unvetted w') !! "master" ∧
    w_locked w' = false ∧
    w_commits w' = (w_commits recorded_world + 1)%N.
Proof.
  destruct (SetUnvettedStatus_publishes (H := sample_library) sample_token [] []
              recorded_world (take 1 recorded_log) [initial_commit]
              (@json_RecordMetadata sample_library
                 (mkRecordMetadata 1 MDStatusUnvetted
                    (take 32 (bytes_of_string "x" ++ zero_bytes 32)) 1700000000%Z sample_token))
              recorded_metadata)
    as (w' & Hrun & Hu & Hv & Hmd & Hl & Hc).
  - reflexivity.
  - reflexivity.
  - reflexivity.
  - apply (bool_decide_eq_true_1 _); vm_compute; reflexivity.
  - reflexivity.
  - apply (bool_decide_eq_true_1 _); vm_compute; reflexivity.
  - apply (bool_decide_eq_true_1 _); vm_compute; reflexivity.
  - apply (bool_decide_eq_true_1 _); vm_compute; reflexivity.
  - apply (bool_decide_eq_true_1 _); vm_compute; reflexivity.
  - apply (bool_decide_eq_true_1 _); vm_compute; reflexivity.
  - vm_compute. reflexivity.
  - vm_compute. reflexivity.
  - left. reflexivity.
  - replace (dir_entries (branch_tree (take 1 recorded_log ++ [initial_commit]))
               (EncodeToString sample_token))
      with [mkFileInfo "01.metadata.txt" false; mkFileInfo "payload" true;
            mkFileInfo "recordmetadata.json" false] by (vm_compute; reflexivity).
    constructor; [|constructor; [|constructor; [|constructor]]].
    + intros Hs. split; eexists; vm_compute; reflexivity.
    + intros Hs. vm_compute in Hs. discriminate.
    + intros Hs. vm_compute in Hs. discriminate.
  - apply (bool_decide_eq_true_1 _); vm_compute; reflexivity.
  - exists w'. eexists. split; [exact Hrun|]. rewrite Hu, Hv, Hl, Hc. cbn [r_cur r_branches].
    rewrite !lookup_insert_eq. split_and!; reflexivity.
Defined.

Lemma SetUnvettedStatus_censors_witness :
  ∃ w' record,
    @SetUnvettedStatus sample_library sample_token MDStatusCensored [] [] recorded_world =
      (Ok record, w') ∧
    Status (rec_RecordMetadata record) = MDStatusCensored ∧
    r_cur (w_unvetted w') = "master" ∧
    length <$> r_branches (w_unvetted w') !! sample_id = Some 3%nat ∧
    w_vetted w' = w_vetted recorded_world ∧
    w_locked w' = false.
Proof.
  destruct (SetUnvettedStatus_censors (H := sample_library) sample_token [] []
              recorded_world recorded_log [initial_commit]
              (@json_RecordMetadata sample_library
                 (mkRecordMetadata 1 MDStatusUnvetted
                    (take 32 (bytes_of_string "x" ++ zero_bytes 32)) 1700000000%Z sample_token))
              recorded_metadata)
    as (w' & Hrun & Hu & Hv & Hmd & Hl & Hc).
  - reflexivity.
  - reflexivity.
  - reflexivity.
  - reflexivity.
  - apply (bool_decide_eq_true_1 _); vm_compute; reflexivity.
  - apply (bool_decide_eq_true_1 _); vm_compute; reflexivity.
  - apply (bool_decide_eq_true_1 _); vm_compute; reflexivity.
  - vm_compute. reflexivity.
  - vm_compute. reflexivity.
  - reflexivity.
  - replace (dir_entries (branch_tree recorded_log) (EncodeToString sample_token))
      with [mkFileInfo "01.metadata.txt" false; mkFileInfo "payload" true;
            mkFileInfo "recordmetadata.json" false] by (vm_compute; reflexivity).
    constructor; [|constructor; [|constructor; [|constructor]]].
    + intros Hs. split; eexists; vm_compute; reflexivity.
    + intros Hs. vm_compute in Hs. discriminate.
    + intros Hs. vm_compute in Hs. discriminate.
  - apply (bool_decide_eq_true_1 _); vm_compute; reflexivity.
  - exists w'. eexists. split; [exact Hrun|]. rewrite Hu, Hv, Hl. cbn [r_cur r_branches].
    rewrite lookup_insert_eq. split_and!; reflexivity.
Defined.
(** * New records *)

Lemma gitNewBranch_nofault (branch : string) (w : world) :
  let u := w_unvetted w in
  w_faults w = [] → r_branches u !! branch = None →
  gitNewBranch unvetted branch w =
    (Ok (), set_repo unvetted
              (mkRepo branch (<[branch := head_log u]> (r_branches u)) (r_work u)) w).
Proof.
  intros u Hf Hb. unfold gitNewBranch. rewrite external_nofault by done.
  cbn [repo_of]. fold u. by rewrite Hb.
Qed.

Lemma store_files_nofault (dir : string) (fa : list file) (w : world) :
  w_faults w = [] →
  map_M fa (λ f,
    bind (ioutil_WriteFile unvetted (Join dir (name f)) (payload f))
      (λ _, bind (gitAdd unvetted (Join dir (name f)))
              (λ _, ret (copy (zero_bytes sha256_Size) (digest f))))) w =
    (Ok ((λ f, copy (zero_bytes sha256_Size) (digest f)) <$> fa),
     with_work (write_files dir fa (r_work (w_unvetted w))) w).
Proof.
  revert w. induction fa as [|f fa IH]; intros w Hf.
  { cbn [map_M foldl write_files fmap list_fmap]. by rewrite with_work_id. }
  cbn [map_M write_files foldl].
  erewrite bind_run.
  2: { erewrite bind_run; [|by apply ioutil_WriteFile_nofault].
       erewrite bind_run; [reflexivity|].
       apply gitAdd_nofault; [by rewrite with_work_faults|].
       rewrite with_work_work, lookup_insert_eq. eauto. }
  erewrite bind_run; [|apply IH; by rewrite with_work_faults].
  by rewrite with_work_twice, with_work_work.
Qed.

Section NewRecord.
Context `{Library}.

(** What a successful New does, step by step. *)
Lemma New_run (metadata : list MetadataStream) (files : list File)
    (fa : list file) (token : list byte) (rest : list (list byte)) (w : world)
    (mlog : list commit) :
  let id := EncodeToString token in
  let u := w_unvetted w in
  let t0 := branch_tree mlog in
  let mdpath := Join id defaultRecordMetadataFilename in
  let hashes := (λ f, copy (zero_bytes sha256_Size) (digest f)) <$> fa in
  let brm := mkRecordMetadata 1 MDStatusUnvetted (merkle_Root hashes) (w_clock w) token in
  let t' := <[mdpath := json_RecordMetadata brm]>
              (overwrite_streams id metadata
                 (write_files (Join id defaultPayloadDir) fa t0)) in
  let c' := mkCommit (fresh_digest (w_commits w)) ("Add record " +:+ id) t' in
  w_faults w = [] → w_locked w = false → shutdown w = false →
  verifyContent metadata files [] = Ok fa →
  w_random w = token :: rest → length token = TokenSize →
  in_step u (w_vetted w) mlog →
  r_branches u !! id = None →
  t0 !! mdpath = None →
  ∃ w',
    New metadata files w = (Ok brm, w') ∧
    w_unvetted w' = mkRepo "master" (<[id := c' :: mlog]> (r_branches u)) t0 ∧
    w_vetted w' = w_vetted w ∧
    w_random w' = rest ∧ w_locked w' = false ∧
    w_commits w' = (w_commits w + 1)%N.
Proof.
  intros id u t0 mdpath hashes brm t' c' Hf Hl Hsd Hverify Hrandom Hlen Hstep Hnone Hfresh.
  pose proof Hstep as (Hucur & Humaster & Huwork & Hvmaster). fold u in Hucur, Humaster, Huwork.
  assert (id ≠ "master") as Hid by apply EncodeToString_not_master.
  unfold New. rewrite Hverify. unfold lift at 1.
  set (wr := set_random rest w).
  rewrite (bind_run _ _ w w fa) by done.
  rewrite (bind_run _ _ w wr token).
  2: { unfold util_Random. rewrite Hrandom. by rewrite decide_True. }
  assert (w_faults wr = []) as Hfr by (by destruct w).
  rewrite with_lock_nofault by (by destruct w).
  set (w0 := set_locked true wr).
  assert (w_faults w0 = []) as Hf0 by (by destruct w).
  assert (w_unvetted w0 = u) as Hu0 by (by destruct w).
  assert (in_step (w_unvetted w0) (w_vetted w0) mlog) as Hstep0 by (by destruct w).
  (* git checkout -b id *)
  set (w1 := set_repo unvetted (mkRepo id (<[id := mlog]> (r_branches u)) t0) w0).
  assert (w_faults w1 = []) as Hf1 by (by destruct w).
  assert (w_unvetted w1 = mkRepo id (<[id := mlog]> (r_branches u)) t0) as Hu1
    by (by destruct w).
  (* the files of the record *)
  set (w2 := with_work t' w1).
  assert (w_faults w2 = []) as Hf2 by (by destruct w).
  assert (w_unvetted w2 = mkRepo id (<[id := mlog]> (r_branches u)) t') as Hu2
    by (by destruct w).
  (* git commit *)
  set (u3 := mkRepo id (<[id := c' :: mlog]> (r_branches u)) t').
  set (w3 := set_commits (w_commits w + 1) (set_repo unvetted u3 w2)).
  assert (w_faults w3 = []) as Hf3 by (by destruct w).
  assert (w_unvetted w3 = u3) as Hu3 by (by destruct w).
  assert (newRecord token metadata fa w0 = (Ok brm, w3)) as Hinner.
  { unfold newRecord. fold id.
    rewrite (bind_run _ _ w0 w1 ()).
    2: { rewrite gitNewBranch_nofault; rewrite ?Hu0; try done.
         unfold head_log. by rewrite Hucur, Humaster, Huwork. }
    rewrite (bind_run _ _ w1 w1 ()).
    2: { unfold os_MkdirAll. by rewrite external_nofault. }
    erewrite bind_run; [|by apply store_files_nofault].
    erewrite bind_run.
    2: { apply overwrite_streams_nofault. by rewrite with_work_faults. }
    rewrite with_work_work, with_work_twice, Hu1. cbn [r_work]. fold hashes.
    erewrite bind_run.
    2: { unfold createMD. erewrite bind_run.
         2: { unfold time_Now_Unix, gets. reflexivity. }
         replace (w_clock (with_work _ w1)) with (w_clock w) by (by destruct w).
         fold brm. erewrite bind_run; [reflexivity|].
         unfold updateMD. rewrite ioutil_WriteFile_nofault by (by rewrite with_work_faults).
         rewrite with_work_work, with_work_twice. fold mdpath. fold t'. reflexivity. }
    fold w2.
    rewrite (bind_run _ _ w2 w2 ()).
    2: { apply gitAdd_nofault; [done|]. rewrite Hu2. cbn [r_work]. unfold t'.
         rewrite lookup_insert_eq. eauto. }
    rewrite (bind_run _ _ w2 w3 ()); [done|].
    rewrite gitCommit_nofault; try done.
    - rewrite Hu2. unfold head_log, set_branches. cbn [r_cur r_branches r_work].
      rewrite lookup_insert_eq, insert_insert_eq. reflexivity.
    - rewrite Hu2. unfold is_clean, head_tree, head_log. cbn. rewrite lookup_insert_eq.
      cbn. apply bool_decide_eq_false. intros He.
      assert (t' !! mdpath = t0 !! mdpath) as Hx by (by rewrite He).
      unfold t' in Hx. rewrite lookup_insert_eq, Hfresh in Hx. done. }
  set (w4 := set_repo unvetted (mkRepo "master" (<[id := c' :: mlog]> (r_branches u)) t0) w3).
  exists (set_locked false w4).
  match goal with
  | |- ((?body _).1, _) = _ ∧ _ => assert (body w0 = (Ok brm, w4)) as Hbody
  end.
  { unfold bind at 1. unfold gets at 1.
    replace (shutdown w0) with false by (by destruct w).
    rewrite (bind_run _ _ w0 w0 ()).
    2: { apply (gitCheckout_noop_nofault _ _ _ mlog); cbn [repo_of]; rewrite ?Hu0; done. }
    rewrite (bind_run _ _ w0 w0 ()) by (by apply (gitPull_noop_nofault _ mlog)).
    unfold bind at 1. rewrite try_run, Hinner. cbn [fst snd].
    rewrite (bind_run _ _ w3 w4 ()); [done|].
    rewrite (gitCheckout_nofault _ _ _ mlog); cbn [repo_of]; rewrite ?Hu3; try done.
    - unfold u3. cbn. by rewrite lookup_insert_ne.
    - unfold u3, is_clean, head_tree, head_log. cbn. rewrite lookup_insert_eq. cbn.
      by apply bool_decide_eq_true. }
  fold w0. rewrite Hbody. cbn [fst snd].
  split_and!; try done; by destruct w.
Qed.

(** X21: Creating a record.  When the content verifies, the random source
    yields a token of the right size, the staging tier sits clean on
    master in step with the publication tier, and neither a branch nor
    a record of that token exists, New succeeds: it creates the branch
    named by the token off master and adds one commit to it, whose
    tree is master's with the payload files, the metadata streams and
    the record metadata of the new record.  The record metadata has
    version 1, the status Unvetted, the Merkle root of the file
    digests, the time of the call and the token.  Master is checked
    out again afterwards with its tree, and nothing else has
    changed. *)
Theorem New_creates_record (metadata : list MetadataStream) (files : list File)
    (fa : list file) (token : list byte) (rest : list (list byte)) (w : world)
    (mlog : list commit) :
  let id := EncodeToString token in
  let u := w_unvetted w in
  let t0 := branch_tree mlog in
  let mdpath := Join id defaultRecordMetadataFilename in
  let hashes := (λ f, copy (zero_bytes sha256_Size) (digest f)) <$> fa in
  let brm := mkRecordMetadata 1 MDStatusUnvetted (merkle_Root hashes) (w_clock w) token in
  let t' := <[mdpath := json_RecordMetadata brm]>
              (overwrite_streams id metadata
                 (write_files (Join id defaultPayloadDir) fa t0)) in
  let c' := mkCommit (fresh_digest (w_commits w)) ("Add record " +:+ id) t' in
  w_faults w = [] → w_locked w = false → shutdown w = false →
  verifyContent metadata files [] = Ok fa →
  w_random w = token :: rest → length token = TokenSize →
  in_step u (w_vetted w) mlog →
  r_branches u !! id = None →
  t0 !! mdpath = None →
  ∃ w',
    New metadata files w = (Ok brm, w') ∧
    w_unvetted w' = mkRepo "master" (<[id := c' :: mlog]> (r_branches u)) t0 ∧
    w_vetted w' = w_vetted w ∧
    w_random w' = rest ∧ w_locked w' = false ∧
    w_commits w' = (w_commits w + 1)%N.
Proof.
  intros id u t0 mdpath hashes brm t' c' Hf Hl Hsd Hverify Hrandom Hlen Hstep Hnone Hfresh.
  destruct (New_run metadata files fa token rest w mlog) as (w' & Hrun & Hrest); try done.
  by exists w'.
Qed.
End NewRecord.

Lemma New_creates_record_witness :
  ∃ w' brm,
    @New sample_library [sample_metadata] [sample_file] (initial_world nil [sample_token]) =
      (Ok brm, w') ∧
    Version brm = 1%N ∧ Status brm = MDStatusUnvetted ∧ Token brm = sample_token ∧
    r_cur (w_unvetted w') = "master" ∧
    length <$> r_branches (w_unvetted w') !! sample_id = Some 2%nat ∧
    w_random w' = [].
Proof.
  destruct (New_creates_record (H := sample_library) [sample_metadata] [sample_file]
              [mkfile "a.txt" (take 32 (bytes_of_string "x" ++ zero_bytes 32))
                 (bytes_of_string "x")]
              sample_token [] (initial_world nil [sample_token]) [initial_commit])
    as (w' & Hrun & Hu & Hv & Hr & Hl & Hc).
  - reflexivity.
  - reflexivity.
  - reflexivity.
  - vm_compute. reflexivity.
  - reflexivity.
  - reflexivity.
  - apply (bool_decide_eq_true_1 _); vm_compute; reflexivity.
  - apply (bool_decide_eq_true_1 _); vm_compute; reflexivity.
  - apply (bool_decide_eq_true_1 _); vm_compute; reflexivity.
  - exists w'. eexists. split; [exact Hrun|]. rewrite Hu, Hr. cbn [r_cur r_branches].
    rewrite lookup_insert_eq. split_and!; reflexivity.
Defined.
(** * Updates that change a record *)

Lemma diff_paths_nonempty (a b : tree) : a ≠ b → diff_paths a b ≠ [].
Proof.
  intros Hne Hnil. apply Hne. unfold diff_paths in Hnil.
  apply fmap_nil_inv, map_to_list_empty_iff in Hnil.
  apply map_eq. intros i.
  assert (merge (λ x y : option (list byte), if decide (x = y) then None else Some ()) a b !! i
          = None) as Hi by (by rewrite Hnil, lookup_empty).
  rewrite lookup_merge in Hi.
  destruct (a !! i) as [x|], (b !! i) as [y|]; cbn in Hi; try done;
    by destruct (decide _) as [->|] in Hi.
Qed.

Lemma payload_path_not_record_metadata (id n : string) :
  Join (Join id defaultPayloadDir) n ≠ Join id defaultRecordMetadataFilename.
Proof.
  unfold Join. rewrite !append_assoc. intros He. do 2 apply append_inv_head in He.
  unfold defaultPayloadDir, defaultRecordMetadataFilename in He.
  rewrite !append_cons in He. discriminate.
Qed.

Lemma write_files_other (dir : string) (fa : list file) (t : tree) (k : string) :
  (∀ n, Join dir n ≠ k) → write_files dir fa t !! k = t !! k.
Proof.
  intros Hk. revert t. induction fa as [|f fa IH]; intros t; [done|].
  cbn [write_files foldl]. unfold write_files in IH. rewrite IH.
  by rewrite lookup_insert_ne.
Qed.

Lemma remove_files_other (dir : string) (filesDel : list string) (t t' : tree) (k : string) :
  (∀ n, Join dir n ≠ k) → remove_files dir filesDel t = Some t' → t' !! k = t !! k.
Proof.
  intros Hk. revert t. induction filesDel as [|v l IH]; intros t Hrm.
  { by injection Hrm as <-. }
  cbn [remove_files] in Hrm. destruct (t !! Join dir v); [|done].
  rewrite (IH _ Hrm). by rewrite lookup_delete_ne.
Qed.

Lemma updated_tree_record_metadata (id : string) (fa : list file) (filesDel : list string)
    (mdAppend mdOverwrite : list MetadataStream) (t t1 : tree) :
  updated_tree id fa filesDel mdAppend mdOverwrite t = Some t1 →
  t1 !! Join id defaultRecordMetadataFilename = t !! Join id defaultRecordMetadataFilename.
Proof.
  unfold updated_tree. intros Hup.
  destruct (remove_files _ filesDel _) as [tr|] eqn:Hrm; [|done].
  cbn in Hup. injection Hup as <-.
  rewrite append_streams_other, overwrite_streams_other
    by (intros ?; apply md_filename_not_record_metadata).
  rewrite (remove_files_other _ _ _ _ _ (payload_path_not_record_metadata id) Hrm).
  apply write_files_other, payload_path_not_record_metadata.
Qed.

Section Updates.
Context `{Library}.

Lemma digests_run (dir : string) (es : list FileInfo) (w : world) :
  w_faults w = [] →
  Forall (λ v, is_Some (r_work (w_unvetted w) !! Join dir (fi_Name v))) es →
  map_M es (λ v,
    bind (DigestFileBytes unvetted (Join dir (fi_Name v)))
      (λ d, ret (copy (zero_bytes sha256_Size) d))) w =
    (Ok ((λ v, copy (zero_bytes sha256_Size)
                 (util_Digest (default [] (r_work (w_unvetted w) !! Join dir (fi_Name v)))))
           <$> es), w).
Proof.
  intros Hf Hall.
  apply map_M_nofault. eapply Forall_impl; [exact Hall|]. intros v [b Hb]. cbv beta.
  unfold DigestFileBytes.
  erewrite bind_run.
  2: { erewrite bind_run; [|by apply ioutil_ReadFile_nofault]. reflexivity. }
  by rewrite Hb.
Qed.

(** What a successful UpdateUnvettedRecord does, step by step. *)
Lemma UpdateUnvettedRecord_run (token : list byte)
    (mdAppend mdOverwrite : list MetadataStream) (filesAdd : list File)
    (filesDel : list string) (fa : list file) (w : world) (mlog log : list commit)
    (b : list byte) (brm : RecordMetadata) (t1 : tree) :
  let id := EncodeToString token in
  let ppath := Join id defaultPayloadDir in
  let mdpath := Join id defaultRecordMetadataFilename in
  let u := w_unvetted w in
  let t := branch_tree log in
  let hashes := (λ v, copy (zero_bytes sha256_Size)
                        (util_Digest (default [] (t1 !! Join ppath (fi_Name v)))))
                  <$> dir_entries t1 ppath in
  let brmNew := mkRecordMetadata (uint64_wrap (Version brm + 1)) MDStatusIterationUnvetted
                  (merkle_Root hashes) (w_clock w) token in
  let t2 := <[mdpath := json_RecordMetadata brmNew]> t1 in
  let c' := mkCommit (fresh_digest (w_commits w)) ("Update record " +:+ id) t2 in
  length token = 32%nat →
  w_faults w = [] → w_locked w = false → shutdown w = false →
  in_step u (w_vetted w) mlog →
  verifyContent_allow_empty (mdAppend ++ mdOverwrite) filesAdd filesDel = Ok fa →
  r_branches u !! id = Some log →
  t !! mdpath = Some b →
  unjson_RecordMetadata b = Some brm → updatable (Status brm) = true →
  Forall (λ v, is_Some (t !! Join ppath v)) filesDel →
  updated_tree id fa filesDel mdAppend mdOverwrite t = Some t1 →
  t1 ≠ t →
  dir_entries t1 ppath ≠ [] →
  Forall (λ v, is_Some (t1 !! Join ppath (fi_Name v))) (dir_entries t1 ppath) →
  ∃ w',
    UpdateUnvettedRecord token mdAppend mdOverwrite filesAdd filesDel w = (Ok brmNew, w') ∧
    w_unvetted w' =
      mkRepo "master" (<[id := c' :: log]> (r_branches u)) (branch_tree mlog) ∧
    w_vetted w' = w_vetted w ∧
    w_locked w' = false ∧ w_commits w' = (w_commits w + 1)%N.
Proof.
  intros id ppath mdpath u t hashes brmNew t2 c' Hlen Hf Hl Hsd Hstep Hfa Hbr Hb Hj Hup
    Hdel Hupd Hchange Hne Hflat.
  pose proof (IsDigest_EncodeToString token Hlen) as Hd. fold id in Hd.
  assert (id ≠ "master") as Hid by apply EncodeToString_not_master.
  pose proof Hstep as (Hcur & Hmaster & Hwork & Hvet). fold u in Hcur, Hmaster, Hwork.
  assert (t2 ≠ t) as Hchange2.
  { intros He. apply Hchange. apply map_eq. intros k.
    destruct (decide (k = mdpath)) as [->|Hk].
    - apply (updated_tree_record_metadata _ _ _ _ _ _ _ Hupd).
    - rewrite <-He. unfold t2. by rewrite lookup_insert_ne. }
  unfold UpdateUnvettedRecord. fold id.
  rewrite (bind_run _ _ w w fa) by (by rewrite Hfa).
  rewrite with_lock_nofault by done.
  set (w0 := set_locked true w).
  assert (w_faults w0 = []) as Hf0 by (by destruct w).
  assert (w_unvetted w0 = u) as Hu0 by (by destruct w).
  assert (in_step (w_unvetted w0) (w_vetted w0) mlog) as Hstep0 by (by destruct w).
  pose proof (in_step_clean _ _ _ Hstep0) as Hclean0.
  (* the branch of the record *)
  set (wc := set_repo unvetted (mkRepo id (r_branches u) t) w0).
  assert (w_faults wc = []) as Hfc by (by destruct w).
  assert (w_unvetted wc = mkRepo id (r_branches u) t) as Huc by (by destruct w).
  assert (checkoutRecordBranch id w0 = (Ok true, wc)) as Hco.
  { rewrite (checkoutRecordBranch_found id w0 log); rewrite ?Hu0; done. }
  (* the changes *)
  set (w1 := with_work t1 wc).
  assert (w_faults w1 = []) as Hf1 by (by destruct w).
  assert (w_unvetted w1 = mkRepo id (r_branches u) t1) as Hu1 by (by destruct w).
  set (w2 := with_work t2 wc).
  assert (w_faults w2 = []) as Hf2 by (by destruct w).
  assert (w_unvetted w2 = mkRepo id (r_branches u) t2) as Hu2 by (by destruct w).
  set (u3 := mkRepo id (<[id := c' :: log]> (r_branches u)) t2).
  set (w3 := set_commits (w_commits w + 1) (set_repo unvetted u3 w2)).
  assert (w_faults w3 = []) as Hf3 by (by destruct w).
  assert (w_unvetted w3 = u3) as Hu3 by (by destruct w).
  assert (updateRecord token mdAppend mdOverwrite fa filesDel w0 = (Ok brmNew, w3)) as Hrun.
  { unfold updateRecord. fold id.
    rewrite (bind_run _ _ _ _ _ Hco).
    assert (loadMD unvetted id wc = (Ok brm, wc)) as Hload.
    { apply (loadMD_nofault _ _ _ b); [done| |done]. cbn [repo_of]. by rewrite Huc. }
    rewrite (bind_run _ _ _ _ _ Hload).
    rewrite Hup. cbn [negb].
    rewrite (bind_run _ _ wc wc ()).
    2: { apply stat_files_nofault; [done|]. by rewrite Huc. }
    unfold updated_tree in Hupd. fold ppath in Hupd.
    destruct (remove_files ppath filesDel (write_files ppath fa t)) as [tr|] eqn:Hrm; [|done].
    cbn in Hupd. injection Hupd as Hupd.
    fold ppath.
    rewrite (bind_run _ _ _ _ _ (write_files_nofault ppath fa wc Hfc)).
    rewrite Huc. cbn [r_work].
    erewrite bind_run.
    2: { apply remove_files_nofault; [by rewrite with_work_faults|].
         rewrite with_work_work. exact Hrm. }
    rewrite with_work_twice.
    erewrite bind_run.
    2: { apply updateMetadata_nofault. by rewrite with_work_faults. }
    rewrite with_work_twice, with_work_work, Hupd. fold w1.
    rewrite (bind_run _ _ w1 w1 (Ok (dir_entries t1 ppath))).
    2: { rewrite try_run. unfold ioutil_ReadDir. rewrite external_nofault by done.
         cbn [repo_of]. cbv zeta. rewrite Hu1. cbn [r_work]. by rewrite decide_False. }
    cbv iota beta.
    rewrite (bind_run _ _ w1 w1 hashes).
    2: { rewrite (digests_run ppath (dir_entries t1 ppath) w1 Hf1); rewrite Hu1; done. }
    rewrite (bind_run _ _ w1 w1 (diff_paths t t1)).
    2: { unfold gitDiff. rewrite external_nofault by done. cbn [repo_of]. cbv zeta.
         unfold head_tree, head_log. rewrite Hu1. cbn [r_cur r_branches r_work].
         by rewrite Hbr. }
    rewrite bool_decide_false.
    2: { intros Hlen0. apply (diff_paths_nonempty t t1); [done|].
         by apply length_zero_iff_nil. }
    erewrite bind_run.
    2: { unfold createMD. erewrite bind_run.
         2: { unfold time_Now_Unix, gets. reflexivity. }
         replace (w_clock w1) with (w_clock w) by (by destruct w).
         fold brmNew. erewrite bind_run; [reflexivity|].
         unfold updateMD. rewrite ioutil_WriteFile_nofault by done.
         rewrite Hu1. cbn [r_work]. fold mdpath. fold t2. unfold w1.
         by rewrite with_work_twice. }
    fold w2.
    rewrite (bind_run _ _ w2 w2 ()).
    2: { apply gitAdd_nofault; [done|]. rewrite Hu2. cbn [r_work]. unfold t2.
         rewrite lookup_insert_eq. eauto. }
    rewrite (bind_run _ _ w2 w3 ()); [done|].
    rewrite gitCommit_nofault; try done.
    - rewrite Hu2. unfold head_log, set_branches. cbn [r_cur r_branches r_work].
      rewrite Hbr. reflexivity.
    - rewrite Hu2. unfold is_clean, head_tree, head_log. cbn [r_cur r_branches r_work].
      rewrite Hbr. by apply bool_decide_eq_false. }
  set (w4 := set_repo unvetted
               (mkRepo "master" (<[id := c' :: log]> (r_branches u)) (branch_tree mlog)) w3).
  exists (set_locked false w4).
  match goal with
  | |- ((?body _).1, _) = _ ∧ _ => assert (body w0 = (Ok brmNew, w4)) as Hbody
  end.
  { unfold bind at 1. unfold gets at 1.
    replace (shutdown w0) with false by (by destruct w).
    rewrite (bind_run _ _ w0 w0 ()).
    2: { apply (gitCheckout_noop_nofault _ _ _ mlog); cbn [repo_of]; rewrite ?Hu0; done. }
    rewrite (bind_run _ _ w0 w0 ()) by (by apply (gitPull_noop_nofault _ mlog)).
    unfold bind at 1. rewrite try_run, Hrun. cbn [fst snd].
    rewrite (bind_run _ _ w3 w4 ()); [done|].
    rewrite (gitCheckout_nofault _ _ _ mlog); cbn [repo_of]; rewrite ?Hu3; try done.
    - unfold u3. cbn. by rewrite lookup_insert_ne.
    - unfold u3, is_clean, head_tree, head_log. cbn. rewrite lookup_insert_eq. cbn.
      by apply bool_decide_eq_true. }
  fold w0. rewrite Hbody. cbn [fst snd].
  split_and!; try done; by destruct w.
Qed.

(** X22: Updating a record.  On a staging tier that sits clean on master in
    step with the publication tier, an update of a record that has its
    branch and may be updated, whose file writes, deletions and
    metadata changes do change the tree of the record and leave files
    in its payload directory, succeeds.  The new record metadata has
    the next version, the status UnvettedIteration, the time of the
    call, the token, and the Merkle root of the digests of the files
    that the payload directory holds after the changes.  One commit on
    the branch of the record holds the changed tree with the new
    record metadata; master is checked out again with its tree, and
    the publication tier is as it was. *)
Theorem UpdateUnvettedRecord_updates (token : list byte)
    (mdAppend mdOverwrite : list MetadataStream) (filesAdd : list File)
    (filesDel : list string) (fa : list file) (w : world) (mlog log : list commit)
    (b : list byte) (brm : RecordMetadata) (t1 : tree) :
  let id := EncodeToString token in
  let ppath := Join id defaultPayloadDir in
  let mdpath := Join id defaultRecordMetadataFilename in
  let u := w_unvetted w in
  let t := branch_tree log in
  let hashes := (λ v, copy (zero_bytes sha256_Size)
                        (util_Digest (default [] (t1 !! Join ppath (fi_Name v)))))
                  <$> dir_entries t1 ppath in
  let brmNew := mkRecordMetadata (uint64_wrap (Version brm + 1)) MDStatusIterationUnvetted
                  (merkle_Root hashes) (w_clock w) token in
  let t2 := <[mdpath := json_RecordMetadata brmNew]> t1 in
  let c' := mkCommit (fresh_digest (w_commits w)) ("Update record " +:+ id) t2 in
  length token = 32%nat →
  w_faults w = [] → w_locked w = false → shutdown w = false →
  in_step u (w_vetted w) mlog →
  verifyContent_allow_empty (mdAppend ++ mdOverwrite) filesAdd filesDel = Ok fa →
  r_branches u !! id = Some log →
  t !! mdpath = Some b →
  unjson_RecordMetadata b = Some brm → updatable (Status brm) = true →
  Forall (λ v, is_Some (t !! Join ppath v)) filesDel →
  updated_tree id fa filesDel mdAppend mdOverwrite t = Some t1 →
  t1 ≠ t →
  dir_entries t1 ppath ≠ [] →
  Forall (λ v, is_Some (t1 !! Join ppath (fi_Name v))) (dir_entries t1 ppath) →
  ∃ w',
    UpdateUnvettedRecord token mdAppend mdOverwrite filesAdd filesDel w = (Ok brmNew, w') ∧
    w_unvetted w' =
      mkRepo "master" (<[id := c' :: log]> (r_branches u)) (branch_tree mlog) ∧
    w_vetted w' = w_vetted w ∧
    w_locked w' = false ∧ w_commits w' = (w_commits w + 1)%N.
Proof.
  intros id ppath mdpath u t hashes brmNew t2 c' Hlen Hf Hl Hsd Hstep Hfa Hbr Hb Hj Hup Hdel Hupd Hchange Hne Hflat.
  destruct (UpdateUnvettedRecord_run token mdAppend mdOverwrite filesAdd filesDel fa w
              mlog log b brm t1) as (w' & Hrun & Hrest); try done.
  by exists w'.
Qed.
End Updates.

Lemma UpdateUnvettedRecord_updates_witness :
  ∃ w' brm,
    @UpdateUnvettedRecord sample_library sample_token [sample_metadata] [] [] []
      recorded_world = (Ok brm, w') ∧
    Version brm = 2%N ∧ Status brm = MDStatusIterationUnvetted ∧
    r_cur (w_unvetted w') = "master" ∧
    length <$> r_branches (w_unvetted w') !! sample_id = Some 3%nat ∧
    w_vetted w' = w_vetted recorded_world.
Proof.
  destruct (UpdateUnvettedRecord_updates (H := sample_library) sample_token
              [sample_metadata] [] [] [] [] recorded_world [initial_commit] recorded_log
              (@json_RecordMetadata sample_library recorded_metadata)
              recorded_metadata
              (append_streams sample_id [sample_metadata] (branch_tree recorded_log)))
    as (w' & Hrun & Hu & Hv & Hl & Hc).
  - reflexivity.
  - reflexivity.
  - reflexivity.
  - reflexivity.
  - apply (bool_decide_eq_true_1 _); vm_compute; reflexivity.
  - vm_compute. reflexivity.
  - apply (bool_decide_eq_true_1 _); vm_compute; reflexivity.
  - vm_compute. reflexivity.
  - vm_compute. reflexivity.
  - reflexivity.
  - constructor.
  - apply (bool_decide_eq_true_1 _); vm_compute; reflexivity.
  - apply (bool_decide_eq_true_1 _); vm_compute; reflexivity.
  - vm_compute. discriminate.
  - replace (dir_entries (append_streams sample_id [sample_metadata] (branch_tree recorded_log))
               (Join (EncodeToString sample_token) defaultPayloadDir))
      with [mkFileInfo "a.txt" false] by (vm_compute; reflexivity).
    constructor; [|constructor]. eexists. vm_compute. reflexivity.
  - exists w'. eexists. split; [exact Hrun|]. rewrite Hu, Hv. cbn [r_cur r_branches].
    rewrite lookup_insert_eq. split_and!; reflexivity.
Defined.
(** * Metadata of published records *)

Section VettedMetadata.
Context `{Library}.

(** X23: Updating the metadata of a published record.  On a staging tier
    that sits clean on master in step with a publication tier that is
    clean on master, with no temporary branch left over, an update of
    the metadata streams of a record that is not locked and that
    changes the tree succeeds: the changes are committed once, on the
    temporary branch, and promoted.  Afterwards master of both tiers
    is the former master with that commit on top, the temporary branch
    is gone from both tiers, and the record metadata is the one of
    before: the record itself is not changed. *)
Theorem UpdateVettedMetadata_updates (token : list byte)
    (mdAppend mdOverwrite : list MetadataStream) (fa : list file) (w : world)
    (mlog : list commit) (b : list byte) (md : RecordMetadata) :
  let id := EncodeToString token in
  let idTmp := id +:+ "_tmp" in
  let u := w_unvetted w in
  let v := w_vetted w in
  let t := branch_tree mlog in
  let mdpath := Join id defaultRecordMetadataFilename in
  let t' := append_streams id mdAppend (overwrite_streams id mdOverwrite t) in
  let c' := mkCommit (fresh_digest (w_commits w)) ("Update record metadata " +:+ id) t' in
  w_faults w = [] → w_locked w = false → shutdown w = false →
  verifyContent_allow_empty (mdAppend ++ mdOverwrite) [] [] = Ok fa →
  in_step u v mlog → r_cur v = "master" → r_work v = branch_tree mlog →
  r_branches u !! idTmp = None → r_branches v !! idTmp = None →
  fresh_digest (w_commits w) ∉ c_digest <$> mlog →
  t !! mdpath = Some b → unjson_RecordMetadata b = Some md →
  Status md ≠ MDStatusLocked →
  t' ≠ t →
  ∃ w',
    UpdateVettedMetadata token mdAppend mdOverwrite w = (Ok (), w') ∧
    w_unvetted w' = mkRepo "master" (<["master" := c' :: mlog]> (r_branches u)) t' ∧
    w_vetted w' = mkRepo "master" (<["master" := c' :: mlog]> (r_branches v)) t' ∧
    t' !! mdpath = Some b ∧
    w_locked w' = false ∧ w_commits w' = (w_commits w + 1)%N.
Proof.
  intros id idTmp u v t mdpath t' c' Hf Hl Hsd Hverify Hstep Hvcur Hvwork Hutmp Hvtmp
    Hnew Hmd Hjson Hstatus Hchange.
  pose proof (in_step_clean _ _ _ Hstep) as Hclean.
  pose proof Hstep as (Hucur & Humaster & Huwork & Hvmaster).
  fold u in Hucur, Humaster, Huwork. fold v in Hvmaster.
  assert (idTmp ≠ "master") as Hid by apply tmp_branch_not_master.
  assert (t' !! mdpath = Some b) as Hkept.
  { unfold t'. rewrite append_streams_other, overwrite_streams_other
      by (intros ?; apply md_filename_not_record_metadata).
    exact Hmd. }
  unfold UpdateVettedMetadata. rewrite Hverify.
  rewrite (bind_run _ _ w w fa) by done.
  rewrite with_lock_nofault by done.
  set (w0 := set_locked true w).
  assert (w_faults w0 = []) as Hf0 by (by destruct w).
  assert (w_unvetted w0 = u) as Hu0 by (by destruct w).
  assert (in_step (w_unvetted w0) (w_vetted w0) mlog) as Hstep0 by (by destruct w).
  (* git checkout -b idTmp *)
  set (w1 := set_repo unvetted (mkRepo idTmp (<[idTmp := mlog]> (r_branches u)) t) w0).
  assert (w_faults w1 = []) as Hf1 by (by destruct w).
  assert (w_unvetted w1 = mkRepo idTmp (<[idTmp := mlog]> (r_branches u)) t) as Hu1
    by (by destruct w).
  set (w2 := with_work t' w1).
  assert (w_faults w2 = []) as Hf2 by (by destruct w).
  assert (w_unvetted w2 = mkRepo idTmp (<[idTmp := mlog]> (r_branches u)) t') as Hu2
    by (by destruct w).
  set (u3 := mkRepo idTmp (<[idTmp := c' :: mlog]> (r_branches u)) t').
  set (w3 := set_commits (w_commits w + 1) (set_repo unvetted u3 w2)).
  assert (w_faults w3 = []) as Hf3 by (by destruct w).
  assert (w_unvetted w3 = u3) as Hu3 by (by destruct w).
  assert (w_vetted w3 = v) as Hv3 by (by destruct w).
  destruct (rebasePR_run idTmp w3 [c'] mlog) as
    (w5 & Hrebase & Hu5 & Hv5 & Hstep5 & Hc5 & Hl5 & Hf5); rewrite ?Hu3, ?Hv3; try done.
  { unfold u3, is_clean, head_tree, head_log. cbn. rewrite lookup_insert_eq. cbn.
    by apply bool_decide_eq_true. }
  { unfold u3. cbn. by rewrite lookup_insert_ne. }
  { unfold u3. cbn. by rewrite lookup_insert_eq. }
  { by constructor. }
  rewrite Hu3 in Hu5. rewrite Hv3 in Hv5. unfold u3 in Hu5. cbn [r_branches] in Hu5.
  rewrite delete_insert_eq, delete_id in Hu5 by done.
  assert (updateVettedMetadata id idTmp mdAppend mdOverwrite w0 = (Ok (), w5)) as Hinner.
  { unfold updateVettedMetadata.
    rewrite (bind_run _ _ w0 w1 ()).
    2: { rewrite gitNewBranch_nofault; rewrite ?Hu0; try done.
         unfold head_log. by rewrite Hucur, Humaster, Huwork. }
    rewrite (bind_run _ _ w1 w2 ()).
    2: { rewrite updateMetadata_nofault by done. by rewrite Hu1. }
    rewrite (bind_run _ _ w2 w2 true).
    2: { unfold gitHasChanges, gets. cbn [repo_of]. rewrite Hu2.
         unfold is_clean, head_tree, head_log. cbn [r_cur r_branches r_work].
         rewrite lookup_insert_eq. cbn [default from_option Datatypes.id].
         by rewrite bool_decide_false. }
    cbn [negb].
    rewrite (bind_run _ _ w2 w3 ()); [done|].
    rewrite gitCommit_nofault; try done.
    - rewrite Hu2. unfold head_log, set_branches. cbn [r_cur r_branches r_work].
      rewrite lookup_insert_eq, insert_insert_eq. reflexivity.
    - rewrite Hu2. unfold is_clean, head_tree, head_log. cbn [r_cur r_branches r_work].
      rewrite lookup_insert_eq. by apply bool_decide_eq_false. }
  exists (set_locked false w5).
  match goal with
  | |- ((?body _).1, _) = _ ∧ _ => assert (body w0 = (Ok (), w5)) as Hbody
  end.
  { unfold bind at 1. unfold gets at 1.
    replace (shutdown w0) with false by (by destruct w).
    rewrite (bind_run _ _ w0 w0 ()).
    2: { apply (gitCheckout_noop_nofault _ _ _ mlog); cbn [repo_of]; rewrite ?Hu0; done. }
    rewrite (bind_run _ _ w0 w0 ()) by (by apply (gitPull_noop_nofault _ mlog)).
    cbv zeta. fold id. fold idTmp.
    destruct (os_Stat_dir_nofault unvetted id w0 Hf0) as (fi & Hstat & _).
    { cbn [repo_of]. rewrite Hu0, Huwork.
      apply (dir_entries_nonempty _ _ mdpath); [by exists b|apply dir_entry_is_Some]. }
    rewrite (bind_run _ _ w0 w0 (Ok fi)) by (by rewrite try_run, Hstat).
    cbv iota beta.
    rewrite (bind_run _ _ w0 w0 md).
    2: { apply (loadMD_nofault _ _ _ b); cbn [repo_of]; rewrite ?Hu0, ?Huwork; done. }
    rewrite bool_decide_false by done.
    unfold bind at 1. rewrite try_run, Hinner. cbn [fst snd].
    destruct Hstep5 as (Hc & Hb & Hw & _).
    by apply (gitCheckout_noop_nofault _ _ _ ([c'] ++ mlog)). }
  fold w0. rewrite Hbody. cbn [fst snd].
  split_and!.
  - done.
  - replace (w_unvetted (set_locked false w5)) with (w_unvetted w5) by (by destruct w5).
    by rewrite Hu5.
  - replace (w_vetted (set_locked false w5)) with (w_vetted w5) by (by destruct w5).
    by rewrite Hv5.
  - done.
  - by destruct w5.
  - replace (w_commits (set_locked false w5)) with (w_commits w5) by (by destruct w5).
    rewrite Hc5. by destruct w.
Qed.
End VettedMetadata.

Lemma UpdateVettedMetadata_updates_witness :
  ∃ w',
    @UpdateVettedMetadata sample_library sample_token [sample_metadata] [] published_world =
      (Ok (), w') ∧
    r_cur (w_unvetted w') = "master" ∧
    length <$> r_branches (w_unvetted w') !! "master" = Some 4%nat ∧
    r_branches (w_vetted w') !! "master" = r_branches (w_unvetted w') !! "master" ∧
    w_locked w' = false.
Proof.
  destruct (UpdateVettedMetadata_updates (H := sample_library) sample_token
              [sample_metadata] [] [] published_world published_log
              (@json_RecordMetadata sample_library
                 (mkRecordMetadata 2 MDStatusVetted (Merkle recorded_metadata) 0%Z
                    sample_token))
              (mkRecordMetadata 2 MDStatusVetted (Merkle recorded_metadata) 0%Z sample_token))
    as (w' & Hrun & Hu & Hv & Hmd & Hl & Hc).
  - reflexivity.
  - reflexivity.
  - reflexivity.
  - vm_compute. reflexivity.
  - apply (bool_decide_eq_true_1 _); vm_compute; reflexivity.
  - reflexivity.
  - apply (bool_decide_eq_true_1 _); vm_compute; reflexivity.
  - apply (bool_decide_eq_true_1 _); vm_compute; reflexivity.
  - apply (bool_decide_eq_true_1 _); vm_compute; reflexivity.
  - apply (bool_decide_eq_true_1 _); vm_compute; reflexivity.
  - apply (bool_decide_eq_true_1 _); vm_compute; reflexivity.
  - vm_compute. reflexivity.
  - discriminate.
  - apply (bool_decide_eq_true_1 _); vm_compute; reflexivity.
  - exists w'. split; [exact Hrun|]. rewrite Hu, Hv, Hl. cbn [r_cur r_branches].
    rewrite !lookup_insert_eq. split_and!; reflexivity.
Defined.
(** * The inventory of a store without records *)

Section EmptyInventory.
Context `{Library} `{FileLoader}.

Lemma inventory_walk_skips (repo : repo_path) (names : list string) (includeFiles : bool)
    (w : world) :
  Forall (λ n, IsDigest n = false) names →
  inventory_walk repo names includeFiles w = (Ok [], w).
Proof.
  induction 1 as [|n names Hn _ IH]; [done|].
  cbn [inventory_walk]. by rewrite Hn.
Qed.

(** X24: Inventory strips what is not a record.  When no entry of the root
    directory of the publication tier and no branch of the staging
    tier is named by a digest, Inventory returns two empty lists and
    leaves everything as it was: entries and branches with other names
    are not read, whatever they hold. *)
Theorem Inventory_without_records (vettedCount branchCount : N) (includeFiles : bool)
    (w : world) :
  w_faults w = [] → w_locked w = false → shutdown w = false →
  Forall (λ v, IsDigest (fi_Name v) = false) (root_entries (r_work (w_vetted w))) →
  Forall (λ b, IsDigest b = false) (map_to_list (r_branches (w_unvetted w))).*1 →
  Inventory vettedCount branchCount includeFiles w = (Ok ([], []), w).
Proof.
  intros Hf Hl Hsd Hroot Hbranches.
  unfold Inventory. rewrite with_lock_nofault by done.
  set (w0 := set_locked true w).
  assert (w_faults w0 = []) as Hf0 by (by destruct w).
  match goal with
  | |- ((?body _).1, _) = _ => assert (body w0 = (Ok ([], []), w0)) as Hbody
  end.
  { unfold bind at 1. unfold gets at 1.
    replace (shutdown w0) with false by (by destruct w).
    rewrite (bind_run _ _ w0 w0 (root_entries (r_work (w_vetted w)))).
    2: { unfold ioutil_ReadDir_root. rewrite external_nofault by done. by destruct w. }
    rewrite (bind_run _ _ w0 w0 []).
    2: { apply inventory_walk_skips. by apply Forall_fmap. }
    rewrite (bind_run _ _ w0 w0 (map_to_list (r_branches (w_unvetted w))).*1).
    2: { rewrite gitBranches_nofault by done. by destruct w. }
    rewrite (bind_run _ _ w0 w0 []); [done|].
    by apply inventory_walk_skips. }
  fold w0. rewrite Hbody. cbn [fst snd]. f_equal. unfold w0.
  rewrite unlock_lock; done.
Qed.
End EmptyInventory.

Lemma Inventory_without_records_witness :
  @Inventory sample_library sample_loader 0 0 true (initial_world nil nil) =
    (Ok ([], []), initial_world nil nil).
Proof.
  apply (@Inventory_without_records sample_library sample_loader).
  - reflexivity.
  - reflexivity.
  - reflexivity.
  - apply (bool_decide_eq_true_1 _); vm_compute; reflexivity.
  - apply (bool_decide_eq_true_1 _); vm_compute; reflexivity.
Defined.
(** * Branches on the failure paths *)

(** The staging tier has the branch. *)
Definition has_branch (b : string) (w : world) : Prop :=
  is_Some (r_branches (w_unvetted w) !! b).

Lemma has_branch_faults (b : string) (fs : list bool) (w : world) :
  has_branch b w → has_branch b (set_faults fs w).
Proof. by destruct w. Qed.

Lemma has_branch_locked (b : string) (l : bool) (w : world) :
  has_branch b w → has_branch b (set_locked l w).
Proof. by destruct w. Qed.

Ltac has_branch_leaf :=
  unfold has_branch in *;
  repeat match goal with p : repo_path |- _ => destruct p end;
  repeat match goal with w : world |- _ => destruct w end;
  cbn in *;
  rewrite ?lookup_insert_is_Some';
  try done; auto.

Ltac keeps_branch b :=
  preserves_with (has_branch_faults b) (has_branch_locked b) has_branch_leaf.

Lemma hoare_bind_inv {A B} (P : world → Prop) (m : M A) (k : A → M B)
    (Q : result B → world → Prop) :
  preserves P m → (∀ e w, P w → Q (Err e) w) → (∀ a, hoare P (k a) Q) →
  hoare P (bind m k) Q.
Proof.
  intros Hm HQ Hk w Hw. unfold bind. specialize (Hm w Hw).
  destruct (m w) as [[a|e] w1]; cbn in *; [by apply Hk|by apply HQ].
Qed.

Lemma gitNewBranch_ok_inv (b : string) (w w' : world) :
  gitNewBranch unvetted b w = (Ok (), w') →
  r_branches (w_unvetted w) !! b = None ∧ has_branch b w'.
Proof.
  intros [fs Hm]%external_ok_inv. cbv beta zeta in Hm.
  rewrite !repo_of_set_faults in Hm. cbn [repo_of] in Hm.
  destruct (r_branches (w_unvetted w) !! b) eqn:Hb; [done|]. injection Hm as <-.
  split; [done|]. unfold has_branch. destruct w. cbn. rewrite lookup_insert_eq. eauto.
Qed.

(** The failure path of New and of SetUnvettedStatus: stash and check
    out master.  It deletes no branch. *)
Lemma unwind_keeps_branch {A} (b : string) (err : error) :
  preserves (has_branch b)
    (gitStash unvetted ;;; gitCheckout unvetted "master" ;;; @fail A err).
Proof. unfold gitStash, gitCheckout, modify. keeps_branch b. Qed.

Lemma drop_tmp_branch_vetted (idTmp : string) (w : world) :
  w_vetted (drop_tmp_branch idTmp w).2 = w_vetted w.
Proof.
  assert (preserves (vetted_kept w) (drop_tmp_branch idTmp)) as Hp.
  { unfold drop_tmp_branch, gitStash, gitCheckout, gitBranchDelete, modify. vetted_steps w. }
  by apply Hp.
Qed.

Section FailurePaths.
Context `{Library}.

Lemma newRecord_keeps_branch (token : list byte) (metadata : list MetadataStream)
    (fa : list file) (w wb : world) :
  gitNewBranch unvetted (EncodeToString token) w = (Ok (), wb) →
  has_branch (EncodeToString token) (newRecord token metadata fa w).2.
Proof.
  intros Hnew. unfold newRecord. rewrite (bind_run _ _ _ _ _ Hnew).
  apply gitNewBranch_ok_inv in Hnew as [_ Hb]. revert wb Hb.
  change (preserves (has_branch (EncodeToString token))
    (os_MkdirAll unvetted (Join (EncodeToString token) defaultPayloadDir) ;;;
     hashes <- map_M fa (λ f,
       ioutil_WriteFile unvetted
         (Join (Join (EncodeToString token) defaultPayloadDir) (name f)) (payload f) ;;;
       gitAdd unvetted (Join (Join (EncodeToString token) defaultPayloadDir) (name f)) ;;;
       ret (copy (zero_bytes sha256_Size) (digest f))) ;;
     for_each metadata (λ m,
       ioutil_WriteFile unvetted
         (Join (EncodeToString token)
            (Sprintf_02v (ms_ID m) +:+ defaultMDFilenameSuffix))
         (bytes_of_string (ms_Payload m)) ;;;
       gitAdd unvetted
         (Join (EncodeToString token)
            (Sprintf_02v (ms_ID m) +:+ defaultMDFilenameSuffix))) ;;;
     brm <- createMD unvetted (EncodeToString token) MDStatusUnvetted 1 hashes token ;;
     gitAdd unvetted (Join (EncodeToString token) defaultRecordMetadataFilename) ;;;
     gitCommit unvetted ("Add record " +:+ EncodeToString token) ;;;
     ret brm)).
  unfold createMD, updateMD, time_Now_Unix, os_MkdirAll, ioutil_WriteFile, gitAdd,
    gitCommit, modify.
  keeps_branch (EncodeToString token).
Qed.

Lemma rebasePR_failure_keeps_branch (id : string) :
  hoare (has_branch id) (rebasePR id) (λ r w, (∃ e, r = Err e) → has_branch id w).
Proof.
  unfold rebasePR.
  do 9 (apply hoare_bind_inv;
        [unfold gitCheckout, gitPull, gitRebase, gitPush, gitBranchDelete; keeps_branch id
        |by intros|intros _]).
  intros w Hw. unfold gitBranchDelete, external.
  destruct (w_faults w) as [|[] fs]; cbv beta zeta; repeat case_match;
    cbn [fst snd]; intros [? ?]; try done;
    first [exact Hw | by apply has_branch_faults].
Qed.

Lemma setUnvettedStatus_failure_keeps_branch (token : list byte) (status : MDStatusT)
    (mdAppend mdOverwrite : list MetadataStream) :
  hoare (has_branch (EncodeToString token))
    (setUnvettedStatus token status mdAppend mdOverwrite)
    (λ r w, (∃ e, r = Err e) → has_branch (EncodeToString token) w).
Proof.
  set (id := EncodeToString token).
  assert (∀ mdA mdO, preserves (has_branch id) (updateMetadata id mdA mdO)) as Hmd.
  { intros mdA mdO. unfold updateMetadata, ioutil_WriteFile, os_AppendFile, gitAdd, modify.
    keeps_branch id. }
  assert (∀ brm, preserves (has_branch id) (updateMD unvetted id brm)) as Hupd.
  { intros brm. unfold updateMD, ioutil_WriteFile, modify. keeps_branch id. }
  assert (∀ msg, preserves (has_branch id) (commitMD unvetted id msg)) as Hcommit.
  { intros msg. unfold commitMD, gitAdd, gitCommit. keeps_branch id. }
  unfold setUnvettedStatus. fold id.
  apply hoare_bind_inv; [unfold gitCheckout; keeps_branch id|by intros|intros _].
  apply hoare_bind_inv;
    [unfold _getRecord, loadMD, loadMDStreams, ioutil_ReadFile, ioutil_ReadDir;
     keeps_branch id|by intros|intros record].
  destruct (_ && _).
  { apply hoare_bind_inv; [apply preserves_gets|by intros|intros now].
    apply hoare_bind_inv; [apply Hupd|by intros|intros _].
    apply hoare_bind_inv; [apply Hmd|by intros|intros _].
    apply hoare_bind_inv; [apply Hcommit|by intros|intros _].
    apply hoare_bind with (R := λ _ _, True).
    - eapply hoare_conseq; [apply rebasePR_failure_keeps_branch|done|].
      intros [[]|e] w0 Hw0; [done|]. intros _. apply Hw0. eauto.
    - intros _ w0 _ [e He]. done. }
  destruct (_ && _).
  { apply hoare_bind_inv; [apply preserves_gets|by intros|intros now].
    apply hoare_bind_inv; [apply Hupd|by intros|intros _].
    apply hoare_bind_inv; [apply Hmd|by intros|intros _].
    apply hoare_bind_inv; [apply Hcommit|by intros|intros _].
    intros w0 _ [e He]. done. }
  by intros w0 Hw0 _.
Qed.
End FailurePaths.

Lemma unwind_fails {A} (err : error) (w : world) :
  ∃ e, ((gitStash unvetted ;;; gitCheckout unvetted "master" ;;; @fail A err) w).1 = Err e.
Proof.
  unfold bind. destruct (gitStash unvetted w) as [[[]|e1] w1]; [|eauto].
  destruct (gitCheckout unvetted "master" w1) as [[[]|e2] w2]; eauto.
Qed.

Section FailurePaths2.
Context `{Library}.

(** C9 (amended): what the failure paths do to the branches of the
    staging tier.

    UpdateVettedMetadata drops its temporary branch: whenever
    updateVettedMetadata fails, for whatever reason and at whatever
    step, also after it has created the branch, and the calls of the
    failure path themselves succeed, the failure path discards the
    uncommitted changes, checks out master and deletes <id>_tmp from
    the staging tier; in particular, when no external call fails and
    UpdateVettedMetadata returns an error, the staging tier has no
    branch <id>_tmp afterwards.  The failure path does not touch the
    publication tier.

    New and SetUnvettedStatus delete no branch.  When newRecord fails
    after it has created the branch of the record, New returns an
    error and the branch is still there.  When setUnvettedStatus
    fails, SetUnvettedStatus returns an error and the branch of the
    record, which was there before the call, is still there. *)
Theorem failure_path_branches :
  (∀ (token : list byte) (mdAppend mdOverwrite : list MetadataStream) w w1 e,
     has_master w →
     updateVettedMetadata (EncodeToString token) (EncodeToString token +:+ "_tmp")
       mdAppend mdOverwrite w = (Err e, w1) →
     w_faults w1 = [] →
     ∃ r w2, drop_tmp_branch (EncodeToString token +:+ "_tmp") w1 = (r, w2) ∧
             r_branches (w_unvetted w2) !! (EncodeToString token +:+ "_tmp") = None ∧
             r_cur (w_unvetted w2) = "master" ∧
             is_clean (w_unvetted w2) = true ∧
             (is_Some (r_branches (w_unvetted w1) !! (EncodeToString token +:+ "_tmp")) →
              r = Ok ())) ∧
  (∀ (token : list byte) (mdAppend mdOverwrite : list MetadataStream) w log e w',
     w_faults w = [] → w_locked w = false →
     in_step (w_unvetted w) (w_vetted w) log →
     r_branches (w_unvetted w) !! (EncodeToString token +:+ "_tmp") = None →
     UpdateVettedMetadata token mdAppend mdOverwrite w = (Err e, w') →
     r_branches (w_unvetted w') !! (EncodeToString token +:+ "_tmp") = None) ∧
  (∀ idTmp w, w_vetted (drop_tmp_branch idTmp w).2 = w_vetted w) ∧
  (∀ (metadata : list MetadataStream) (files : list File) (fa : list file)
     (token : list byte) (err : error) (w : world),
     let id := EncodeToString token in
     let wr := (util_Random TokenSize w).2 in
     let w0 := (lock_Lock wr).2 in
     let wa := (gitCheckout unvetted "master" w0).2 in
     let w1 := (gitPull unvetted true wa).2 in
     verifyContent metadata files [] = Ok fa →
     (util_Random TokenSize w).1 = Ok token →
     (lock_Lock wr).1 = Ok () → shutdown w0 = false →
     (gitCheckout unvetted "master" w0).1 = Ok () →
     (gitPull unvetted true wa).1 = Ok () →
     (gitNewBranch unvetted id w1).1 = Ok () →
     (newRecord token metadata fa w1).1 = Err err →
     r_branches (w_unvetted w1) !! id = None ∧
     (∃ e, (New metadata files w).1 = Err e) ∧
     has_branch id (New metadata files w).2) ∧
  (∀ (token : list byte) (status : MDStatusT) (mdAppend mdOverwrite : list MetadataStream)
     (err : error) (w : world),
     let id := EncodeToString token in
     let w0 := (lock_Lock w).2 in
     has_branch id w →
     (lock_Lock w).1 = Ok () → shutdown w0 = false →
     (setUnvettedStatus token status mdAppend mdOverwrite w0).1 = Err err →
     (∃ e, (SetUnvettedStatus token status mdAppend mdOverwrite w).1 = Err e) ∧
     has_branch id (SetUnvettedStatus token status mdAppend mdOverwrite w).2).
Proof.
  split_and!.
  - intros token mdAppend mdOverwrite.
    apply (UpdateVettedMetadata_failure_staging token mdAppend mdOverwrite).
  - intros token mdAppend mdOverwrite.
    apply (UpdateVettedMetadata_failure_staging token mdAppend mdOverwrite).
  - apply drop_tmp_branch_vetted.
  - intros metadata files fa token err w id wr w0 wa w1 Hv Hr Hl Hs Hco Hpull Hnew Hrec.
    subst wr w0 wa w1.
    destruct (util_Random TokenSize w) as [rt wr] eqn:Er. cbn [fst snd] in *. subst rt.
    destruct (lock_Lock wr) as [rl w0] eqn:El. cbn [fst snd] in *. subst rl.
    destruct (gitCheckout unvetted "master" w0) as [rc wa] eqn:Ec. cbn [fst snd] in *.
    subst rc.
    destruct (gitPull unvetted true wa) as [rp w1] eqn:Ep. cbn [fst snd] in *. subst rp.
    destruct (gitNewBranch unvetted id w1) as [rn wb] eqn:En. cbn [fst snd] in *. subst rn.
    pose proof (newRecord_keeps_branch token metadata fa w1 wb En) as Hb2.
    destruct (newRecord token metadata fa w1) as [rr w2] eqn:Erec. cbn [fst snd] in *.
    subst rr.
    apply gitNewBranch_ok_inv in En as [Hnone _]. split; [exact Hnone|].
    assert (New metadata files w =
              (((gitStash unvetted ;;; gitCheckout unvetted "master" ;;;
                 @fail RecordMetadata err) w2).1,
               set_locked false
                 ((gitStash unvetted ;;; gitCheckout unvetted "master" ;;;
                   @fail RecordMetadata err) w2).2)) as ->.
    { unfold New. rewrite Hv. rewrite (bind_run _ _ w w fa) by done.
      rewrite (bind_run _ _ _ _ _ Er). unfold with_lock.
      rewrite (bind_run _ _ _ _ _ El).
      unfold bind at 1. unfold gets at 1. rewrite Hs.
      rewrite (bind_run _ _ _ _ _ Ec). rewrite (bind_run _ _ _ _ _ Ep).
      unfold bind at 1. rewrite try_run. fold id. rewrite Erec. cbn [fst snd].
      match goal with |- (let '(_, _) := ?x in _) = _ => by destruct x end. }
    cbn [fst snd]. split; [apply unwind_fails|].
    apply has_branch_locked. by apply unwind_keeps_branch.
  - intros token status mdAppend mdOverwrite err w id w0 Hb Hl Hs Hrun. subst w0.
    destruct (lock_Lock w) as [rl w0] eqn:El. cbn [fst snd] in *. subst rl.
    assert (has_branch id w0) as Hb0.
    { unfold lock_Lock in El. apply external_ok_inv in El as [fs El].
      destruct (w_locked (set_faults fs w)); [done|]. injection El as <-.
      by apply has_branch_locked, has_branch_faults. }
    pose proof (setUnvettedStatus_failure_keeps_branch token status mdAppend mdOverwrite
                  w0 Hb0) as Hb2.
    destruct (setUnvettedStatus token status mdAppend mdOverwrite w0) as [rr w2] eqn:Erun.
    cbn [fst snd] in *. subst rr.
    assert (has_branch id w2) as Hb2' by (apply Hb2; eauto).
    assert (SetUnvettedStatus token status mdAppend mdOverwrite w =
              (((gitStash unvetted ;;; gitCheckout unvetted "master" ;;;
                 @fail Record_ err) w2).1,
               set_locked false
                 ((gitStash unvetted ;;; gitCheckout unvetted "master" ;;;
                   @fail Record_ err) w2).2)) as ->.
    { unfold SetUnvettedStatus, with_lock.
      rewrite (bind_run _ _ _ _ _ El).
      unfold bind at 1. unfold gets at 1. rewrite Hs.
      unfold bind at 1. rewrite try_run, Erun. cbn [fst snd].
      match goal with |- (let '(_, _) := ?x in _) = _ => by destruct x end. }
    cbn [fst snd]. split; [apply unwind_fails|].
    apply has_branch_locked. by apply unwind_keeps_branch.
Qed.
End FailurePaths2.

Lemma failure_path_branches_witness :
  (∃ r w2,
     drop_tmp_branch (EncodeToString sample_token +:+ "_tmp")
       (updateVettedMetadata (EncodeToString sample_token)
          (EncodeToString sample_token +:+ "_tmp") [] [] published_world).2 = (r, w2) ∧
     r_branches (w_unvetted w2) !! (EncodeToString sample_token +:+ "_tmp") = None ∧
     r_cur (w_unvetted w2) = "master" ∧
     is_clean (w_unvetted w2) = true ∧
     (is_Some (r_branches (w_unvetted
         (updateVettedMetadata (EncodeToString sample_token)
            (EncodeToString sample_token +:+ "_tmp") [] [] published_world).2)
         !! (EncodeToString sample_token +:+ "_tmp")) → r = Ok ())) ∧
  r_branches (w_unvetted
    (@UpdateVettedMetadata sample_library sample_token [] [] published_world).2)
    !! (EncodeToString sample_token +:+ "_tmp") = None ∧
  (r_branches (w_unvetted
     (gitPull unvetted true
        (gitCheckout unvetted "master"
           (lock_Lock
              (util_Random TokenSize
                 (initial_world (replicate 11 false ++ [true]) [sample_token])).2).2).2).2)
     !! EncodeToString sample_token = None ∧
   (∃ e, (@New sample_library [sample_metadata] [sample_file]
            (initial_world (replicate 11 false ++ [true]) [sample_token])).1 = Err e) ∧
   has_branch (EncodeToString sample_token)
     (@New sample_library [sample_metadata] [sample_file]
        (initial_world (replicate 11 false ++ [true]) [sample_token])).2) ∧
  ((∃ e, (@SetUnvettedStatus sample_library sample_token MDStatusLocked [] []
            recorded_world).1 = Err e) ∧
   has_branch (EncodeToString sample_token)
     (@SetUnvettedStatus sample_library sample_token MDStatusLocked [] [] recorded_world).2).
Proof.
  destruct (@failure_path_branches sample_library) as (Hdrop & Hnone & _ & Hnew & Hset).
  split; [|split; [|split]].
  - apply (Hdrop sample_token [] [] published_world _ ErrNoChanges).
    + unfold has_master. apply (bool_decide_eq_true_1 _). vm_compute. reflexivity.
    + apply run_err_eq. vm_compute. reflexivity.
    + vm_compute. reflexivity.
  - apply (Hnone sample_token [] [] published_world published_log ErrNoChanges).
    + reflexivity.
    + reflexivity.
    + split_and!.
      * reflexivity.
      * apply (bool_decide_eq_true_1 _). vm_compute. reflexivity.
      * apply (bool_decide_eq_true_1 _). vm_compute. reflexivity.
      * apply (bool_decide_eq_true_1 _). vm_compute. reflexivity.
    + vm_compute. reflexivity.
    + apply run_err_eq. vm_compute. reflexivity.
  - apply (Hnew [sample_metadata] [sample_file]
             [mkfile "a.txt" (take 32 (bytes_of_string "x" ++ zero_bytes 32))
                (bytes_of_string "x")]
             sample_token (Errorf "git commit")
             (initial_world (replicate 11 false ++ [true]) [sample_token])).
    + vm_compute. reflexivity.
    + vm_compute. reflexivity.
    + vm_compute. reflexivity.
    + vm_compute. reflexivity.
    + vm_compute. reflexivity.
    + vm_compute. reflexivity.
    + vm_compute. reflexivity.
    + vm_compute. reflexivity.
  - apply (Hset sample_token MDStatusLocked [] []
             (StateTransitionError MDStatusUnvetted MDStatusLocked) recorded_world).
    + unfold has_branch. apply (bool_decide_eq_true_1 _). vm_compute. reflexivity.
    + vm_compute. reflexivity.
    + vm_compute. reflexivity.
    + vm_compute. reflexivity.
Defined.
(** * The Merkle root of a record *)

Lemma bytes_leb_refl (a : list byte) : bytes_leb a a = true.
Proof.
  induction a as [|x a IH]; [done|]. cbn.
  rewrite N.ltb_irrefl, N.eqb_refl. exact IH.
Qed.

Lemma bytes_leb_total (a b : list byte) : bytes_leb a b = true ∨ bytes_leb b a = true.
Proof.
  revert b. induction a as [|x a IH]; intros [|y b]; cbn; auto.
  destruct (N.ltb_spec (Byte.to_N x) (Byte.to_N y)) as [Hlt|Hge]; [by left|].
  destruct (N.ltb_spec (Byte.to_N y) (Byte.to_N x)) as [Hlt'|Hge']; [by right|].
  assert (Byte.to_N x = Byte.to_N y) as Heq by lia.
  rewrite Heq, N.eqb_refl. apply IH.
Qed.

Lemma bytes_leb_antisym (a b : list byte) :
  bytes_leb a b = true → bytes_leb b a = true → a = b.
Proof.
  revert b. induction a as [|x a IH]; intros [|y b]; cbn; try done.
  destruct (N.ltb_spec (Byte.to_N x) (Byte.to_N y)) as [Hlt|Hge].
  { intros _. destruct (N.ltb_spec (Byte.to_N y) (Byte.to_N x)); [lia|].
    destruct (N.eqb_spec (Byte.to_N y) (Byte.to_N x)); [lia|done]. }
  destruct (N.eqb_spec (Byte.to_N x) (Byte.to_N y)) as [Heq|]; [|done].
  rewrite Heq, N.ltb_irrefl, N.eqb_refl. intros Hab Hba.
  f_equal; [|by apply IH].
  assert (Byte.of_N (Byte.to_N x) = Byte.of_N (Byte.to_N y)) as Hof by (by rewrite Heq).
  rewrite !Byte.of_to_N in Hof. by injection Hof.
Qed.

Lemma bytes_leb_trans (a b c : list byte) :
  bytes_leb a b = true → bytes_leb b c = true → bytes_leb a c = true.
Proof.
  revert b c. induction a as [|x a IH]; intros [|y b] [|z c]; cbn; try done.
  destruct (N.ltb_spec (Byte.to_N x) (Byte.to_N y)) as [Hxy|Hxy].
  - intros _.
    destruct (N.ltb_spec (Byte.to_N y) (Byte.to_N z)) as [Hyz|Hyz].
    + intros _. destruct (N.ltb_spec (Byte.to_N x) (Byte.to_N z)); [done|lia].
    + destruct (N.eqb_spec (Byte.to_N y) (Byte.to_N z)) as [Heq|]; [|done].
      intros _. destruct (N.ltb_spec (Byte.to_N x) (Byte.to_N z)); [done|lia].
  - destruct (N.eqb_spec (Byte.to_N x) (Byte.to_N y)) as [Heq|]; [|done].
    rewrite Heq. intros Hab.
    destruct (N.ltb_spec (Byte.to_N y) (Byte.to_N z)) as [Hyz|Hyz]; [done|].
    destruct (N.eqb_spec (Byte.to_N y) (Byte.to_N z)) as [Heq'|]; [|done].
    by apply IH.
Qed.

#[global] Instance bytes_le_total : Total bytes_le.
Proof. intros a b. apply bytes_leb_total. Qed.

#[global] Instance bytes_le_trans : Transitive bytes_le.
Proof. intros a b c. apply bytes_leb_trans. Qed.

#[global] Instance bytes_le_antisym : AntiSymm (=) bytes_le.
Proof. intros a b. apply bytes_leb_antisym. Qed.

(** The canonical order does not depend on the order the digests come
    in. *)
Lemma sort_digests_Permutation (l1 l2 : list (list byte)) :
  l1 ≡ₚ l2 → sort_digests l1 = sort_digests l2.
Proof.
  intros Hp. unfold sort_digests.
  apply (Sorted_unique bytes_le); try apply (Sorted_merge_sort bytes_le).
  by rewrite !merge_sort_Permutation.
Qed.

Lemma strip_prefix_app_both (s a b : string) :
  strip_prefix (s +:+ a) (s +:+ b) = strip_prefix a b.
Proof. induction s as [|x s IH]; [done|]. rewrite !append_cons. cbn. by rewrite decide_True. Qed.

Lemma dir_entry_payload_record_metadata (id : string) :
  dir_entry (Join id defaultPayloadDir) (Join id defaultRecordMetadataFilename) = None.
Proof.
  unfold dir_entry, Join. rewrite !append_assoc, strip_prefix_app_both. reflexivity.
Qed.

Lemma Sprintf_02v_digit (n : N) :
  ∃ c s, Sprintf_02v n = String c s ∧ is_Some (digit_of c).
Proof.
  unfold Sprintf_02v. destruct (n <? 10).
  { exists "0"%char, (pretty n). split; [by rewrite append_cons, append_nil|]. by eexists. }
  pose proof (parse_digits_pretty n) as Hp. pose proof (pretty_N_nonempty n) as Hne.
  destruct (pretty n) as [|c s]; [done|]. exists c, s. split; [done|].
  cbn [parse_digits] in Hp. destruct (digit_of c); [eauto|done].
Qed.

Lemma dir_entry_payload_md_filename (id : string) (m : MetadataStream) :
  dir_entry (Join id defaultPayloadDir) (md_filename id m) = None.
Proof.
  unfold dir_entry, md_filename, Join. rewrite !append_assoc, strip_prefix_app_both.
  destruct (Sprintf_02v_digit (ms_ID m)) as (c & s & -> & [d Hd]).
  unfold defaultPayloadDir. rewrite !append_cons, !append_nil. cbn [strip_prefix].
  rewrite decide_True by done.
  destruct (decide ("p"%char = c)) as [<-|]; [|done]. by vm_compute in Hd.
Qed.

Lemma Join_inj (dir a b : string) : Join dir a = Join dir b → a = b.
Proof. unfold Join. intros He. by do 2 apply append_inv_head in He. Qed.

Lemma write_files_lookup (dir : string) (fa : list file) (t : tree) (f : file) :
  NoDup (name <$> fa) → f ∈ fa →
  write_files dir fa t !! Join dir (name f) = Some (payload f).
Proof.
  revert t. induction fa as [|g fa IH]; intros t Hnd Hf; [by apply elem_of_nil in Hf|].
  cbn [fmap list_fmap] in Hnd. apply NoDup_cons in Hnd as [Hg Hnd].
  change (write_files dir (g :: fa) t)
    with (write_files dir fa (<[Join dir (name g) := payload g]> t)).
  destruct (decide (f ∈ fa)) as [Hin|Hnin]; [by apply IH|].
  apply elem_of_cons in Hf as [->|]; [|done].
  clear IH Hnin. revert t. induction fa as [|h fa IH]; intros t.
  { cbn. apply lookup_insert_eq. }
  change (write_files dir (h :: fa) (<[Join dir (name g) := payload g]> t))
    with (write_files dir fa (<[Join dir (name h) := payload h]>
                                (<[Join dir (name g) := payload g]> t))).
  cbn [fmap list_fmap] in Hg, Hnd. apply not_elem_of_cons in Hg as [Hgh Hg].
  apply NoDup_cons in Hnd as [_ Hnd].
  rewrite insert_insert_ne by (intros He; by apply Join_inj in He).
  by apply IH.
Qed.

Lemma write_files_is_Some (dir : string) (fa : list file) (t : tree) (path : string) :
  is_Some (write_files dir fa t !! path) ↔
  is_Some (t !! path) ∨ ∃ f, f ∈ fa ∧ path = Join dir (name f).
Proof.
  revert t. induction fa as [|g fa IH]; intros t.
  { cbn. split; [by left|]. intros [?|(f & Hf & _)]; [done|by apply elem_of_nil in Hf]. }
  change (write_files dir (g :: fa) t)
    with (write_files dir fa (<[Join dir (name g) := payload g]> t)).
  rewrite IH, lookup_insert_is_Some'. split.
  - intros [[<-|?]|(f & Hf & ->)]; [right|by left|right].
    + exists g. split; [left|done].
    + exists f. split; [by right|done].
  - intros [?|(f & Hf & ->)]; [by left; right|].
    apply elem_of_cons in Hf as [->|Hf]; [by left; left|]. right. eauto.
Qed.

Section Merkle.
Context `{Library}.

(** The SHA-256 digests of the files that the payload directory of a
    record holds in a tree, in the order of the directory. *)
Definition payload_digests (t : tree) (id : string) : list (list byte) :=
  (λ v, util_Digest (default [] (t !! Join (Join id defaultPayloadDir) (fi_Name v))))
    <$> dir_entries t (Join id defaultPayloadDir).

Lemma payload_digests_Permutation (t1 t2 : tree) (id : string) :
  (∀ path, is_Some (dir_entry (Join id defaultPayloadDir) path) → t1 !! path = t2 !! path) →
  payload_digests t1 id ≡ₚ payload_digests t2 id.
Proof.
  intros Hsame. unfold payload_digests.
  rewrite (list_fmap_ext _
             (λ v, util_Digest (default [] (t2 !! Join (Join id defaultPayloadDir) (fi_Name v))))
             (dir_entries t1 _)).
  2: { intros i v _. cbn. rewrite Hsame; [done|apply dir_entry_is_Some]. }
  apply fmap_Permutation, dir_entries_Permutation. intros path Hp. by rewrite Hsame.
Qed.

Lemma copy_digest (b : list byte) :
  copy (zero_bytes sha256_Size) (util_Digest b) = util_Digest b.
Proof.
  unfold util_Digest.
  rewrite copy_zero_take by (rewrite sha256_length; done).
  apply take_ge. by rewrite sha256_length.
Qed.

Lemma payload_digests_written (id : string) (fa : list file) (t0 : tree) :
  NoDup (name <$> fa) → Forall (λ f, plain_name (name f)) fa →
  dir_entries t0 (Join id defaultPayloadDir) = [] →
  payload_digests (write_files (Join id defaultPayloadDir) fa t0) id ≡ₚ
    (λ f, util_Digest (payload f)) <$> fa.
Proof.
  intros Hnd Hplain Hempty. unfold payload_digests.
  set (ppath := Join id defaultPayloadDir) in *.
  assert (dir_entries (write_files ppath fa t0) ppath ≡ₚ
            (λ f, mkFileInfo (name f) false) <$> fa) as Hent.
  { apply NoDup_Permutation; [apply NoDup_dir_entries| |].
    - rewrite (list_fmap_compose name (λ n, mkFileInfo n false)).
      apply NoDup_fmap_2; [|done]. by intros a b [= ->].
    - intros fi. rewrite elem_of_dir_entries, list_elem_of_fmap. split.
      + intros (path & Hsome & Hd).
        apply write_files_is_Some in Hsome as [Ht0|(f & Hf & ->)].
        * exfalso. assert (fi ∈ dir_entries t0 ppath) as Hin
            by (apply elem_of_dir_entries; eauto).
          rewrite Hempty in Hin. by apply elem_of_nil in Hin.
        * exists f. rewrite Forall_forall in Hplain.
          rewrite dir_entry_Join in Hd by auto. by injection Hd as <-.
      + intros (f & -> & Hf). exists (Join ppath (name f)). split.
        * apply write_files_is_Some. right. eauto.
        * rewrite Forall_forall in Hplain. apply dir_entry_Join. auto. }
  rewrite Hent, <-list_fmap_compose.
  rewrite (list_fmap_ext _ (λ f, util_Digest (payload f)) fa); [done|].
  intros i f Hi. cbn. rewrite write_files_lookup; [done|done|].
  by eapply list_elem_of_lookup_2.
Qed.

Lemma verifyContent_cooked (metadata : list MetadataStream) (files : list File)
    (filesDel : list string) (fa : list file) :
  verifyContent metadata files filesDel = Ok fa →
  NoDup (name <$> fa) ∧ Forall (λ c, digest c = util_Digest (payload c)) fa.
Proof.
  unfold verifyContent.
  destruct (find _ metadata); [done|].
  destruct (first_duplicate [] (ms_ID <$> metadata)); [done|].
  destruct (find _ files); [done|].
  destruct (find _ filesDel); [done|].
  case_bool_decide; [done|].
  destruct (first_name_clash [] (f_Name <$> files) filesDel) eqn:Hclash; [done|].
  intros Hcook%cook_files_ok.
  apply first_name_clash_none in Hclash as (Hnd & _ & _).
  split.
  - replace (name <$> fa) with (f_Name <$> files); [done|].
    clear -Hcook. induction Hcook as [|f c files fa Hc _ IH]; [done|].
    cbn. destruct Hc as [-> _]. by rewrite IH.
  - clear -Hcook. induction Hcook as [|f c files fa Hc _ IH]; constructor; [|done].
    by destruct Hc as (_ & _ & _ & -> & _).
Qed.

(** C3: the Merkle root of a record is the one of its payload.  The
    RecordMetadata that New and a successful UpdateUnvettedRecord
    return is the one stored in recordmetadata.json of the commit they
    add to the branch of the record, and its merkle field is the
    Merkle tree over the SHA-256 digests of the files that the payload
    directory of that commit holds, sorted: New computes it from the
    digests of the validated input files, which are the digests of the
    payloads it writes; the update recomputes it over the files that
    the payload directory holds after the writes and deletions.  The
    sorted list is in ascending order of bytes.Compare, has the
    digests it was given, and is the same for every order they come
    in.  (No external call fails, the staging tier sits clean on
    master in step with the publication tier; for New the token is
    fresh and the file names have no slash.) *)
Theorem merkle_root_of_payload :
  (∀ (metadata : list MetadataStream) (files : list File) (fa : list file)
     (token : list byte) (rest : list (list byte)) (w : world) (mlog : list commit),
     let id := EncodeToString token in
     let mdpath := Join id defaultRecordMetadataFilename in
     w_faults w = [] → w_locked w = false → shutdown w = false →
     verifyContent metadata files [] = Ok fa →
     w_random w = token :: rest → length token = TokenSize →
     in_step (w_unvetted w) (w_vetted w) mlog →
     r_branches (w_unvetted w) !! id = None →
     branch_tree mlog !! mdpath = None →
     dir_entries (branch_tree mlog) (Join id defaultPayloadDir) = [] →
     Forall (λ c, plain_name (name c)) fa →
     ∃ w' brm c,
       New metadata files w = (Ok brm, w') ∧
       r_branches (w_unvetted w') !! id = Some (c :: mlog) ∧
       c_tree c !! mdpath = Some (json_RecordMetadata brm) ∧
       Merkle brm = merkle_tree (sort_digests (payload_digests (c_tree c) id)) ∧
       payload_digests (c_tree c) id ≡ₚ (λ f, util_Digest (payload f)) <$> fa ∧
       Merkle brm = merkle_Root (digest <$> fa)) ∧
  (∀ (token : list byte) (mdAppend mdOverwrite : list MetadataStream)
     (filesAdd : list File) (filesDel : list string) (fa : list file) (w : world)
     (mlog log : list commit) (b : list byte) (brm0 : RecordMetadata) (t1 : tree),
     let id := EncodeToString token in
     let ppath := Join id defaultPayloadDir in
     let mdpath := Join id defaultRecordMetadataFilename in
     let t := branch_tree log in
     length token = 32%nat →
     w_faults w = [] → w_locked w = false → shutdown w = false →
     in_step (w_unvetted w) (w_vetted w) mlog →
     verifyContent_allow_empty (mdAppend ++ mdOverwrite) filesAdd filesDel = Ok fa →
     r_branches (w_unvetted w) !! id = Some log →
     t !! mdpath = Some b →
     unjson_RecordMetadata b = Some brm0 → updatable (Status brm0) = true →
     Forall (λ v, is_Some (t !! Join ppath v)) filesDel →
     updated_tree id fa filesDel mdAppend mdOverwrite t = Some t1 →
     t1 ≠ t →
     dir_entries t1 ppath ≠ [] →
     Forall (λ v, is_Some (t1 !! Join ppath (fi_Name v))) (dir_entries t1 ppath) →
     ∃ w' brm c,
       UpdateUnvettedRecord token mdAppend mdOverwrite filesAdd filesDel w = (Ok brm, w') ∧
       r_branches (w_unvetted w') !! id = Some (c :: log) ∧
       c_tree c !! mdpath = Some (json_RecordMetadata brm) ∧
       Merkle brm = merkle_tree (sort_digests (payload_digests (c_tree c) id)) ∧
       payload_digests (c_tree c) id ≡ₚ payload_digests t1 id) ∧
  (∀ l : list (list byte),
     Sorted bytes_le (sort_digests l) ∧ sort_digests l ≡ₚ l ∧
     ∀ l', l ≡ₚ l' → sort_digests l = sort_digests l').
Proof.
  split_and!.
  - intros metadata files fa token rest w mlog id mdpath Hf Hl Hsd Hverify Hrandom Hlen
      Hstep Hnone Hfresh Hempty Hplain.
    destruct (New_run metadata files fa token rest w mlog)
      as (w' & Hrun & Hu & _); try done.
    destruct (verifyContent_cooked _ _ _ _ Hverify) as [Hnd Hdig].
    eexists w', _, _. split; [exact Hrun|]. rewrite Hu. cbn [r_branches].
    split; [apply lookup_insert_eq|]. cbn [c_tree Merkle].
    split; [apply lookup_insert_eq|].
    match goal with
    | |- context [payload_digests ?t id] =>
        assert (payload_digests t id ≡ₚ (λ f, util_Digest (payload f)) <$> fa) as Hp
    end.
    { etrans; [|by apply payload_digests_written].
      apply payload_digests_Permutation. intros path Hpath.
      rewrite lookup_insert_ne.
      2: { intros <-. fold id in Hpath. rewrite dir_entry_payload_record_metadata in Hpath.
           by destruct Hpath. }
      apply overwrite_streams_other. intros m <-.
      rewrite dir_entry_payload_md_filename in Hpath. by destruct Hpath. }
    assert ((λ f, copy (zero_bytes sha256_Size) (digest f)) <$> fa =
              (λ f, util_Digest (payload f)) <$> fa) as Hhashes.
    { apply list_fmap_ext. intros i f Hi. cbn.
      rewrite Forall_forall in Hdig. rewrite (Hdig f) by (by eapply list_elem_of_lookup_2).
      apply copy_digest. }
    split_and!.
    + rewrite (sort_digests_Permutation _ _ Hp). unfold merkle_Root. by rewrite Hhashes.
    + exact Hp.
    + unfold merkle_Root. f_equal. rewrite Hhashes. f_equal.
      apply list_fmap_ext. intros i f Hi. cbn.
      rewrite Forall_forall in Hdig. symmetry. apply Hdig. by eapply list_elem_of_lookup_2.
  - intros token mdAppend mdOverwrite filesAdd filesDel fa w mlog log b brm0 t1 id ppath
      mdpath t Hlen Hf Hl Hsd Hstep Hfa Hbr Hb Hj Hup Hdel Hupd Hchange Hne Hflat.
    destruct (UpdateUnvettedRecord_run token mdAppend mdOverwrite filesAdd filesDel fa w
                mlog log b brm0 t1) as (w' & Hrun & Hu & _); try done.
    eexists w', _, _. split; [exact Hrun|]. rewrite Hu. cbn [r_branches].
    split; [apply lookup_insert_eq|]. cbn [c_tree Merkle].
    split; [apply lookup_insert_eq|].
    match goal with
    | |- context [payload_digests ?t id] =>
        assert (payload_digests t id ≡ₚ payload_digests t1 id) as Hp
    end.
    { apply payload_digests_Permutation. intros path Hpath.
      apply lookup_insert_ne. intros <-. fold id in Hpath.
      rewrite dir_entry_payload_record_metadata in Hpath. by destruct Hpath. }
    split; [|exact Hp].
    rewrite (sort_digests_Permutation _ _ Hp). unfold merkle_Root. f_equal.
    f_equal. unfold payload_digests. apply list_fmap_ext. intros i v Hi. cbn.
    apply copy_digest.
  - intros l. split_and!.
    + apply (Sorted_merge_sort bytes_le).
    + apply merge_sort_Permutation.
    + apply sort_digests_Permutation.
Qed.
End Merkle.

Lemma merkle_root_of_payload_witness :
  (∃ w' brm c,
     @New sample_library [sample_metadata] [sample_file] (initial_world nil [sample_token]) =
       (Ok brm, w') ∧
     r_branches (w_unvetted w') !! EncodeToString sample_token = Some (c :: [initial_commit]) ∧
     c_tree c !! Join (EncodeToString sample_token) defaultRecordMetadataFilename =
       Some (@json_RecordMetadata sample_library brm) ∧
     Merkle brm =
       @merkle_tree sample_library
         (sort_digests (@payload_digests sample_library (c_tree c)
                          (EncodeToString sample_token))) ∧
     @payload_digests sample_library (c_tree c) (EncodeToString sample_token) ≡ₚ
       (λ f, @util_Digest sample_library (payload f)) <$>
         [mkfile "a.txt" (take 32 (bytes_of_string "x" ++ zero_bytes 32))
            (bytes_of_string "x")] ∧
     Merkle brm =
       @merkle_Root sample_library
         (digest <$> [mkfile "a.txt" (take 32 (bytes_of_string "x" ++ zero_bytes 32))
                        (bytes_of_string "x")])) ∧
  (∃ w' brm c,
     @UpdateUnvettedRecord sample_library sample_token [] [] [sample_file_b] []
       recorded_world = (Ok brm, w') ∧
     r_branches (w_unvetted w') !! EncodeToString sample_token = Some (c :: recorded_log) ∧
     c_tree c !! Join (EncodeToString sample_token) defaultRecordMetadataFilename =
       Some (@json_RecordMetadata sample_library brm) ∧
     Merkle brm =
       @merkle_tree sample_library
         (sort_digests (@payload_digests sample_library (c_tree c)
                          (EncodeToString sample_token))) ∧
     @payload_digests sample_library (c_tree c) (EncodeToString sample_token) ≡ₚ
       @payload_digests sample_library
         (write_files (Join (EncodeToString sample_token) defaultPayloadDir)
            [mkfile "b.txt" (take 32 (bytes_of_string "x" ++ zero_bytes 32))
               (bytes_of_string "x")]
            (branch_tree recorded_log))
         (EncodeToString sample_token)).
Proof.
  destruct (@merkle_root_of_payload sample_library) as (Hnew & Hupd & _).
  split.
  - apply (Hnew [sample_metadata] [sample_file] _ sample_token []
             (initial_world nil [sample_token]) [initial_commit]).
    + reflexivity.
    + reflexivity.
    + reflexivity.
    + vm_compute. reflexivity.
    + reflexivity.
    + reflexivity.
    + apply (bool_decide_eq_true_1 _); vm_compute; reflexivity.
    + apply (bool_decide_eq_true_1 _); vm_compute; reflexivity.
    + apply (bool_decide_eq_true_1 _); vm_compute; reflexivity.
    + apply (bool_decide_eq_true_1 _); vm_compute; reflexivity.
    + constructor; [|constructor]. unfold plain_name.
      apply (bool_decide_eq_true_1 _); vm_compute; reflexivity.
  - apply (Hupd sample_token [] [] [sample_file_b] []
             [mkfile "b.txt" (take 32 (bytes_of_string "x" ++ zero_bytes 32))
                (bytes_of_string "x")]
             recorded_world [initial_commit] recorded_log
             (@json_RecordMetadata sample_library recorded_metadata) recorded_metadata).
    + reflexivity.
    + reflexivity.
    + reflexivity.
    + reflexivity.
    + apply (bool_decide_eq_true_1 _); vm_compute; reflexivity.
    + vm_compute. reflexivity.
    + apply (bool_decide_eq_true_1 _); vm_compute; reflexivity.
    + vm_compute. reflexivity.
    + vm_compute. reflexivity.
    + reflexivity.
    + constructor.
    + apply (bool_decide_eq_true_1 _); vm_compute; reflexivity.
    + apply (bool_decide_eq_true_1 _); vm_compute; reflexivity.
    + vm_compute. discriminate.
    + replace (dir_entries
                 (write_files (Join (EncodeToString sample_token) defaultPayloadDir)
                    [mkfile "b.txt" (take 32 (bytes_of_string "x" ++ zero_bytes 32))
                       (bytes_of_string "x")]
                    (branch_tree recorded_log))
                 (Join (EncodeToString sample_token) defaultPayloadDir))
        with [mkFileInfo "a.txt" false; mkFileInfo "b.txt" false]
        by (vm_compute; reflexivity).
      constructor; [|constructor; [|constructor]]; eexists; vm_compute; reflexivity.
Defined.
